(* ===== verification/_CoqProject ===== *)
-Q . S2P
Prelude.v
Status.v
Coding.v
Bloom.v
Crc32cTables.v
Crc32c.v
Comparator.v
FileName.v
Files.v
PosixEnv.v
PosixSpec.v
PosixSched.v
MemEnv.v
Log.v
LogSpec.v
LogSafe.v
DbFormat.v
VersionEdit.v
Version.v
VersionSpec.v
Random.v
Arena.v
SkipList.v
SkipListSpec.v
Iterator.v
MemTable.v
WriteBatch.v
DbIter.v
DbIterSpec.v
DbWrite.v
DbWriteSpec.v
DbRecover.v
DbRecoverSpec.v
DbProps.v
Merger.v
MergerSpec.v
Block.v
BlockSpec.v
FilterBlock.v
TableFormat.v
TwoLevel.v
TableBuilder.v
Table.v
DbTables.v
DbCompact.v
TableSpec.v
TableReadSpec.v
Cache.v
CacheSpec.v
CacheBlocks.v
TableProps.v
DbTablesSpec.v
DbCompactSpec.v
NvmTable.v
Hashing.v
Cuckoo.v
CuckooRehash.v
FFPage.v
FFEntries.v
FFBtree.v
FFPageSpec.v
FFLevels.v
FFTree.v
KeyTree.v
MultiCuckoo.v
MultiCuckooSpec.v
