(* ===== verification/Prelude.v ===== *)
(** * MCF-KV: a verification development

    MCF-KV is a key-value store derived from LevelDB.  Updates go to a
    write-ahead log and to a memtable; a full memtable is flushed to a table
    file; table files are not arranged in levels but found through a global
    index in persistent memory, which maps a key to the number of the file
    that holds its newest value; files that overlap are merged by compactions.
    This library models the store in Gallina, component by component, and
    proves what each component promises to the ones that use it.

    ** The program and the files

    The index, [src/multi-cuckoo-index], is an array of cuckoo filters and an
    ordered tree for the keys whose fingerprint is taken:
    - [NvmTable.v], [Hashing.v], [Cuckoo.v]: the bucket array
      ([nvmsingletable.h]), the hash ([util/hashutil.h]) and the filter
      ([cuckoo.cc]); [CuckooRehash.v]: what a rehash keeps;
    - [FFPage.v], [FFBtree.v]: pages and operations of the FAST-FAIR B+-tree
      ([ff_btreee.h], [ff_btreee.cc]), on a heap of pages; [FFEntries.v],
      [FFPageSpec.v], [FFLevels.v], [FFTree.v]: the sorted lists, the pages, the
      shape of a tree, and that it is a map;
    - [KeyTree.v]: the interface (a class with its laws) through which the
      index uses the tree, and the FAST-FAIR tree as an instance;
    - [MultiCuckoo.v], [MultiCuckooSpec.v]: the index
      ([multi_cuckoo_index.cc]) with its background thread and rehash threads
      as steps, and its refinement of a finite map.

    Files, [include/leveldb/env.h]:
    - [Files.v]: the interfaces of writable, sequential and random-access files
      as classes, with the contracts that logs and tables rely on;
    - [MemEnv.v]: the in-memory environment ([helpers/memenv/memenv.cc]), an
      instance, and its refinement of a map from names to byte strings;
    - [PosixEnv.v], [PosixSpec.v], [PosixSched.v]: the POSIX environment
      ([util/env_posix.cc]) over a class of system calls, its files as an
      instance, and its background thread as a transition system;
    - [FileName.v]: names of files ([db/filename.cc], [util/logging.cc]).

    Encodings and helpers: [Status.v] ([util/status.cc]), [Coding.v]
    ([util/coding.cc]), [Bloom.v] ([util/bloom.cc], [util/hash.cc]),
    [Crc32cTables.v] and [Crc32c.v] ([util/crc32c.cc]), [Comparator.v]
    ([util/comparator.cc]), [Random.v] ([util/random.h]), [Arena.v]
    ([util/arena.cc]), [Cache.v], [CacheSpec.v] and [CacheBlocks.v]
    ([util/cache.cc]).

    Logs and versions:
    - [Log.v], [LogSpec.v], [LogSafe.v]: [db/log_writer.cc] and
      [db/log_reader.cc], recovery from a truncated log, and reading of
      arbitrary files;
    - [DbFormat.v], [VersionEdit.v]: internal keys ([db/dbformat.cc]) and the
      records of the descriptor ([db/version_edit.cc]);
    - [Version.v], [VersionSpec.v]: versions and [VersionControl]
      ([db/version.cc], [db/version_control.cc]) with the choice of merge
      candidates, [LogAndApply] and the recovery of the descriptor.

    Memtables and tables:
    - [SkipList.v], [SkipListSpec.v], [MemTable.v], [WriteBatch.v]:
      [db/skiplist.h], [db/memtable.cc], [db/write_batch.cc];
    - [Iterator.v]: the interface of iterators as a class and its contract, the
      position in a list of entries; [Merger.v], [MergerSpec.v], [TwoLevel.v]:
      [table/merger.cc] and [table/two_level_iterator.cc], clients and
      instances of it;
    - [Block.v], [BlockSpec.v], [FilterBlock.v], [TableFormat.v],
      [TableBuilder.v], [Table.v]: [src/table]; [TableSpec.v],
      [TableReadSpec.v], [TableProps.v]: what a builder writes, a table reads.

    The engine, [db/db_impl.cc]:
    - [DbIter.v], [DbIterSpec.v]: the iterator of users ([db/db_iter.cc]);
    - [DbWrite.v], [DbWriteSpec.v]: writers with their queue and groups,
      [MakeRoomForWrite], [Get], and runs of them as a step relation; the
      tables below are behind the class [Levels] with the laws [LevelsSpec];
    - [DbRecover.v], [DbRecoverSpec.v]: the replay of logs; [DbProps.v]: the
      theorems on runs and recovery, and an instance of [Levels];
    - [DbTables.v], [DbTablesSpec.v]: [db/builder.cc], [db/table_cache.cc] and
      [Version::Get];
    - [DbCompact.v], [DbCompactSpec.v]: compactions.

    ** Conventions

    A byte string is a list of bytes.  Integers are in [Z]; where the code
    uses a machine width the model reduces with [u8], [u16], [u32], [u64] or
    [i32] at the place where the code converts or may wrap.  [None] is what the
    source leaves undefined: an access out of bounds or through a null pointer,
    a division by zero, an uninitialised value; and a loop that runs out of
    fuel.  A theorem that an operation gives [Some] thus says that it returns
    and stays within bounds.  Errors are values of [Status].  Pointers to
    shared mutable objects are addresses in a [gmap].  Assertions are compiled
    out ([NDEBUG]).

    What is not in the repository, or not determined by it, is an argument:
    memory and page allocation, random draws and hash seeds, addresses (on
    which the checksum's alignment depends), the order in which an
    [unordered_map] is visited, [double] arithmetic, system calls, the
    compression library and the accelerated checksum.  Their documented
    behaviour is stated in classes ([CrcPortSpec], [SnappyPortSpec], the laws
    of the system calls in [PosixSpec.v]) or as named hypotheses; every such
    theorem has a witness with concrete arguments.

    ** The theorems

    - Refinement.  The index is a map in every reachable state of its threads
      ([MultiCuckooSpec.v]), so are the tree ([KeyTree.v]) and the in-memory
      environment; a skip list is a sorted list, a memtable answers with the
      newest entry; the iterators visit the lists their contracts name; the
      database reads the map of the updates that were acknowledged, in every
      interleaving ([DbProps.v]).
    - Composition of flush and compaction.  A flushed memtable answers as
      before ([DbTablesSpec.v]); the outputs of a compaction answer, for the
      keys the index gives them, as the inputs did ([DbCompactSpec.v]).
    - Round trips.  Status, varints, edits, file names, batches, blocks,
      tables, POSIX files, logs under truncation, the descriptor, the database
      after a crash that cuts its log.
    - Invariants and safety.  Arena ranges are disjoint, the cache frees
      nothing that is held, versions stay well formed, filters have no false
      negatives, the background thread loses nothing it was given.
    - Equivalence.  The table-driven checksum is the bitwise CRC-32C.
    - Termination.  The log reader returns on every file; the loops of the
      other operations return in the theorems on them.
    - Error behaviour.  Keys that an eviction makes unfindable, lengths that
      wrap in a block entry, files that come back when a descriptor is
      recovered, a lock that is lost by a second attempt: the code as it is,
      stated as theorems.

    ** Fuel

    Loops that are not structural take fuel.  The theorems ask for fuel above
    a measure that the caller knows: the number of entries of an iterator or
    of a memtable, the length of a file, the number of records of a log.  The
    loops of the index have the bounds of the code itself ([kMaxCuckoo]
    evictions, the slots of a table, the records of a page).

    ** Not modelled

    - Opening and closing a database, properties, [DeleteObsoleteFiles],
      [BackgroundCall] and the statistics of [db_impl.cc]: options and calls
      that order the operations modelled here.  [CompactMemTable] is modelled
      over [Levels]; the instance of [Levels] keeps its tables in memory, and
      the flush, the versions and the compactions of table files have theorems
      of their own.
    - Memory reclamation by reference counts of memtables and versions, the
      destructors of iterators, and the memory-order annotations for readers
      that run beside a writer of a skip list or of a page.
    - [RangeIterator] of [merger.cc], [TryToPick] and [Version::Evict], which
      nothing calls; [AddIterators] and hence the iterator over all files,
      which indexes maps by position.
    - The older B-tree under [src/index], the persistent allocator behind
      [pmalloc], the C binding, repair, dumping, and the benchmarks: code that
      the engine does not depend on, or input and output only. *)

From stdpp Require Export base gmap list list_numbers numbers sorting.
From coqutil Require Export Byte Word.LittleEndianList.
From coqutil Require Import Z.bitblast.
From Stdlib Require Export Permutation ZArith Lia.

#[global] Open Scope Z_scope.

(** ** Machine-width integers *)

Definition u8 (x : Z) : Z := x mod 2 ^ 8.
Definition u16 (x : Z) : Z := x mod 2 ^ 16.
Definition u32 (x : Z) : Z := x mod 2 ^ 32.
Definition u64 (x : Z) : Z := x mod 2 ^ 64.
Definition i32 (x : Z) : Z := (x + 2 ^ 31) mod 2 ^ 32 - 2 ^ 31.

Lemma land_mask_mod (x k : Z) : 0 <= k -> Z.land x (2 ^ k - 1) = x mod 2 ^ k.
Proof. intros Hk. rewrite <- Z.land_ones by lia. f_equal. rewrite Z.ones_equiv. lia. Qed.

Lemma lxor_mod_pow2 (a b k : Z) :
  0 <= k -> Z.lxor a b mod 2 ^ k = Z.lxor (a mod 2 ^ k) (b mod 2 ^ k).
Proof. intros Hk. Z.bitblast. Qed.

(** A word glued from a high part and a low part of [k] bits. *)
Lemma lor_shiftl_add (a b k : Z) :
  0 <= k -> 0 <= b < 2 ^ k -> Z.lor (Z.shiftl a k) b = a * 2 ^ k + b.
Proof.
  intros Hk Hb. assert (Z.land (Z.shiftl a k) b = 0) as Hd.
  { apply Z.bits_inj'. intros n Hn. rewrite Z.land_spec, Z.shiftl_spec, Z.bits_0 by lia.
    destruct (Z.lt_ge_cases n k).
    - by rewrite (Z.testbit_neg_r _ (n - k)) by lia.
    - replace b with (b mod 2 ^ k) by (apply Z.mod_small; lia).
      rewrite Z.mod_pow2_bits_high by lia. apply andb_false_r. }
  rewrite <- Z.shiftl_mul_pow2, Z.add_nocarry_lxor, Z.lxor_lor by done. done.
Qed.

(** A byte read as a signed [char]. *)
Definition signed_char (c : Byte.byte) : Z :=
  let v := byte.unsigned c in if v <? 128 then v else v - 256.

#[export] Instance byte_eq_dec : EqDecision Byte.byte := Byte.byte_eq_dec.
#[export] Instance byte_countable : Countable Byte.byte :=
  inj_countable' byte.unsigned byte.of_Z byte.of_Z_unsigned.

(** ** Loops with an early return

    [for_ret js body] is a C [for] over [js] whose body may [return]: the
    result is [None] on an access out of bounds, [Some (Some a)] when some
    iteration returned [a], [Some None] when the loop ran to its end. *)
Fixpoint for_ret {A} (js : list Z) (body : Z -> option (option A)) : option (option A) :=
  match js with
  | [] => Some None
  | j :: js' =>
      r ← body j;
      match r with
      | Some a => Some (Some a)
      | None => for_ret js' body
      end
  end.

Lemma for_ret_total {A} (js : list Z) (body : Z -> option (option A)) :
  (forall j, j ∈ js -> is_Some (body j)) -> is_Some (for_ret js body).
Proof.
  induction js as [|j js IH]; simpl; intros Hb; [by eexists|].
  destruct (Hb j) as [r Hr]; [set_solver|]. rewrite Hr; simpl.
  destruct r; [by eexists|]. apply IH. set_solver.
Qed.

Lemma for_ret_some {A} (js : list Z) (body : Z -> option (option A)) (a : A) :
  for_ret js body = Some (Some a) -> exists j, j ∈ js /\ body j = Some (Some a).
Proof.
  induction js as [|j js IH]; simpl; [done|].
  destruct (body j) as [[r|]|] eqn:E; simpl; [|intros H|done].
  - intros [= ->]. exists j. set_solver.
  - destruct (IH H) as (j' & ? & ?). exists j'. set_solver.
Qed.

Lemma for_ret_none {A} (js : list Z) (body : Z -> option (option A)) :
  for_ret js body = Some None <-> forall j, j ∈ js -> body j = Some None.
Proof.
  induction js as [|j js IH]; simpl; [set_solver|].
  destruct (body j) as [[r|]|] eqn:E; simpl.
  - split; [done|]. intros H. specialize (H j). set_solver.
  - rewrite IH. split; [|set_solver]. intros H j'. rewrite elem_of_cons.
    intros [->|?]; auto.
  - split; [done|]. intros H. specialize (H j). set_solver.
Qed.

(** ** Folds *)

Lemma fold_left_cons {A B} (f : A -> B -> A) (b : B) (l : list B) (a : A) :
  fold_left f (b :: l) a = fold_left f l (f a b).
Proof. done. Qed.

(** ** Permutations *)

Lemma perm_middle_change {A} (x y c c' l r : list A) :
  x ++ c' ≡ₚ y ++ c -> x ++ (l ++ c' ++ r) ≡ₚ y ++ (l ++ c ++ r).
Proof.
  intros H. rewrite (Permutation_app_swap_app x l), (Permutation_app_swap_app y l).
  apply Permutation_app_head. rewrite !app_assoc. by apply Permutation_app_tail.
Qed.

Lemma bind_app_perm {A B} (l : list A) (f g : A -> list B) :
  (a ← l; f a ++ g a) ≡ₚ (a ← l; f a) ++ (a ← l; g a).
Proof.
  induction l as [|a l IH]; [done|]. rewrite !bind_cons, IH.
  rewrite <- !app_assoc. apply Permutation_app_head, Permutation_app_swap_app.
Qed.

(** The order of two nested loops does not matter up to permutation. *)
Lemma bind_swap_perm {A B C} (l1 : list A) (l2 : list B) (f : A -> B -> list C) :
  (a ← l1; b ← l2; f a b) ≡ₚ (b ← l2; a ← l1; f a b).
Proof.
  induction l1 as [|a l1 IH]; simpl.
  - induction l2; simpl; done.
  - rewrite IH. symmetry. apply (bind_app_perm l2 (f a) (fun b => a ← l1; f a b)).
Qed.

Lemma NoDup_drop_middle {A} (l x r : list A) : NoDup (l ++ x ++ r) -> NoDup (l ++ r).
Proof. rewrite (Permutation_app_swap_app l x). intros (_ & _ & H)%NoDup_app. done. Qed.

Lemma bind_bind {A B C} (l : list A) (f : A -> list B) (g : B -> list C) :
  (l ≫= f) ≫= g = l ≫= (fun a => f a ≫= g).
Proof. induction l as [|a l IH]; [done|]. by rewrite !bind_cons, bind_app, IH. Qed.

(** Reading a list at all its indices in turn is reading its elements. *)
Lemma bind_seqZ_lookup {A B} (l : list A) (f : A -> list B) :
  (j ← seqZ 0 (Z.of_nat (length l)); match l !! Z.to_nat j with Some x => f x | None => [] end)
  = l ≫= f.
Proof.
  induction l as [|x l IH] using rev_ind; [done|].
  rewrite length_app, Nat.add_1_r, seqZ_S, !bind_app, <- IH. f_equal.
  - apply Forall_bind_ext, Forall_forall. intros j Hj%elem_of_seqZ.
    by rewrite lookup_app_l by lia.
  - rewrite !bind_singleton, Z.add_0_l, Nat2Z.id. by rewrite list_lookup_middle.
Qed.

(** ** Sorted lists *)

Lemma sorted_lookup {B} (R : B -> B -> Prop) (l : list B) (i j : nat) (a b : B) :
  StronglySorted R l -> (i < j)%nat -> l !! i = Some a -> l !! j = Some b -> R a b.
Proof.
  intros Hs. revert i j. induction Hs as [|x l Hs IH Hx]; intros i j Hij Ha Hb; [done|].
  destruct j as [|j]; [lia|]. destruct i as [|i]; simpl in *.
  - injection Ha as ->. by eapply Forall_lookup_1 in Hx.
  - apply (IH i j); [lia|done|done].
Qed.

Lemma sorted_app_inv {B} (lt : B -> B -> Prop) (ka kb : list B) :
  StronglySorted lt (ka ++ kb) ->
  StronglySorted lt ka /\ StronglySorted lt kb /\ Forall (fun a => Forall (lt a) kb) ka.
Proof.
  induction ka as [|a ka IH]; simpl; intros Hs; [by repeat constructor|].
  inversion Hs as [|? ? Hs' Ha]; subst. destruct (IH Hs') as (H1 & H2 & H3).
  apply Forall_app in Ha as [Ha Ha']. split_and!; [by constructor|done|by constructor].
Qed.

Lemma sorted_app_intro {B} (lt : B -> B -> Prop) (ka kb : list B) :
  StronglySorted lt ka -> StronglySorted lt kb -> Forall (fun a => Forall (lt a) kb) ka ->
  StronglySorted lt (ka ++ kb).
Proof.
  intros Ha Hb. induction Ha as [|a ka Ha IH Hfa]; simpl; [done|]. intros Hab.
  apply Forall_cons in Hab as [Hab Hr]. constructor; [by apply IH|]. by apply Forall_app.
Qed.

(** Inserting a key that is equivalent to none. *)
Lemma sorted_insert {B} (lt : B -> B -> Prop) (ka kb : list B) (k : B) :
  StronglySorted lt (ka ++ kb) -> Forall (fun a => lt a k) ka -> Forall (lt k) kb ->
  StronglySorted lt (ka ++ k :: kb).
Proof.
  intros Hs Hka Hkb. apply sorted_app_inv in Hs as (H1 & H2 & H3).
  apply sorted_app_intro; [done|by constructor|].
  rewrite Forall_forall in H3, Hka |- *. intros a Ha. constructor; auto.
Qed.

Lemma sorted_snoc {B} (lt : B -> B -> Prop) (l : list B) (x : B) :
  StronglySorted lt l -> Forall (fun a => lt a x) l -> StronglySorted lt (l ++ [x]).
Proof. intros Hl Hx. apply sorted_insert; [by rewrite app_nil_r|done|constructor]. Qed.

Lemma sorted_last {A} (R : A -> A -> Prop) (l : list A) (x y : A) :
  StronglySorted R l -> last l = Some y -> x ∈ l -> x = y \/ R x y.
Proof.
  intros Hs Hl Hx. apply last_Some in Hl as [l' ->]. apply elem_of_app in Hx as [Hx|Hx]; [|left; set_solver].
  apply sorted_app_inv in Hs as (_ & _ & HF). right.
  pose proof (proj1 (Forall_forall _ _) HF x Hx) as H1. by apply Forall_cons in H1 as [? _].
Qed.

Lemma elem_of_concat {A} (x : A) (l : list A) (ls : list (list A)) : x ∈ l -> l ∈ ls -> x ∈ concat ls.
Proof. intros Hx Hl. apply list_elem_of_split in Hl as (l1 & l2 & ->). rewrite concat_app. set_solver. Qed.

(** ** Allocation *)

(** An allocator: one beyond the largest address in use. *)
Definition bump_alloc (s : gset Z) : Z := 1 + fold_right Z.max 0 (elements s).

Lemma max_all_ge (l : list Z) (x : Z) : x ∈ l -> x <= fold_right Z.max 0 l.
Proof. induction 1; simpl; lia. Qed.

Lemma bump_alloc_fresh (s : gset Z) : bump_alloc s ∉ s.
Proof. intros H%elem_of_elements%max_all_ge. unfold bump_alloc in H. lia. Qed.

Lemma bump_alloc_nonnull (s : gset Z) : bump_alloc s <> 0.
Proof.
  unfold bump_alloc. assert (0 <= fold_right Z.max 0 (elements s)); [|lia].
  induction (elements s); simpl; lia.
Qed.
