(* ===== verification/Status.v ===== *)
(** * Status

    [include/leveldb/status.h] and [util/status.cc]: the result type every
    fallible operation returns.  A success is a null [state_]; an error is a
    heap array made of a 32-bit message length, a one-byte code and the
    message.  The array is modelled byte for byte. *)

From Stdlib Require Import String.
From stdpp Require Import pretty.
From S2P Require Import Prelude.

(** Byte string literals, the type of every [Slice] and [std::string] here. *)
Abbreviation bytes := (list Byte.byte).
Definition bs (s : string) : bytes := list_byte_of_string s.

Inductive Code :=
  | kOk | kNotFound | kCorruption | kNotSupported
  | kInvalidArgument | kIOError | kAlreadyExist | kNotEnoughSpace.

#[export] Instance Code_eq_dec : EqDecision Code.
Proof. solve_decision. Defined.

(** The enumerators' values. *)
Definition code_to_Z (c : Code) : Z :=
  match c with
  | kOk => 0 | kNotFound => 1 | kCorruption => 2 | kNotSupported => 3
  | kInvalidArgument => 4 | kIOError => 5 | kAlreadyExist => 6
  | kNotEnoughSpace => 7
  end.

(** [static_cast<Code>(state_[4])]; values outside the enumeration do not
    occur in an array built by the constructor. *)
Definition code_of_Z (z : Z) : Code :=
  if z =? 1 then kNotFound else if z =? 2 then kCorruption
  else if z =? 3 then kNotSupported else if z =? 4 then kInvalidArgument
  else if z =? 5 then kIOError else if z =? 6 then kAlreadyExist
  else if z =? 7 then kNotEnoughSpace else kOk.

Record Status := MkStatus { state_ : option bytes }.

Definition OK : Status := MkStatus None.

(** [Status::Status(Code, const Slice&, const Slice&)]. *)
Definition Status_make (c : Code) (msg msg2 : bytes) : Status :=
  let len1 := u32 (Z.of_nat (length msg)) in
  let len2 := u32 (Z.of_nat (length msg2)) in
  let size := u32 (len1 + (if len2 =? 0 then 0 else 2 + len2)) in
  MkStatus (Some (le_split 4 size ++ [byte.of_Z (code_to_Z c)]
    ++ take (Z.to_nat len1) msg
    ++ (if len2 =? 0 then [] else bs ": " ++ take (Z.to_nat len2) msg2))).

Definition NotFound (msg : bytes) : Status := Status_make kNotFound msg [].
Definition Corruption (msg : bytes) : Status := Status_make kCorruption msg [].
Definition Corruption2 (msg msg2 : bytes) : Status := Status_make kCorruption msg msg2.
Definition NotSupported (msg : bytes) : Status := Status_make kNotSupported msg [].
Definition InvalidArgument (msg msg2 : bytes) : Status := Status_make kInvalidArgument msg msg2.
Definition IOError (msg : bytes) : Status := Status_make kIOError msg [].
Definition AlreadyExist (msg : bytes) : Status := Status_make kAlreadyExist msg [].
Definition NotEnoughSpace (msg : bytes) : Status := Status_make kNotEnoughSpace msg [].

(** [Status::CopyState]: the length word and as many bytes as it says. *)
Definition CopyState (state : bytes) : bytes :=
  let size := le_combine (take 4 state) in take (Z.to_nat (size + 5)) state.

Definition ok (s : Status) : bool :=
  match state_ s with None => true | Some _ => false end.

(** [Status::code]. *)
Definition code (s : Status) : Code :=
  match state_ s with
  | None => kOk
  | Some st => match st !! 4%nat with
               | Some b => code_of_Z (byte.unsigned b)
               | None => kOk
               end
  end.

Definition IsNotFound (s : Status) : bool := bool_decide (code s = kNotFound).
Definition IsNotSupportedError (s : Status) : bool := bool_decide (code s = kNotSupported).
Definition IsIOError (s : Status) : bool := bool_decide (code s = kIOError).
Definition IsInvalidArgument (s : Status) : bool := bool_decide (code s = kInvalidArgument).
Definition IsCorruption (s : Status) : bool := bool_decide (code s = kCorruption).
Definition ISAlreadyExist (s : Status) : bool := bool_decide (code s = kAlreadyExist).

(** [Status::ToString].  The [default] branch prints the code in decimal. *)
Definition ToString (s : Status) : bytes :=
  match state_ s with
  | None => bs "OK"
  | Some st =>
      let type := match code s with
        | kOk => bs "OK"
        | kNotFound => bs "NotFound: "
        | kCorruption => bs "Corruption: "
        | kNotSupported => bs "Not implemented: "
        | kInvalidArgument => bs "Invalid argument: "
        | kIOError => bs "IO error: "
        | c => bs "Unknown code(" ++ bs (pretty (Z.to_N (code_to_Z c))) ++ bs "): "
        end in
      let length := le_combine (take 4 st) in
      type ++ take (Z.to_nat length) (drop 5 st)
  end.

(** ** Lemmas *)

Lemma code_of_to_Z (c : Code) : code_of_Z (code_to_Z c) = c.
Proof. by destruct c. Qed.

Lemma code_to_Z_range (c : Code) : 0 <= code_to_Z c < 2 ^ 8.
Proof. by destruct c. Qed.

Lemma code_make (c : Code) (m m2 : bytes) : code (Status_make c m m2) = c.
Proof.
  unfold code, Status_make; simpl.
  rewrite byte.unsigned_of_Z. unfold byte.wrap.
  rewrite Z.mod_small by apply code_to_Z_range. apply code_of_to_Z.
Qed.

Lemma ok_make (c : Code) (m m2 : bytes) : ok (Status_make c m m2) = false.
Proof. done. Qed.

Create Rewrite HintDb status.
#[export] Hint Rewrite code_make ok_make : status.

(** Decides the tests on a status built by one of the constructors. *)
Ltac status_simpl :=
  unfold IsNotFound, IsNotSupportedError, IsCorruption, ISAlreadyExist,
    NotFound, Corruption, Corruption2, NotSupported, InvalidArgument, IOError,
    AlreadyExist in *;
  autorewrite with status in *.

(** ** Properties *)

(** What [ToString] prints in front of the message. *)
Definition type_name (c : Code) : bytes :=
  match c with
  | kOk => bs "OK"
  | kNotFound => bs "NotFound: "
  | kCorruption => bs "Corruption: "
  | kNotSupported => bs "Not implemented: "
  | kInvalidArgument => bs "Invalid argument: "
  | kIOError => bs "IO error: "
  | kAlreadyExist => bs "Unknown code(6): "
  | kNotEnoughSpace => bs "Unknown code(7): "
  end.

(** A status built from a code and two messages has that code, is not a
    success, and prints as the code's name followed by the messages; the
    byte layout of the state array loses nothing. *)
Theorem Status_make_spec (c : Code) (msg msg2 : bytes) :
  Z.of_nat (length msg) + 2 + Z.of_nat (length msg2) < 2 ^ 32 ->
  let s := Status_make c msg msg2 in
  code s = c /\ ok s = false /\
  ToString s = type_name c ++ msg ++ (if decide (msg2 = []) then [] else bs ": " ++ msg2).
Proof.
  intros Hl s. split; [apply code_make|]. split; [done|].
  unfold s, ToString. rewrite code_make. cbn [state_ Status_make].
  unfold u32. rewrite !(Z.mod_small (Z.of_nat _)) by lia.
  set (tail := if Z.of_nat (length msg2) =? 0 then [] else bs ": " ++ take (Z.to_nat (Z.of_nat (length msg2))) msg2).
  assert (tail = if decide (msg2 = []) then [] else bs ": " ++ msg2) as Htail.
  { unfold tail. destruct msg2 as [|b m2]; [done|]. rewrite Nat2Z.id, firstn_all.
    by rewrite decide_False. }
  set (size := Z.of_nat (length msg) + (if Z.of_nat (length msg2) =? 0 then 0 else 2 + Z.of_nat (length msg2))).
  assert (size = Z.of_nat (length (msg ++ tail))) as Hsize.
  { rewrite length_app, Htail. unfold size. destruct msg2 as [|b m2]; [simpl; lia|].
    rewrite decide_False by done. simpl length. destruct (Z.eqb_spec (Z.of_nat (S (length m2))) 0); lia. }
  assert (0 <= size < 2 ^ 32) as Hr by (unfold size; destruct (_ =? 0); lia).
  rewrite Nat2Z.id, firstn_all, (Z.mod_small size) by done.
  rewrite take_app_le, (firstn_all2 (le_split 4 size)) by (rewrite length_le_split; lia).
  rewrite le_combine_split, Z.mod_small by done.
  assert (forall b l, drop 5 (le_split 4 size ++ [b] ++ l) = l) as -> by done.
  rewrite Hsize, Nat2Z.id, firstn_all, <- Htail. by destruct c.
Qed.

Lemma Status_make_spec_witness :
  let s := Status_make kIOError (bs "failed") (bs "disk") in
  code s = kIOError /\ ok s = false /\
  ToString s = type_name kIOError ++ bs "failed" ++ (if decide (bs "disk" = []) then [] else bs ": " ++ bs "disk").
Proof. apply Status_make_spec. by vm_compute. Defined.
