(* ===== verification/Coding.v ===== *)
(** * Coding

    [util/coding.h] and [util/coding.cc]: fixed-width and varint integers and
    length-prefixed strings, as they are laid out in log records, version
    edits and table blocks, and the decimal parser that turns a user key into
    an index key.

    A buffer is the list of its bytes; a parser returns the parsed value and
    the unread rest, [None] when the source returns [false] or a null
    pointer. *)

From S2P Require Import Prelude Status.

(** ** Definitions *)

Definition byte_at (v i : Z) : Byte.byte := byte.of_Z (Z.land (Z.shiftr v i) 0xff).

(** [little] is [port::kLittleEndian]; the two branches differ. *)
Definition EncodeFixed32 (little : bool) (value : Z) : bytes :=
  if little then le_split 4 value
  else [byte_at value 0; byte_at value 8; byte_at value 16; byte_at value 24].

Definition EncodeFixed64 (little : bool) (value : Z) : bytes :=
  if little then le_split 8 value
  else [byte_at value 0; byte_at value 8; byte_at value 16; byte_at value 24;
        byte_at value 32; byte_at value 40; byte_at value 48; byte_at value 56].

Definition char_at (p : bytes) (i : nat) : option Z := byte.unsigned <$> p !! i.

Definition DecodeFixed32 (little : bool) (p : bytes) : option Z :=
  if little then
    if (4 <=? length p)%nat then Some (le_combine (take 4 p)) else None
  else
    b0 ← char_at p 0; b1 ← char_at p 1; b2 ← char_at p 2; b3 ← char_at p 3;
    Some (Z.lor (Z.lor (Z.lor b0 (Z.shiftl b1 8)) (Z.shiftl b2 16)) (Z.shiftl b3 24)).

Definition DecodeFixed64 (little : bool) (p : bytes) : option Z :=
  if little then
    if (8 <=? length p)%nat then Some (le_combine (take 8 p)) else None
  else
    lo ← DecodeFixed32 false p;
    hi ← DecodeFixed32 false (drop 4 p);
    Some (Z.lor (Z.shiftl hi 32) lo).

Definition PutFixed32 (dst : bytes) (value : Z) : bytes := dst ++ EncodeFixed32 true value.
Definition PutFixed64 (dst : bytes) (value : Z) : bytes := dst ++ EncodeFixed64 true value.

(** Assignment of an unsigned value to a byte keeps its low eight bits. *)
Definition EncodeVarint32 (v : Z) : bytes :=
  let B := 128 in
  if v <? 2 ^ 7 then [byte.of_Z v]
  else if v <? 2 ^ 14 then [byte.of_Z (Z.lor v B); byte.of_Z (Z.shiftr v 7)]
  else if v <? 2 ^ 21 then
    [byte.of_Z (Z.lor v B); byte.of_Z (Z.lor (Z.shiftr v 7) B); byte.of_Z (Z.shiftr v 14)]
  else if v <? 2 ^ 28 then
    [byte.of_Z (Z.lor v B); byte.of_Z (Z.lor (Z.shiftr v 7) B);
     byte.of_Z (Z.lor (Z.shiftr v 14) B); byte.of_Z (Z.shiftr v 21)]
  else
    [byte.of_Z (Z.lor v B); byte.of_Z (Z.lor (Z.shiftr v 7) B);
     byte.of_Z (Z.lor (Z.shiftr v 14) B); byte.of_Z (Z.lor (Z.shiftr v 21) B);
     byte.of_Z (Z.shiftr v 28)].

Definition PutVarint32 (dst : bytes) (v : Z) : bytes := dst ++ EncodeVarint32 v.

(** The loop of [EncodeVarint64]; [n] iterations are left. *)
Fixpoint EncodeVarint64_loop (n : nat) (v : Z) : bytes :=
  match n with
  | O => [byte.of_Z v]
  | S n' =>
      if 128 <=? v
      then byte.of_Z (Z.lor (Z.land v 127) 128) :: EncodeVarint64_loop n' (Z.shiftr v 7)
      else [byte.of_Z v]
  end.

(** A 64-bit value is below 2 after nine shifts. *)
Definition EncodeVarint64 (v : Z) : bytes := EncodeVarint64_loop 9 v.

Definition PutVarint64 (dst : bytes) (v : Z) : bytes := dst ++ EncodeVarint64 v.

Definition PutLengthPrefixedSlice (dst value : bytes) : bytes :=
  PutVarint32 dst (u32 (Z.of_nat (length value))) ++ value.

Fixpoint VarintLength_loop (n : nat) (v len : Z) : Z :=
  match n with
  | O => len
  | S n' => if 128 <=? v then VarintLength_loop n' (Z.shiftr v 7) (len + 1) else len
  end.

Definition VarintLength (v : Z) : Z := VarintLength_loop 9 v 1.

(** The loop of [GetVarint32PtrFallback] and of [GetVarint64Ptr], which differ
    in the last shift and the width of the result. *)
Fixpoint GetVarint_loop (last width shift result : Z) (p : bytes) : option (Z * bytes) :=
  if shift <=? last then
    match p with
    | [] => None
    | b :: p' =>
        let byte := byte.unsigned b in
        if Z.land byte 128 =? 0
        then Some (Z.lor result (Z.shiftl byte shift mod 2 ^ width), p')
        else GetVarint_loop last width (shift + 7)
               (Z.lor result (Z.shiftl (Z.land byte 127) shift mod 2 ^ width)) p'
    end
  else None.

Definition GetVarint32PtrFallback (p : bytes) : option (Z * bytes) := GetVarint_loop 28 32 0 0 p.

Definition GetVarint32Ptr (p : bytes) : option (Z * bytes) :=
  match p with
  | b :: p' =>
      let result := byte.unsigned b in
      if Z.land result 128 =? 0 then Some (result, p') else GetVarint32PtrFallback p
  | [] => GetVarint32PtrFallback p
  end.

Definition GetVarint32 (input : bytes) : option (Z * bytes) := GetVarint32Ptr input.

Definition GetVarint64Ptr (p : bytes) : option (Z * bytes) := GetVarint_loop 63 64 0 0 p.

Definition GetVarint64 (input : bytes) : option (Z * bytes) := GetVarint64Ptr input.

(** The pointer-based and the slice-based parser. *)
Definition GetLengthPrefixedSlicePtr (p : bytes) : option (bytes * bytes) :=
  '(len, p) ← GetVarint32Ptr p;
  if Z.of_nat (length p) <? len then None
  else Some (take (Z.to_nat len) p, drop (Z.to_nat len) p).

Definition GetLengthPrefixedSlice (input : bytes) : option (bytes * bytes) :=
  '(len, input) ← GetVarint32 input;
  if len <=? Z.of_nat (length input)
  then Some (take (Z.to_nat len) input, drop (Z.to_nat len) input)
  else None.

(** [fast_atoi]: the leading decimal digits, modulo [2^64]. *)
Fixpoint fast_atoi_loop (str : bytes) (val : Z) : Z :=
  match str with
  | [] => val
  | c :: str' =>
      let c := byte.unsigned c in
      if negb (c =? 0) && (48 <=? c) && (c <=? 57)
      then fast_atoi_loop str' (u64 (val * 10 + (c - 48)))
      else val
  end.

Definition fast_atoi (slice : bytes) : Z := fast_atoi_loop slice 0.

(** [std::to_string] of an unsigned value: its decimal digits; [n] bounds
    their number. *)
Fixpoint to_string_loop (n : nat) (v : Z) (acc : bytes) : bytes :=
  match n with
  | O => acc
  | S n' =>
      let acc := byte.of_Z (48 + v mod 10) :: acc in
      if v <? 10 then acc else to_string_loop n' (v / 10) acc
  end.

(** A 64-bit value has at most 20 digits. *)
Definition to_string (v : Z) : bytes := to_string_loop 20 v [].

(** ** Bytes *)

Lemma byte_range (b : Byte.byte) : 0 <= byte.unsigned b < 2 ^ 8.
Proof. apply byte.unsigned_range. Qed.

Lemma byte_small (z : Z) : 0 <= z < 256 -> byte.unsigned (byte.of_Z z) = z.
Proof. intros H. rewrite byte.unsigned_of_Z. apply Z.mod_small. lia. Qed.

Lemma land_128 (z : Z) : 0 <= z < 256 -> (Z.land z 128 =? 0) = (z <? 128).
Proof.
  intros Hz. enough (forall n, (n < 256)%nat ->
    (Z.land (Z.of_nat n) 128 =? 0) = (Z.of_nat n <? 128)) as H.
  { rewrite <- (Z2Nat.id z) by lia. apply H. lia. }
  intros n Hn. do 256 (destruct n as [|n]; [reflexivity|]). lia.
Qed.

Lemma land_127 (z : Z) : Z.land z 127 = z mod 128.
Proof. apply (land_mask_mod z 7). lia. Qed.

(** The continuation byte of the low seven bits. *)
Lemma varint_byte (v : Z) :
  byte.unsigned (byte.of_Z (Z.lor v 128)) = v mod 128 + 128.
Proof.
  rewrite byte.unsigned_of_Z. unfold byte.wrap.
  replace (Z.lor v 128 mod 2 ^ 8) with (Z.lor (Z.shiftl 1 7) (v mod 2 ^ 7)).
  - rewrite lor_shiftl_add; [change (2 ^ 7) with 128; lia|lia|]. apply Z.mod_pos_bound. lia.
  - rewrite Z.lor_comm. change 128 with (Z.shiftl 1 7).
    apply Z.bits_inj'. intros n Hn. rewrite Z.lor_spec.
    destruct (Z.lt_ge_cases n 8).
    + rewrite (Z.mod_pow2_bits_low _ 8) by lia. rewrite Z.lor_spec.
      destruct (Z.lt_ge_cases n 7).
      * by rewrite Z.mod_pow2_bits_low by lia.
      * rewrite Z.mod_pow2_bits_high by lia. replace n with 7 by lia.
        simpl. by rewrite orb_true_r.
    + rewrite (Z.mod_pow2_bits_high _ 8) by lia. rewrite Z.mod_pow2_bits_high by lia.
      rewrite Z.shiftl_spec by lia. rewrite orb_false_l.
      apply Z.bits_above_log2; [lia|]. simpl. lia.
Qed.

(** ** Fixed-width integers *)

Lemma fixed32_round (v : Z) (rest : bytes) :
  0 <= v < 2 ^ 32 -> DecodeFixed32 true (EncodeFixed32 true v ++ rest) = Some v.
Proof.
  intros Hv. unfold DecodeFixed32, EncodeFixed32.
  rewrite length_app, length_le_split, take_app_le by (rewrite length_le_split; lia).
  rewrite firstn_all2 by (rewrite length_le_split; lia). simpl length.
  rewrite le_combine_split. simpl. by rewrite Z.mod_small.
Qed.

Lemma fixed64_round (v : Z) (rest : bytes) :
  0 <= v < 2 ^ 64 -> DecodeFixed64 true (EncodeFixed64 true v ++ rest) = Some v.
Proof.
  intros Hv. unfold DecodeFixed64, EncodeFixed64.
  rewrite length_app, length_le_split, take_app_le by (rewrite length_le_split; lia).
  rewrite firstn_all2 by (rewrite length_le_split; lia). simpl length.
  rewrite le_combine_split. simpl. by rewrite Z.mod_small.
Qed.

(** ** Varints *)

Section varint.
(** The parser of [7 * (J + 1)]-bit values of which [width] bits are kept. *)
Context (J width : Z) (HJ : 0 <= J) (Hw : 0 <= width <= 7 * J + 7).

Lemma lor_digit (r d shift : Z) :
  0 <= shift -> 0 <= r < 2 ^ shift -> 0 <= d -> d * 2 ^ shift < 2 ^ width ->
  Z.lor r (Z.shiftl d shift mod 2 ^ width) = r + d * 2 ^ shift.
Proof.
  intros Hs Hr Hd Hlt. assert (0 < 2 ^ shift) by (apply Z.pow_pos_nonneg; lia).
  assert (0 <= d * 2 ^ shift) by (apply Z.mul_nonneg_nonneg; lia).
  rewrite Z.shiftl_mul_pow2, Z.mod_small, Z.lor_comm by lia.
  rewrite <- Z.shiftl_mul_pow2, lor_shiftl_add, Z.shiftl_mul_pow2 by lia. lia.
Qed.

(** The bytes of the encoding, parsed with [j] digits already read. *)
Lemma varint_parse (n : nat) (v r j : Z) (rest : bytes) :
  0 <= j <= J -> 0 <= v -> v * 2 ^ (7 * j) < 2 ^ width -> v < 2 ^ (7 * (Z.of_nat n + 1)) ->
  0 <= r < 2 ^ (7 * j) ->
  GetVarint_loop (7 * J) width (7 * j) r (EncodeVarint64_loop n v ++ rest)
  = Some (r + v * 2 ^ (7 * j), rest).
Proof.
  revert v r j. induction n as [|n IH]; intros v r j Hj Hv Hlt Hn Hr.
  all: assert (0 < 2 ^ (7 * j)) as Hpos by (apply Z.pow_pos_nonneg; lia).
  all: assert (v < 128 -> forall p, GetVarint_loop (7 * J) width (7 * j) r (byte.of_Z v :: p)
          = Some (r + v * 2 ^ (7 * j), p)) as Hlast.
  1, 3: intros H p; cbn [GetVarint_loop]; rewrite (proj2 (Z.leb_le _ _)) by lia;
      rewrite byte_small, land_128, (proj2 (Z.ltb_lt _ _)), lor_digit by lia; done.
  - apply Hlast. simpl in Hn. lia.
  - cbn [EncodeVarint64_loop]. destruct (Z.leb_spec 128 v); [|by apply Hlast].
    cbn [GetVarint_loop app]. rewrite (proj2 (Z.leb_le _ _)) by lia.
    rewrite varint_byte, land_127, Z.mod_mod by lia.
    pose proof (Z.mod_pos_bound v 128 ltac:(lia)) as Hm. pose proof (Z.div_mod v 128 ltac:(lia)) as Hdm.
    rewrite land_128, (proj2 (Z.ltb_ge _ _)), land_127 by lia.
    replace ((v mod 128 + 128) mod 128) with (v mod 128)
      by (rewrite <- (Z.mul_1_l 128) at 3; rewrite Z.mod_add, Z.mod_mod; lia).
    rewrite lor_digit by nia.
    assert (2 ^ (7 * (j + 1)) = 128 * 2 ^ (7 * j)) as Hp.
    { replace (7 * (j + 1)) with (7 + 7 * j) by lia. rewrite Z.pow_add_r by lia. done. }
    assert (j < J) as HjJ.
    { destruct (Z.lt_ge_cases j J); [done|]. assert (j = J) as -> by lia.
      assert (2 ^ width <= 2 ^ (7 + 7 * J)) by (apply Z.pow_le_mono_r; lia).
      rewrite Z.pow_add_r in * by lia. nia. }
    replace (7 * j + 7) with (7 * (j + 1)) by lia.
    rewrite Z.shiftr_div_pow2 by lia. change (2 ^ 7) with 128.
    rewrite IH; [f_equal; f_equal; nia|lia| | | |].
    + apply Z.div_pos; lia.
    + rewrite Hp. nia.
    + apply Z.div_lt_upper_bound; [lia|]. change 128 with (2 ^ 7) at 1.
      rewrite <- Z.pow_add_r by lia. eapply Z.lt_le_trans; [exact Hn|].
      apply Z.pow_le_mono_r; lia.
    + rewrite Hp. nia.
Qed.
End varint.

Lemma of_Z_cong (x y : Z) : x mod 256 = y mod 256 -> byte.of_Z x = byte.of_Z y.
Proof.
  intros H. rewrite <- (byte.of_Z_unsigned (byte.of_Z x)), <- (byte.of_Z_unsigned (byte.of_Z y)).
  rewrite !byte.unsigned_of_Z. unfold byte.wrap. change (2 ^ 8) with 256. by rewrite H.
Qed.

Lemma of_Z_low7 (v : Z) : byte.of_Z (Z.lor (Z.land v 127) 128) = byte.of_Z (Z.lor v 128).
Proof.
  apply of_Z_cong. change (Z.lor (Z.land v 127) 128 mod 256)
    with (byte.wrap (Z.lor (Z.land v 127) 128)).
  change (Z.lor v 128 mod 256) with (byte.wrap (Z.lor v 128)).
  rewrite <- !byte.unsigned_of_Z, !varint_byte, land_127, Z.mod_mod; lia.
Qed.

(** The unrolled 32-bit encoder and the 64-bit loop write the same bytes. *)
Lemma EncodeVarint32_loop (v : Z) :
  0 <= v < 2 ^ 32 -> EncodeVarint32 v = EncodeVarint64_loop 4 v.
Proof.
  intros Hv. unfold EncodeVarint32. cbn [EncodeVarint64_loop]. rewrite !of_Z_low7.
  assert (forall a, 0 <= a -> (v <? 2 ^ (a + 7)) = negb (128 <=? Z.shiftr v a)) as Hcmp.
  { intros a Ha. rewrite Z.shiftr_div_pow2 by lia. apply eq_true_iff_eq.
    rewrite negb_true_iff, Z.ltb_lt, Z.leb_gt.
    assert (0 < 2 ^ a) by (apply Z.pow_pos_nonneg; lia).
    rewrite Z.pow_add_r by lia. change (2 ^ 7) with 128. split; intros H'.
    - apply Z.div_lt_upper_bound; lia.
    - pose proof (Z.div_mod v (2 ^ a) ltac:(lia)). pose proof (Z.mod_pos_bound v (2 ^ a) ltac:(lia)). nia. }
  rewrite !Z.shiftr_shiftr by lia.
  change (2 ^ 7) with (2 ^ (0 + 7)). change (2 ^ 14) with (2 ^ (7 + 7)).
  change (2 ^ 21) with (2 ^ (14 + 7)). change (2 ^ 28) with (2 ^ (21 + 7)).
  rewrite !Hcmp, Z.shiftr_0_r by lia. change (7 + 7 + 7 + 7) with 28.
  change (7 + 7 + 7) with 21. change (7 + 7) with 14.
  by destruct (128 <=? v), (128 <=? Z.shiftr v 7), (128 <=? Z.shiftr v 14), (128 <=? Z.shiftr v 21).
Qed.

Lemma GetVarint32_fallback (p : bytes) : GetVarint32Ptr p = GetVarint32PtrFallback p.
Proof.
  destruct p as [|b p]; [done|]. unfold GetVarint32Ptr, GetVarint32PtrFallback. cbn [GetVarint_loop].
  destruct (Z.land (byte.unsigned b) 128 =? 0); [|done].
  rewrite Z.shiftl_0_r, Z.mod_small; [done|]. pose proof (byte_range b). lia.
Qed.

Lemma varint32_round (v : Z) (rest : bytes) :
  0 <= v < 2 ^ 32 -> GetVarint32 (EncodeVarint32 v ++ rest) = Some (v, rest).
Proof.
  intros Hv. unfold GetVarint32. rewrite GetVarint32_fallback, EncodeVarint32_loop by done.
  unfold GetVarint32PtrFallback. change 28 with (7 * 4). change 0 with (7 * 0) at 1.
  rewrite varint_parse; [f_equal; f_equal; lia|..]; try (simpl; lia).
Qed.

Lemma varint64_round (v : Z) (rest : bytes) :
  0 <= v < 2 ^ 64 -> GetVarint64 (EncodeVarint64 v ++ rest) = Some (v, rest).
Proof.
  intros Hv. unfold GetVarint64, GetVarint64Ptr, EncodeVarint64.
  change 63 with (7 * 9). change 0 with (7 * 0) at 1.
  rewrite varint_parse; [f_equal; f_equal; lia|..]; try (simpl; lia).
Qed.

Lemma VarintLength_encode (n : nat) (v len : Z) :
  VarintLength_loop n v len + 1 = len + Z.of_nat (length (EncodeVarint64_loop n v)).
Proof.
  revert v len. induction n as [|n IH]; intros v len; simpl; [lia|].
  destruct (128 <=? v); simpl; [|lia]. specialize (IH (Z.shiftr v 7) (len + 1)). lia.
Qed.

(** *** Arrays of 32-bit words *)

Lemma foldl_PutFixed32 (l : list Z) (buf : bytes) :
  foldl PutFixed32 buf l = buf ++ concat (EncodeFixed32 true <$> l).
Proof.
  revert buf. induction l as [|x l IH]; intros buf; [by rewrite app_nil_r|].
  cbn [foldl]. rewrite IH. unfold PutFixed32. by rewrite <- app_assoc.
Qed.

Lemma fixed32s_length {A} (f : A -> Z) (l : list A) :
  length (concat ((fun j => EncodeFixed32 true (f j)) <$> l)) = (4 * length l)%nat.
Proof. induction l as [|x l IH]; [done|]. rewrite fmap_cons. cbn [concat]. rewrite length_app, IH. simpl. lia. Qed.

Lemma fixed32s_read {A} (f : A -> Z) (l : list A) (i : nat) (x : A) (pre post : bytes) :
  l !! i = Some x -> 0 <= f x < 2 ^ 32 ->
  DecodeFixed32 true (drop (length pre + 4 * i) (pre ++ concat ((fun j => EncodeFixed32 true (f j)) <$> l) ++ post))
  = Some (f x).
Proof.
  intros Hi Hx. rewrite <- drop_drop, drop_app_length. rewrite <- (take_drop_middle l i x Hi), fmap_app, concat_app.
  rewrite <- !app_assoc, drop_app_length'.
  - rewrite fmap_cons. cbn [concat]. rewrite <- app_assoc. by apply fixed32_round.
  - rewrite fixed32s_length, length_take. apply lookup_lt_Some in Hi. lia.
Qed.

Lemma slice_round (value rest : bytes) :
  Z.of_nat (length value) < 2 ^ 32 ->
  GetLengthPrefixedSlice (PutLengthPrefixedSlice [] value ++ rest) = Some (value, rest).
Proof.
  intros Hl. unfold GetLengthPrefixedSlice, PutLengthPrefixedSlice, PutVarint32.
  unfold u32. rewrite Z.mod_small, <- app_assoc, app_nil_l by lia.
  rewrite varint32_round by lia. cbn [mbind option_bind].
  rewrite (proj2 (Z.leb_le _ _)) by (rewrite length_app; lia).
  rewrite Nat2Z.id, take_app_length, drop_app_length. done.
Qed.

(** Parsers consume input. *)
Lemma GetVarint_loop_consumes (last width shift result : Z) (p : bytes) (v : Z) (rest : bytes) :
  GetVarint_loop last width shift result p = Some (v, rest) -> (length rest < length p)%nat.
Proof.
  revert shift result. induction p as [|b p IH]; intros shift result; simpl; [by case_match|].
  destruct (shift <=? last); [|done]. destruct (Z.land (byte.unsigned b) 128 =? 0).
  - intros [= _ ->]. lia.
  - intros H%IH. lia.
Qed.

Lemma GetVarint32_consumes (p : bytes) (v : Z) (rest : bytes) :
  GetVarint32 p = Some (v, rest) -> (length rest < length p)%nat.
Proof. unfold GetVarint32. rewrite GetVarint32_fallback. apply GetVarint_loop_consumes. Qed.

Lemma GetVarint64_consumes (p : bytes) (v : Z) (rest : bytes) :
  GetVarint64 p = Some (v, rest) -> (length rest < length p)%nat.
Proof. apply GetVarint_loop_consumes. Qed.

Lemma GetLengthPrefixedSlice_consumes (p s rest : bytes) :
  GetLengthPrefixedSlice p = Some (s, rest) -> (length rest < length p)%nat.
Proof.
  unfold GetLengthPrefixedSlice. destruct (GetVarint32 p) as [[len q]|] eqn:E; [|done]. simpl.
  case_match; [|done]. intros [= _ <-]. apply GetVarint32_consumes in E. rewrite length_drop. lia.
Qed.

(** ** Decimal keys *)

Lemma fast_atoi_app (s t : bytes) (val : Z) :
  Forall (fun c => 48 <= byte.unsigned c <= 57) s ->
  fast_atoi_loop (s ++ t) val = fast_atoi_loop t (fast_atoi_loop s val).
Proof.
  intros H. revert val. induction H as [|c s Hc _ IH]; intros val; [done|]. cbn [fast_atoi_loop app].
  destruct (Z.eqb_spec (byte.unsigned c) 0); [lia|].
  rewrite !(proj2 (Z.leb_le _ _)) by lia. simpl. apply IH.
Qed.

Lemma digit (d : Z) : 0 <= d < 10 -> byte.unsigned (byte.of_Z (48 + d)) = 48 + d.
Proof. intros H. apply byte_small. lia. Qed.

Lemma fast_atoi_to_string_loop (n : nat) (v : Z) (acc : bytes) :
  0 <= v < 2 ^ 64 -> v < 10 ^ Z.of_nat n ->
  fast_atoi_loop (to_string_loop n v acc) 0 = fast_atoi_loop acc v.
Proof.
  revert v acc. induction n as [|n IH]; intros v acc Hv Hn; [simpl in *; f_equal; lia|].
  cbn [to_string_loop]. pose proof (Z.mod_pos_bound v 10 ltac:(lia)) as Hm.
  pose proof (Z.div_mod v 10 ltac:(lia)) as Hdm.
  assert (forall w, fast_atoi_loop (byte.of_Z (48 + v mod 10) :: acc) w
          = fast_atoi_loop acc (u64 (w * 10 + v mod 10))) as Hstep.
  { intros w. cbn [fast_atoi_loop]. rewrite digit by lia.
    destruct (Z.eqb_spec (48 + v mod 10) 0); [lia|].
    rewrite !(proj2 (Z.leb_le _ _)) by lia. cbn [negb andb]. f_equal. f_equal. lia. }
  destruct (Z.ltb_spec v 10).
  - rewrite Hstep. f_equal. unfold u64. rewrite (Z.mod_small v 10), Z.mod_small; lia.
  - rewrite IH; [|split; [apply Z.div_pos; lia|]|].
    + rewrite Hstep. f_equal. unfold u64. rewrite Z.mod_small; lia.
    + assert (v / 10 <= v) by (apply Z.div_le_upper_bound; lia). lia.
    + apply Z.div_lt_upper_bound; [lia|]. rewrite Nat2Z.inj_succ, Z.pow_succ_r in Hn by lia. lia.
Qed.

Lemma fast_atoi_to_string (v : Z) : 0 <= v < 2 ^ 64 -> fast_atoi (to_string v) = v.
Proof.
  intros Hv. unfold fast_atoi, to_string. rewrite fast_atoi_to_string_loop; [done|done|].
  simpl. lia.
Qed.

(** ** Properties *)

(** A 32-bit varint read back from where it was written gives the value
    and leaves the rest of the input. *)
Theorem varint32_roundtrip (v : Z) (rest : bytes) :
  0 <= v < 2 ^ 32 -> GetVarint32 (PutVarint32 [] v ++ rest) = Some (v, rest).
Proof. apply varint32_round. Qed.

Lemma varint32_roundtrip_witness :
  GetVarint32 (PutVarint32 [] 300 ++ [Byte.x07]) = Some (300, [Byte.x07]).
Proof. apply (varint32_roundtrip 300 [Byte.x07]). lia. Defined.

(** A 64-bit varint read back gives the value and the rest, takes at most
    ten bytes, and as many as [VarintLength] says. *)
Theorem varint64_roundtrip (v : Z) (rest : bytes) :
  0 <= v < 2 ^ 64 ->
  GetVarint64 (PutVarint64 [] v ++ rest) = Some (v, rest) /\
  Z.of_nat (length (PutVarint64 [] v)) = VarintLength v /\ 1 <= VarintLength v <= 10.
Proof.
  intros Hv. split; [by apply varint64_round|].
  pose proof (VarintLength_encode 9 v 1) as Hl. unfold VarintLength, PutVarint64, EncodeVarint64.
  split; [rewrite app_nil_l; lia|]. assert (forall n w len,
    len <= VarintLength_loop n w len <= len + Z.of_nat n) as Hb.
  { induction n as [|n IH]; intros w len; simpl; [lia|].
    destruct (128 <=? w); [|lia]. specialize (IH (Z.shiftr w 7) (len + 1)). lia. }
  specialize (Hb 9%nat v 1). lia.
Qed.

Lemma varint64_roundtrip_witness :
  GetVarint64 (PutVarint64 [] (2 ^ 63) ++ []) = Some (2 ^ 63, []) /\
  Z.of_nat (length (PutVarint64 [] (2 ^ 63))) = VarintLength (2 ^ 63) /\
  1 <= VarintLength (2 ^ 63) <= 10.
Proof. apply (varint64_roundtrip (2 ^ 63) []). lia. Defined.

(** A string written with its length in front is read back, whatever
    follows it. *)
Theorem length_prefixed_roundtrip (value rest : bytes) :
  Z.of_nat (length value) < 2 ^ 32 ->
  GetLengthPrefixedSlice (PutLengthPrefixedSlice [] value ++ rest) = Some (value, rest).
Proof. apply slice_round. Qed.

Lemma length_prefixed_roundtrip_witness :
  GetLengthPrefixedSlice (PutLengthPrefixedSlice [] [Byte.x61; Byte.x62] ++ [Byte.x63])
  = Some ([Byte.x61; Byte.x62], [Byte.x63]).
Proof. apply (length_prefixed_roundtrip [Byte.x61; Byte.x62] [Byte.x63]). simpl. lia. Defined.

Lemma le_split_byte_at (n : nat) (v i : Z) :
  0 <= i -> le_split n (Z.shiftr v i) =
  match n with O => [] | S n' => byte_at v i :: le_split n' (Z.shiftr v (i + 8)) end.
Proof.
  intros Hi. destruct n as [|n]; [done|].
  change (le_split (S n) ?z) with (byte.of_Z z :: le_split n (Z.shiftr z 8)).
  rewrite Z.shiftr_shiftr by lia. f_equal. unfold byte_at. apply of_Z_cong.
  change 0xff with (2 ^ 8 - 1). rewrite land_mask_mod, Z.mod_mod; lia.
Qed.

(** The little-endian copy and the portable byte-by-byte encoder write the
    same bytes, and decoding what was encoded gives the value in either case. *)
Theorem fixed64_endianness (v : Z) :
  0 <= v < 2 ^ 64 ->
  EncodeFixed64 true v = EncodeFixed64 false v /\
  DecodeFixed64 true (EncodeFixed64 false v) = Some v.
Proof.
  intros Hv. assert (EncodeFixed64 true v = EncodeFixed64 false v) as He.
  { unfold EncodeFixed64. rewrite <- (Z.shiftr_0_r v) at 1.
    rewrite !le_split_byte_at by lia. done. }
  split; [done|]. rewrite <- He, <- (app_nil_r (EncodeFixed64 true v)). by apply fixed64_round.
Qed.

Lemma fixed64_endianness_witness :
  EncodeFixed64 true 0x0102030405060708 = EncodeFixed64 false 0x0102030405060708 /\
  DecodeFixed64 true (EncodeFixed64 false 0x0102030405060708) = Some 0x0102030405060708.
Proof. apply fixed64_endianness. lia. Defined.

(** [fast_atoi] reads back the decimal digits of every 64-bit key. *)
Theorem fast_atoi_roundtrip (v : Z) : 0 <= v < 2 ^ 64 -> fast_atoi (to_string v) = v.
Proof. apply fast_atoi_to_string. Qed.

Lemma fast_atoi_roundtrip_witness : fast_atoi (to_string 18446744073709551615) = 18446744073709551615.
Proof. apply fast_atoi_roundtrip. lia. Defined.
