(* ===== verification/Bloom.v ===== *)
(** * Hash and bloom filter

    [util/hash.cc], [util/bloom.cc] and [include/leveldb/filter_policy.h]: the
    32-bit hash, the filter policy interface with its contract, and the bloom
    filter as an implementation of it. *)

From Stdlib Require Import String.
From S2P Require Import Prelude Status Coding.

(** ** Definitions *)

(** [Hash(data, n, seed)]: four bytes at a time, then the rest. *)
Definition hash_m : Z := 0xc6a4a793.

Fixpoint Hash_loop (data : bytes) (h : Z) : Z :=
  match data with
  | b0 :: b1 :: b2 :: b3 :: data' =>
      let w := le_combine [b0; b1; b2; b3] in
      let h := u32 (h + w) in
      let h := u32 (h * hash_m) in
      let h := Z.lxor h (Z.shiftr h 16) in
      Hash_loop data' h
  | [] => h
  | b0 :: rest =>
      let h := match rest with
               | b1 :: b2 :: _ => u32 (h + Z.shiftl (byte.unsigned b2) 16)
               | _ => h
               end in
      let h := match rest with
               | b1 :: _ => u32 (h + Z.shiftl (byte.unsigned b1) 8)
               | _ => h
               end in
      let h := u32 (h + byte.unsigned b0) in
      let h := u32 (h * hash_m) in
      Z.lxor h (Z.shiftr h 24)
  end.

Definition Hash (data : bytes) (seed : Z) : Z :=
  Hash_loop data (u32 (Z.lxor seed (u64 (Z.of_nat (length data) * hash_m)))).

(** [FilterPolicy]: [CreateFilter keys dst] appends a filter to [dst]. *)
Class FilterPolicy := {
  PolicyName : bytes;
  CreateFilter : list bytes -> bytes -> option bytes;
  KeyMayMatch : bytes -> bytes -> option bool }.

(** Its documented contract, for the key lists in [keys_ok]: the filter is
    appended, and matches every key of the list and the keys that are the
    [same] for it. *)
Class FilterPolicySpec (P : FilterPolicy) (keys_ok : list bytes -> Prop) (same : bytes -> bytes -> Prop) := {
  policy_appends : forall keys dst, keys_ok keys ->
    exists filter, CreateFilter keys dst = Some (dst ++ filter) /\
      forall k k', k ∈ keys -> same k k' -> KeyMayMatch k' filter = Some true }.

(** A test returns, for the keys in [key_ok] and a filter of less than 4 GB. *)
Class FilterPolicyTotal (P : FilterPolicy) (key_ok : bytes -> Prop) := {
  policy_returns : forall key filter, key_ok key -> Z.of_nat (length filter) < 2 ^ 32 ->
    is_Some (KeyMayMatch key filter) }.

Module Bloom.

Definition BloomHash (key : bytes) : Z := Hash key 0xbc9f1d34.

Record BloomFilterPolicy := MkBloom { bits_per_key_ : Z; k_ : Z }.

(** The constructor, for [bits_per_key >= 0]; the double nearest to 0.69 is
    [1553741871442821 / 2^51]. *)
Definition BloomFilterPolicy_new (bits_per_key : Z) : BloomFilterPolicy :=
  let k := bits_per_key * 1553741871442821 / 2 ^ 51 in
  let k := if k <? 1 then 1 else k in
  let k := if 30 <? k then 30 else k in
  {| bits_per_key_ := bits_per_key; k_ := k |}.

(** Rotate right by 17 bits. *)
Definition delta (h : Z) : Z := Z.lor (Z.shiftr h 17) (u32 (Z.shiftl h 15)).

(** The inner loop over the probes of one key, on the bytes at [base]. *)
Fixpoint set_probes (n : nat) (base : nat) (bits h d : Z) (array : bytes) : option bytes :=
  match n with
  | O => Some array
  | S n' =>
      if bits =? 0 then None
      else
        let bitpos := h mod bits in
        let i := (base + Z.to_nat (bitpos / 8))%nat in
        c ← array !! i;
        let c := byte.of_Z (Z.lor (byte.unsigned c) (Z.shiftl 1 (bitpos mod 8))) in
        set_probes n' base bits (u32 (h + d)) d (<[i := c]> array)
  end.

Fixpoint set_keys (k : nat) (base : nat) (bits : Z) (keys : list bytes) (array : bytes)
    : option bytes :=
  match keys with
  | [] => Some array
  | key :: keys' =>
      let h := BloomHash key in
      array ← set_probes k base bits h (delta h) array;
      set_keys k base bits keys' array
  end.

(** [CreateFilter(keys, n, dst)]. With [pmem_test] the bits are set in a mapped
    file of their own, which nothing reads back, and not in [*dst]. *)
Definition BloomCreateFilter (pmem_test : bool) (p : BloomFilterPolicy) (keys : list bytes)
    (dst : bytes) : option bytes :=
  let bits := u64 (Z.of_nat (length keys) * bits_per_key_ p) in
  let bits := if bits <? 64 then 64 else bits in
  let nbytes := u64 (bits + 7) / 8 in
  let bits := u64 (nbytes * 8) in
  let init_size := length dst in
  let dst := dst ++ replicate (Z.to_nat nbytes) Byte.x00 ++ [byte.of_Z (k_ p)] in
  if pmem_test then Some dst
  else set_keys (Z.to_nat (k_ p)) init_size bits keys dst.

Fixpoint test_probes (n : nat) (bits h d : Z) (array : bytes) : option bool :=
  match n with
  | O => Some true
  | S n' =>
      let bitpos := h mod bits in
      c ← array !! Z.to_nat (bitpos / 8);
      if Z.land (byte.unsigned c) (Z.shiftl 1 (bitpos mod 8)) =? 0 then Some false
      else test_probes n' bits (u32 (h + d)) d array
  end.

(** [KeyMayMatch(key, bloom_filter)]; the number of probes is a signed [char]
    converted to [size_t]. *)
Definition BloomKeyMayMatch (key filter : bytes) : option bool :=
  let len := length filter in
  if (len <? 2)%nat then Some false
  else
    let bits := u64 ((Z.of_nat len - 1) * 8) in
    c ← filter !! (len - 1)%nat;
    let k := u64 (signed_char c) in
    if 30 <? k then Some true
    else
      let h := BloomHash key in
      test_probes (Z.to_nat k) bits h (delta h) filter.

(** ** Bits *)

Definition bit (mid : bytes) (i : Z) : bool :=
  match mid !! Z.to_nat (i / 8) with
  | Some c => Z.testbit (byte.unsigned c) (i mod 8)
  | None => false
  end.

(** [mid'] has every bit of [mid]. *)
Definition more_bits (mid mid' : bytes) : Prop :=
  length mid = length mid' /\ forall i, bit mid i = true -> bit mid' i = true.

#[export] Instance more_bits_preorder : PreOrder more_bits.
Proof. split; [by intros ?|]. intros a b c [? ?] [? ?]. split; [lia|eauto]. Qed.

Lemma land_bit (c b : Z) : 0 <= b -> (Z.land c (Z.shiftl 1 b) =? 0) = negb (Z.testbit c b).
Proof.
  intros Hb. rewrite Z.shiftl_1_l. destruct (Z.testbit c b) eqn:E; simpl.
  - apply Z.eqb_neq. intros H. apply (f_equal (fun z => Z.testbit z b)) in H.
    by rewrite Z.land_spec, Z.pow2_bits_true, E, Z.bits_0 in H.
  - apply Z.eqb_eq, Z.bits_inj'. intros n Hn. rewrite Z.land_spec, Z.bits_0.
    destruct (Z.eq_dec n b) as [->|]; [by rewrite E|].
    rewrite Z.pow2_bits_false by lia. apply andb_false_r.
Qed.

Lemma testbit_set (c : Byte.byte) (b j : Z) :
  0 <= b < 8 -> 0 <= j < 8 ->
  Z.testbit (byte.unsigned (byte.of_Z (Z.lor (byte.unsigned c) (Z.shiftl 1 b)))) j
  = (j =? b) || Z.testbit (byte.unsigned c) j.
Proof.
  intros Hb Hj. rewrite byte.unsigned_of_Z. unfold byte.wrap.
  rewrite Z.mod_pow2_bits_low, Z.lor_spec, Z.shiftl_1_l by lia. rewrite orb_comm. f_equal.
  destruct (Z.eqb_spec j b) as [->|]; [apply Z.pow2_bits_true; lia|apply Z.pow2_bits_false; lia].
Qed.

(** Setting bit [i] of an array sets it and keeps the others. *)
Lemma set_bit (mid : bytes) (c : Byte.byte) (i : Z) :
  0 <= i -> mid !! Z.to_nat (i / 8) = Some c ->
  let mid' := <[Z.to_nat (i / 8) :=
    byte.of_Z (Z.lor (byte.unsigned c) (Z.shiftl 1 (i mod 8)))]> mid in
  more_bits mid mid' /\ bit mid' i = true.
Proof.
  intros Hi Hc mid'. pose proof (Z.mod_pos_bound i 8 ltac:(lia)) as Hm.
  assert (Z.to_nat (i / 8) < length mid)%nat as Hl by (by eapply lookup_lt_Some).
  assert (bit mid' i = true) as Hset.
  { unfold bit, mid'. rewrite list_lookup_insert_eq by done.
    rewrite testbit_set, Z.eqb_refl by lia. done. }
  split; [split|done].
  - unfold mid'. by rewrite length_insert.
  - intros j. unfold bit, mid'. destruct (decide (Z.to_nat (j / 8) = Z.to_nat (i / 8))) as [->|].
    + rewrite list_lookup_insert_eq by done. rewrite Hc. intros Hj.
      rewrite testbit_set by (lia || apply Z.mod_pos_bound; lia). rewrite Hj. apply orb_true_r.
    + by rewrite list_lookup_insert_ne.
Qed.

(** The probes of a hash: [n] bits from [h] on, [d] apart. *)
Fixpoint has_probes (n : nat) (bits h d : Z) (mid : bytes) : Prop :=
  match n with
  | O => True
  | S n' => bit mid (h mod bits) = true /\ has_probes n' bits (u32 (h + d)) d mid
  end.

Lemma has_probes_more (n : nat) (bits h d : Z) (mid mid' : bytes) :
  more_bits mid mid' -> has_probes n bits h d mid -> has_probes n bits h d mid'.
Proof.
  intros [_ Hm]. revert h. induction n as [|n IH]; intros h; simpl; [done|].
  intros [? ?]. auto.
Qed.

Lemma probe_index (bits h : Z) (mid : bytes) :
  0 < bits -> bits <= 8 * Z.of_nat (length mid) -> (Z.to_nat (h mod bits / 8) < length mid)%nat.
Proof.
  intros Hb Hl. pose proof (Z.mod_pos_bound h bits Hb).
  assert (h mod bits / 8 < Z.of_nat (length mid)) by (apply Z.div_lt_upper_bound; lia). lia.
Qed.

Lemma set_probes_ok (n : nat) (bits h d : Z) (dst mid rest : bytes) :
  0 < bits -> bits <= 8 * Z.of_nat (length mid) ->
  exists mid', set_probes n (length dst) bits h d (dst ++ mid ++ rest) = Some (dst ++ mid' ++ rest) /\
    more_bits mid mid' /\ has_probes n bits h d mid'.
Proof.
  intros Hb. revert h mid. induction n as [|n IH]; intros h mid Hl; simpl; [by exists mid|].
  destruct (Z.eqb_spec bits 0); [lia|]. pose proof (probe_index bits h mid Hb Hl) as Hi.
  destruct (lookup_lt_is_Some_2 mid _ Hi) as [c Hc].
  rewrite lookup_app_r by lia. rewrite Nat.add_comm, Nat.add_sub.
  rewrite lookup_app_l, Hc by done. cbn [mbind option_bind].
  rewrite Nat.add_comm, insert_app_r, insert_app_l by done.
  destruct (set_bit mid c (h mod bits)) as [Hmore Hset]; [apply Z.mod_pos_bound; lia|done|].
  destruct (IH (u32 (h + d)) _ ltac:(rewrite <- (proj1 Hmore); exact Hl)) as (mid' & -> & Hm' & Hp).
  exists mid'. split; [done|]. split; [by etrans|]. split; [|done]. by apply Hm'.
Qed.

Lemma set_keys_ok (k : nat) (bits : Z) (keys : list bytes) (dst mid rest : bytes) :
  0 < bits -> bits <= 8 * Z.of_nat (length mid) ->
  exists mid', set_keys k (length dst) bits keys (dst ++ mid ++ rest) = Some (dst ++ mid' ++ rest) /\
    more_bits mid mid' /\
    forall key, key ∈ keys -> has_probes k bits (BloomHash key) (delta (BloomHash key)) mid'.
Proof.
  intros Hb. revert mid. induction keys as [|key keys IH]; intros mid Hl; simpl.
  { exists mid. split; [done|]. split; [done|]. set_solver. }
  destruct (set_probes_ok k bits (BloomHash key) (delta (BloomHash key)) dst mid rest Hb Hl)
    as (mid1 & -> & Hm1 & Hp1). cbn [mbind option_bind].
  destruct (IH mid1 ltac:(rewrite <- (proj1 Hm1); exact Hl)) as (mid2 & -> & Hm2 & Hp2).
  exists mid2. split; [done|]. split; [by etrans|].
  intros key'. rewrite elem_of_cons. intros [->|]; [by eapply has_probes_more|auto].
Qed.

Lemma test_probes_ok (n : nat) (bits h d : Z) (mid rest : bytes) :
  0 < bits -> bits <= 8 * Z.of_nat (length mid) ->
  has_probes n bits h d mid -> test_probes n bits h d (mid ++ rest) = Some true.
Proof.
  intros Hb Hl. revert h. induction n as [|n IH]; intros h; simpl; [done|]. intros [Hbit Hp].
  pose proof (probe_index bits h mid Hb Hl) as Hi. rewrite lookup_app_l by done.
  unfold bit in Hbit. destruct (mid !! _) as [c|]; [|done]. cbn [mbind option_bind].
  rewrite land_bit by (apply Z.mod_pos_bound; lia). rewrite Hbit. by apply IH.
Qed.

(** ** The contract *)

Lemma new_k (bpk : Z) : 1 <= k_ (BloomFilterPolicy_new bpk) <= 30.
Proof.
  unfold BloomFilterPolicy_new. simpl. set (k := _ / _).
  destruct (Z.ltb_spec k 1); [simpl; lia|]. destruct (Z.ltb_spec 30 k); lia.
Qed.

(** The bits of the filter for [n] keys, rounded up to whole bytes. *)
Definition filter_bytes (bpk : Z) (n : nat) : Z := (Z.max 64 (Z.of_nat n * bpk) + 7) / 8.

Lemma bloom_layout (p : BloomFilterPolicy) (keys : list bytes) (dst : bytes) :
  0 <= Z.of_nat (length keys) * bits_per_key_ p < 2 ^ 63 ->
  let n := filter_bytes (bits_per_key_ p) (length keys) in
  8 <= n < 2 ^ 60 + 1 /\
  forall pmem_test, BloomCreateFilter pmem_test p keys dst
  = (let dst' := dst ++ replicate (Z.to_nat n) Byte.x00 ++ [byte.of_Z (k_ p)] in
     if pmem_test then Some dst'
     else set_keys (Z.to_nat (k_ p)) (length dst) (n * 8) keys dst').
Proof.
  intros Hb n. unfold BloomCreateFilter, u64. rewrite (Z.mod_small (Z.of_nat (length keys) * bits_per_key_ p)) by lia.
  assert ((if Z.of_nat (length keys) * bits_per_key_ p <? 64 then 64
           else Z.of_nat (length keys) * bits_per_key_ p)
          = Z.max 64 (Z.of_nat (length keys) * bits_per_key_ p)) as ->
    by (destruct (Z.ltb_spec (Z.of_nat (length keys) * bits_per_key_ p) 64); lia).
  rewrite (Z.mod_small (_ + 7)) by lia.
  fold (filter_bytes (bits_per_key_ p) (length keys)). fold n.
  assert (8 <= n < 2 ^ 60 + 1).
  { unfold n, filter_bytes. split; [apply Z.div_le_lower_bound; lia|apply Z.div_lt_upper_bound; lia]. }
  by rewrite (Z.mod_small (n * 8)) by lia.
Qed.

Lemma BloomKeyMayMatch_probes (p : BloomFilterPolicy) (key mid : bytes) :
  1 <= k_ p <= 30 -> 8 <= Z.of_nat (length mid) < 2 ^ 60 + 1 ->
  BloomKeyMayMatch key (mid ++ [byte.of_Z (k_ p)])
  = test_probes (Z.to_nat (k_ p)) (Z.of_nat (length mid) * 8)
      (BloomHash key) (delta (BloomHash key)) (mid ++ [byte.of_Z (k_ p)]).
Proof.
  intros Hk Hl. unfold BloomKeyMayMatch. rewrite length_app. simpl length.
  destruct (Nat.ltb_spec (length mid + 1) 2); [lia|].
  rewrite Nat.add_sub, list_lookup_middle by done. cbn [mbind option_bind].
  unfold signed_char. rewrite byte_small by lia.
  rewrite (proj2 (Z.ltb_lt (k_ p) 128)) by lia. unfold u64.
  rewrite (Z.mod_small (k_ p)), (proj2 (Z.ltb_ge 30 (k_ p))) by lia.
  replace ((Z.of_nat (length mid + 1) - 1) * 8) with (Z.of_nat (length mid) * 8) by lia.
  by rewrite (Z.mod_small (Z.of_nat (length mid) * 8)) by lia.
Qed.

Lemma bloom_filter_ok (p : BloomFilterPolicy) (keys : list bytes) (dst : bytes) :
  1 <= k_ p <= 30 -> 0 <= Z.of_nat (length keys) * bits_per_key_ p < 2 ^ 63 ->
  exists filter, BloomCreateFilter false p keys dst = Some (dst ++ filter) /\
    Z.of_nat (length filter) = filter_bytes (bits_per_key_ p) (length keys) + 1 /\
    forall k, k ∈ keys -> BloomKeyMayMatch k filter = Some true.
Proof.
  intros Hk Hb. destruct (bloom_layout p keys dst Hb) as [Hn ->]. cbv beta zeta.
  set (n := filter_bytes _ _) in *. set (mid := replicate (Z.to_nat n) Byte.x00).
  assert (Z.of_nat (length mid) = n) as Hl by (unfold mid; rewrite length_replicate; lia).
  destruct (set_keys_ok (Z.to_nat (k_ p)) (n * 8) keys dst mid [byte.of_Z (k_ p)])
    as (mid' & -> & [Hl' _] & Hp); [lia|lia|].
  exists (mid' ++ [byte.of_Z (k_ p)]). split; [done|].
  split; [rewrite length_app; simpl; lia|]. intros k Hin.
  assert (Z.of_nat (length mid') = n) as Hl2 by lia.
  rewrite BloomKeyMayMatch_probes, Hl2 by lia. apply test_probes_ok; [lia|lia|by apply Hp].
Qed.

(** The policy of [NewBloomFilterPolicy(bits_per_key)]. *)
Definition NewBloomFilterPolicy (bits_per_key : Z) : FilterPolicy :=
  {| PolicyName := bs "leveldb.BuiltinBloomFilter2";
     CreateFilter := BloomCreateFilter false (BloomFilterPolicy_new bits_per_key);
     KeyMayMatch := BloomKeyMayMatch |}.

#[export] Instance Bloom_FilterPolicySpec (bpk : Z) :
  FilterPolicySpec (NewBloomFilterPolicy bpk)
    (fun keys => 0 <= Z.of_nat (length keys) * bpk < 2 ^ 63) eq.
Proof.
  constructor. intros keys dst Hb.
  destruct (bloom_filter_ok (BloomFilterPolicy_new bpk) keys dst (new_k bpk) Hb)
    as (f & ? & _ & Hf). exists f. split; [done|]. intros k k' Hk <-. by apply Hf.
Qed.

Lemma test_probes_total (n : nat) (bits h d : Z) (array : bytes) :
  0 < bits -> bits <= 8 * Z.of_nat (length array) -> is_Some (test_probes n bits h d array).
Proof.
  intros Hb Hl. revert h. induction n as [|n IH]; intros h; simpl; [done|].
  destruct (lookup_lt_is_Some_2 array _ (probe_index bits h array Hb Hl)) as [c ->]. simpl. destruct (_ =? _); [done|apply IH].
Qed.

#[export] Instance Bloom_FilterPolicyTotal (bpk : Z) : FilterPolicyTotal (NewBloomFilterPolicy bpk) (fun _ => True).
Proof.
  constructor. intros key filter _ Hlen. simpl. unfold BloomKeyMayMatch.
  destruct (Nat.ltb_spec (length filter) 2); [done|].
  destruct (lookup_lt_is_Some_2 filter (length filter - 1) ltac:(lia)) as [c ->]. cbn [mbind option_bind].
  destruct (_ <? _); [done|]. unfold u64. rewrite (Z.mod_small ((Z.of_nat (length filter) - 1) * 8)) by lia.
  apply test_probes_total; lia.
Qed.

Lemma zero_filter_rejects (p : BloomFilterPolicy) (n : nat) (key : bytes) :
  1 <= k_ p <= 30 -> 8 <= Z.of_nat n < 2 ^ 60 + 1 ->
  BloomKeyMayMatch key (replicate n Byte.x00 ++ [byte.of_Z (k_ p)]) = Some false.
Proof.
  intros Hk Hn. rewrite BloomKeyMayMatch_probes by (rewrite ?length_replicate; lia).
  destruct (Z.to_nat (k_ p)) as [|k] eqn:E; [lia|]. cbn [test_probes].
  pose proof (probe_index (Z.of_nat (length (replicate n Byte.x00)) * 8) (BloomHash key)
    (replicate n Byte.x00) ltac:(rewrite length_replicate; lia) ltac:(lia)) as Hi.
  rewrite lookup_app_l by done. rewrite length_replicate in *.
  by rewrite lookup_replicate_2 by done.
Qed.

(** ** Properties *)

(** C30. The bloom filter has no false negatives: for any number of bits per key,
    the filter [CreateFilter] appends for a list of keys takes one byte more
    than the bits rounded up to bytes, leaves the earlier contents of the
    buffer as they are, and matches every key of the list. *)
Theorem bloom_no_false_negative (bits_per_key : Z) (keys : list bytes) (dst : bytes) :
  0 <= Z.of_nat (length keys) * bits_per_key < 2 ^ 63 ->
  exists filter,
    BloomCreateFilter false (BloomFilterPolicy_new bits_per_key) keys dst = Some (dst ++ filter) /\
    Z.of_nat (length filter) = (Z.max 64 (Z.of_nat (length keys) * bits_per_key) + 7) / 8 + 1 /\
    forall k, k ∈ keys -> BloomKeyMayMatch k filter = Some true.
Proof. intros Hb. exact (bloom_filter_ok (BloomFilterPolicy_new bits_per_key) keys dst (new_k _) Hb). Qed.

Lemma bloom_no_false_negative_witness :
  exists filter,
    BloomCreateFilter false (BloomFilterPolicy_new 10) [bs "hello"; bs "world"] (bs "x")
      = Some (bs "x" ++ filter) /\
    Z.of_nat (length filter) = (Z.max 64 (Z.of_nat 2 * 10) + 7) / 8 + 1 /\
    forall k, k ∈ [bs "hello"; bs "world"] -> BloomKeyMayMatch k filter = Some true.
Proof. apply (bloom_no_false_negative 10 [bs "hello"; bs "world"] (bs "x")). simpl. lia. Defined.

(** With [pmem_test] set, the filter that [CreateFilter] leaves in [*dst]
    rejects every key, also those it was built from. *)
Theorem bloom_pmem_rejects_all (bits_per_key : Z) (keys : list bytes) (dst : bytes) :
  0 <= Z.of_nat (length keys) * bits_per_key < 2 ^ 63 ->
  exists filter,
    BloomCreateFilter true (BloomFilterPolicy_new bits_per_key) keys dst = Some (dst ++ filter) /\
    forall k, BloomKeyMayMatch k filter = Some false.
Proof.
  intros Hb. set (p := BloomFilterPolicy_new bits_per_key).
  destruct (bloom_layout p keys dst Hb) as [Hn ->].
  eexists. split; [reflexivity|]. intros k. apply zero_filter_rejects; [apply new_k|lia].
Qed.

Lemma bloom_pmem_rejects_all_witness :
  exists filter,
    BloomCreateFilter true (BloomFilterPolicy_new 10) [bs "hello"] [] = Some ([] ++ filter) /\
    forall k, BloomKeyMayMatch k filter = Some false.
Proof. apply (bloom_pmem_rejects_all 10 [bs "hello"] []). simpl. lia. Defined.

End Bloom.

(** The vectors of [util/hash_test.cc]. *)
Example Hash_vectors :
  Hash [] 0xbc9f1d34 = 0xbc9f1d34 /\
  Hash [Byte.x62] 0xbc9f1d34 = 0xef1345c4 /\
  Hash [Byte.xc3; Byte.x97] 0xbc9f1d34 = 0x5b663814 /\
  Hash [Byte.xe2; Byte.x99; Byte.xa5] 0xbc9f1d34 = 0x323c078f /\
  Hash [Byte.xe1; Byte.x80; Byte.xb9; Byte.x32] 0xbc9f1d34 = 0xed21633a.
Proof. repeat split; vm_compute; reflexivity. Qed.
