(* ===== verification/Crc32c.v ===== *)
(** * CRC-32C

    [util/crc32c.cc] and [util/crc32c.h]: the portable implementation, which
    runs four interleaved strides over the data, and its equivalence with the
    division by the Castagnoli polynomial one bit at a time.

    A pointer to the data is its address and the bytes from there on;
    [port::AcceleratedCRC32C] is a parameter, since it calls a library when
    there is one. *)

From Stdlib Require Import String Btauto.
From S2P Require Import Prelude Status Coding Crc32cTables.

(** ** Definitions *)

Definition kCRC32Xor : Z := 0xffffffff.

Definition ReadUint32LE (buffer : bytes) : Z := le_combine (take 4 buffer).

(** [RoundUp<4>]. *)
Definition RoundUp4 (pointer : Z) : Z := Z.land (pointer + 3) (Z.lnot 3).

Definition STEP1 (l : Z) (c : Byte.byte) : Z :=
  let c := Z.lxor (Z.land l 0xff) (byte.unsigned c) in
  Z.lxor (nth (Z.to_nat c) kByteExtensionTable 0) (Z.shiftr l 8).

(** [STEP4(s)], with the word at [p + s * 4]. *)
Definition STEP4 (word crc : Z) : Z :=
  Z.lxor (Z.lxor (Z.lxor (Z.lxor word
    (nth (Z.to_nat (Z.land crc 0xff)) kStrideExtensionTable3 0))
    (nth (Z.to_nat (Z.land (Z.shiftr crc 8) 0xff)) kStrideExtensionTable2 0))
    (nth (Z.to_nat (Z.land (Z.shiftr crc 16) 0xff)) kStrideExtensionTable1 0))
    (nth (Z.to_nat (Z.shiftr crc 24)) kStrideExtensionTable0 0).

Record strides := MkStrides { crc0 : Z; crc1 : Z; crc2 : Z; crc3 : Z }.

(** The loop over 16-byte swaths ([STEP16]). *)
Fixpoint swath_loop (fuel : nat) (p : bytes) (s : strides) : bytes * strides :=
  match fuel with
  | O => (p, s)
  | S fuel' =>
      if (16 <=? length p)%nat then
        swath_loop fuel' (drop 16 p)
          {| crc0 := STEP4 (ReadUint32LE p) (crc0 s);
             crc1 := STEP4 (ReadUint32LE (drop 4 p)) (crc1 s);
             crc2 := STEP4 (ReadUint32LE (drop 8 p)) (crc2 s);
             crc3 := STEP4 (ReadUint32LE (drop 12 p)) (crc3 s) |}
      else (p, s)
  end.

(** The loop that advances one word at a time and rotates the strides. *)
Fixpoint word_loop (fuel : nat) (p : bytes) (s : strides) : bytes * strides :=
  match fuel with
  | O => (p, s)
  | S fuel' =>
      if (4 <=? length p)%nat then
        let tmp := STEP4 (ReadUint32LE p) (crc0 s) in
        word_loop fuel' (drop 4 p)
          {| crc0 := crc1 s; crc1 := crc2 s; crc2 := crc3 s; crc3 := tmp |}
      else (p, s)
  end.

(** [STEP4W(w)]: the new value of [l]. *)
Definition STEP4W (l w : Z) : Z :=
  Nat.iter 4 (fun w => Z.lxor (Z.shiftr w 8) (nth (Z.to_nat (Z.land w 0xff)) kByteExtensionTable 0))
    (Z.lxor w l).

(** The part of [Extend] between the alignment and the last few bytes. *)
Definition stride_part (l : Z) (p : bytes) : Z * bytes :=
  if (16 <=? length p)%nat then
    let s := {| crc0 := Z.lxor (ReadUint32LE p) l; crc1 := ReadUint32LE (drop 4 p);
                crc2 := ReadUint32LE (drop 8 p); crc3 := ReadUint32LE (drop 12 p) |} in
    let '(p, s) := swath_loop (length p) (drop 16 p) s in
    let '(p, s) := word_loop (length p) p s in
    (STEP4W (STEP4W (STEP4W (STEP4W 0 (crc0 s)) (crc1 s)) (crc2 s)) (crc3 s), p)
  else (l, p).

Definition ExtendPortable (addr crc : Z) (buf : bytes) : Z :=
  let l := Z.lxor crc kCRC32Xor in
  let x := Z.to_nat (RoundUp4 addr - addr) in
  let '(l, p) := if (x <=? length buf)%nat then (fold_left STEP1 (take x buf) l, drop x buf)
                 else (l, buf) in
  let '(l, p) := stride_part l p in
  Z.lxor (fold_left STEP1 p l) kCRC32Xor.

(** [port::AcceleratedCRC32C]. *)
Class CrcPort := { AcceleratedCRC32C : Z -> bytes -> Z }.

Definition CanAccelerateCRC32C {P : CrcPort} : bool :=
  AcceleratedCRC32C 0 (bs "TestCRCBuffer") =? 0xdcbc59fa.

Definition Extend {P : CrcPort} (addr crc : Z) (buf : bytes) : Z :=
  if CanAccelerateCRC32C then AcceleratedCRC32C crc buf else ExtendPortable addr crc buf.

Definition Value {P : CrcPort} (addr : Z) (data : bytes) : Z := Extend addr 0 data.

Definition kMaskDelta : Z := 0xa282ead8.

Definition Mask (crc : Z) : Z :=
  u32 (Z.lor (Z.shiftr crc 15) (u32 (Z.shiftl crc 17)) + kMaskDelta).

Definition Unmask (masked_crc : Z) : Z :=
  let rot := u32 (masked_crc - kMaskDelta) in
  Z.lor (Z.shiftr rot 17) (u32 (Z.shiftl rot 15)).

(** ** The reference: division by the polynomial, bit by bit *)

Definition bit_step (l : Z) : Z :=
  Z.lxor (Z.shiftr l 1) (if Z.odd l then 0x82f63b78 else 0).

(** [n] zero bytes. *)
Definition zeros (n : nat) (l : Z) : Z := Nat.iter (8 * n) bit_step l.

Definition crc_byte (l : Z) (c : Byte.byte) : Z := zeros 1 (Z.lxor l (byte.unsigned c)).

Definition crc32c (crc : Z) (data : bytes) : Z :=
  Z.lxor (fold_left crc_byte data (Z.lxor crc kCRC32Xor)) kCRC32Xor.

(** What the port promises: its function is not used, or computes CRC-32C. *)
Class CrcPortSpec (P : CrcPort) := {
  accelerated_crc : CanAccelerateCRC32C = true ->
    forall crc data, AcceleratedCRC32C crc data = crc32c crc data }.

(** The port built without the library, whose function returns 0. *)
Definition port_posix : CrcPort := {| AcceleratedCRC32C _ _ := 0 |}.

#[export] Instance port_posix_spec : CrcPortSpec port_posix.
Proof. by constructor. Qed.

(** ** Linearity *)

Lemma bit_step_lxor (a b : Z) : bit_step (Z.lxor a b) = Z.lxor (bit_step a) (bit_step b).
Proof.
  unfold bit_step. rewrite Z.shiftr_lxor.
  assert (Z.odd (Z.lxor a b) = xorb (Z.odd a) (Z.odd b)) as ->
    by (rewrite <- !Z.bit0_odd; apply Z.lxor_spec).
  set (p := 0x82f63b78).
  assert ((if xorb (Z.odd a) (Z.odd b) then p else 0)
    = Z.lxor (if Z.odd a then p else 0) (if Z.odd b then p else 0)) as ->
    by (by destruct (Z.odd a), (Z.odd b)).
  rewrite !Z.lxor_assoc. f_equal. rewrite <- !Z.lxor_assoc. f_equal. apply Z.lxor_comm.
Qed.

Lemma zeros_lxor (n : nat) (a b : Z) : zeros n (Z.lxor a b) = Z.lxor (zeros n a) (zeros n b).
Proof.
  unfold zeros. induction (8 * n)%nat as [|k IH]; [done|]. simpl. by rewrite IH, bit_step_lxor.
Qed.

Lemma zeros_add (m n : nat) (l : Z) : zeros (m + n) l = zeros m (zeros n l).
Proof. unfold zeros. rewrite Nat.mul_add_distr_l. apply Nat.iter_add. Qed.

Lemma zeros_0 (l : Z) : zeros 0 l = l.
Proof. done. Qed.

(** A byte position above the lowest shifts down. *)
Lemma zeros_shiftl (y : Z) : zeros 1 (Z.shiftl y 8) = y.
Proof.
  assert (forall n y, bit_step (Z.shiftl y (Z.of_nat (S n))) = Z.shiftl y (Z.of_nat n)) as H.
  { intros n z. unfold bit_step.
    assert (Z.odd (Z.shiftl z (Z.of_nat (S n))) = false) as ->.
    { rewrite <- Z.bit0_odd. apply Z.shiftl_spec_low. lia. }
    rewrite Z.lxor_0_r, Z.shiftr_shiftl_l by lia. f_equal. lia. }
  unfold zeros. change (8 * 1)%nat with 8%nat. change (Z.shiftl y 8) with (Z.shiftl y (Z.of_nat 8)).
  cbn [Nat.iter nat_rect].
  rewrite (H 7%nat), (H 6%nat), (H 5%nat), (H 4%nat), (H 3%nat), (H 2%nat), (H 1%nat), (H 0%nat).
  apply Z.shiftl_0_r.
Qed.

Ltac lxor_ac := apply Z.bits_inj'; intros; rewrite ?Z.lxor_spec; btauto.

Lemma low_high (x k : Z) : 0 <= k -> x = Z.lxor (x mod 2 ^ k) (Z.shiftl (Z.shiftr x k) k).
Proof.
  intros Hk. apply Z.bits_inj'. intros n Hn. rewrite Z.lxor_spec, Z.shiftl_spec by lia.
  destruct (Z.lt_ge_cases n k).
  - rewrite Z.mod_pow2_bits_low, (Z.testbit_neg_r _ (n - k)), xorb_false_r by lia. done.
  - rewrite Z.mod_pow2_bits_high, Z.shiftr_spec, xorb_false_l by lia. f_equal. lia.
Qed.

(** ** The tables *)

Definition table_is (table : list Z) (n : nat) (s : Z) : bool :=
  forallb (fun i => nth i table 0 =? zeros n (Z.shiftl (Z.of_nat i) s)) (seq 0 256).

Lemma table_is_spec (table : list Z) (n : nat) (s i : Z) :
  table_is table n s = true -> 0 <= i < 256 ->
  nth (Z.to_nat i) table 0 = zeros n (Z.shiftl i s).
Proof.
  unfold table_is. rewrite forallb_forall. intros H Hi.
  specialize (H (Z.to_nat i)). rewrite in_seq, Z2Nat.id in H by lia. apply Z.eqb_eq, H. lia.
Qed.

Lemma byte_table_is : table_is kByteExtensionTable 1 0 = true.
Proof. vm_compute. reflexivity. Qed.

Lemma stride_table_is :
  table_is kStrideExtensionTable3 16 0 = true /\ table_is kStrideExtensionTable2 16 8 = true /\
  table_is kStrideExtensionTable1 16 16 = true /\ table_is kStrideExtensionTable0 16 24 = true.
Proof. vm_compute. done. Qed.

Lemma byte_table (i : Z) : 0 <= i < 256 -> nth (Z.to_nat i) kByteExtensionTable 0 = zeros 1 i.
Proof. intros Hi. by rewrite (table_is_spec _ 1 0 i byte_table_is Hi), Z.shiftl_0_r. Qed.

Lemma stride_tables (i : Z) :
  0 <= i < 256 ->
  nth (Z.to_nat i) kStrideExtensionTable3 0 = zeros 16 i /\
  nth (Z.to_nat i) kStrideExtensionTable2 0 = zeros 16 (Z.shiftl i 8) /\
  nth (Z.to_nat i) kStrideExtensionTable1 0 = zeros 16 (Z.shiftl i 16) /\
  nth (Z.to_nat i) kStrideExtensionTable0 0 = zeros 16 (Z.shiftl i 24).
Proof.
  intros Hi. destruct stride_table_is as (H3 & H2 & H1 & H0). split; [|split; [|split]].
  - rewrite <- (Z.shiftl_0_r i) at 2. exact (table_is_spec _ 16 0 i H3 Hi).
  - exact (table_is_spec _ 16 8 i H2 Hi).
  - exact (table_is_spec _ 16 16 i H1 Hi).
  - exact (table_is_spec _ 16 24 i H0 Hi).
Qed.

(** ** The steps *)

Lemma land_ff (x : Z) : Z.land x 0xff = x mod 256.
Proof. apply (land_mask_mod x 8). lia. Qed.

Lemma lxor_bound (k a b : Z) :
  0 <= k -> 0 <= a < 2 ^ k -> 0 <= b < 2 ^ k -> 0 <= Z.lxor a b < 2 ^ k.
Proof.
  intros Hk Ha Hb. replace (Z.lxor a b) with (Z.lxor a b mod 2 ^ k).
  - apply Z.mod_pos_bound. by apply Z.pow_pos_nonneg.
  - rewrite lxor_mod_pow2 by lia. by rewrite (Z.mod_small a), (Z.mod_small b) by lia.
Qed.

Lemma bit_step_bound (l : Z) : 0 <= l < 2 ^ 32 -> 0 <= bit_step l < 2 ^ 32.
Proof.
  intros Hl. unfold bit_step. apply lxor_bound; [lia| |destruct (Z.odd l); lia].
  rewrite Z.shiftr_div_pow2 by lia. change (2 ^ 1) with 2.
  split; [apply Z.div_pos; lia|apply Z.div_lt_upper_bound; lia].
Qed.

Lemma zeros_bound (n : nat) (l : Z) : 0 <= l < 2 ^ 32 -> 0 <= zeros n l < 2 ^ 32.
Proof.
  intros Hl. unfold zeros. induction (8 * n)%nat as [|k IH]; [done|].
  change (Nat.iter (S k) bit_step l) with (bit_step (Nat.iter k bit_step l)).
  by apply bit_step_bound.
Qed.

(** One table lookup and a shift is one zero byte. *)
Lemma zeros_1 (x : Z) :
  zeros 1 x = Z.lxor (Z.shiftr x 8) (nth (Z.to_nat (Z.land x 0xff)) kByteExtensionTable 0).
Proof.
  rewrite land_ff, byte_table by (apply Z.mod_pos_bound; lia).
  rewrite (low_high x 8) at 1 by lia. rewrite zeros_lxor, zeros_shiftl. apply Z.lxor_comm.
Qed.

Lemma STEP1_ok (l : Z) (c : Byte.byte) : STEP1 l c = crc_byte l c.
Proof.
  unfold STEP1, crc_byte. rewrite zeros_1, Z.lxor_comm, Z.shiftr_lxor.
  pose proof (byte_range c) as Hc.
  assert (Z.shiftr (byte.unsigned c) 8 = 0) as ->.
  { rewrite Z.shiftr_div_pow2 by lia. by apply Z.div_small. }
  rewrite Z.lxor_0_r. f_equal. f_equal. f_equal. rewrite !land_ff.
  rewrite (lxor_mod_pow2 _ _ 8) by lia. by rewrite (Z.mod_small (byte.unsigned c)).
Qed.

Lemma fold_STEP1 (p : bytes) (l : Z) : fold_left STEP1 p l = fold_left crc_byte p l.
Proof. revert l. induction p as [|c p IH]; intros l; [done|]. by rewrite !fold_left_cons, STEP1_ok. Qed.

Lemma STEP4W_ok (l w : Z) : STEP4W l w = zeros 4 (Z.lxor w l).
Proof.
  unfold STEP4W. change 4%nat with (1 + (1 + (1 + (1 + 0))))%nat at 2.
  rewrite !zeros_add, zeros_0, !zeros_1. done.
Qed.

Lemma word_bytes (x : Z) :
  x = Z.lxor (x mod 256) (Z.lxor (Z.shiftl (Z.shiftr x 8 mod 256) 8)
        (Z.lxor (Z.shiftl (Z.shiftr x 16 mod 256) 16) (Z.shiftl (Z.shiftr x 24) 24))).
Proof.
  transitivity (Z.lxor (x mod 256) (Z.shiftl (Z.shiftr x 8) 8)); [apply (low_high x 8); lia|].
  f_equal. rewrite (low_high (Z.shiftr x 8) 8) at 1 by lia.
  rewrite Z.shiftl_lxor, Z.shiftl_shiftl, Z.shiftr_shiftr by lia. f_equal. change (8 + 8) with 16.
  rewrite (low_high (Z.shiftr x 16) 8) at 1 by lia.
  by rewrite Z.shiftl_lxor, Z.shiftl_shiftl, Z.shiftr_shiftr by lia.
Qed.

Lemma STEP4_ok (w crc : Z) : 0 <= crc < 2 ^ 32 -> STEP4 w crc = Z.lxor w (zeros 16 crc).
Proof.
  intros Hc. unfold STEP4. rewrite !land_ff.
  assert (0 <= Z.shiftr crc 24 < 256) as H24.
  { rewrite Z.shiftr_div_pow2 by lia. split; [apply Z.div_pos; lia|apply Z.div_lt_upper_bound; lia]. }
  destruct (stride_tables (crc mod 256)) as (-> & _ & _ & _); [apply Z.mod_pos_bound; lia|].
  destruct (stride_tables (Z.shiftr crc 8 mod 256)) as (_ & -> & _ & _); [apply Z.mod_pos_bound; lia|].
  destruct (stride_tables (Z.shiftr crc 16 mod 256)) as (_ & _ & -> & _); [apply Z.mod_pos_bound; lia|].
  destruct (stride_tables (Z.shiftr crc 24)) as (_ & _ & _ & ->); [done|].
  rewrite !Z.lxor_assoc, <- !zeros_lxor. f_equal. f_equal.
  symmetry. apply word_bytes.
Qed.

(** ** Words *)

#[global] Arguments zeros : simpl never.

Lemma le_combine_lxor (b : Byte.byte) (p : bytes) :
  le_combine (b :: p) = Z.lxor (byte.unsigned b) (Z.shiftl (le_combine p) 8).
Proof.
  change (le_combine (b :: p)) with (Z.lor (byte.unsigned b) (Z.shiftl (le_combine p) 8)).
  rewrite Z.lxor_lor; [done|]. pose proof (byte_range b) as Hb.
  apply Z.bits_inj'. intros n Hn. rewrite Z.land_spec, Z.shiftl_spec, Z.bits_0 by lia.
  destruct (Z.lt_ge_cases n 8).
  - rewrite (Z.testbit_neg_r _ (n - 8)) by lia. apply andb_false_r.
  - rewrite <- (Z.mod_small (byte.unsigned b) (2 ^ 8)) by lia.
    by rewrite Z.mod_pow2_bits_high by lia.
Qed.

(** Some bytes in a row are their little-endian word and as many zeros. *)
Lemma fold_bytes (p : bytes) (l : Z) :
  fold_left crc_byte p l = zeros (length p) (Z.lxor l (le_combine p)).
Proof.
  revert l. induction p as [|b p IH]; intros l.
  - simpl. by rewrite Z.lxor_0_r.
  - rewrite fold_left_cons. cbn [length]. rewrite IH, <- Nat.add_1_r, zeros_add. f_equal.
    rewrite le_combine_lxor, <- Z.lxor_assoc, zeros_lxor, zeros_shiftl. done.
Qed.

Lemma fold_word (p : bytes) (l : Z) :
  (4 <= length p)%nat ->
  fold_left crc_byte p l = fold_left crc_byte (drop 4 p) (zeros 4 (Z.lxor l (ReadUint32LE p))).
Proof.
  intros Hl. rewrite <- (take_drop 4 p) at 1. rewrite fold_left_app, (fold_bytes (take 4 p)).
  by rewrite length_take, Nat.min_l by lia.
Qed.

Lemma ReadUint32LE_bound (p : bytes) : 0 <= ReadUint32LE p < 2 ^ 32.
Proof.
  unfold ReadUint32LE. pose proof (le_combine_bound (take 4 p)) as [H0 H1]. split; [done|].
  eapply Z.lt_le_trans; [exact H1|]. apply Z.pow_le_mono_r; [lia|]. rewrite length_take. lia.
Qed.

(** ** Strides *)

Definition strides_ok (s : strides) : Prop :=
  0 <= crc0 s < 2 ^ 32 /\ 0 <= crc1 s < 2 ^ 32 /\ 0 <= crc2 s < 2 ^ 32 /\ 0 <= crc3 s < 2 ^ 32.

(** The state that four strides stand for. *)
Definition meaning (s : strides) : Z :=
  Z.lxor (zeros 16 (crc0 s)) (Z.lxor (zeros 12 (crc1 s)) (Z.lxor (zeros 8 (crc2 s)) (zeros 4 (crc3 s)))).

Lemma zeros_zeros (m n : nat) (l : Z) : zeros m (zeros n l) = zeros (m + n) l.
Proof. symmetry. apply zeros_add. Qed.

Ltac zeros_solve :=
  repeat (rewrite ?zeros_lxor, ?zeros_zeros; cbn [Nat.add]); lxor_ac.

Lemma meaning_combine (s : strides) :
  STEP4W (STEP4W (STEP4W (STEP4W 0 (crc0 s)) (crc1 s)) (crc2 s)) (crc3 s) = meaning s.
Proof. rewrite !STEP4W_ok, Z.lxor_0_r. unfold meaning. zeros_solve. Qed.

Lemma STEP4_bound (w crc : Z) : 0 <= w < 2 ^ 32 -> 0 <= crc < 2 ^ 32 -> 0 <= STEP4 w crc < 2 ^ 32.
Proof. intros Hw Hc. rewrite STEP4_ok by done. apply lxor_bound; [lia|done|by apply zeros_bound]. Qed.

Lemma fold_swath (p : bytes) (l : Z) :
  (16 <= length p)%nat ->
  fold_left crc_byte p l
  = fold_left crc_byte (drop 16 p)
      (Z.lxor (zeros 16 (Z.lxor l (ReadUint32LE p)))
        (Z.lxor (zeros 12 (ReadUint32LE (drop 4 p)))
          (Z.lxor (zeros 8 (ReadUint32LE (drop 8 p))) (zeros 4 (ReadUint32LE (drop 12 p)))))).
Proof.
  intros Hl. rewrite fold_word by lia. rewrite fold_word by (rewrite length_drop; lia).
  rewrite fold_word by (rewrite !length_drop; lia). rewrite fold_word by (rewrite !length_drop; lia).
  rewrite !drop_drop. cbn [Nat.add]. f_equal. zeros_solve.
Qed.

Lemma swath_loop_ok (fuel : nat) (p : bytes) (s : strides) :
  strides_ok s ->
  let '(p', s') := swath_loop fuel p s in
  strides_ok s' /\ fold_left crc_byte p' (meaning s') = fold_left crc_byte p (meaning s).
Proof.
  revert p s. induction fuel as [|fuel IH]; intros p s Hs; [done|]. cbn [swath_loop].
  destruct (Nat.leb_spec 16 (length p)) as [Hl|]; [|done].
  match goal with |- context [swath_loop fuel ?q ?t] => specialize (IH q t); destruct (swath_loop fuel q t) as [p' s'] end.
  destruct Hs as (H0 & H1 & H2 & H3). destruct IH as [Hs' ->].
  { repeat split; apply STEP4_bound; apply ReadUint32LE_bound || done. }
  split; [done|]. rewrite (fold_swath p) by done. f_equal. unfold meaning. cbn [crc0 crc1 crc2 crc3].
  rewrite !STEP4_ok by done. zeros_solve.
Qed.

Lemma word_loop_ok (fuel : nat) (p : bytes) (s : strides) :
  strides_ok s ->
  let '(p', s') := word_loop fuel p s in
  strides_ok s' /\ fold_left crc_byte p' (meaning s') = fold_left crc_byte p (meaning s).
Proof.
  revert p s. induction fuel as [|fuel IH]; intros p s Hs; [done|]. cbn [word_loop].
  destruct (Nat.leb_spec 4 (length p)) as [Hl|]; [|done].
  match goal with |- context [word_loop fuel ?q ?t] => specialize (IH q t); destruct (word_loop fuel q t) as [p' s'] end.
  destruct Hs as (H0 & H1 & H2 & H3). destruct IH as [Hs' ->].
  { repeat split; cbn [crc0 crc1 crc2 crc3]; try apply STEP4_bound; apply ReadUint32LE_bound || lia. }
  split; [done|]. rewrite (fold_word p) by done. f_equal. unfold meaning. cbn [crc0 crc1 crc2 crc3].
  rewrite STEP4_ok by done. zeros_solve.
Qed.

Lemma stride_part_ok (l : Z) (p : bytes) :
  0 <= l < 2 ^ 32 ->
  let '(l', p') := stride_part l p in fold_left crc_byte p' l' = fold_left crc_byte p l.
Proof.
  intros Hl. unfold stride_part. destruct (Nat.leb_spec 16 (length p)) as [Hp|]; [|done].
  match goal with |- context [swath_loop ?n ?q ?t] =>
    pose proof (swath_loop_ok n q t) as H1; destruct (swath_loop n q t) as [p1 s1] end.
  destruct H1 as [Hs1 H1].
  { split; [apply lxor_bound; [lia|apply ReadUint32LE_bound|done]|].
    split; [|split]; apply ReadUint32LE_bound. }
  pose proof (word_loop_ok (length p1) p1 s1 Hs1) as H2.
  destruct (word_loop (length p1) p1 s1) as [p2 s2]. destruct H2 as [_ H2].
  rewrite meaning_combine, H2, H1, (fold_swath p) by done. f_equal.
  unfold meaning. cbn [crc0 crc1 crc2 crc3]. zeros_solve.
Qed.

Lemma crc_byte_bound (l : Z) (c : Byte.byte) : 0 <= l < 2 ^ 32 -> 0 <= crc_byte l c < 2 ^ 32.
Proof.
  intros Hl. apply zeros_bound, lxor_bound; [lia|done|]. pose proof (byte_range c). lia.
Qed.

Lemma fold_crc_bound (p : bytes) (l : Z) :
  0 <= l < 2 ^ 32 -> 0 <= fold_left crc_byte p l < 2 ^ 32.
Proof.
  revert l. induction p as [|c p IH]; intros l Hl; [done|].
  rewrite fold_left_cons. apply (IH (crc_byte l c)). by apply crc_byte_bound.
Qed.

Lemma ExtendPortable_ok (addr crc : Z) (buf : bytes) :
  0 <= crc < 2 ^ 32 -> ExtendPortable addr crc buf = crc32c crc buf.
Proof.
  intros Hc. unfold ExtendPortable, crc32c. set (l := Z.lxor crc kCRC32Xor).
  assert (0 <= l < 2 ^ 32) as Hl by (apply lxor_bound; unfold kCRC32Xor; lia).
  set (x := Z.to_nat _). destruct (if (x <=? length buf)%nat then _ else _) as [l1 p1] eqn:E.
  assert (0 <= l1 < 2 ^ 32 /\ fold_left crc_byte p1 l1 = fold_left crc_byte buf l) as [Hl1 H1].
  { destruct (x <=? length buf)%nat; injection E as <- <-; [|done]. rewrite fold_STEP1.
    split; [by apply fold_crc_bound|]. by rewrite <- fold_left_app, take_drop. }
  pose proof (stride_part_ok l1 p1 Hl1) as H2. destruct (stride_part l1 p1) as [l2 p2].
  by rewrite fold_STEP1, H2, H1.
Qed.

Section port.
Context {P : CrcPort} {HP : CrcPortSpec P}.

Lemma Extend_ok (addr crc : Z) (buf : bytes) :
  0 <= crc < 2 ^ 32 -> Extend addr crc buf = crc32c crc buf.
Proof.
  intros Hc. unfold Extend. destruct CanAccelerateCRC32C eqn:E.
  - by apply accelerated_crc.
  - by apply ExtendPortable_ok.
Qed.

Lemma Value_ok (addr : Z) (data : bytes) : Value addr data = crc32c 0 data.
Proof. apply Extend_ok. lia. Qed.
End port.

Lemma crc32c_bound (crc : Z) (data : bytes) : 0 <= crc < 2 ^ 32 -> 0 <= crc32c crc data < 2 ^ 32.
Proof.
  intros Hc. unfold crc32c. apply lxor_bound; [lia| |unfold kCRC32Xor; lia].
  apply fold_crc_bound, lxor_bound; unfold kCRC32Xor; lia.
Qed.

Lemma crc32c_app (crc : Z) (a b : bytes) : crc32c crc (a ++ b) = crc32c (crc32c crc a) b.
Proof.
  unfold crc32c. rewrite fold_left_app, (Z.lxor_assoc _ kCRC32Xor kCRC32Xor), Z.lxor_nilpotent.
  by rewrite Z.lxor_0_r.
Qed.

(** ** Masking *)

(** Rotation to the right exchanges the low and the high part. *)
Lemma rotate_right (x k : Z) :
  0 <= k <= 32 -> 0 <= x < 2 ^ 32 ->
  Z.lor (Z.shiftr x k) (u32 (Z.shiftl x (32 - k))) = x mod 2 ^ k * 2 ^ (32 - k) + x / 2 ^ k.
Proof.
  intros Hk Hx. assert (2 ^ 32 = 2 ^ k * 2 ^ (32 - k)) as H32
    by (rewrite <- Z.pow_add_r by lia; f_equal; lia).
  assert (0 < 2 ^ k) by (apply Z.pow_pos_nonneg; lia).
  assert (0 < 2 ^ (32 - k)) by (apply Z.pow_pos_nonneg; lia).
  assert (u32 (Z.shiftl x (32 - k)) = Z.shiftl (x mod 2 ^ k) (32 - k)) as ->.
  { unfold u32. rewrite !Z.shiftl_mul_pow2 by lia. rewrite H32.
    by rewrite Z.mul_mod_distr_r by lia. }
  rewrite Z.lor_comm, lor_shiftl_add, Z.shiftr_div_pow2 by
    (lia || (rewrite Z.shiftr_div_pow2 by lia; split; [apply Z.div_pos; lia|apply Z.div_lt_upper_bound; lia])).
  done.
Qed.

Lemma Unmask_Mask (crc : Z) : 0 <= crc < 2 ^ 32 -> Unmask (Mask crc) = crc.
Proof.
  intros Hc. unfold Unmask, Mask. change (Z.shiftl crc 17) with (Z.shiftl crc (32 - 15)).
  rewrite (rotate_right crc 15) by lia.
  pose proof (Z.mod_pos_bound crc (2 ^ 15) ltac:(lia)) as Hm.
  pose proof (Z.div_mod crc (2 ^ 15) ltac:(lia)) as Hd.
  assert (0 <= crc / 2 ^ 15 < 2 ^ 17) as Hq
    by (split; [apply Z.div_pos; lia|apply Z.div_lt_upper_bound; lia]).
  set (r := crc mod 2 ^ 15 * 2 ^ (32 - 15) + crc / 2 ^ 15).
  assert (u32 (u32 (r + kMaskDelta) - kMaskDelta) = r) as ->.
  { unfold u32. rewrite Zminus_mod_idemp_l. replace (r + kMaskDelta - kMaskDelta) with r by lia.
    apply Z.mod_small. unfold r. lia. }
  change (Z.shiftl r 15) with (Z.shiftl r (32 - 17)). rewrite (rotate_right r 17) by (unfold r; lia). unfold r.
  change (32 - 15) with 17. change (32 - 17) with 15.
  rewrite Z.add_comm, Z.div_add_l, (Z.add_comm (_ * _)), Z.mod_add by lia.
  rewrite (Z.div_small (crc / 2 ^ 15)), (Z.mod_small (crc / 2 ^ 15)) by lia. lia.
Qed.

(** ** Properties *)

(** C28. At whatever address the data is, and with or without the accelerated
    routine of the port, [Extend] computes the division by the Castagnoli
    polynomial bit by bit; so the checksum of a string is the checksum of its
    front extended by its back. *)
Theorem Extend_is_crc32c (P : CrcPort) (addr addr' addr'' crc : Z) (a b : bytes) :
  CrcPortSpec P -> 0 <= crc < 2 ^ 32 ->
  Extend addr crc a = crc32c crc a /\
  Extend addr'' (Extend addr crc a) b = Extend addr' crc (a ++ b).
Proof.
  intros HP Hc. rewrite !(Extend_ok _ crc) by done. split; [done|].
  by rewrite Extend_ok, crc32c_app by (by apply crc32c_bound).
Qed.

Lemma Extend_is_crc32c_witness :
  let a := bs "hello " in let b := bs "world, hello world" in
  @Extend port_posix 1 0 a = crc32c 0 a /\
  @Extend port_posix 3 (@Extend port_posix 1 0 a) b = @Extend port_posix 2 0 (a ++ b).
Proof. apply (Extend_is_crc32c port_posix); [apply port_posix_spec|lia]. Defined.

(** The vectors of [util/crc32c_test.cc]. *)
Example crc32c_vectors :
  @Value port_posix 0 (replicate 32 Byte.x00) = 0x8a9136aa /\
  @Value port_posix 1 (replicate 32 Byte.xff) = 0x62a8ab43 /\
  @Value port_posix 2 (map (fun i => byte.of_Z (Z.of_nat i)) (seq 0 32)) = 0x46dd794e /\
  @Value port_posix 3 (map (fun i => byte.of_Z (31 - Z.of_nat i)) (seq 0 32)) = 0x113fdb5c.
Proof. repeat split; vm_compute; reflexivity. Qed.

(** A masked checksum is unmasked to the checksum. *)
Theorem Mask_roundtrip (crc : Z) : 0 <= crc < 2 ^ 32 -> Unmask (Mask crc) = crc.
Proof. apply Unmask_Mask. Qed.

Lemma Mask_roundtrip_witness : Unmask (Mask 0xfffffffe) = 0xfffffffe.
Proof. apply Mask_roundtrip. lia. Defined.
