(* ===== verification/Comparator.v ===== *)
(** * Slices and comparators

    [include/leveldb/slice.h], [include/leveldb/comparator.h] and
    [util/comparator.cc]: the comparison of byte strings, the comparator
    interface with its documented contract, and the bytewise comparator as an
    implementation of it. *)

From S2P Require Import Prelude Status Coding.

(** ** Slices *)

(** [memcmp] of the first [n] bytes; C fixes the sign of the result. *)
Fixpoint memcmp (a b : bytes) (n : nat) : Z :=
  match n, a, b with
  | S n', x :: a', y :: b' =>
      if byte.unsigned x <? byte.unsigned y then -1
      else if byte.unsigned y <? byte.unsigned x then 1
      else memcmp a' b' n'
  | _, _, _ => 0
  end.

Definition compare (a b : bytes) : Z :=
  let min_len := if (length a <? length b)%nat then length a else length b in
  let r := memcmp a b min_len in
  if r =? 0 then
    if (length a <? length b)%nat then -1
    else if (length b <? length a)%nat then 1
    else r
  else r.

(** [operator==]. *)
Definition slice_eqb (x y : bytes) : bool :=
  (length x =? length y)%nat && (memcmp x y (length x) =? 0).

Definition starts_with (a x : bytes) : bool :=
  (length x <=? length a)%nat && (memcmp a x (length x) =? 0).

(** ** The interface *)

(** A comparator; [None] where the code's behaviour is undefined. *)
Class Comparator := {
  Compare : bytes -> bytes -> option Z;
  FindShortestSeparator : bytes -> bytes -> option bytes;
  FindShortSuccessor : bytes -> option bytes }.

Definition cmp_lt {C : Comparator} (a b : bytes) : Prop :=
  exists r, Compare a b = Some r /\ r < 0.

(** What a comparator promises of the keys in [ok]: a total order, a separator
    in [[start, limit)], and a successor that is not smaller. *)
Class ComparatorSpec (C : Comparator) (ok : bytes -> Prop) := {
  cmp_total : forall a b, ok a -> ok b -> is_Some (Compare a b);
  cmp_eq : forall a b, ok a -> ok b -> Compare a b = Some 0 <-> a = b;
  cmp_flip : forall a b r, ok a -> ok b -> Compare a b = Some r ->
    exists r', Compare b a = Some r' /\ Z.sgn r' = - Z.sgn r;
  cmp_trans : forall a b c, ok a -> ok b -> ok c -> cmp_lt a b -> cmp_lt b c -> cmp_lt a c;
  sep_between : forall s l, ok s -> ok l -> cmp_lt s l ->
    exists t, FindShortestSeparator s l = Some t /\ ok t /\ (s = t \/ cmp_lt s t) /\ cmp_lt t l;
  sep_same : forall s, ok s -> FindShortestSeparator s s = Some s;
  succ_above : forall k, ok k ->
    exists t, FindShortSuccessor k = Some t /\ ok t /\ (k = t \/ cmp_lt k t) }.

Section order.
Context {C : Comparator} {ok : bytes -> Prop} {H : ComparatorSpec C ok}.

Lemma cmp_lt_irrefl (a : bytes) : ok a -> ~ cmp_lt a a.
Proof. intros Ha (r & Hr & ?). rewrite (proj2 (cmp_eq a a Ha Ha) eq_refl) in Hr. injection Hr as <-. lia. Qed.

Lemma cmp_lt_asym (a b : bytes) : ok a -> ok b -> cmp_lt a b -> ~ cmp_lt b a.
Proof. intros Ha Hb H1 H2. apply (cmp_lt_irrefl a Ha). by apply (cmp_trans a b a). Qed.

Lemma cmp_gt (a b : bytes) (r : Z) : ok a -> ok b -> Compare a b = Some r -> 0 < r -> cmp_lt b a.
Proof.
  intros Ha Hb Hr Hpos. destruct (cmp_flip a b r Ha Hb Hr) as (r' & Hr' & Hs).
  exists r'. split; [done|]. lia.
Qed.

(** The three cases of a comparison. *)
Lemma cmp_cases (a b : bytes) :
  ok a -> ok b ->
  (exists r, Compare a b = Some r /\ r < 0 /\ cmp_lt a b) \/
  (Compare a b = Some 0 /\ a = b) \/
  (exists r, Compare a b = Some r /\ 0 < r /\ cmp_lt b a).
Proof.
  intros Ha Hb. destruct (cmp_total a b Ha Hb) as [r Hr].
  destruct (Z.lt_trichotomy r 0) as [|[->|]].
  - left. exists r. split; [done|]. split; [done|]. by exists r.
  - right; left. split; [done|]. by apply cmp_eq.
  - right; right. exists r. split; [done|]. split; [done|]. by eapply cmp_gt.
Qed.
End order.

(** ** The bytewise comparator *)

Module Bytewise.

(** The [while] loop for the common prefix. *)
Fixpoint diff_index (start limit : bytes) : nat :=
  match start, limit with
  | x :: start', y :: limit' =>
      if byte.unsigned x =? byte.unsigned y then S (diff_index start' limit') else O
  | _, _ => O
  end.

Definition BytewiseFindShortestSeparator (start limit : bytes) : option bytes :=
  let min_length := Nat.min (length start) (length limit) in
  let d := diff_index start limit in
  if (min_length <=? d)%nat then Some start
  else
    x ← start !! d;
    y ← limit !! d;
    let diff_byte := byte.unsigned x in
    if (diff_byte <? 0xff) && (diff_byte + 1 <? byte.unsigned y)
    then Some (take (S d) (<[d := byte.of_Z (diff_byte + 1)]> start))
    else Some start.

(** The loop over the characters; a run of [0xff] is left alone. *)
Fixpoint BytewiseFindShortSuccessor (key : bytes) : bytes :=
  match key with
  | [] => []
  | b :: key' =>
      if byte.unsigned b =? 0xff then b :: BytewiseFindShortSuccessor key'
      else [byte.of_Z (byte.unsigned b + 1)]
  end.

Definition BytewiseComparator : Comparator :=
  {| Compare a b := Some (compare a b);
     FindShortestSeparator := BytewiseFindShortestSeparator;
     FindShortSuccessor key := Some (BytewiseFindShortSuccessor key) |}.

(** *** The lexicographic order *)

Lemma compare_cons (x y : Byte.byte) (a b : bytes) :
  compare (x :: a) (y :: b)
  = if byte.unsigned x <? byte.unsigned y then -1
    else if byte.unsigned y <? byte.unsigned x then 1 else compare a b.
Proof.
  unfold compare. simpl length. change ((S ?n <? S ?m)%nat) with (n <? m)%nat.
  assert ((if (length a <? length b)%nat then S (length a) else S (length b))
    = S (if (length a <? length b)%nat then length a else length b)) as -> by (by destruct (length a <? length b)%nat).
  cbn [memcmp]. by destruct (byte.unsigned x <? byte.unsigned y), (byte.unsigned y <? byte.unsigned x).
Qed.

Lemma compare_nil_l (b : bytes) : compare [] b = if decide (b = []) then 0 else -1.
Proof. by destruct b. Qed.

Lemma compare_nil_r (a : bytes) : compare a [] = if decide (a = []) then 0 else 1.
Proof. by destruct a. Qed.

Lemma unsigned_inj (x y : Byte.byte) : byte.unsigned x = byte.unsigned y -> x = y.
Proof. intros H. by rewrite <- (byte.of_Z_unsigned x), H, byte.of_Z_unsigned. Qed.

Lemma compare_refl (a : bytes) : compare a a = 0.
Proof. induction a as [|x a IH]; [done|]. by rewrite compare_cons, Z.ltb_irrefl. Qed.

Lemma compare_eq (a b : bytes) : compare a b = 0 <-> a = b.
Proof.
  split; [|intros ->; apply compare_refl]. revert b.
  induction a as [|x a IH]; intros [|y b]; try done.
  rewrite compare_cons. destruct (Z.ltb_spec (byte.unsigned x) (byte.unsigned y)); [done|].
  destruct (Z.ltb_spec (byte.unsigned y) (byte.unsigned x)); [done|]. intros ->%IH.
  f_equal. apply unsigned_inj. lia.
Qed.

Lemma compare_opp (a b : bytes) : compare b a = - compare a b.
Proof.
  revert b. induction a as [|x a IH]; intros [|y b]; try done.
  rewrite !compare_cons, IH.
  destruct (Z.ltb_spec (byte.unsigned x) (byte.unsigned y)),
    (Z.ltb_spec (byte.unsigned y) (byte.unsigned x)); lia.
Qed.

Lemma compare_trans (a b c : bytes) : compare a b < 0 -> compare b c < 0 -> compare a c < 0.
Proof.
  revert b c. induction a as [|x a IH]; intros [|y b] [|z c]; try done.
  rewrite !compare_cons. intros H1 H2. specialize (IH b c).
  destruct (Z.ltb_spec (byte.unsigned x) (byte.unsigned y)),
    (Z.ltb_spec (byte.unsigned y) (byte.unsigned z)),
    (Z.ltb_spec (byte.unsigned x) (byte.unsigned z)); try lia;
  destruct (Z.ltb_spec (byte.unsigned y) (byte.unsigned x)),
    (Z.ltb_spec (byte.unsigned z) (byte.unsigned y)),
    (Z.ltb_spec (byte.unsigned z) (byte.unsigned x)); try lia.
Qed.

Lemma slice_eqb_spec (x y : bytes) : slice_eqb x y = true <-> x = y.
Proof.
  unfold slice_eqb. rewrite andb_true_iff, Nat.eqb_eq, Z.eqb_eq, <- compare_eq.
  unfold compare. destruct (Nat.ltb_spec (length x) (length y)), (Nat.ltb_spec (length y) (length x)).
  all: destruct (Z.eqb_spec (memcmp x y (length x)) 0) as [E|E]; try lia.
  all: try (destruct (Z.eqb_spec (memcmp x y (length y)) 0); lia).
  all: assert (length x = length y) as Hl by lia; rewrite <- Hl, ?E; simpl; try lia.
  all: destruct (Z.eqb_spec (memcmp x y (length x)) 0); lia.
Qed.

(** *** Separators *)

(** Two strings that differ first at [p]: their order is that of the bytes. *)
Lemma compare_app (p a b : bytes) : compare (p ++ a) (p ++ b) = compare a b.
Proof. induction p as [|x p IH]; [done|]. simpl. by rewrite compare_cons, Z.ltb_irrefl. Qed.

Lemma diff_index_spec (s l : bytes) :
  (diff_index s l < Nat.min (length s) (length l))%nat ->
  exists p x y s' l', s = p ++ x :: s' /\ l = p ++ y :: l' /\ diff_index s l = length p /\
    byte.unsigned x <> byte.unsigned y.
Proof.
  revert l. induction s as [|x s IH]; intros [|y l]; simpl; try lia.
  destruct (Z.eqb_spec (byte.unsigned x) (byte.unsigned y)) as [E%unsigned_inj|E]; intros Hlt.
  - destruct (IH l ltac:(lia)) as (p & x' & y' & s' & l' & -> & -> & Hd & Hne).
    subst y. exists (x :: p), x', y', s', l'. simpl. by rewrite Hd.
  - by exists [], x, y, s, l.
Qed.

Lemma cut_after {A} (p s : list A) (x c : A) :
  take (S (length p)) (<[length p := c]> (p ++ x :: s)) = p ++ [c].
Proof. induction p as [|y p IH]; [done|]. simpl in *. by rewrite IH. Qed.

(** The separator is the key itself or lies strictly between the two. *)
Lemma bytewise_sep (s l : bytes) :
  exists t, BytewiseFindShortestSeparator s l = Some t /\
    (t = s \/ (compare s t < 0 /\ compare t l < 0 /\ (length t <= length s)%nat)).
Proof.
  unfold BytewiseFindShortestSeparator.
  destruct (Nat.leb_spec (Nat.min (length s) (length l)) (diff_index s l)) as [|Hlt]; [eauto|].
  destruct (diff_index_spec s l Hlt) as (p & x & y & s' & l' & -> & -> & -> & Hne).
  rewrite !list_lookup_middle by done. cbn [mbind option_bind].
  destruct (Z.ltb_spec (byte.unsigned x) 0xff); [|eauto]. cbn [andb].
  destruct (Z.ltb_spec (byte.unsigned x + 1) (byte.unsigned y)); [|eauto].
  eexists. split; [done|]. right.
  rewrite cut_after.
  rewrite !compare_app, !compare_cons, byte_small by (pose proof (byte_range x); lia).
  rewrite !(proj2 (Z.ltb_lt _ _)) by lia. rewrite !length_app. simpl. lia.
Qed.

Lemma diff_index_refl (s : bytes) : diff_index s s = length s.
Proof. induction s as [|x s IH]; [done|]. simpl. by rewrite Z.eqb_refl, IH. Qed.

Lemma bytewise_succ (k : bytes) :
  k = BytewiseFindShortSuccessor k \/ compare k (BytewiseFindShortSuccessor k) < 0.
Proof.
  induction k as [|b k IH]; [by left|]. cbn [BytewiseFindShortSuccessor].
  destruct (Z.eqb_spec (byte.unsigned b) 0xff).
  - destruct IH as [IH|IH]; [left; by rewrite <- IH|right]. by rewrite compare_cons, Z.ltb_irrefl.
  - right. pose proof (byte_range b). rewrite compare_cons, byte_small by lia.
    by rewrite (proj2 (Z.ltb_lt _ _)) by lia.
Qed.

#[export] Instance BytewiseComparator_spec : ComparatorSpec BytewiseComparator (fun _ => True).
Proof.
  assert (forall a b, @cmp_lt BytewiseComparator a b <-> compare a b < 0) as Hlt.
  { intros a b. unfold cmp_lt. simpl. split; [by intros (r & [= <-] & ?)|eauto]. }
  constructor; simpl; intros.
  - by eexists.
  - rewrite <- compare_eq. split; [by intros [= ->]|by intros ->].
  - injection H1 as <-. eexists. split; [done|]. rewrite compare_opp. lia.
  - rewrite Hlt in *. by eapply compare_trans.
  - rewrite Hlt in *. destruct (bytewise_sep s l) as (t & -> & [->|(? & ? & ?)]).
    + exists s. rewrite !Hlt. auto.
    + exists t. rewrite !Hlt. auto.
  - unfold BytewiseFindShortestSeparator. rewrite diff_index_refl, Nat.min_id, Nat.leb_refl. done.
  - eexists. split; [done|]. split; [done|]. rewrite Hlt. apply bytewise_succ.
Qed.

End Bytewise.
