(* ===== verification/FileName.v ===== *)
(** * File names

    [util/logging.cc] and [db/filename.cc]: decimal numbers and escaped strings,
    the names of a database's files, and the parser that recovers a file's
    number and type from its name. *)

From Stdlib Require Import String.
From S2P Require Import Prelude Status Coding Comparator.

(** ** Definitions *)

Definition AppendNumberTo (str : bytes) (num : Z) : bytes := str ++ to_string num.

Definition NumberToString (num : Z) : bytes := AppendNumberTo [] num.

(** A lower-case hexadecimal digit. *)
Definition hex_digit (d : Z) : Byte.byte := byte.of_Z (if d <? 10 then 48 + d else 87 + d).

Fixpoint AppendEscapedStringTo (str value : bytes) : bytes :=
  match value with
  | [] => str
  | c :: value' =>
      if (32 <=? signed_char c) && (signed_char c <=? 126)
      then AppendEscapedStringTo (str ++ [c]) value'
      else
        let v := Z.land (byte.unsigned c) 0xff in
        AppendEscapedStringTo
          (str ++ [Byte.x5c; Byte.x78; hex_digit (v / 16); hex_digit (v mod 16)]) value'
  end.

Definition EscapeString (value : bytes) : bytes := AppendEscapedStringTo [] value.

Definition kMaxUint64 : Z := 2 ^ 64 - 1.

(** The loop of [ConsumeDecimalNumber]; [None] is the overflow. *)
Fixpoint ConsumeDecimalNumber_loop (input : bytes) (v digits : Z) : option (bytes * Z * Z) :=
  match input with
  | [] => Some ([], v, digits)
  | c :: input' =>
      if (48 <=? signed_char c) && (signed_char c <=? 57) then
        let delta := signed_char c - 48 in
        if (kMaxUint64 / 10 <? v) || ((v =? kMaxUint64 / 10) && (kMaxUint64 mod 10 <? delta))
        then None
        else ConsumeDecimalNumber_loop input' (u64 (v * 10 + delta)) (digits + 1)
      else Some (input, v, digits)
  end.

(** The value and the rest of the input when the result is [true]. *)
Definition ConsumeDecimalNumber (input : bytes) : option (Z * bytes) :=
  '(rest, v, digits) ← ConsumeDecimalNumber_loop input 0 0;
  if 0 <? digits then Some (v, rest) else None.

(** [%06llu]. *)
Definition pad6 (number : Z) : bytes :=
  replicate (6 - length (to_string number)) Byte.x30 ++ to_string number.

Definition MakeFileName (name : bytes) (number : Z) (suffix : bytes) : bytes :=
  name ++ bs "/" ++ pad6 number ++ bs "." ++ suffix.

Definition LogFileName (name : bytes) (number : Z) : bytes := MakeFileName name number (bs "log").
Definition TableFileName (name : bytes) (number : Z) : bytes := MakeFileName name number (bs "ldb").
Definition SSTTableFileName (name : bytes) (number : Z) : bytes := MakeFileName name number (bs "sst").
Definition TempFileName (dbname : bytes) (number : Z) : bytes := MakeFileName dbname number (bs "dbtmp").

Definition DescriptorFileName (dbname : bytes) (number : Z) : bytes :=
  dbname ++ bs "/MANIFEST-" ++ pad6 number.

Definition CurrentFileName (dbname : bytes) : bytes := dbname ++ bs "/CURRENT".
Definition LockFileName (dbname : bytes) : bytes := dbname ++ bs "/LOCK".
Definition InfoLogFileName (dbname : bytes) : bytes := dbname ++ bs "/LOG".
Definition OldInfoLogFileName (dbname : bytes) : bytes := dbname ++ bs "/LOG.old".

Inductive FileType :=
| kLogFile | kDBLockFile | kTableFile | kDescriptorFile | kCurrentFile | kTempFile | kInfoLogFile.

Definition ParseFileName (fname : bytes) : option (Z * FileType) :=
  let rest := fname in
  if slice_eqb rest (bs "CURRENT") then Some (0, kCurrentFile)
  else if slice_eqb rest (bs "LOCK") then Some (0, kDBLockFile)
  else if slice_eqb rest (bs "LOG") || slice_eqb rest (bs "LOG.old") then Some (0, kInfoLogFile)
  else if starts_with rest (bs "MANIFEST-") then
    '(num, rest) ← ConsumeDecimalNumber (drop (length (bs "MANIFEST-")) rest);
    if negb (length rest =? 0)%nat then None else Some (num, kDescriptorFile)
  else
    '(num, suffix) ← ConsumeDecimalNumber rest;
    type ← (if slice_eqb suffix (bs ".log") then Some kLogFile
            else if slice_eqb suffix (bs ".sst") || slice_eqb suffix (bs ".ldb") then Some kTableFile
            else if slice_eqb suffix (bs ".dbtmp") then Some kTempFile
            else None);
    Some (num, type).

(** ** Decimal numbers *)

Definition is_digit (c : Byte.byte) : Prop := 48 <= byte.unsigned c <= 57.

Definition dec (v : Z) (ds : bytes) : Z :=
  fold_left (fun v c => v * 10 + (byte.unsigned c - 48)) ds v.

Lemma signed_digit (c : Byte.byte) :
  is_digit c -> signed_char c = byte.unsigned c /\ (48 <=? signed_char c) && (signed_char c <=? 57) = true.
Proof.
  intros H. unfold is_digit in H. unfold signed_char.
  rewrite (proj2 (Z.ltb_lt (byte.unsigned c) 128)) by lia. split; [done|].
  rewrite !(proj2 (Z.leb_le _ _)) by lia. done.
Qed.

Lemma signed_not_digit (c : Byte.byte) :
  ~ is_digit c -> (48 <=? signed_char c) && (signed_char c <=? 57) = false.
Proof.
  intros H. unfold is_digit in H. pose proof (byte_range c). unfold signed_char.
  destruct (Z.ltb_spec (byte.unsigned c) 128), (Z.leb_spec 48 (byte.unsigned c)),
    (Z.leb_spec (byte.unsigned c) 57), (Z.leb_spec 48 (byte.unsigned c - 256)); simpl; lia || done.
Qed.

Lemma dec_ge (v : Z) (ds : bytes) : 0 <= v -> Forall is_digit ds -> v <= dec v ds.
Proof.
  intros Hv H. revert v Hv. induction H as [|c ds Hc _ IH]; intros v Hv; [done|].
  unfold is_digit in Hc. cbn. specialize (IH (v * 10 + (byte.unsigned c - 48)) ltac:(lia)).
  unfold dec in IH. lia.
Qed.

(** The loop over a run of digits: the value, or the overflow. *)
Lemma consume_digits (ds rest : bytes) (v n : Z) :
  Forall is_digit ds -> 0 <= v < 2 ^ 64 ->
  match rest with c :: _ => ~ is_digit c | [] => True end ->
  ConsumeDecimalNumber_loop (ds ++ rest) v n
  = if dec v ds <? 2 ^ 64 then Some (rest, dec v ds, n + Z.of_nat (length ds)) else None.
Proof.
  intros H Hv Hrest. revert v n Hv. induction H as [|c ds Hc Hds IH]; intros v n Hv.
  - simpl. rewrite (proj2 (Z.ltb_lt v _)) by lia. rewrite Z.add_0_r.
    destruct rest as [|c rest]; [done|]. simpl. by rewrite signed_not_digit.
  - cbn [app ConsumeDecimalNumber_loop]. destruct (signed_digit c Hc) as [Hs ->]. rewrite Hs.
    unfold is_digit in Hc. set (w := v * 10 + (byte.unsigned c - 48)).
    change (dec v (c :: ds)) with (dec w ds).
    assert ((kMaxUint64 / 10 <? v) || ((v =? kMaxUint64 / 10) && (kMaxUint64 mod 10 <? byte.unsigned c - 48))
      = (2 ^ 64 <=? w)) as ->.
    { change (kMaxUint64 / 10) with 1844674407370955161. change (kMaxUint64 mod 10) with 5.
      unfold w. destruct (Z.ltb_spec 1844674407370955161 v), (Z.eqb_spec v 1844674407370955161),
        (Z.ltb_spec 5 (byte.unsigned c - 48)), (Z.leb_spec (2 ^ 64) (v * 10 + (byte.unsigned c - 48)));
        simpl; lia || done. }
    destruct (Z.leb_spec (2 ^ 64) w).
    + pose proof (dec_ge w ds ltac:(lia) Hds). by rewrite (proj2 (Z.ltb_ge _ _)) by lia.
    + unfold u64. rewrite Z.mod_small, IH by lia. simpl length.
      by replace (n + 1 + Z.of_nat (length ds)) with (n + Z.of_nat (S (length ds))) by lia.
Qed.

Lemma ConsumeDecimalNumber_digits (ds rest : bytes) :
  Forall is_digit ds -> ds <> [] ->
  match rest with c :: _ => ~ is_digit c | [] => True end ->
  ConsumeDecimalNumber (ds ++ rest)
  = if dec 0 ds <? 2 ^ 64 then Some (dec 0 ds, rest) else None.
Proof.
  intros Hd Hne Hr. unfold ConsumeDecimalNumber. rewrite consume_digits by (done || lia).
  destruct (_ <? _); [|done]. cbn [mbind option_bind].
  rewrite (proj2 (Z.ltb_lt _ _)); [done|]. destruct ds; [done|simpl; lia].
Qed.

Lemma to_string_digits (n : nat) (v : Z) (acc : bytes) :
  0 <= v -> Forall is_digit acc -> Forall is_digit (to_string_loop n v acc).
Proof.
  revert v acc. induction n as [|n IH]; intros v acc Hv Ha; [done|]. cbn [to_string_loop].
  assert (Forall is_digit (byte.of_Z (48 + v mod 10) :: acc)) as Ha'.
  { constructor; [|done]. pose proof (Z.mod_pos_bound v 10 ltac:(lia)).
    unfold is_digit. rewrite digit; lia. }
  destruct (v <? 10); [done|]. apply IH; [apply Z.div_pos; lia|done].
Qed.

Lemma dec_to_string (n : nat) (v : Z) (acc : bytes) :
  0 <= v < 10 ^ Z.of_nat n -> dec 0 (to_string_loop n v acc) = dec v acc.
Proof.
  revert v acc. induction n as [|n IH]; intros v acc Hv; [simpl in *; f_equal; lia|].
  cbn [to_string_loop]. pose proof (Z.mod_pos_bound v 10 ltac:(lia)).
  pose proof (Z.div_mod v 10 ltac:(lia)). rewrite Nat2Z.inj_succ, Z.pow_succ_r in Hv by lia.
  destruct (Z.ltb_spec v 10).
  - unfold dec. cbn [fold_left]. rewrite digit by lia. f_equal. rewrite Z.mod_small; lia.
  - rewrite IH.
    + unfold dec. cbn [fold_left]. rewrite digit by lia. f_equal. lia.
    + split; [apply Z.div_pos; lia|apply Z.div_lt_upper_bound; lia].
Qed.

Lemma to_string_loop_nonempty (n : nat) (v : Z) (acc : bytes) :
  acc <> [] \/ n <> O -> to_string_loop n v acc <> [].
Proof.
  revert v acc. induction n as [|n IH]; intros v acc; cbn [to_string_loop]; [by intros [?|?]|].
  intros _. destruct (v <? 10); [done|]. apply IH. by left.
Qed.

Lemma pad6_number (v : Z) :
  0 <= v < 2 ^ 64 -> Forall is_digit (pad6 v) /\ pad6 v <> [] /\ dec 0 (pad6 v) = v.
Proof.
  intros Hv. unfold pad6. split; [|split].
  - apply Forall_app. split; [|by apply to_string_digits; [lia|constructor]].
    apply Forall_replicate. unfold is_digit. by vm_compute.
  - intros [_ H]%app_eq_nil. revert H. apply to_string_loop_nonempty. by right.
  - set (n := (6 - _)%nat). assert (forall ds, dec 0 (replicate n Byte.x30 ++ ds) = dec 0 ds) as ->.
    { intros ds. clearbody n. induction n as [|n IH]; [done|]. exact IH. }
    unfold to_string. rewrite dec_to_string by (simpl; lia). done.
Qed.

Lemma parse_padded (v : Z) (rest : bytes) :
  0 <= v < 2 ^ 64 -> match rest with c :: _ => ~ is_digit c | [] => True end ->
  ConsumeDecimalNumber (pad6 v ++ rest) = Some (v, rest).
Proof.
  intros Hv Hr. destruct (pad6_number v Hv) as (Hd & Hne & Hdec).
  rewrite ConsumeDecimalNumber_digits by done. by rewrite Hdec, (proj2 (Z.ltb_lt _ _)) by lia.
Qed.

(** ** Names *)

(** The name of a file inside the directory [dbname]. *)
Definition child (dbname fname : bytes) : bytes := drop (length dbname + 1) fname.

Lemma child_app (dbname rest : bytes) (c : Byte.byte) : child dbname (dbname ++ c :: rest) = rest.
Proof. unfold child. rewrite drop_app_add. done. Qed.

(** A name that begins with a digit is none of the fixed names. *)
Lemma slice_eqb_digit (c : Byte.byte) (x y : bytes) :
  is_digit c -> 57 < default 0 (byte.unsigned <$> head y) -> slice_eqb (c :: x) y = false.
Proof.
  intros Hc Hd. apply not_true_iff_false. rewrite Bytewise.slice_eqb_spec. intros <-.
  unfold is_digit in Hc. simpl in Hd. lia.
Qed.

Lemma starts_with_digit (c : Byte.byte) (x y : bytes) :
  is_digit c -> 57 < default 0 (byte.unsigned <$> head y) -> starts_with (c :: x) y = false.
Proof.
  intros Hc Hd. destruct y as [|d y]; [done|]. unfold is_digit in Hc. simpl in Hd.
  unfold starts_with. simpl. rewrite (proj2 (Z.ltb_lt _ _)) by lia. apply andb_false_r.
Qed.

Lemma slice_eqb_head (x y : bytes) : head x <> head y -> slice_eqb x y = false.
Proof. intros H. apply not_true_iff_false. rewrite Bytewise.slice_eqb_spec. by intros ->. Qed.

Lemma starts_with_app (p x : bytes) : starts_with (p ++ x) p = true.
Proof.
  unfold starts_with. rewrite length_app, (proj2 (Nat.leb_le _ _)) by lia. cbn [andb].
  induction p as [|c p IH]; [by destruct x|]. simpl. by rewrite Z.ltb_irrefl.
Qed.

Lemma ParseFileName_number (v : Z) (suffix : bytes) (c : Byte.byte) :
  0 <= v < 2 ^ 64 -> ~ is_digit c ->
  ParseFileName (pad6 v ++ c :: suffix)
  = let s := c :: suffix in
    if slice_eqb s (bs ".log") then Some (v, kLogFile)
    else if slice_eqb s (bs ".sst") || slice_eqb s (bs ".ldb") then Some (v, kTableFile)
    else if slice_eqb s (bs ".dbtmp") then Some (v, kTempFile)
    else None.
Proof.
  intros Hv Hc. unfold ParseFileName. rewrite parse_padded by done.
  destruct (pad6_number v Hv) as (Hd & Hne & _).
  destruct (pad6 v) as [|d ds]; [done|]. apply Forall_cons_1 in Hd as [Hd _].
  cbn [app]. rewrite !slice_eqb_digit, starts_with_digit by done.
  cbn [orb mbind option_bind]. set (s := c :: suffix).
  by repeat case_match.
Qed.

(** ** Properties *)

(** C31. The name of every numbered file is parsed back to its number and type,
    for every 64-bit number, also where it has more than six digits. *)
Theorem FileName_roundtrip (dbname : bytes) (n : Z) :
  0 <= n < 2 ^ 64 ->
  ParseFileName (child dbname (LogFileName dbname n)) = Some (n, kLogFile) /\
  ParseFileName (child dbname (TableFileName dbname n)) = Some (n, kTableFile) /\
  ParseFileName (child dbname (SSTTableFileName dbname n)) = Some (n, kTableFile) /\
  ParseFileName (child dbname (TempFileName dbname n)) = Some (n, kTempFile) /\
  ParseFileName (child dbname (DescriptorFileName dbname n)) = Some (n, kDescriptorFile).
Proof.
  intros Hn. unfold LogFileName, TableFileName, SSTTableFileName, TempFileName, MakeFileName,
    DescriptorFileName.
  assert (~ is_digit Byte.x2e) by (unfold is_digit; vm_compute; intuition).
  change (bs "/") with [Byte.x2f]. change (bs ".") with [Byte.x2e].
  change (bs "/MANIFEST-") with (Byte.x2f :: bs "MANIFEST-"). cbn [app]. rewrite !child_app.
  do 4 (split; [rewrite ParseFileName_number by done; reflexivity|]).
  pose proof (parse_padded n [] Hn I) as Hp. rewrite app_nil_r in Hp.
  unfold ParseFileName. rewrite !slice_eqb_head, starts_with_app, drop_app_length by done.
  by rewrite Hp.
Qed.

Lemma FileName_roundtrip_witness :
  ParseFileName (child (bs "db") (LogFileName (bs "db") 1234567)) = Some (1234567, kLogFile).
Proof. apply (FileName_roundtrip (bs "db") 1234567). lia. Defined.
