(* ===== verification/Files.v ===== *)
(** * Files

    The file interfaces of [include/leveldb/env.h] that the log, the tables and
    the manifest are written and read through, with the contracts their
    clients rely on.  An operation is [None] when it does not return. *)

From S2P Require Import Prelude Status.

(** [WritableFile]. *)
Class WritableFile (F : Type) := {
  Append : F -> bytes -> option (Status * F);
  Flush : F -> option (Status * F);
  Sync : F -> option (Status * F);
  Close : F -> option (Status * F) }.

(** A file whose operations do not fail; [contents f] is what was appended so
    far. *)
Class WritableFileSpec (F : Type) {W : WritableFile F} (contents : F -> bytes) (file_ok : F -> Prop) := {
  Append_contents : forall f data, file_ok f ->
    exists f', Append f data = Some (OK, f') /\ contents f' = contents f ++ data /\ file_ok f';
  Flush_contents : forall f, file_ok f ->
    exists f', Flush f = Some (OK, f') /\ contents f' = contents f /\ file_ok f';
  Sync_contents : forall f, file_ok f ->
    exists f', Sync f = Some (OK, f') /\ contents f' = contents f /\ file_ok f';
  Close_contents : forall f, file_ok f ->
    exists f', Close f = Some (OK, f') /\ contents f' = contents f }.

(** [SequentialFile]: [Read f n] gives at most [n] bytes. *)
Class SequentialFile (F : Type) := {
  Read : F -> Z -> option (Status * bytes * F);
  Skip : F -> Z -> option (Status * F) }.

(** A file whose reads do not fail, and are short only at its end; [rest f] is
    what is still to be read. *)
Class SequentialFileSpec (F : Type) {R : SequentialFile F} (rest : F -> bytes) (file_ok : F -> Prop) := {
  Read_rest : forall f n, file_ok f -> 0 <= n ->
    exists f', Read f n = Some (OK, take (Z.to_nat n) (rest f), f') /\
      rest f' = drop (Z.to_nat n) (rest f) /\ file_ok f';
  Skip_rest : forall f n, file_ok f -> 0 <= n ->
    exists f', Skip f n = Some (OK, f') /\ rest f' = drop (Z.to_nat n) (rest f) /\ file_ok f' }.

(** [RandomAccessFile]: [n] bytes from [offset] on; [scratch] is false for a
    null buffer. *)
Class RandomAccessFile (F : Type) := {
  ReadAt : F -> Z -> Z -> bool -> option (Status * bytes) }.

(** A file that has [contents], whose reads within them succeed without a
    buffer, as those of the files the POSIX environment opens. *)
Class RandomAccessFileSpec (F : Type) {R : RandomAccessFile F} (contents : F -> bytes) (file_ok : F -> Prop) := {
  ReadAt_contents : forall f offset n scratch, file_ok f -> 0 <= offset -> 0 <= n -> offset + n <= Z.of_nat (length (contents f)) ->
    ReadAt f offset n scratch = Some (OK, take (Z.to_nat n) (drop (Z.to_nat offset) (contents f))) }.
