(* ===== verification/PosixEnv.v ===== *)
(** * The POSIX environment

    [util/env_posix.cc]: the buffered writer, the sequential, positional and
    memory-mapped readers, the limiter of open files, the table of locks, the
    environment that opens, deletes, renames and locks files, and the queue of
    its background thread.

    The operating system is a class: its state, and the system calls the code
    makes, each with its result or the value of [errno].  [strerror] is the C
    library's.  Names have no zero byte. *)

From Stdlib Require Import String.
From S2P Require Import Prelude Status Comparator Files.

Module Posix.

(** ** Definitions *)

Definition ENOENT : Z := 2.
Definition EINTR : Z := 4.
Definition EINVAL : Z := 22.

(** The flags of the calls to [open]. *)
Inductive OpenMode := O_RDONLY | O_TRUNC_WRONLY_CREAT | O_APPEND_WRONLY_CREAT | O_RDWR_CREAT.

(** The system calls; [sys_mmap] gives the bytes of the region. *)
Class System (K : Type) := {
  sys_open : K -> bytes -> OpenMode -> (Z + Z) * K;
  sys_close : K -> Z -> option Z * K;
  sys_read : K -> Z -> Z -> (bytes + Z) * K;
  sys_lseek : K -> Z -> Z -> option Z * K;
  sys_pread : K -> Z -> Z -> Z -> bytes + Z;
  sys_write : K -> Z -> bytes -> (Z + Z) * K;
  sys_fsync : K -> Z -> option Z * K;
  sys_fdatasync : K -> Z -> option Z * K;
  sys_mmap : K -> Z -> Z -> bytes + Z;
  sys_access : K -> bytes -> bool;
  sys_readdir : K -> bytes -> list bytes + Z;
  sys_unlink : K -> bytes -> option Z * K;
  sys_mkdir : K -> bytes -> option Z * K;
  sys_rmdir : K -> bytes -> option Z * K;
  sys_stat : K -> bytes -> Z + Z;
  sys_rename : K -> bytes -> bytes -> option Z * K;
  sys_setlk : K -> Z -> bool -> option Z * K }.

Definition kBufSize : Z := 65536.

#[global] Arguments kBufSize : simpl never.

(** *** [Limiter]: the number of resources allowed *)

Definition Limiter : Type := Z.

Definition Acquire (l : Limiter) : bool * Limiter := if l <=? 0 then (false, l) else (true, l - 1).

Definition Release (l : Limiter) : Limiter := l + 1.

(** *** [PosixLockTable] *)

Definition PosixLockTable : Type := gset bytes.

Definition LockTable_Insert (t : PosixLockTable) (fname : bytes) : bool * PosixLockTable :=
  (bool_decide (fname ∉ t), {[fname]} ∪ t).

Definition LockTable_Remove (t : PosixLockTable) (fname : bytes) : PosixLockTable := t ∖ {[fname]}.

Section env.
Context {K : Type} {OS : System K} (strerror : Z -> bytes).

Definition PosixError (context : bytes) (err_number : Z) : Status :=
  if err_number =? ENOENT then Status_make kNotFound context (strerror err_number)
  else Status_make kIOError context (strerror err_number).

Definition of_errno (context : bytes) (e : option Z) : Status :=
  match e with Some e => PosixError context e | None => OK end.

(** *** [PosixSequentialFile] *)

Record PosixSequentialFile := MkSeq { sq_filename_ : bytes; sq_fd_ : Z }.

(** [Read]; the loop repeats an interrupted call. *)
Fixpoint Seq_Read (fuel : nat) (f : PosixSequentialFile) (k : K) (n : Z) : option (Status * bytes * K) :=
  match fuel with
  | O => None
  | S fuel' =>
      let '(r, k) := sys_read k (sq_fd_ f) n in
      match r with
      | inr e => if e =? EINTR then Seq_Read fuel' f k n else Some (PosixError (sq_filename_ f) e, [], k)
      | inl b => Some (OK, b, k)
      end
  end.

Definition Seq_Skip (f : PosixSequentialFile) (k : K) (n : Z) : Status * K :=
  let '(e, k) := sys_lseek k (sq_fd_ f) n in (of_errno (sq_filename_ f) e, k).

(** *** [PosixRandomAccessFile] *)

Record PosixRandomAccessFile := MkRA { ra_filename_ : bytes; temporary_fd_ : bool; ra_fd_ : Z }.

Definition RA_new (fname : bytes) (fd : Z) (limiter : Limiter) (k : K) : PosixRandomAccessFile * Limiter * K :=
  let '(got, limiter) := Acquire limiter in
  if got then (MkRA fname false fd, limiter, k)
  else let '(_, k) := sys_close k fd in (MkRA fname true (-1), limiter, k).

Definition RA_delete (f : PosixRandomAccessFile) (limiter : Limiter) (k : K) : Limiter * K :=
  if temporary_fd_ f then (limiter, k)
  else let '(_, k) := sys_close k (ra_fd_ f) in (Release limiter, k).

(** [Read]: the caller's buffer is replaced by a new one. *)
Definition RA_Read (f : PosixRandomAccessFile) (k : K) (offset n : Z) : Status * bytes * K :=
  let pread fd k :=
    match sys_pread k fd n offset with
    | inr e => (PosixError (ra_filename_ f) e, [])
    | inl b => (OK, b)
    end in
  if temporary_fd_ f then
    let '(r, k) := sys_open k (ra_filename_ f) O_RDONLY in
    match r with
    | inr e => (PosixError (ra_filename_ f) e, [], k)
    | inl fd => let '(s, b) := pread fd k in let '(_, k) := sys_close k fd in (s, b, k)
    end
  else let '(s, b) := pread (ra_fd_ f) k in (s, b, k).

(** *** [PosixMmapReadableFile] *)

Record PosixMmapReadableFile := MkMmap { mm_filename_ : bytes; mmapped_region_ : bytes; length_ : Z }.

Definition Mmap_Read (f : PosixMmapReadableFile) (offset n : Z) : option (Status * bytes) :=
  if length_ f <? u64 (offset + n) then Some (PosixError (mm_filename_ f) EINVAL, [])
  else if (offset + n <=? Z.of_nat (length (mmapped_region_ f))) then
    Some (OK, take (Z.to_nat n) (drop (Z.to_nat offset) (mmapped_region_ f)))
  else None.

(** *** [PosixWritableFile] *)

(** [buf_] is the part of the buffer in use, so [pos_] is its length. *)
Record PosixWritableFile := MkWritable { wr_filename_ : bytes; wr_fd_ : Z; buf_ : bytes }.

Definition set_buf (f : PosixWritableFile) (b : bytes) : PosixWritableFile :=
  MkWritable (wr_filename_ f) (wr_fd_ f) b.

Definition Writable_new (fname : bytes) (fd : Z) : PosixWritableFile := MkWritable fname fd [].

(** [WriteRaw]: the calls of [write] until all is written; an interrupted
    call is repeated. *)
Fixpoint WriteRaw (fuel : nat) (f : PosixWritableFile) (k : K) (p : bytes) : option (Status * K) :=
  match p with
  | [] => Some (OK, k)
  | _ =>
      match fuel with
      | O => None
      | S fuel' =>
          let '(r, k) := sys_write k (wr_fd_ f) p in
          match r with
          | inr e => if e =? EINTR then WriteRaw fuel' f k p else Some (PosixError (wr_filename_ f) e, k)
          | inl r => WriteRaw fuel' f k (drop (Z.to_nat r) p)
          end
      end
  end.

(** The calls of [write] there may be: one per byte, and [interrupts]. *)
Context (interrupts : nat).
Definition write_fuel (p : bytes) : nat := S (length p + interrupts).

Definition FlushBuffered (f : PosixWritableFile) (k : K) : option (Status * PosixWritableFile * K) :=
  '(s, k) ← WriteRaw (write_fuel (buf_ f)) f k (buf_ f);
  Some (s, set_buf f [], k).

Definition Writable_Append (f : PosixWritableFile) (k : K) (data : bytes) : option (Status * PosixWritableFile * K) :=
  let n := Z.of_nat (length data) in
  let copy := Z.min n (kBufSize - Z.of_nat (length (buf_ f))) in
  let f := set_buf f (buf_ f ++ take (Z.to_nat copy) data) in
  let p := drop (Z.to_nat copy) data in
  let n := n - copy in
  if n =? 0 then Some (OK, f, k)
  else
    '(s, f, k) ← FlushBuffered f k;
    if negb (ok s) then Some (s, f, k)
    else if n <? kBufSize then Some (OK, set_buf f p, k)
    else '(s, k) ← WriteRaw (write_fuel p) f k p; Some (s, f, k).

Definition Writable_Close (f : PosixWritableFile) (k : K) : option (Status * PosixWritableFile * K) :=
  '(result, f, k) ← FlushBuffered f k;
  let '(r, k) := sys_close k (wr_fd_ f) in
  let result := if ok result then of_errno (wr_filename_ f) r else result in
  Some (result, MkWritable (wr_filename_ f) (-1) (buf_ f), k).

(** The destructor. *)
Definition Writable_delete (f : PosixWritableFile) (k : K) : option K :=
  if 0 <=? wr_fd_ f then '(_, _, k) ← Writable_Close f k; Some k else Some k.

Definition Writable_Flush (f : PosixWritableFile) (k : K) : option (Status * PosixWritableFile * K) :=
  FlushBuffered f k.

(** The name up to the last separator, and what follows. *)
Fixpoint split_last (sep : Byte.byte) (l : bytes) : option (bytes * bytes) :=
  match l with
  | [] => None
  | x :: l' =>
      match split_last sep l' with
      | Some (d, b) => Some (x :: d, b)
      | None => if bool_decide (x = sep) then Some ([], l') else None
      end
  end.

Definition SyncDirIfManifest (f : PosixWritableFile) (k : K) : Status * K :=
  let '(dir, basename) :=
    match split_last Byte.x2f (wr_filename_ f) with
    | None => (bs ".", wr_filename_ f)
    | Some (dir, basename) => (dir, basename)
    end in
  if starts_with basename (bs "MANIFEST") then
    let '(r, k) := sys_open k dir O_RDONLY in
    match r with
    | inr e => (PosixError dir e, k)
    | inl fd =>
        let '(e, k) := sys_fsync k fd in
        let '(_, k) := sys_close k fd in
        (of_errno dir e, k)
    end
  else (OK, k).

Definition Writable_Sync (f : PosixWritableFile) (k : K) : option (Status * PosixWritableFile * K) :=
  let '(s, k) := SyncDirIfManifest f k in
  if negb (ok s) then Some (s, f, k)
  else
    '(s, f, k) ← FlushBuffered f k;
    if ok s then
      let '(e, k) := sys_fdatasync k (wr_fd_ f) in
      Some (of_errno (wr_filename_ f) e, f, k)
    else Some (s, f, k).

(** *** [PosixEnv] *)

Record PosixFileLock := MkLock { lk_fd_ : Z; lk_name_ : bytes }.

Record PosixEnv := MkEnv { locks_ : PosixLockTable; mmap_limit_ : Limiter; fd_limit_ : Limiter }.

(** What [NewRandomAccessFile] opens. *)
Inductive RandomAccess :=
  | RAPread (f : PosixRandomAccessFile)
  | RAMmap (f : PosixMmapReadableFile).

Definition NewSequentialFile (k : K) (fname : bytes) : (PosixSequentialFile + Status) * K :=
  let '(r, k) := sys_open k fname O_RDONLY in
  match r with
  | inr e => (inr (PosixError fname e), k)
  | inl fd => (inl (MkSeq fname fd), k)
  end.

Definition GetFileSize (k : K) (fname : bytes) : Status * Z :=
  match sys_stat k fname with
  | inr e => (PosixError fname e, 0)
  | inl size => (OK, size)
  end.

Definition NewRandomAccessFile (e : PosixEnv) (k : K) (fname : bytes) : (RandomAccess + Status) * PosixEnv * K :=
  let '(r, k) := sys_open k fname O_RDONLY in
  match r with
  | inr err => (inr (PosixError fname err), e, k)
  | inl fd =>
      let '(got, limit) := Acquire (mmap_limit_ e) in
      if got then
        let '(s, size) := GetFileSize k fname in
        let res :=
          if ok s then
            match sys_mmap k size fd with
            | inl base => inl (RAMmap (MkMmap fname base size))
            | inr err => inr (PosixError fname err)
            end
          else inr s in
        let '(_, k) := sys_close k fd in
        let limit := match res with inl _ => limit | inr _ => Release limit end in
        (res, MkEnv (locks_ e) limit (fd_limit_ e), k)
      else
        let '(f, limit', k) := RA_new fname fd (fd_limit_ e) k in
        (inl (RAPread f), MkEnv (locks_ e) limit limit', k)
  end.

(** [NewWritableFile] and [NewAppendableFile]. *)
Definition new_writable (mode : OpenMode) (k : K) (fname : bytes) : (PosixWritableFile + Status) * K :=
  let '(r, k) := sys_open k fname mode in
  match r with
  | inr e => (inr (PosixError fname e), k)
  | inl fd => (inl (Writable_new fname fd), k)
  end.

Definition NewWritableFile : K -> bytes -> (PosixWritableFile + Status) * K := new_writable O_TRUNC_WRONLY_CREAT.
Definition NewAppendableFile : K -> bytes -> (PosixWritableFile + Status) * K := new_writable O_APPEND_WRONLY_CREAT.

Definition FileExists (k : K) (fname : bytes) : bool := sys_access k fname.

Definition GetChildren (k : K) (dir : bytes) : Status * list bytes :=
  match sys_readdir k dir with
  | inr e => (PosixError dir e, [])
  | inl names => (OK, names)
  end.

Definition DeleteFile (k : K) (fname : bytes) : Status * K :=
  let '(e, k) := sys_unlink k fname in (of_errno fname e, k).

Definition CreateDir (k : K) (name : bytes) : Status * K :=
  let '(e, k) := sys_mkdir k name in (of_errno name e, k).

Definition DeleteDir (k : K) (name : bytes) : Status * K :=
  let '(e, k) := sys_rmdir k name in (of_errno name e, k).

Definition RenameFile (k : K) (src target : bytes) : Status * K :=
  let '(e, k) := sys_rename k src target in (of_errno src e, k).

Definition LockFile (e : PosixEnv) (k : K) (fname : bytes) : (PosixFileLock + Status) * PosixEnv * K :=
  let '(r, k) := sys_open k fname O_RDWR_CREAT in
  match r with
  | inr err => (inr (PosixError fname err), e, k)
  | inl fd =>
      let '(inserted, locks) := LockTable_Insert (locks_ e) fname in
      if negb inserted then
        let '(_, k) := sys_close k fd in
        (inr (Status_make kIOError (bs "lock " ++ fname) (bs "already held by process")),
         MkEnv locks (mmap_limit_ e) (fd_limit_ e), k)
      else
        let '(err, k) := sys_setlk k fd true in
        match err with
        | Some err =>
            let '(_, k) := sys_close k fd in
            (inr (PosixError (bs "lock " ++ fname) err),
             MkEnv (LockTable_Remove locks fname) (mmap_limit_ e) (fd_limit_ e), k)
        | None => (inl (MkLock fd fname), MkEnv locks (mmap_limit_ e) (fd_limit_ e), k)
        end
  end.

Definition UnlockFile (e : PosixEnv) (k : K) (lock : PosixFileLock) : Status * PosixEnv * K :=
  let '(err, k) := sys_setlk k (lk_fd_ lock) false in
  let '(_, k) := sys_close k (lk_fd_ lock) in
  (of_errno (bs "unlock") err,
   MkEnv (LockTable_Remove (locks_ e) (lk_name_ lock)) (mmap_limit_ e) (fd_limit_ e), k).

End env.

(** [MaxMmaps] and [MaxOpenFiles]; the limit that [getrlimit] gives is absent
    when the call fails, and [None] when infinite. *)
Definition MaxMmaps (mmap_limit : Z) (pointer_size : Z) : Z :=
  if 0 <=? mmap_limit then mmap_limit else if 8 <=? pointer_size then 1000 else 0.

Definition MaxOpenFiles (open_read_only_file_limit : Z) (rlim : option (option Z)) : Z :=
  if 0 <=? open_read_only_file_limit then open_read_only_file_limit
  else match rlim with
       | None => 50
       | Some None => 2 ^ 31 - 1
       | Some (Some cur) => i32 (cur / 5)
       end.

Definition PosixEnv_new (max_mmaps max_open_files : Z) : PosixEnv := MkEnv ∅ max_mmaps max_open_files.

End Posix.
