(* ===== verification/PosixSpec.v ===== *)
(** * Files of the POSIX environment

    What the operating system promises of the calls in [PosixEnv.v], and that
    the buffered writer and the readers are files as their clients take them
    to be ([Files.v]): nothing is lost, reordered or written twice, whatever
    the calls of [write] take and however often they are interrupted; after a
    failure the file holds a prefix. *)

From Stdlib Require Import String.
From S2P Require Import Prelude Status Comparator Files PosixEnv.
Import Posix.

(** ** The contract of the system calls *)

(** A file is in a directory named before its last separator, or in the
    current one. *)
Definition in_dir (name dir : bytes) : Prop := (exists base, name = dir ++ [Byte.x2f] ++ base) \/ dir = bs ".".

(** [data k name] are the bytes of a file, [writer k fd name] says that [fd]
    writes at its end and [reader k fd name] that it reads it; [intr k] bounds
    the interruptions still to come, and [healthy k] says that the device does
    not fail. *)
Class SystemSpec {K : Type} (OS : System K) (data : K -> bytes -> bytes) (writer reader : K -> Z -> bytes -> Prop)
    (intr : K -> nat) (healthy : K -> Prop) := {
  write_spec : forall k fd name p, writer k fd name -> p <> [] ->
    match sys_write k fd p with
    | (inl r, k') => 0 < r <= Z.of_nat (length p) /\ data k' name = data k name ++ take (Z.to_nat r) p /\
        writer k' fd name /\ (intr k' <= intr k)%nat /\ (healthy k -> healthy k')
    | (inr e, k') => data k' name = data k name /\ writer k' fd name /\ (healthy k -> healthy k') /\
        if e =? EINTR then (intr k' < intr k)%nat else (intr k' <= intr k)%nat /\ ~ healthy k
    end;
  fdatasync_spec : forall k fd name, writer k fd name -> healthy k ->
    exists k', sys_fdatasync k fd = (None, k') /\ data k' name = data k name /\ writer k' fd name /\
      (intr k' <= intr k)%nat /\ healthy k';
  sync_dir_spec : forall k dir fd name, writer k fd name -> healthy k -> in_dir name dir ->
    exists d k1 k2 e k3, sys_open k dir O_RDONLY = (inl d, k1) /\ sys_fsync k1 d = (None, k2) /\
      sys_close k2 d = (e, k3) /\ data k3 name = data k name /\ writer k3 fd name /\
      (intr k3 <= intr k)%nat /\ healthy k3;
  close_spec : forall k fd name, writer k fd name -> healthy k ->
    exists k', sys_close k fd = (None, k') /\ data k' name = data k name /\ (intr k' <= intr k)%nat /\ healthy k';
  create_spec : forall k name, healthy k ->
    exists fd k', sys_open k name O_TRUNC_WRONLY_CREAT = (inl fd, k') /\ writer k' fd name /\ data k' name = [] /\
      (intr k' <= intr k)%nat /\ healthy k';
  open_spec : forall k name, healthy k -> data k name <> [] ->
    exists fd k', sys_open k name O_RDONLY = (inl fd, k') /\ reader k' fd name /\ data k' name = data k name /\
      sys_stat k' name = inl (Z.of_nat (length (data k name))) /\ healthy k';
  mmap_spec : forall k fd name, healthy k -> reader k fd name -> data k name <> [] ->
    sys_mmap k (Z.of_nat (length (data k name))) fd = inl (data k name);
  pread_spec : forall k fd name n offset, healthy k -> reader k fd name -> 0 <= n -> 0 <= offset ->
    sys_pread k fd n offset = inl (take (Z.to_nat n) (drop (Z.to_nat offset) (data k name))) }.

Section files.
Context {K : Type} {OS : System K} {data : K -> bytes -> bytes} {writer reader : K -> Z -> bytes -> Prop}.
Context {intr : K -> nat} {healthy : K -> Prop} {HS : SystemSpec OS data writer reader intr healthy}.
Context (strerror : Z -> bytes) (interrupts : nat).

Abbreviation WriteRaw := (WriteRaw strerror).
Abbreviation FlushBuffered := (FlushBuffered strerror interrupts).

Lemma PosixError_fails (context : bytes) (e : Z) : Status.ok (PosixError strerror context e) = false.
Proof. unfold PosixError. by destruct (_ =? _). Qed.

(** ** Writing *)

(** After a write of [p]: a prefix of it is in the file, all of it if the
    status is OK, which it is unless the device fails. *)
Definition raw_written (f : PosixWritableFile) (k : K) (p : bytes) (s : Status) (k' : K) (q : bytes) : Prop :=
  data k' (wr_filename_ f) = data k (wr_filename_ f) ++ q /\ q `prefix_of` p /\
  writer k' (wr_fd_ f) (wr_filename_ f) /\ (intr k' <= intr k)%nat /\
  (healthy k -> healthy k' /\ Status.ok s = true) /\ (Status.ok s = true -> s = OK /\ q = p).

Lemma WriteRaw_ok (fuel : nat) (f : PosixWritableFile) (k : K) (p : bytes) :
  writer k (wr_fd_ f) (wr_filename_ f) -> (length p + intr k < fuel)%nat ->
  exists s k' q, WriteRaw fuel f k p = Some (s, k') /\ raw_written f k p s k' q.
Proof.
  revert k p. induction fuel as [|fuel IH]; intros k p Hc Hf; [lia|].
  destruct p as [|b p'] eqn:Ep.
  { exists OK, k, []. unfold raw_written. rewrite app_nil_r. split_and!; eauto. }
  rewrite <- Ep in *. assert (p <> []) as Hne by (by rewrite Ep).
  assert (WriteRaw (S fuel) f k p = let '(r, k) := sys_write k (wr_fd_ f) p in
    match r with
    | inr e => if e =? EINTR then WriteRaw fuel f k p else Some (PosixError strerror (wr_filename_ f) e, k)
    | inl r => WriteRaw fuel f k (drop (Z.to_nat r) p) end) as -> by (by rewrite Ep). clear Ep b p'.
  pose proof (write_spec k (wr_fd_ f) _ p Hc Hne) as Hw. destruct (sys_write k (wr_fd_ f) p) as [[r|e] k1].
  - destruct Hw as (Hr & Hd & Hc1 & Hi & Hh).
    destruct (IH k1 (drop (Z.to_nat r) p) Hc1) as (s & k' & q & He & Hd' & [x Hx] & Hw' & Hi' & Hh' & Hs).
    { rewrite length_drop. lia. }
    exists s, k', (take (Z.to_nat r) p ++ q). split; [done|]. unfold raw_written. rewrite Hd', Hd, app_assoc. split; [done|].
    assert (p = (take (Z.to_nat r) p ++ q) ++ x) as Hp by (rewrite <- app_assoc, <- Hx; symmetry; apply take_drop).
    split; [by exists x|]. split; [done|]. split; [lia|]. split; [tauto|]. intros Hok. destruct (Hs Hok) as [-> ->].
    split; [done|]. apply take_drop.
  - destruct Hw as (Hd & Hc1 & Hh & Hi). destruct (e =? EINTR).
    + destruct (IH k1 p Hc1 ltac:(lia)) as (s & k' & q & He & Hd' & Hq & Hw' & Hi' & Hh' & Hs). exists s, k', q.
      split; [done|]. unfold raw_written. rewrite Hd', Hd. split_and!; try done; [lia|tauto].
    + destruct Hi as [Hi Hn]. eexists _, k1, []. split; [done|]. unfold raw_written.
      rewrite app_nil_r, PosixError_fails. split_and!; [done|apply prefix_nil|done|lia|tauto|done].
Qed.

(** A file with the state of the system. *)
Record PosixFile := MkPosixFile { pf_file : PosixWritableFile; pf_os : K }.

Ltac psimpl := unfold set_buf in *; cbn [pf_file pf_os wr_filename_ wr_fd_ buf_ mbind option_bind] in *.

Definition pf_contents (f : PosixFile) : bytes := data (pf_os f) (wr_filename_ (pf_file f)) ++ buf_ (pf_file f).

(** The buffer has its size, and the descriptor is open. *)
Definition pf_open (f : PosixFile) : Prop :=
  writer (pf_os f) (wr_fd_ (pf_file f)) (wr_filename_ (pf_file f)) /\
  Z.of_nat (length (buf_ (pf_file f))) <= kBufSize /\ (intr (pf_os f) <= interrupts)%nat.

Definition pf_ok (f : PosixFile) : Prop := pf_open f /\ healthy (pf_os f).

Definition pf_named (fname : bytes) (f : PosixFile) : Prop := pf_ok f /\ wr_filename_ (pf_file f) = fname.

Definition pf_lift (r : option (Status * PosixWritableFile * K)) : option (Status * PosixFile) :=
  '(s, f, k) ← r; Some (s, MkPosixFile f k).

#[export] Instance PosixFile_writable : WritableFile PosixFile := {|
  Append f data := pf_lift (Writable_Append strerror interrupts (pf_file f) (pf_os f) data);
  Flush f := pf_lift (Writable_Flush strerror interrupts (pf_file f) (pf_os f));
  Sync f := pf_lift (Writable_Sync strerror interrupts (pf_file f) (pf_os f));
  Close f := pf_lift (Writable_Close strerror interrupts (pf_file f) (pf_os f)) |}.

(** The buffer is empty after [FlushBuffered], failed or not. *)
Lemma FlushBuffered_ok (f : PosixWritableFile) (k : K) :
  writer k (wr_fd_ f) (wr_filename_ f) -> (intr k <= interrupts)%nat ->
  exists s k' q, FlushBuffered f k = Some (s, set_buf f [], k') /\ raw_written f k (buf_ f) s k' q.
Proof.
  intros Hw Hi. destruct (WriteRaw_ok (write_fuel interrupts (buf_ f)) f k (buf_ f) Hw) as (s & k' & q & He & Hr).
  { unfold write_fuel. lia. }
  exists s, k', q. unfold Posix.FlushBuffered. rewrite He. done.
Qed.

(** [Append] returns with the file still open: the data is in the file and
    the buffer if the status is OK, and otherwise a prefix of it is in the
    file and the buffer is empty. *)
Lemma Append_ok (f : PosixFile) (p : bytes) :
  pf_open f ->
  exists s f', Append f p = Some (s, f') /\ pf_open f' /\ wr_filename_ (pf_file f') = wr_filename_ (pf_file f) /\
    (healthy (pf_os f) -> healthy (pf_os f') /\ s = OK) /\
    (if Status.ok s then s = OK /\ pf_contents f' = pf_contents f ++ p
     else buf_ (pf_file f') = [] /\ pf_contents f' `prefix_of` pf_contents f ++ p).
Proof.
  destruct f as [[fname fd buf] k]. unfold pf_open, pf_contents. psimpl.
  intros (Hw & Hb & Hi). cbn [Append PosixFile_writable]. unfold Writable_Append, set_buf. psimpl.
  set (copy := Z.min (Z.of_nat (length p)) (kBufSize - Z.of_nat (length buf))).
  pose proof (take_drop (Z.to_nat copy) p) as Hp. set (p1 := take (Z.to_nat copy) p) in *. set (p2 := drop (Z.to_nat copy) p) in *.
  assert (length p1 = Z.to_nat copy) as Hl1 by (unfold p1; rewrite length_take; lia).
  assert (Z.of_nat (length p2) = Z.of_nat (length p) - copy) as Hl2 by (unfold p2; rewrite length_drop; lia).
  rewrite <- Hl2. destruct (Z.eqb_spec (Z.of_nat (length p2)) 0) as [H0|H0].
  { eexists _, _. split; [reflexivity|]. psimpl.
    rewrite length_app. change (Status.ok OK) with true. assert (p2 = []) as E2 by (apply nil_length_inv; lia).
    rewrite E2, app_nil_r in Hp. rewrite Hp, app_assoc. split_and!; try done; lia. }
  destruct (FlushBuffered_ok (MkWritable fname fd (buf ++ p1)) k Hw Hi) as (s & k1 & q & -> & Hd & Hq & Hw1 & Hi1 & Hh & Hs).
  psimpl.
  destruct (Status.ok s) eqn:Es; cbn [negb].
  2:{ eexists _, _. split; [reflexivity|]. psimpl. rewrite Es, Hd, app_nil_r, <- app_assoc.
      split_and!; [done|simpl; unfold kBufSize; lia|lia|done|naive_solver|done|].
      apply prefix_app. rewrite <- Hp, app_assoc. by apply prefix_app_r. }
  destruct (Hs eq_refl) as [-> ->]. destruct (Z.ltb_spec (Z.of_nat (length p2)) kBufSize) as [Hlt|Hge].
  { eexists _, _. split; [reflexivity|]. psimpl. change (Status.ok OK) with true.
    rewrite Hd, <- !app_assoc, Hp. split_and!; try done; [lia|lia|naive_solver]. }
  destruct (WriteRaw_ok (write_fuel interrupts p2) (MkWritable fname fd []) k1 p2 Hw1) as (s & k2 & q & -> & Hd2 & Hq2 & Hw2 & Hi2 & Hh2 & Hs2).
  { unfold write_fuel. lia. }
  psimpl.
  eexists _, _. split; [reflexivity|]. psimpl. rewrite Hd2, Hd, app_nil_r, <- !app_assoc.
  split; [split_and!; [done|simpl; unfold kBufSize; lia|lia]|]. split; [done|]. split; [naive_solver|].
  destruct (Status.ok s); [destruct (Hs2 eq_refl) as [-> ->]; by rewrite Hp|]. split; [done|].
  do 2 apply prefix_app. rewrite <- Hp. by apply prefix_app.
Qed.

Lemma Flush_ok (f : PosixFile) :
  pf_ok f -> exists k', FlushBuffered (pf_file f) (pf_os f) = Some (OK, set_buf (pf_file f) [], k') /\
    data k' (wr_filename_ (pf_file f)) = pf_contents f /\ pf_ok (MkPosixFile (set_buf (pf_file f) []) k').
Proof.
  destruct f as [f k]. intros [(Hw & Hb & Hi) Hh]. psimpl.
  destruct (FlushBuffered_ok f k Hw Hi) as (s & k1 & q & -> & Hd & Hq & Hw1 & Hi1 & Hh1 & Hs).
  destruct (Hh1 Hh) as [Hh' Hok]. destruct (Hs Hok) as [-> ->]. exists k1. split; [done|]. split; [done|].
  unfold pf_ok, pf_open. psimpl. split_and!; try done; simpl; unfold kBufSize; lia.
Qed.

Lemma split_last_app (sep : Byte.byte) (l d b : bytes) : split_last sep l = Some (d, b) -> l = d ++ [sep] ++ b.
Proof.
  revert d b. induction l as [|x l IH]; intros d b; [done|]. simpl. destruct (split_last sep l) as [[d' b']|].
  - intros [= <- <-]. simpl. f_equal. by apply IH.
  - case_bool_decide; [|done]. subst. by intros [= <- <-].
Qed.

Definition dir_of (name : bytes) : bytes * bytes :=
  match split_last Byte.x2f name with None => (bs ".", name) | Some (dir, basename) => (dir, basename) end.

Lemma split_last_dir (name : bytes) : in_dir name (dir_of name).1.
Proof.
  unfold dir_of. destruct (split_last _ name) as [[d b]|] eqn:E; [|by right]. left. exists b. by apply split_last_app in E.
Qed.

Lemma SyncDirIfManifest_ok (f : PosixWritableFile) (k : K) :
  writer k (wr_fd_ f) (wr_filename_ f) -> healthy k ->
  exists k', SyncDirIfManifest strerror f k = (OK, k') /\ data k' (wr_filename_ f) = data k (wr_filename_ f) /\
    writer k' (wr_fd_ f) (wr_filename_ f) /\ (intr k' <= intr k)%nat /\ healthy k'.
Proof.
  intros Hw Hh. unfold SyncDirIfManifest. pose proof (split_last_dir (wr_filename_ f)) as Hin. unfold dir_of in Hin.
  destruct (match split_last _ _ with Some _ => _ | None => _ end) as [dir basename].
  destruct (starts_with basename _); [|by exists k].
  destruct (sync_dir_spec k dir (wr_fd_ f) (wr_filename_ f) Hw Hh Hin) as (d & k1 & k2 & e & k3 & -> & -> & -> & ?). by exists k3.
Qed.

Lemma Close_ok (f : PosixFile) :
  pf_ok f -> exists f', Close f = Some (OK, f') /\ wr_filename_ (pf_file f') = wr_filename_ (pf_file f) /\
    buf_ (pf_file f') = [] /\ pf_contents f' = pf_contents f /\ healthy (pf_os f').
Proof.
  intros Hf. destruct (Flush_ok f Hf) as (k' & He & Hd & (Hw & _ & _) & Hh). cbn [Close PosixFile_writable].
  unfold Writable_Close. rewrite He. psimpl. destruct (close_spec k' _ _ Hw Hh) as (k2 & -> & Hd2 & _ & Hh2).
  eexists. split; [reflexivity|]. unfold pf_contents at 1. psimpl. by rewrite app_nil_r, Hd2.
Qed.

Lemma Sync_ok (f : PosixFile) :
  pf_ok f -> exists f', Sync f = Some (OK, f') /\ wr_filename_ (pf_file f') = wr_filename_ (pf_file f) /\
    buf_ (pf_file f') = [] /\ pf_contents f' = pf_contents f /\ pf_ok f'.
Proof.
  destruct f as [f k]. intros [(Hw & Hb & Hi) Hh]. cbn [Sync PosixFile_writable]. unfold Writable_Sync. psimpl.
  destruct (SyncDirIfManifest_ok f k Hw Hh) as (k1 & -> & Hd1 & Hw1 & Hi1 & Hh1). change (negb (Status.ok OK)) with false. cbn iota.
  destruct (Flush_ok (MkPosixFile f k1)) as (k2 & He & Hd2 & (Hw2 & Hb2 & Hi2) & Hh2).
  { split; [|done]. split; [done|]. psimpl. split; [done|lia]. }
  psimpl. rewrite He. psimpl. change (Status.ok OK) with true. cbn iota.
  destruct (fdatasync_spec k2 (wr_fd_ f) (wr_filename_ f) Hw2 Hh2) as (k3 & -> & Hd3 & Hw3 & Hi3 & Hh3).
  eexists. split; [reflexivity|]. unfold pf_ok, pf_open, pf_contents in *. psimpl. rewrite Hd3, Hd2, Hd1, app_nil_r.
  split_and!; try done; simpl; unfold kBufSize; lia.
Qed.

#[export] Instance PosixFile_spec (fname : bytes) : WritableFileSpec PosixFile pf_contents (pf_named fname).
Proof.
  split; unfold pf_named.
  - intros f p [[Ho Hh] <-]. destruct (Append_ok f p Ho) as (s & f' & He & Ho' & Hn & Hh' & Hs). destruct (Hh' Hh) as [Hh2 ->].
    destruct Hs as [_ Hc]. by exists f'.
  - intros f [Hf <-]. destruct (Flush_ok f Hf) as (k' & He & Hd & Hf'). eexists. cbn [Flush PosixFile_writable].
    unfold Writable_Flush. rewrite He. split; [done|]. split; [|done]. unfold pf_contents at 1. psimpl. by rewrite app_nil_r.
  - intros f [Hf <-]. destruct (Sync_ok f Hf) as (f' & He & Hn & _ & Hc & Hf'). by exists f'.
  - intros f [Hf <-]. destruct (Close_ok f Hf) as (f' & He & _ & _ & Hc & _). by exists f'.
Qed.

Lemma PosixFile_new_ok (k : K) (fname : bytes) :
  healthy k -> (intr k <= interrupts)%nat ->
  exists f k', NewWritableFile strerror k fname = (inl f, k') /\ pf_named fname (MkPosixFile f k') /\
    pf_contents (MkPosixFile f k') = [].
Proof.
  intros Hh Hi. unfold NewWritableFile, new_writable. destruct (create_spec k fname Hh) as (fd & k' & -> & Hw & Hd & Hi' & Hh').
  eexists _, k'. split; [reflexivity|]. unfold pf_named, pf_ok, pf_open, pf_contents, Writable_new. psimpl.
  rewrite Hd. split_and!; try done; simpl; unfold kBufSize; lia.
Qed.

(** ** Reading *)

(** A file open for reading at random, with the state of the system. *)
Record PosixReadable := MkReadable { pr_file : RandomAccess; pr_os : K }.

Definition pr_name (f : RandomAccess) : bytes :=
  match f with RAPread f => ra_filename_ f | RAMmap f => mm_filename_ f end.

(** [Read]; a descriptor opened for one read is closed again. *)
#[export] Instance PosixReadable_random : RandomAccessFile PosixReadable := {|
  ReadAt f offset n _ :=
    match pr_file f with
    | RAPread g => Some (RA_Read strerror g (pr_os f) offset n).1
    | RAMmap g => Mmap_Read strerror g offset n
    end |}.

Definition pr_contents (f : PosixReadable) : bytes :=
  match pr_file f with RAPread g => data (pr_os f) (ra_filename_ g) | RAMmap g => mmapped_region_ g end.

Definition pr_ok (f : PosixReadable) : Prop :=
  match pr_file f with
  | RAPread g => healthy (pr_os f) /\ data (pr_os f) (ra_filename_ g) <> [] /\
      (temporary_fd_ g = false -> reader (pr_os f) (ra_fd_ g) (ra_filename_ g))
  | RAMmap g => length_ g = Z.of_nat (length (mmapped_region_ g)) /\ length_ g < 2 ^ 64
  end.

#[export] Instance PosixReadable_spec : RandomAccessFileSpec PosixReadable pr_contents pr_ok.
Proof.
  constructor. intros f offset n scratch. destruct f as [[g|g] k]; unfold pr_ok, pr_contents; cbn [ReadAt PosixReadable_random pr_file pr_os]; intros Hg Ho Hn Hlen.
  - destruct Hg as [Hh Hg]. unfold RA_Read. destruct (temporary_fd_ g).
    + destruct (open_spec k (ra_filename_ g) Hh (proj1 Hg)) as (fd & k' & -> & Hr & Hd & _ & Hh').
      rewrite (pread_spec k' fd _ n offset Hh' Hr) by done. rewrite Hd. by destruct (sys_close k' fd).
    + by rewrite (pread_spec k _ _ n offset Hh (proj2 Hg eq_refl)) by done.
  - destruct Hg as [Hl H64]. unfold Mmap_Read, u64. rewrite Z.mod_small by lia.
    destruct (Z.ltb_spec (length_ g) (offset + n)); [lia|]. by rewrite (proj2 (Z.leb_le _ _)) by lia.
Qed.

Lemma NewRandomAccessFile_ok (e : PosixEnv) (k : K) (fname : bytes) :
  healthy k -> data k fname <> [] -> Z.of_nat (length (data k fname)) < 2 ^ 64 -> 0 < mmap_limit_ e ->
  exists f e' k', NewRandomAccessFile strerror e k fname = (inl f, e', k') /\
    mmap_limit_ e' = mmap_limit_ e - 1 /\ fd_limit_ e' = fd_limit_ e /\
    forall k2, pr_ok (MkReadable f k2) /\ pr_contents (MkReadable f k2) = data k fname.
Proof.
  intros Hh Hne Hlen Hl. unfold NewRandomAccessFile, Acquire, GetFileSize.
  destruct (open_spec k fname Hh Hne) as (fd & k1 & -> & Hr & Hd & Hst & Hh1).
  destruct (Z.leb_spec (mmap_limit_ e) 0); [lia|]. rewrite Hst. change (Status.ok OK) with true. cbn iota.
  rewrite <- Hd in *. rewrite (mmap_spec k1 fd fname Hh1 Hr Hne). destruct (sys_close k1 fd) as [x k2].
  eexists _, _, _. split; [reflexivity|]. by split_and!.
Qed.
End files.

(** ** A system *)

(** A system to run the code on: files in memory, each call of [write] takes
    half of the data, and [s_intr] calls are interrupted first.  Closing a
    descriptor drops the process's locks on its file. *)
Module Sim.

Record Sys := MkSys {
  s_files : gmap bytes bytes; s_fds : gmap Z (bytes * bool); s_next : Z; s_intr : nat; s_locks : gset bytes }.

Definition dir_exists (k : Sys) (name : bytes) : bool :=
  bool_decide (name = bs ".") ||
  bool_decide (map_Exists (fun f _ => (name ++ [Byte.x2f]) `prefix_of` f) (s_files k)).

Definition add_fd (k : Sys) (files : gmap bytes bytes) (name : bytes) (w : bool) : (Z + Z) * Sys :=
  (inl (s_next k), MkSys files (<[s_next k := (name, w)]> (s_fds k)) (s_next k + 1) (s_intr k) (s_locks k)).

Definition set_files (k : Sys) (files : gmap bytes bytes) : Sys :=
  MkSys files (s_fds k) (s_next k) (s_intr k) (s_locks k).

Definition sim_open (k : Sys) (name : bytes) (mode : OpenMode) : (Z + Z) * Sys :=
  match mode with
  | O_RDONLY =>
      if bool_decide (is_Some (s_files k !! name)) || dir_exists k name then add_fd k (s_files k) name false
      else (inr ENOENT, k)
  | O_TRUNC_WRONLY_CREAT => add_fd k (<[name := []]> (s_files k)) name true
  | O_APPEND_WRONLY_CREAT | O_RDWR_CREAT =>
      add_fd k (<[name := default [] (s_files k !! name)]> (s_files k)) name true
  end.

Definition sim_close (k : Sys) (fd : Z) : option Z * Sys :=
  match s_fds k !! fd with
  | None => (Some 9, k)
  | Some (name, _) => (None, MkSys (s_files k) (delete fd (s_fds k)) (s_next k) (s_intr k) (s_locks k ∖ {[name]}))
  end.

Definition sim_write (k : Sys) (fd : Z) (p : bytes) : (Z + Z) * Sys :=
  match s_intr k with
  | S i => (inr EINTR, MkSys (s_files k) (s_fds k) (s_next k) i (s_locks k))
  | O =>
      match s_fds k !! fd with
      | Some (name, true) =>
          let r := Z.max 1 (Z.of_nat (length p) / 2) in
          (inl r, set_files k (<[name := default [] (s_files k !! name) ++ take (Z.to_nat r) p]> (s_files k)))
      | _ => (inr 9, k)
      end
  end.

Definition sim_setlk (k : Sys) (fd : Z) (lock : bool) : option Z * Sys :=
  match s_fds k !! fd with
  | None => (Some 9, k)
  | Some (name, _) =>
      (None, MkSys (s_files k) (s_fds k) (s_next k) (s_intr k)
               (if lock then {[name]} ∪ s_locks k else s_locks k ∖ {[name]}))
  end.

#[export] Instance Sys_system : System Sys := {|
  sys_open := sim_open;
  sys_close := sim_close;
  sys_read k fd n := (inr 9, k);
  sys_lseek k fd n := (Some 9, k);
  sys_pread k fd n offset :=
    match s_fds k !! fd with
    | None => inr 9
    | Some (name, _) => inl (take (Z.to_nat n) (drop (Z.to_nat offset) (default [] (s_files k !! name))))
    end;
  sys_write := sim_write;
  sys_fsync k fd := (None, k);
  sys_fdatasync k fd := (None, k);
  sys_mmap k size fd :=
    match s_fds k !! fd with
    | None => inr 9
    | Some (name, _) => if size =? 0 then inr EINVAL else inl (take (Z.to_nat size) (default [] (s_files k !! name)))
    end;
  sys_access k name := bool_decide (is_Some (s_files k !! name));
  sys_readdir k dir := inl (elements (dom (s_files k)));
  sys_unlink k name :=
    match s_files k !! name with Some _ => (None, set_files k (delete name (s_files k))) | None => (Some ENOENT, k) end;
  sys_mkdir k name := (None, k);
  sys_rmdir k name := (None, k);
  sys_stat k name := match s_files k !! name with Some c => inl (Z.of_nat (length c)) | None => inr ENOENT end;
  sys_rename k src target :=
    match s_files k !! src with
    | Some c => (None, set_files k (<[target := c]> (delete src (s_files k))))
    | None => (Some ENOENT, k)
    end;
  sys_setlk := sim_setlk |}.

Definition sim_data (k : Sys) (name : bytes) : bytes := default [] (s_files k !! name).
Definition sim_writer (k : Sys) (fd : Z) (name : bytes) : Prop :=
  s_fds k !! fd = Some (name, true) /\ is_Some (s_files k !! name).
Definition sim_reader (k : Sys) (fd : Z) (name : bytes) : Prop := exists w, s_fds k !! fd = Some (name, w).
Definition sim_healthy (k : Sys) : Prop := forall fd, is_Some (s_fds k !! fd) -> fd < s_next k.

Lemma add_fd_healthy (k : Sys) (files : gmap bytes bytes) (name : bytes) (w : bool) :
  sim_healthy k -> sim_healthy (add_fd k files name w).2.
Proof.
  intros Hh fd. simpl. destruct (decide (fd = s_next k)) as [->|]; [lia|]. rewrite lookup_insert_ne by done.
  intros ?%Hh. lia.
Qed.

Lemma dir_exists_in (k : Sys) (name dir : bytes) : is_Some (s_files k !! name) -> in_dir name dir -> dir_exists k dir = true.
Proof.
  intros [c Hc] [[base ->]| ->]; unfold dir_exists; [|done]. apply orb_true_iff. right. apply bool_decide_eq_true.
  exists (dir ++ [Byte.x2f] ++ base), c. split; [done|]. exists base. by rewrite <- app_assoc.
Qed.

#[export] Instance Sys_spec : SystemSpec Sys_system sim_data sim_writer sim_reader s_intr sim_healthy.
Proof.
  split.
  - intros k fd name p [Hfd [c Hc]] Hne. simpl. unfold sim_write. destruct (s_intr k) eqn:Ei.
    + rewrite Hfd. assert (0 < Z.of_nat (length p)) by (destruct p; simpl; [done|lia]).
      assert (Z.of_nat (length p) / 2 <= Z.of_nat (length p)) by (apply Z.div_le_upper_bound; lia).
      unfold sim_data, sim_writer. simpl. rewrite !lookup_insert_eq. simpl. split_and!; try done; lia.
    + simpl. split_and!; try done. lia.
  - intros k fd name Hw Hh. exists k. by split_and!.
  - intros k dir fd name [Hfd Hn] Hh Hin. simpl. rewrite (dir_exists_in k name dir Hn Hin), orb_true_r.
    pose proof (add_fd_healthy k (s_files k) dir false Hh) as Hh1.
    assert (fd <> s_next k) as Hfn by (intros ->; specialize (Hh (s_next k)); rewrite Hfd in Hh; specialize (Hh ltac:(done)); lia).
    eexists _, _, _, _, _. split; [reflexivity|]. split; [reflexivity|]. unfold sim_close. simpl. rewrite lookup_insert_eq.
    split; [reflexivity|]. simpl. split; [done|]. split; [split; [|done]|].
    + simpl. by rewrite lookup_delete_ne, lookup_insert_ne by done.
    + split; [done|]. intros fd' Hfd'. simpl in *. apply Hh1. simpl.
      destruct (decide (fd' = s_next k)) as [->|]; [by rewrite lookup_insert_eq|]. by rewrite lookup_delete_ne in Hfd' by done.
  - intros k fd name [Hfd Hn] Hh. simpl. unfold sim_close. rewrite Hfd. eexists. split; [reflexivity|]. split; [done|].
    split; [done|]. intros fd' Hfd'. simpl in *. apply Hh.
    destruct (decide (fd' = fd)) as [->|]; [by rewrite lookup_delete_eq in Hfd'; destruct Hfd'|].
    by rewrite lookup_delete_ne in Hfd' by done.
  - intros k name Hh. eexists _, _. split; [reflexivity|]. unfold sim_writer, sim_data. simpl. rewrite !lookup_insert_eq.
    split_and!; [done|done|done|done|]. by apply (add_fd_healthy k (<[name:=[]]> (s_files k)) name true).
  - intros k name Hh Hne. unfold sim_data in *. destruct (s_files k !! name) as [c|] eqn:E; [|done]. simpl. rewrite E.
    eexists _, _. split; [reflexivity|]. unfold sim_reader. simpl. rewrite lookup_insert_eq, E.
    split_and!; [by eexists|done|done|]. by apply (add_fd_healthy k (s_files k) name false).
  - intros k fd name _ [w Hw] Hne. unfold sim_data in *. simpl. rewrite Hw.
    destruct (Z.eqb_spec (Z.of_nat (length (default [] (s_files k !! name)))) 0) as [H0|H0].
    + destruct Hne. apply nil_length_inv. lia.
    + f_equal. apply take_ge. lia.
  - intros k fd name n offset _ [w Hw] Hn Ho. simpl. by rewrite Hw.
Qed.

Definition Sys_empty (interrupts : nat) : Sys := MkSys ∅ ∅ 3 interrupts ∅.

Lemma Sys_empty_healthy (n : nat) : sim_healthy (Sys_empty n).
Proof. intros fd [x Hx]. simpl in Hx. by rewrite lookup_empty in Hx. Qed.
End Sim.
#[export] Existing Instances Sim.Sys_system Sim.Sys_spec.

(** ** Locks *)

(** What [fcntl] documents: [locked k name] says that the process holds the
    lock of a file, and closing any descriptor of the file drops it. *)
Class FcntlSpec {K : Type} (OS : System K) (refers : K -> Z -> bytes -> Prop) (locked : K -> bytes -> Prop) := {
  open_refers : forall k name mode fd k', sys_open k name mode = (inl fd, k') -> refers k' fd name;
  close_unlocks : forall k fd name, refers k fd name -> ~ locked (sys_close k fd).2 name }.

#[export] Instance Sim_fcntl :
  FcntlSpec Sim.Sys_system (fun k fd name => exists w, Sim.s_fds k !! fd = Some (name, w)) (fun k name => name ∈ Sim.s_locks k).
Proof.
  split.
  - intros k name mode fd k'. simpl. unfold Sim.sim_open, Sim.add_fd.
    destruct mode; [destruct (_ || _); [|done]|..]; intros [= <- <-]; simpl; rewrite lookup_insert_eq; by eexists.
  - intros k fd name [w Hw]. simpl. unfold Sim.sim_close. rewrite Hw. set_solver.
Qed.

(** ** Properties *)

(** Appending a list of pieces one after the other. *)
Fixpoint Appends {F : Type} `{WritableFile F} (f : F) (l : list bytes) : option F :=
  match l with
  | [] => Some f
  | p :: l' => '(s, f) ← Append f p; if Status.ok s then Appends f l' else None
  end.

Lemma Appends_contents {F : Type} {W : WritableFile F} {contents : F -> bytes} {file_ok : F -> Prop}
    {HW : WritableFileSpec F contents file_ok} (f : F) (l : list bytes) :
  file_ok f -> exists f', Appends f l = Some f' /\ file_ok f' /\ contents f' = contents f ++ concat l.
Proof.
  revert f. induction l as [|p l IH]; intros f Hf.
  - exists f. simpl. by rewrite app_nil_r.
  - simpl. destruct (Append_contents f p Hf) as (f1 & -> & Hc1 & Hf1). cbn [mbind option_bind].
    change (Status.ok OK) with true. cbn iota. destruct (IH f1 Hf1) as (f' & He & Hf' & Hc).
    exists f'. rewrite Hc, Hc1, <- app_assoc. done.
Qed.

(** C21. What is appended to a new file in any pieces, and closed, is what the
    reader opened on its name reads, at every offset; the calls of [write] may
    take any part of the data and may be interrupted. *)
Theorem PosixFile_roundtrip {K : Type} (OS : System K) (data : K -> bytes -> bytes) (writer reader : K -> Z -> bytes -> Prop)
    (intr : K -> nat) (healthy : K -> Prop) (strerror : Z -> bytes) (interrupts : nat) (e : PosixEnv) (k : K) (fname : bytes)
    (l : list bytes) :
  SystemSpec OS data writer reader intr healthy -> healthy k -> (intr k <= interrupts)%nat ->
  concat l <> [] -> Z.of_nat (length (concat l)) < 2 ^ 64 -> 0 < mmap_limit_ e ->
  exists f k1 f1 f2 g e' k2,
    NewWritableFile strerror k fname = (inl f, k1) /\
    @Appends _ (PosixFile_writable strerror interrupts) (MkPosixFile f k1) l = Some f1 /\
    @Close _ (PosixFile_writable strerror interrupts) f1 = Some (OK, f2) /\
    NewRandomAccessFile strerror e (pf_os f2) fname = (inl g, e', k2) /\ mmap_limit_ e' = mmap_limit_ e - 1 /\
    forall offset n scratch, 0 <= offset -> 0 <= n -> offset + n <= Z.of_nat (length (concat l)) ->
      @ReadAt _ (PosixReadable_random strerror) (MkReadable g k2) offset n scratch =
        Some (OK, take (Z.to_nat n) (drop (Z.to_nat offset) (concat l))).
Proof.
  intros HS Hh Hi Hne Hlen Hl. destruct (PosixFile_new_ok strerror interrupts k fname Hh Hi) as (f & k1 & Hnew & Hf & Hc).
  destruct (Appends_contents (HW := PosixFile_spec strerror interrupts fname) _ l Hf) as (f1 & Ha & [Hf1 Hn1] & Hc1).
  rewrite Hc in Hc1. simpl in Hc1. destruct (Close_ok strerror interrupts f1 Hf1) as (f2 & Hcl & Hn2 & Hb2 & Hc2 & Hh2).
  assert (data (pf_os f2) fname = concat l) as Hd.
  { rewrite <- Hc1, <- Hc2. unfold pf_contents. by rewrite Hb2, app_nil_r, Hn2, Hn1. }
  rewrite <- Hd in Hne, Hlen. destruct (NewRandomAccessFile_ok strerror e (pf_os f2) fname Hh2 Hne Hlen Hl)
    as (g & e' & k2 & Hr & Hl' & _ & Hg). destruct (Hg k2) as [Hok Hcg].
  exists f, k1, f1, f2, g, e', k2. split_and!; [done|done|done|done|done|]. rewrite <- Hd, <- Hcg.
  intros offset n scratch Ho Hn Hle. by apply (ReadAt_contents (RandomAccessFileSpec := PosixReadable_spec strerror)).
Qed.

Definition sim_name : bytes := bs "db/MANIFEST-000001".

Lemma PosixFile_roundtrip_witness :
  let l := [bs "abc"; []; bs "defgh"]%string in
  let e := PosixEnv_new (MaxMmaps (-1) 8) 10 in
  exists f k1 f1 f2 g e' k2,
    NewWritableFile (fun _ => []) (Sim.Sys_empty 3) sim_name = (inl f, k1) /\
    @Appends _ (PosixFile_writable (fun _ => []) 3) (MkPosixFile f k1) l = Some f1 /\
    @Close _ (PosixFile_writable (fun _ => []) 3) f1 = Some (OK, f2) /\
    NewRandomAccessFile (fun _ => []) e (pf_os f2) sim_name = (inl g, e', k2) /\ mmap_limit_ e' = mmap_limit_ e - 1 /\
    forall offset n scratch, 0 <= offset -> 0 <= n -> offset + n <= Z.of_nat (length (concat l)) ->
      @ReadAt _ (PosixReadable_random (fun _ => [])) (MkReadable g k2) offset n scratch =
        Some (OK, take (Z.to_nat n) (drop (Z.to_nat offset) (concat l))).
Proof.
  intros l e. apply (PosixFile_roundtrip Sim.Sys_system Sim.sim_data Sim.sim_writer Sim.sim_reader Sim.s_intr Sim.sim_healthy
    (fun _ => []) 3 e (Sim.Sys_empty 3) sim_name l Sim.Sys_spec (Sim.Sys_empty_healthy 3)); [simpl; lia|done|reflexivity|reflexivity].
Defined.

(** C22. [Append] always returns, with the file still open and its buffer
    within bounds.  If the status is OK the data follows what was appended
    before; if the device fails, the file holds a prefix of that, and what was
    in the buffer is dropped. *)
Theorem PosixFile_append {K : Type} (OS : System K) (data : K -> bytes -> bytes) (writer reader : K -> Z -> bytes -> Prop)
    (intr : K -> nat) (healthy : K -> Prop) (strerror : Z -> bytes) (interrupts : nat) (f : PosixFile) (p : bytes) :
  SystemSpec OS data writer reader intr healthy ->
  pf_open (writer := writer) (intr := intr) interrupts f ->
  exists s f', @Append _ (PosixFile_writable strerror interrupts) f p = Some (s, f') /\
    pf_open (writer := writer) (intr := intr) interrupts f' /\ (healthy (pf_os f) -> s = OK) /\
    (if Status.ok s then pf_contents (data := data) f' = pf_contents (data := data) f ++ p
     else buf_ (pf_file f') = [] /\ pf_contents (data := data) f' `prefix_of` pf_contents (data := data) f ++ p).
Proof.
  intros HS Hf. destruct (Append_ok strerror interrupts f p Hf) as (s & f' & He & Ho & _ & Hh & Hs).
  exists s, f'. split; [done|]. split; [done|]. split; [intros H; by destruct (Hh H)|]. destruct (Status.ok s); [by destruct Hs|done].
Qed.

(** C24. A process that holds the lock of a database and tries to lock it again
    is refused, but loses the lock: the refusal closes a descriptor of the
    lock file, and [fcntl] drops a process's locks on a file when it closes
    any descriptor of it. *)
Theorem LockFile_reentry {K : Type} (OS : System K) (refers : K -> Z -> bytes -> Prop) (locked : K -> bytes -> Prop)
    (strerror : Z -> bytes) (e : PosixEnv) (k k1 : K) (fd : Z) (fname : bytes) :
  FcntlSpec OS refers locked -> fname ∈ locks_ e -> sys_open k fname O_RDWR_CREAT = (inl fd, k1) ->
  exists e' k', LockFile strerror e k fname =
      (inr (Status_make kIOError (bs "lock " ++ fname) (bs "already held by process")), e', k') /\
    fname ∈ locks_ e' /\ ~ locked k' fname.
Proof.
  intros HF Hin Ho. unfold LockFile, LockTable_Insert. rewrite Ho. rewrite bool_decide_false by set_solver. cbn [negb].
  pose proof (close_unlocks k1 fd fname (open_refers _ _ _ _ _ Ho)) as Hc. destruct (sys_close k1 fd) as [x k2].
  eexists _, k2. split; [reflexivity|]. simpl. split; [set_solver|done].
Qed.

Definition sim_file : PosixFile :=
  MkPosixFile (MkWritable sim_name 3 (bs "ab")%string) (Sim.sim_open (Sim.Sys_empty 2) sim_name O_TRUNC_WRONLY_CREAT).2.

Lemma PosixFile_append_witness :
  exists s f', @Append _ (PosixFile_writable (fun _ => []) 2) sim_file (bs "cd")%string = Some (s, f') /\
    pf_open (writer := Sim.sim_writer) (intr := Sim.s_intr) 2 f' /\ (Sim.sim_healthy (pf_os sim_file) -> s = OK) /\
    (if Status.ok s then pf_contents (data := Sim.sim_data) f' = pf_contents (data := Sim.sim_data) sim_file ++ (bs "cd")%string
     else buf_ (pf_file f') = [] /\
       pf_contents (data := Sim.sim_data) f' `prefix_of` pf_contents (data := Sim.sim_data) sim_file ++ (bs "cd")%string).
Proof.
  apply (PosixFile_append Sim.Sys_system Sim.sim_data Sim.sim_writer Sim.sim_reader Sim.s_intr Sim.sim_healthy
    (fun _ => []) 2 sim_file (bs "cd")%string Sim.Sys_spec).
  split; [split; [reflexivity|by eexists]|]. split; [vm_compute; discriminate|simpl; lia].
Defined.

Lemma LockFile_reentry_witness :
  let '(r, e, k) := LockFile (fun _ => []) (PosixEnv_new 0 0) (Sim.Sys_empty 0) sim_name in
  r = inl (MkLock 3 sim_name) /\ sim_name ∈ Sim.s_locks k /\
  exists e' k', LockFile (fun _ => []) e k sim_name =
      (inr (Status_make kIOError (bs "lock " ++ sim_name) (bs "already held by process")), e', k') /\
    sim_name ∈ locks_ e' /\ ~ sim_name ∈ Sim.s_locks k'.
Proof.
  destruct (LockFile _ _ _ sim_name) as [[r e] k] eqn:E. injection E as <- <- <-. split; [done|]. split; [set_solver|].
  eapply (LockFile_reentry Sim.Sys_system _ (fun k name => name ∈ Sim.s_locks k)); [apply Sim_fcntl|simpl; set_solver|reflexivity].
Defined.
