(* ===== verification/PosixSched.v ===== *)
(** * The background thread of the POSIX environment

    [PosixEnv::Schedule] and [PosixEnv::BGThread] of [util/env_posix.cc] as a
    transition system: calls of [Schedule] from any thread interleave with the
    background thread, whose steps are the parts of its loop between two
    points where it does not hold the mutex.  Every function scheduled is run,
    once and in order, and no wake-up is lost. *)

From S2P Require Import Prelude.

Section sched.
(** A function with its argument. *)
Context {A : Type}.

(** ** Definitions *)

(** Where the thread is: not created, about to lock the mutex, waiting for the
    condition, woken and about to lock the mutex again, or in a function. *)
Inductive Thread := NotStarted | AtLock | Waiting | Woken | Running (f : A).

Record Sched := MkSched { started_bgthread_ : bool; queue_ : list A; thread : Thread }.

Definition Sched_new : Sched := MkSched false [] NotStarted.

(** [pthread_cond_signal]: without effect when no thread waits. *)
Definition signal (t : Thread) : Thread := match t with Waiting => Woken | _ => t end.

Definition Schedule (s : Sched) (f : A) : Sched :=
  let s := if started_bgthread_ s then s else MkSched true (queue_ s) AtLock in
  let s := match queue_ s with [] => MkSched (started_bgthread_ s) [] (signal (thread s)) | _ => s end in
  MkSched (started_bgthread_ s) (queue_ s ++ [f]) (thread s).

Definition IsSchedulerEmpty (s : Sched) : bool := match queue_ s with [] => true | _ => false end.

(** A step of [BGThread], with the function that has returned, if any; [None]
    when the thread is blocked. *)
Definition BGThread (s : Sched) : option (Sched * option A) :=
  match thread s with
  | NotStarted | Waiting => None
  | AtLock | Woken =>
      match queue_ s with
      | [] => Some (MkSched (started_bgthread_ s) [] Waiting, None)
      | f :: q => Some (MkSched (started_bgthread_ s) q (Running f), None)
      end
  | Running f => Some (MkSched (started_bgthread_ s) (queue_ s) AtLock, Some f)
  end.

(** The functions scheduled and those run so far, with the state. *)
Record Hist := MkHist { st : Sched; scheduled : list A; ran : list A }.

Inductive step : Hist -> Hist -> Prop :=
  | step_schedule h f : step h (MkHist (Schedule (st h) f) (scheduled h ++ [f]) (ran h))
  | step_bg h s' o : BGThread (st h) = Some (s', o) -> step h (MkHist s' (scheduled h) (ran h ++ option_list o))
  | step_spurious h : thread (st h) = Waiting ->
      step h (MkHist (MkSched (started_bgthread_ (st h)) (queue_ (st h)) Woken) (scheduled h) (ran h)).

Definition start : Hist := MkHist Sched_new [] [].

(** The background thread alone, for [n] steps or until it is blocked. *)
Fixpoint bg_run (n : nat) (s : Sched) : Sched * list A :=
  match n with
  | O => (s, [])
  | S n' =>
      match BGThread s with
      | None => (s, [])
      | Some (s', o) => let '(s2, l) := bg_run n' s' in (s2, option_list o ++ l)
      end
  end.

(** ** The invariant *)

Definition running (t : Thread) : list A := match t with Running f => [f] | _ => [] end.

Record sched_inv (h : Hist) : Prop := MkInv {
  si_order : scheduled h = ran h ++ running (thread (st h)) ++ queue_ (st h);
  si_started : started_bgthread_ (st h) = false <-> thread (st h) = NotStarted;
  si_idle : thread (st h) = NotStarted \/ thread (st h) = Waiting -> queue_ (st h) = [] }.

Lemma sched_inv_schedule (h : Hist) (f : A) :
  sched_inv h -> sched_inv (MkHist (Schedule (st h) f) (scheduled h ++ [f]) (ran h)).
Proof.
  destruct h as [[b q t] l r]. intros [Ho Hs Hi]. simpl in *. unfold Schedule. simpl. destruct b; simpl.
  - assert (t <> NotStarted) as Ht by (intros E; by apply Hs in E).
    destruct q as [|x q]; simpl.
    + constructor; simpl; [rewrite Ho; destruct t; simpl; by rewrite ?app_nil_r, <- ?app_assoc| |];
        destruct t; simpl; naive_solver.
    + constructor; simpl; [rewrite Ho; by rewrite <- !app_assoc|done|]. intros H. by specialize (Hi H).
  - assert (t = NotStarted) as -> by (by apply Hs). rewrite (Hi ltac:(auto)) in *. simpl in *.
    constructor; simpl; [by rewrite Ho, app_nil_r|naive_solver|naive_solver].
Qed.

Lemma sched_inv_bg (h : Hist) (s' : Sched) (o : option A) :
  sched_inv h -> BGThread (st h) = Some (s', o) -> sched_inv (MkHist s' (scheduled h) (ran h ++ option_list o)).
Proof.
  destruct h as [[b q t] l r]. intros [Ho Hs Hi]. simpl in *. unfold BGThread. simpl.
  destruct t, q; intros [= <- <-]; simpl in *;
    (constructor; simpl; [rewrite Ho; by rewrite ?app_nil_r, <- ?app_assoc|naive_solver|naive_solver]).
Qed.

Lemma reachable_inv (h : Hist) : rtc step start h -> sched_inv h.
Proof.
  intros Hr. assert (sched_inv start) as H0 by (constructor; simpl; naive_solver). revert H0.
  induction Hr as [|x y z Hxy _ IH]; [done|]. intros Hx. apply IH. destruct Hxy as [h f|h s' o E|h E].
  - by apply sched_inv_schedule.
  - by apply (sched_inv_bg h s' o).
  - destruct Hx as [Ho Hs Hi]. rewrite E in *. constructor; simpl; [done|naive_solver|naive_solver].
Qed.

(** ** Progress *)

Lemma bg_blocked (n : nat) (s : Sched) : BGThread s = None -> bg_run n s = (s, []).
Proof. intros E. destruct n; [done|]. simpl. by rewrite E. Qed.

Lemma bg_run_all (n : nat) (s : Sched) :
  (thread s = NotStarted \/ thread s = Waiting -> queue_ s = []) ->
  (2 * length (queue_ s) + length (running (thread s)) + 1 <= n)%nat ->
  exists s', bg_run n s = (s', running (thread s) ++ queue_ s) /\ queue_ s' = [] /\ BGThread s' = None.
Proof.
  revert s. induction n as [|n IH]; intros [b q t] Hi Hn; simpl in *; [lia|].
  assert (forall q, (2 * length q + 1 <= n)%nat -> exists s', bg_run n (MkSched b q AtLock) = (s', q) /\ queue_ s' = [] /\ BGThread s' = None)
    as Hlock by (intros q' Hq'; apply (IH (MkSched b q' AtLock)); simpl; [naive_solver|lia]).
  assert (forall f q, (2 * length q + 2 <= n)%nat -> exists s', bg_run n (MkSched b q (Running f)) = (s', f :: q) /\ queue_ s' = [] /\ BGThread s' = None)
    as Hrun by (intros f q' Hq'; apply (IH (MkSched b q' (Running f))); simpl; [naive_solver|lia]).
  unfold BGThread at 1. cbn [thread queue_ started_bgthread_].
  destruct t as [| | | |f]; [rewrite (Hi ltac:(auto)); eauto|destruct q as [|f q]|rewrite (Hi ltac:(auto)); eauto|destruct q as [|f q]|].
  - rewrite bg_blocked by done. simpl. eauto.
  - simpl in Hn. destruct (Hrun f q ltac:(lia)) as (s' & -> & ?). simpl. eauto.
  - rewrite bg_blocked by done. simpl. eauto.
  - simpl in Hn. destruct (Hrun f q ltac:(lia)) as (s' & -> & ?). simpl. eauto.
  - simpl in Hn. destruct (Hlock q ltac:(lia)) as (s' & -> & ?). simpl. eauto.
Qed.

(** ** Properties *)

(** C23. Whatever the interleaving of calls of [Schedule] with the background
    thread, spurious wake-ups included: the functions run so far are the first
    of those scheduled, each once and in order; and the thread, left alone,
    runs all that is queued in at most two steps per function and then waits. *)
Theorem BGThread_runs_all (h : Hist) :
  rtc step start h ->
  ran h `prefix_of` scheduled h /\
  exists s' l, bg_run (2 * length (scheduled h) + 1) (st h) = (s', l) /\ ran h ++ l = scheduled h /\
    IsSchedulerEmpty s' = true /\ BGThread s' = None.
Proof.
  intros [Ho _ Hi]%reachable_inv. split; [by exists (running (thread (st h)) ++ queue_ (st h))|].
  destruct (bg_run_all (2 * length (scheduled h) + 1) (st h) Hi) as (s' & -> & Hq & Hb).
  { rewrite Ho, !length_app. lia. }
  exists s', (running (thread (st h)) ++ queue_ (st h)). unfold IsSchedulerEmpty. by rewrite Hq.
Qed.
End sched.

(** Two functions are scheduled; the thread has taken the first. *)
Lemma BGThread_runs_all_witness :
  let h := MkHist (MkSched true [2] (Running 1)) [1; 2] [] in
  ran h `prefix_of` scheduled h /\
  exists s' l, bg_run 5 (st h) = (s', l) /\ ran h ++ l = scheduled h /\ IsSchedulerEmpty s' = true /\ BGThread s' = None.
Proof.
  intros h. apply (BGThread_runs_all h).
  apply (rtc_l _ _ (MkHist (MkSched true [1] AtLock) [1] [])); [apply (step_schedule start 1)|].
  apply (rtc_l _ _ (MkHist (MkSched true [] (Running 1)) [1] [])).
  { by apply (step_bg (MkHist (MkSched true [1] AtLock) [1] []) _ None). }
  apply (rtc_l _ _ h); [|done]. apply (step_schedule (MkHist (MkSched true [] (Running 1)) [1] []) 2).
Defined.
