(* ===== verification/MemEnv.v ===== *)
(** * The in-memory environment

    [helpers/memenv/memenv.cc]: files as vectors of blocks of 8 KB, their
    sequential and random readers and their writer, and the environment that
    maps names to reference-counted files.

    A file lives at an address of [heap]; the null pointer is 0, and an access
    through it, or to a file that is gone, is [None].  [alloc] gives the
    addresses of new files and [junk] is what a new block holds before it is
    written. *)

From Stdlib Require Import String.
From S2P Require Import Prelude Status Coding Comparator Files.

Module Mem.

(** ** Definitions *)

Definition kBlockSize : Z := 8 * 1024.

#[global] Arguments kBlockSize : simpl never.

Record FileState := MkFile { refs_ : Z; blocks_ : list bytes; size_ : Z }.

Definition FileState_new : FileState := {| refs_ := 0; blocks_ := []; size_ := 0 |}.

Definition Size (f : FileState) : Z := size_ f.

(** The copying loop of [Read]; every turn but the first starts a block. *)
Fixpoint Read_loop (fuel : nat) (f : FileState) (block block_offset bytes_to_copy : Z) (dst : bytes)
    : option bytes :=
  match fuel with
  | O => None
  | S fuel' =>
      if 0 <? bytes_to_copy then
        let avail := kBlockSize - block_offset in
        let avail := if bytes_to_copy <? avail then bytes_to_copy else avail in
        blk ← blocks_ f !! Z.to_nat block;
        Read_loop fuel' f (block + 1) 0 (bytes_to_copy - avail)
          (dst ++ take (Z.to_nat avail) (drop (Z.to_nat block_offset) blk))
      else Some dst
  end.

(** [FileState::Read]; [scratch] is false for a null buffer, which only a read
    within one block leaves alone. *)
Definition FileRead (f : FileState) (offset n : Z) (scratch : bool) : option (Status * bytes) :=
  if size_ f <? offset then Some (IOError (bs "Offset greater than file size."), [])
  else
    let available := size_ f - offset in
    let n := if available <? n then available else n in
    if n =? 0 then Some (OK, [])
    else
      let block := offset / kBlockSize in
      let block_offset := offset mod kBlockSize in
      if n <=? kBlockSize - block_offset then
        blk ← blocks_ f !! Z.to_nat block;
        Some (OK, take (Z.to_nat n) (drop (Z.to_nat block_offset) blk))
      else if scratch then
        dst ← Read_loop (S (Z.to_nat n)) f block block_offset n [];
        Some (OK, dst)
      else None.

Section append.
Context (junk : bytes).

(** The loop of [FileState::Append]; every turn takes at least one byte. *)
Fixpoint Append_loop (fuel : nat) (f : FileState) (src : bytes) : option FileState :=
  match fuel with
  | O => None
  | S fuel' =>
      if (0 <? length src)%nat then
        let offset := size_ f mod kBlockSize in
        let '(blocks, avail) :=
          if negb (offset =? 0) then (blocks_ f, kBlockSize - offset)
          else (blocks_ f ++ [junk], kBlockSize) in
        let avail := if Z.of_nat (length src) <? avail then Z.of_nat (length src) else avail in
        blk ← last blocks;
        let blk := take (Z.to_nat offset) blk ++ take (Z.to_nat avail) src
                   ++ drop (Z.to_nat (offset + avail)) blk in
        Append_loop fuel'
          {| refs_ := refs_ f; blocks_ := <[(length blocks - 1)%nat := blk]> blocks;
             size_ := size_ f + avail |} (drop (Z.to_nat avail) src)
      else Some f
  end.

Definition FileAppend (f : FileState) (data : bytes) : option (Status * FileState) :=
  f ← Append_loop (S (length data)) f data; Some (OK, f).

(** [WritableFileImpl] on the file it holds. *)
Definition WritableFileImpl : WritableFile FileState :=
  {| Append := FileAppend;
     Flush f := Some (OK, f); Sync f := Some (OK, f); Close f := Some (OK, f) |}.
End append.

(** [SequentialFileImpl] and [RandomAccessFileImpl], while no one writes the
    file. *)
Record SequentialFileImpl := MkSeq { sf_file : FileState; pos_ : Z }.

Definition SeqRead (sf : SequentialFileImpl) (n : Z) : option (Status * bytes * SequentialFileImpl) :=
  '(s, result) ← FileRead (sf_file sf) (pos_ sf) n true;
  if ok s then Some (s, result, MkSeq (sf_file sf) (pos_ sf + Z.of_nat (length result)))
  else Some (s, result, sf).

Definition SeqSkip (sf : SequentialFileImpl) (n : Z) : option (Status * SequentialFileImpl) :=
  if Size (sf_file sf) <? pos_ sf then Some (IOError (bs "pos_ > file_->Size()"), sf)
  else
    let available := Size (sf_file sf) - pos_ sf in
    let n := if available <? n then available else n in
    Some (OK, MkSeq (sf_file sf) (pos_ sf + n)).

#[export] Instance SequentialFileImpl_file : SequentialFile SequentialFileImpl :=
  {| Read := SeqRead; Skip := SeqSkip |}.

#[export] Instance RandomAccessFileImpl : RandomAccessFile FileState :=
  {| ReadAt := FileRead |}.

(** *** The environment *)

Record InMemoryEnv := MkEnv { heap : gmap Z FileState; file_map_ : gmap bytes Z }.

Section env.
Context (alloc : gset Z -> Z).

Definition set_refs (f : FileState) (n : Z) : FileState :=
  {| refs_ := n; blocks_ := blocks_ f; size_ := size_ f |}.

Definition Ref (env : InMemoryEnv) (a : Z) : option InMemoryEnv :=
  f ← heap env !! a;
  Some (MkEnv (<[a := set_refs f (refs_ f + 1)]> (heap env)) (file_map_ env)).

(** The last reference deletes the file. *)
Definition Unref (env : InMemoryEnv) (a : Z) : option InMemoryEnv :=
  f ← heap env !! a;
  Some (if refs_ f - 1 <=? 0 then MkEnv (delete a (heap env)) (file_map_ env)
        else MkEnv (<[a := set_refs f (refs_ f - 1)]> (heap env)) (file_map_ env)).

(** [new FileState()]. *)
Definition new_FileState (env : InMemoryEnv) : InMemoryEnv * Z :=
  let a := alloc (dom (heap env)) in
  (MkEnv (<[a := FileState_new]> (heap env)) (file_map_ env), a).

Definition not_found (fname : bytes) : Status := Status_make kIOError fname (bs "File not found").

(** [NewSequentialFile] and [NewRandomAccessFile]: the address of the file the
    new object holds a reference to. *)
Definition NewSequentialFile (env : InMemoryEnv) (fname : bytes)
    : option (Status * option Z * InMemoryEnv) :=
  match file_map_ env !! fname with
  | None => Some (not_found fname, None, env)
  | Some a => env ← Ref env a; Some (OK, Some a, env)
  end.

Definition NewRandomAccessFile (env : InMemoryEnv) (fname : bytes)
    : option (Status * option Z * InMemoryEnv) :=
  match file_map_ env !! fname with
  | None => Some (not_found fname, None, env)
  | Some a => env ← Ref env a; Some (OK, Some a, env)
  end.

Definition DeleteFileInternal (env : InMemoryEnv) (fname : bytes) : option InMemoryEnv :=
  match file_map_ env !! fname with
  | None => Some env
  | Some a => env ← Unref env a; Some (MkEnv (heap env) (delete fname (file_map_ env)))
  end.

Definition NewWritableFile (env : InMemoryEnv) (fname : bytes)
    : option (Status * Z * InMemoryEnv) :=
  env ← (match file_map_ env !! fname with
         | Some _ => DeleteFileInternal env fname
         | None => Some env
         end);
  let '(env, a) := new_FileState env in
  env ← Ref env a;
  let env := MkEnv (heap env) (<[fname := a]> (file_map_ env)) in
  env ← Ref env a;
  Some (OK, a, env).

(** [file_map_[fname]] makes an entry with a null pointer, and the new file is
    not stored in it. *)
Definition NewAppendableFile (env : InMemoryEnv) (fname : bytes)
    : option (Status * Z * InMemoryEnv) :=
  let sptr := default 0 (file_map_ env !! fname) in
  let env := MkEnv (heap env) (<[fname := sptr]> (file_map_ env)) in
  '(env, a) ← (if sptr =? 0 then
                 let '(env, a) := new_FileState env in
                 env ← Ref env a; Some (env, a)
               else Some (env, sptr));
  env ← Ref env a;
  Some (OK, a, env).

Definition FileExists (env : InMemoryEnv) (fname : bytes) : bool :=
  bool_decide (is_Some (file_map_ env !! fname)).

(** The names below [dir] without it, in the order of the map. *)
Definition child_of (dir filename : bytes) : option bytes :=
  if (length dir + 1 <=? length filename)%nat &&
     bool_decide (filename !! length dir = Some Byte.x2f) && starts_with filename dir
  then Some (drop (length dir + 1) filename) else None.

Definition GetChildren (env : InMemoryEnv) (dir : bytes) : list bytes :=
  omap (fun x => child_of dir x.1) (map_to_list (file_map_ env)).

Definition DeleteFile (env : InMemoryEnv) (fname : bytes) : option (Status * InMemoryEnv) :=
  match file_map_ env !! fname with
  | None => Some (not_found fname, env)
  | Some _ => env ← DeleteFileInternal env fname; Some (OK, env)
  end.

Definition GetFileSize (env : InMemoryEnv) (fname : bytes) : option (Status * Z) :=
  match file_map_ env !! fname with
  | None => Some (not_found fname, 0)
  | Some a => f ← heap env !! a; Some (OK, Size f)
  end.

(** [file_map_[src]] after the target is gone is the null pointer when the two
    names are the same. *)
Definition RenameFile (env : InMemoryEnv) (src target : bytes) : option (Status * InMemoryEnv) :=
  match file_map_ env !! src with
  | None => Some (not_found src, env)
  | Some _ =>
      env ← DeleteFileInternal env target;
      let a := default 0 (file_map_ env !! src) in
      let m := <[target := a]> (<[src := a]> (file_map_ env)) in
      Some (OK, MkEnv (heap env) (delete src m))
  end.

(** [Append] through a [WritableFileImpl] that holds the file at [a]. *)
Definition AppendAt (junk : bytes) (env : InMemoryEnv) (a : Z) (data : bytes)
    : option (Status * InMemoryEnv) :=
  f ← heap env !! a;
  '(s, f) ← FileAppend junk f data;
  Some (s, MkEnv (<[a := f]> (heap env)) (file_map_ env)).
End env.

(** ** A file as a byte string *)

Definition K : nat := Z.to_nat kBlockSize.

Lemma K_Z : Z.of_nat K = kBlockSize.
Proof. unfold K, kBlockSize. lia. Qed.

#[global] Opaque K.

(** All blocks are full-sized, and the last one is in use. *)
Definition file_ok (f : FileState) : Prop :=
  Forall (fun b => length b = K) (blocks_ f) /\ 0 <= size_ f /\
  size_ f <= kBlockSize * Z.of_nat (length (blocks_ f)) < size_ f + kBlockSize.

Definition contents (f : FileState) : bytes := take (Z.to_nat (size_ f)) (concat (blocks_ f)).

Lemma length_concat_blocks (bl : list bytes) :
  Forall (fun b => length b = K) bl -> length (concat bl) = (length bl * K)%nat.
Proof. induction 1 as [|b bl Hb _ IH]; [done|]. simpl. rewrite length_app. lia. Qed.

Lemma length_contents (f : FileState) : file_ok f -> Z.of_nat (length (contents f)) = size_ f.
Proof.
  intros (Hb & H0 & Hs). unfold contents. rewrite length_take, length_concat_blocks by done.
  pose proof K_Z. nia.
Qed.

Lemma FileState_new_ok : file_ok FileState_new /\ contents FileState_new = [].
Proof. split; [|done]. split; [constructor|]. simpl. unfold kBlockSize. lia. Qed.

(** *** Appending *)

Lemma take_last_block (bl : list bytes) (blk : bytes) (off : nat) :
  Forall (fun b => length b = K) bl ->
  take (length bl * K + off) (concat (bl ++ [blk])) = concat bl ++ take off blk.
Proof.
  intros Hb. rewrite concat_app. simpl. rewrite app_nil_r, <- (length_concat_blocks bl Hb).
  apply take_app_add.
Qed.

Section file.
Context (junk : bytes) (Hjunk : length junk = K).

(** Writing [avail] bytes into the last block. *)
Lemma write_last (r off avail : Z) (bl : list bytes) (blk src : bytes) :
  Forall (fun b => length b = K) bl -> length blk = K ->
  0 <= off < kBlockSize -> 0 < avail <= kBlockSize - off -> avail <= Z.of_nat (length src) ->
  let blk' := take (Z.to_nat off) blk ++ take (Z.to_nat avail) src
              ++ drop (Z.to_nat (off + avail)) blk in
  let f := MkFile r (bl ++ [blk']) (kBlockSize * Z.of_nat (length bl) + off + avail) in
  file_ok f /\ contents f = (concat bl ++ take (Z.to_nat off) blk) ++ take (Z.to_nat avail) src.
Proof.
  intros Hb Hblk Hoff Hav Hsrc blk' f. pose proof K_Z as HK.
  assert (length blk' = K) as Hblk'.
  { unfold blk'. rewrite !length_app, !length_take, length_drop. lia. }
  split.
  - unfold f. split; [|cbn [size_ blocks_]; rewrite length_app; cbn [length]; lia].
    apply Forall_app. split; [done|]. by constructor.
  - unfold contents, f. cbn [size_ blocks_].
    replace (Z.to_nat (kBlockSize * Z.of_nat (length bl) + off + avail))
      with (length bl * K + (Z.to_nat off + Z.to_nat avail))%nat by nia.
    rewrite take_last_block, <- app_assoc by done. f_equal. unfold blk'.
    rewrite app_assoc, take_app_le by (rewrite length_app, !length_take; lia).
    apply take_ge. rewrite length_app, !length_take. lia.
Qed.

(** The block a write goes to, and the room in it. *)
Lemma last_block (f : FileState) :
  file_ok f ->
  exists bl blk off, 0 <= off < kBlockSize /\ off = size_ f mod kBlockSize /\
    (if negb (off =? 0) then (blocks_ f, kBlockSize - off) else (blocks_ f ++ [junk], kBlockSize))
    = (bl ++ [blk], kBlockSize - off) /\
    Forall (fun b => length b = K) bl /\ length blk = K /\
    size_ f = kBlockSize * Z.of_nat (length bl) + off /\
    contents f = concat bl ++ take (Z.to_nat off) blk.
Proof.
  intros (Hb & H0 & Hs). pose proof K_Z as HK. assert (0 < kBlockSize) as Hpos by done.
  pose proof (Z.mod_pos_bound (size_ f) kBlockSize Hpos) as Hm.
  pose proof (Z.div_mod (size_ f) kBlockSize ltac:(lia)) as Hd.
  destruct (Z.eqb_spec (size_ f mod kBlockSize) 0) as [E|E].
  - exists (blocks_ f), junk, 0. rewrite E in *. cbn [negb Z.eqb]. rewrite Z.sub_0_r.
    assert (size_ f = kBlockSize * Z.of_nat (length (blocks_ f))) as Hsz by (unfold kBlockSize in *; lia).
    do 6 (split; [done || lia|]). rewrite app_nil_r. unfold contents. rewrite Hsz.
    apply take_ge. rewrite length_concat_blocks by done. nia.
  - destruct (exists_last (l := blocks_ f)) as (bl & blk & Hbl).
    { intros Hnil. rewrite Hnil in Hs. cbn [length] in Hs.
      assert (size_ f = 0) as Hz by lia. rewrite Hz in E. done. }
    exists bl, blk, (size_ f mod kBlockSize). rewrite (proj2 (Z.eqb_neq _ _)) by done. cbn [negb].
    rewrite Hbl in *. apply Forall_app in Hb as [Hb Hblk]. rewrite Forall_singleton in Hblk.
    rewrite length_app in Hs. simpl in Hs.
    assert (size_ f / kBlockSize = Z.of_nat (length bl)) as Hq by (unfold kBlockSize in *; lia).
    do 5 (split; [done|]). split; [lia|]. unfold contents. rewrite Hbl, Hd at 1. rewrite Hq.
    replace (Z.to_nat (kBlockSize * Z.of_nat (length bl) + size_ f mod kBlockSize))
      with (length bl * K + Z.to_nat (size_ f mod kBlockSize))%nat by nia.
    by apply take_last_block.
Qed.

Lemma Append_loop_ok (fuel : nat) (f : FileState) (src : bytes) :
  file_ok f -> (length src < fuel)%nat ->
  exists f', Append_loop junk fuel f src = Some f' /\ file_ok f' /\
    contents f' = contents f ++ src /\ refs_ f' = refs_ f.
Proof.
  revert f src. induction fuel as [|fuel IH]; intros f src Hf Hfuel; [lia|]. cbn [Append_loop].
  destruct (Nat.ltb_spec 0 (length src)) as [Hlen|Hlen].
  2:{ exists f. destruct src; [|simpl in Hlen; lia]. by rewrite app_nil_r. }
  destruct (last_block f Hf) as (bl & blk & off & Hoff & Hoff' & Heq & Hb & Hblk & Hsz & Hc).
  rewrite <- Hoff', Heq, last_snoc. cbn [mbind option_bind].
  set (avail := if Z.of_nat (length src) <? kBlockSize - off then _ else _).
  assert (0 < avail <= kBlockSize - off /\ avail <= Z.of_nat (length src)) as [Hav Hav'].
  { unfold avail. destruct (Z.ltb_spec (Z.of_nat (length src)) (kBlockSize - off)); lia. }
  rewrite length_app. simpl length. rewrite Nat.add_sub.
  rewrite <- (Nat.add_0_r (length bl)), insert_app_r. cbn [insert list_insert].
  rewrite Hsz.
  destruct (write_last (refs_ f) off avail bl blk src Hb Hblk Hoff Hav Hav') as [Hok Hc'].
  match goal with |- context [Append_loop _ _ ?g _] =>
    destruct (IH g (drop (Z.to_nat avail) src) Hok) as (f' & -> & Hok' & Hcf & Hr) end.
  { rewrite length_drop. lia. }
  exists f'. split; [done|]. split; [done|]. split; [|done].
  rewrite Hcf, Hc', Hc, <- app_assoc. by rewrite take_drop.
Qed.

Lemma FileAppend_ok (f : FileState) (data : bytes) :
  file_ok f -> exists f', FileAppend junk f data = Some (OK, f') /\ file_ok f' /\
    contents f' = contents f ++ data /\ refs_ f' = refs_ f.
Proof.
  intros Hf. unfold FileAppend.
  destruct (Append_loop_ok (S (length data)) f data Hf) as (f' & -> & ? & ? & ?); [lia|]. eauto 10.
Qed.

#[export] Instance FileState_writable :
  @WritableFileSpec FileState (WritableFileImpl junk) contents file_ok.
Proof.
  constructor; simpl; intros f; [|by eauto..]. intros data Hf.
  destruct (FileAppend_ok f data Hf) as (f' & ? & ? & ? & _). eauto.
Qed.
End file.

(** *** Reading *)

(** From a position in a block to the end of the file. *)
Lemma drop_block (bl : list bytes) (block off : nat) (blk : bytes) :
  Forall (fun b => length b = K) bl -> bl !! block = Some blk -> (off <= K)%nat ->
  drop (block * K + off) (concat bl) = drop off blk ++ concat (drop (S block) bl).
Proof.
  intros Hb. revert block. induction Hb as [|b bl Hb _ IH]; intros [|block] Hl Hoff; try done.
  - simplify_eq/=. rewrite drop_0. apply drop_app_le. lia.
  - simpl in *. replace (K + block * K + off)%nat with (length b + (block * K + off))%nat by lia.
    rewrite drop_app_add. by apply IH.
Qed.

Lemma Read_loop_ok (fuel : nat) (f : FileState) (block off n : Z) (dst : bytes) :
  Forall (fun b => length b = K) (blocks_ f) -> 0 <= block -> 0 <= off < kBlockSize -> 0 <= n ->
  block * kBlockSize + off + n <= kBlockSize * Z.of_nat (length (blocks_ f)) ->
  (Z.to_nat n < fuel)%nat ->
  Read_loop fuel f block off n dst
  = Some (dst ++ take (Z.to_nat n) (drop (Z.to_nat (block * kBlockSize + off)) (concat (blocks_ f)))).
Proof.
  intros Hb. pose proof K_Z as HK. revert block off n dst.
  induction fuel as [|fuel IH]; intros block off n dst Hblk Hoff Hn Hend Hfuel; [lia|]. cbn [Read_loop].
  destruct (Z.ltb_spec 0 n) as [Hpos|]; [|replace n with 0 by lia; simpl; by rewrite app_nil_r].
  destruct (lookup_lt_is_Some_2 (blocks_ f) (Z.to_nat block)) as [blk Hl]; [nia|].
  rewrite Hl. cbn [mbind option_bind].
  assert (length blk = K) as Hlen by (by eapply (Forall_lookup_1 _ _ _ _ Hb)).
  set (avail := if n <? kBlockSize - off then n else kBlockSize - off).
  assert (avail = Z.min n (kBlockSize - off)) as Hav
    by (unfold avail; destruct (Z.ltb_spec n (kBlockSize - off)); lia).
  assert (0 < kBlockSize) as Hpos' by done. apply lookup_lt_Some in Hl as Hlt.
  assert ((block + 1) * kBlockSize <= kBlockSize * Z.of_nat (length (blocks_ f))) by nia.
  rewrite IH by lia. rewrite <- app_assoc. do 2 f_equal.
  replace (Z.to_nat (block * kBlockSize + off)) with (Z.to_nat block * K + Z.to_nat off)%nat by nia.
  rewrite (drop_block _ _ _ blk) by (done || lia).
  replace (Z.to_nat ((block + 1) * kBlockSize + 0)) with (S (Z.to_nat block) * K)%nat by nia.
  assert (drop (S (Z.to_nat block) * K) (concat (blocks_ f)) = concat (drop (S (Z.to_nat block)) (blocks_ f))) as ->.
  { replace (S (Z.to_nat block) * K)%nat with (Z.to_nat block * K + K)%nat by lia.
    rewrite (drop_block _ _ _ blk) by done. by rewrite drop_ge by lia. }
  destruct (Z.le_gt_cases n (kBlockSize - off)).
  - replace (n - avail) with 0 by lia. simpl. rewrite app_nil_r, Hav, Z.min_l by lia.
    rewrite take_app_le by (rewrite length_drop; lia). done.
  - rewrite (take_app_ge _ _ (Z.to_nat n)) by (rewrite length_drop; lia). f_equal.
    + apply take_ge. rewrite length_drop. lia.
    + rewrite length_drop. f_equal. lia.
Qed.

Lemma FileRead_ok (f : FileState) (offset n : Z) :
  file_ok f -> 0 <= offset <= size_ f -> 0 <= n ->
  FileRead f offset n true = Some (OK, take (Z.to_nat n) (drop (Z.to_nat offset) (contents f))).
Proof.
  intros (Hb & H0 & Hs) Hoff Hn. pose proof K_Z as HK. unfold FileRead.
  rewrite (proj2 (Z.ltb_ge (size_ f) offset)) by lia.
  set (m := if size_ f - offset <? n then size_ f - offset else n).
  assert (m = Z.min n (size_ f - offset)) as Hm
    by (unfold m; destruct (Z.ltb_spec (size_ f - offset) n); lia).
  assert (take (Z.to_nat n) (drop (Z.to_nat offset) (contents f))
    = take (Z.to_nat m) (drop (Z.to_nat offset) (concat (blocks_ f)))) as ->.
  { unfold contents. rewrite skipn_firstn_comm, take_take. f_equal. lia. }
  destruct (Z.eqb_spec m 0) as [->|Hm0]; [done|].
  assert (0 < kBlockSize) as Hpos by done.
  pose proof (Z.mod_pos_bound offset kBlockSize Hpos) as Hmod.
  pose proof (Z.div_mod offset kBlockSize ltac:(lia)) as Hdm.
  assert (0 <= offset / kBlockSize) by (apply Z.div_pos; lia).
  destruct (lookup_lt_is_Some_2 (blocks_ f) (Z.to_nat (offset / kBlockSize))) as [blk Hl]; [nia|].
  destruct (Z.leb_spec m (kBlockSize - offset mod kBlockSize)).
  - rewrite Hl. cbn [mbind option_bind]. do 2 f_equal.
    replace (Z.to_nat offset)
      with (Z.to_nat (offset / kBlockSize) * K + Z.to_nat (offset mod kBlockSize))%nat by nia.
    assert (length blk = K) by (by eapply (Forall_lookup_1 _ _ _ _ Hb)).
    rewrite (drop_block _ _ _ blk) by (done || lia).
    by rewrite take_app_le by (rewrite length_drop; lia).
  - rewrite Read_loop_ok by (done || lia). cbn [mbind option_bind].
    by replace (offset / kBlockSize * kBlockSize + offset mod kBlockSize) with offset by lia.
Qed.

(** A reader inside its file, and what it has still to read. *)
Definition seq_ok (sf : SequentialFileImpl) : Prop :=
  file_ok (sf_file sf) /\ 0 <= pos_ sf <= size_ (sf_file sf).

Definition seq_rest (sf : SequentialFileImpl) : bytes :=
  drop (Z.to_nat (pos_ sf)) (contents (sf_file sf)).

#[export] Instance SequentialFileImpl_spec : SequentialFileSpec SequentialFileImpl seq_rest seq_ok.
Proof.
  constructor; intros sf n [Hok Hpos] Hn; simpl.
  - unfold SeqRead. rewrite FileRead_ok by done. cbn [mbind option_bind]. eexists. split; [done|].
    pose proof (length_contents _ Hok). unfold seq_rest, seq_ok. cbn [pos_ sf_file].
    rewrite length_take, length_drop. split; [rewrite drop_drop|split; [done|lia]].
    destruct (decide (Z.to_nat n <= length (contents (sf_file sf)) - Z.to_nat (pos_ sf))%nat).
    + f_equal. lia.
    + rewrite !drop_ge; [done|lia|lia].
  - unfold SeqSkip, Size. rewrite (proj2 (Z.ltb_ge _ _)) by lia. eexists. split; [done|].
    pose proof (length_contents _ Hok). unfold seq_rest, seq_ok. cbn [pos_ sf_file].
    destruct (Z.ltb_spec (size_ (sf_file sf) - pos_ sf) n).
    + split; [rewrite drop_drop, !drop_ge; [done|lia|lia]|]. split; [done|lia].
    + split; [rewrite drop_drop; f_equal; lia|]. split; [done|lia].
Qed.

(** ** The environment as a map from names to contents *)

Definition env_ok (env : InMemoryEnv) : Prop :=
  heap env !! 0 = None /\
  (forall name a, file_map_ env !! name = Some a ->
     exists f, heap env !! a = Some f /\ file_ok f /\ 1 <= refs_ f) /\
  (forall n1 n2 a, file_map_ env !! n1 = Some a -> file_map_ env !! n2 = Some a -> n1 = n2).

(** What the environment holds. *)
Definition fs (env : InMemoryEnv) : gmap bytes bytes :=
  omap (fun a => contents <$> heap env !! a) (file_map_ env).

Lemma fs_lookup (env : InMemoryEnv) (name : bytes) :
  fs env !! name = a ← file_map_ env !! name; contents <$> heap env !! a.
Proof. apply lookup_omap. Qed.

Lemma contents_set_refs (f : FileState) (n : Z) : contents (set_refs f n) = contents f.
Proof. done. Qed.

Section env.
Context (alloc : gset Z -> Z).
Hypothesis alloc_fresh : forall s, alloc s ∉ s.
Hypothesis alloc_nonnull : forall s, alloc s <> 0.
Context (junk : bytes) (Hjunk : length junk = K).

(** Changing the file at one address, whose contents may change too. *)
Lemma update_ok (env : InMemoryEnv) (a : Z) (f : FileState) (name : bytes) :
  env_ok env -> file_map_ env !! name = Some a -> file_ok f -> 1 <= refs_ f ->
  let env' := MkEnv (<[a := f]> (heap env)) (file_map_ env) in
  env_ok env' /\ fs env' = <[name := contents f]> (fs env).
Proof.
  intros (H0 & Hm & Hinj) Hn Hf Hr env'. unfold env', env_ok. cbn [heap file_map_]. split.
  - assert (a <> 0) as Ha. { intros ->. destruct (Hm _ _ Hn) as (g & ? & _). congruence. }
    split; [by rewrite lookup_insert_ne|]. split; [|done]. intros n b Hb.
    destruct (decide (b = a)) as [->|]; [rewrite lookup_insert_eq; eauto|].
    rewrite lookup_insert_ne by done. by eapply Hm.
  - apply map_eq. intros n. rewrite fs_lookup. cbn [heap file_map_].
    destruct (decide (n = name)) as [->|Hne].
    + rewrite lookup_insert_eq, Hn. simpl. by rewrite lookup_insert_eq.
    + rewrite (lookup_insert_ne (fs env)), fs_lookup by done.
      destruct (file_map_ env !! n) as [b|] eqn:E; [|done]. simpl.
      rewrite lookup_insert_ne; [done|]. intros <-. by destruct Hne; eapply Hinj.
Qed.

Lemma Ref_eq (env : InMemoryEnv) (a : Z) (f : FileState) :
  heap env !! a = Some f ->
  Ref env a = Some (MkEnv (<[a := set_refs f (refs_ f + 1)]> (heap env)) (file_map_ env)).
Proof. intros Hf. unfold Ref. by rewrite Hf. Qed.

Lemma Ref_ok (env : InMemoryEnv) (a : Z) (name : bytes) :
  env_ok env -> file_map_ env !! name = Some a ->
  exists env', Ref env a = Some env' /\ env_ok env' /\ fs env' = fs env /\ file_map_ env' = file_map_ env.
Proof.
  intros Hok Hn. pose proof Hok as (_ & Hm & _). destruct (Hm _ _ Hn) as (f & Hf & Hfok & Hr).
  unfold Ref. rewrite Hf. cbn [mbind option_bind]. eexists. split; [done|].
  destruct (update_ok env a (set_refs f (refs_ f + 1)) name Hok Hn) as [Hok' Hfs]; [done|simpl; lia|].
  split; [done|]. split; [|done]. rewrite Hfs, contents_set_refs. apply insert_id.
  by rewrite fs_lookup, Hn; simpl; rewrite Hf.
Qed.

(** Taking a name away: the file at its address is used by no other name. *)
Lemma DeleteFileInternal_ok (env : InMemoryEnv) (name : bytes) :
  env_ok env ->
  exists env', DeleteFileInternal env name = Some env' /\ env_ok env' /\
    fs env' = delete name (fs env) /\ file_map_ env' = delete name (file_map_ env).
Proof.
  intros Hok. pose proof Hok as (H0 & Hm & Hinj). unfold DeleteFileInternal.
  destruct (file_map_ env !! name) as [a|] eqn:E.
  2:{ exists env. split; [done|]. split; [done|]. rewrite !delete_id; [done|done|].
      by rewrite fs_lookup, E. }
  destruct (Hm _ _ E) as (f & Hf & Hfok & Hr). unfold Unref. rewrite Hf. cbn [mbind option_bind].
  eexists. split; [reflexivity|].
  match goal with |- context [MkEnv ?h _] => set (hp := h) end.
  assert (forall b, b <> a -> hp !! b = heap env !! b) as Hhp.
  { intros b Hb. unfold hp. destruct (_ <=? _); simpl; [by rewrite lookup_delete_ne|by rewrite lookup_insert_ne]. }
  assert (file_map_ (if refs_ f - 1 <=? 0 then MkEnv (delete a (heap env)) (file_map_ env)
    else MkEnv (<[a:=set_refs f (refs_ f - 1)]> (heap env)) (file_map_ env)) = file_map_ env) as ->
    by (by destruct (_ <=? _)).
  assert (forall n b, n <> name -> file_map_ env !! n = Some b -> b <> a) as Hother.
  { intros n b Hne Hb ->. by destruct Hne; eapply Hinj. }
  assert (a <> 0) as Ha0 by (intros ->; congruence).
  split; [|split; [|done]]; unfold env_ok; cbn [heap file_map_].
  - split; [by rewrite Hhp|]. split.
    + intros n b [Hne Hb]%lookup_delete_Some. rewrite Hhp by (eapply Hother; eauto). by eapply Hm.
    + intros n1 n2 b [_ H1]%lookup_delete_Some [_ H2]%lookup_delete_Some. by eapply Hinj.
  - apply map_eq. intros n. rewrite fs_lookup. cbn [heap file_map_].
    destruct (decide (n = name)) as [->|Hne]; [by rewrite !lookup_delete_eq|].
    rewrite !lookup_delete_ne, fs_lookup by done.
    destruct (file_map_ env !! n) as [b|] eqn:En; [|done]. simpl.
    by rewrite Hhp by (by eapply Hother).
Qed.

Lemma NewWritableFile_ok (env : InMemoryEnv) (name : bytes) :
  env_ok env ->
  exists a env', NewWritableFile alloc env name = Some (OK, a, env') /\ env_ok env' /\
    fs env' = <[name := []]> (fs env) /\ file_map_ env' !! name = Some a.
Proof.
  intros Hok. unfold NewWritableFile.
  assert (exists env1, (match file_map_ env !! name with
    | Some _ => DeleteFileInternal env name | None => Some env end) = Some env1 /\ env_ok env1 /\
    fs env1 = delete name (fs env) /\ file_map_ env1 = delete name (file_map_ env))
    as (env1 & -> & Hok1 & Hfs1 & Hm1).
  { destruct (file_map_ env !! name) as [a|] eqn:E; [by apply DeleteFileInternal_ok|].
    exists env. split; [done|]. split; [done|].
    rewrite !delete_id; [done|done|by rewrite fs_lookup, E]. }
  cbn [mbind option_bind new_FileState]. set (a := alloc (dom (heap env1))).
  assert (heap env1 !! a = None) as Ha by apply not_elem_of_dom, alloc_fresh.
  rewrite (Ref_eq _ a FileState_new) by apply lookup_insert_eq. cbn [mbind option_bind heap file_map_].
  rewrite insert_insert_eq. set (f := set_refs FileState_new _).
  set (env2 := MkEnv (<[a:=f]> (heap env1)) (<[name:=a]> (file_map_ env1))).
  assert (forall n b, n <> name -> file_map_ env1 !! n = Some b -> b <> a) as Hother.
  { intros n b _ Hb ->. destruct (proj1 (proj2 Hok1) _ _ Hb) as (g & Hg & _). congruence. }
  assert (env_ok env2 /\ fs env2 = <[name := []]> (fs env1)) as [Hok2 Hfs2].
  { destruct Hok1 as (H0 & Hm & Hinj). unfold env_ok, env2. cbn [heap file_map_]. split.
    - split; [rewrite lookup_insert_ne by apply alloc_nonnull; done|]. split.
      + intros n b Hb. destruct (decide (n = name)) as [->|Hne].
        * rewrite lookup_insert_eq in Hb. injection Hb as <-. exists f. rewrite lookup_insert_eq.
          split; [done|]. split; [apply FileState_new_ok|simpl; lia].
        * rewrite lookup_insert_ne in Hb by done. rewrite lookup_insert_ne by (symmetry; by eapply Hother).
          by eapply Hm.
      + intros n1 n2 b. rewrite !lookup_insert_Some. intros [[<- <-]|[? H1]] [[<- Hb]|[? H2]]; try done.
        * by destruct (Hother n2 a).
        * subst b. by destruct (Hother n1 a).
        * by eapply Hinj.
    - apply map_eq. intros n. rewrite fs_lookup. cbn [heap file_map_].
      destruct (decide (n = name)) as [->|Hne].
      + rewrite !lookup_insert_eq. simpl. by rewrite lookup_insert_eq.
      + rewrite !(lookup_insert_ne _ name), fs_lookup by done.
        destruct (file_map_ env1 !! n) as [b|] eqn:En; [|done]. simpl.
        rewrite lookup_insert_ne; [done|]. intros Heq. by destruct (Hother n b). }
  destruct (Ref_ok env2 a name Hok2) as (env3 & -> & Hok3 & Hfs3 & Hm3); [apply lookup_insert_eq|].
  exists a, env3. split; [done|]. split; [done|]. rewrite Hfs3, Hfs2, Hfs1, Hm3.
  split; [by rewrite insert_delete_eq|apply lookup_insert_eq].
Qed.

Lemma AppendAt_ok (env : InMemoryEnv) (name data : bytes) (a : Z) :
  env_ok env -> file_map_ env !! name = Some a ->
  exists c env', fs env !! name = Some c /\ AppendAt junk env a data = Some (OK, env') /\ env_ok env' /\
    fs env' = <[name := c ++ data]> (fs env).
Proof.
  intros Hok Hn. pose proof Hok as (_ & Hm & _). destruct (Hm _ _ Hn) as (f & Hf & Hfok & Hr).
  exists (contents f). unfold AppendAt. rewrite fs_lookup, Hn. simpl. rewrite Hf. cbn [mbind option_bind].
  destruct (FileAppend_ok junk Hjunk f data Hfok) as (f' & -> & Hfok' & Hc & Hr').
  cbn [mbind option_bind]. eexists. split; [done|]. split; [done|]. rewrite <- Hc.
  apply update_ok; [done|done|done|lia].
Qed.

(** Moving a file to another name. *)
Lemma RenameFile_ok (env : InMemoryEnv) (src target : bytes) (c : bytes) :
  env_ok env -> src <> target -> fs env !! src = Some c ->
  exists env', RenameFile env src target = Some (OK, env') /\ env_ok env' /\
    fs env' = <[target := c]> (delete src (fs env)).
Proof.
  intros Hok Hne Hc. rewrite fs_lookup in Hc. unfold RenameFile.
  destruct (file_map_ env !! src) as [a|] eqn:E; [|done]. simpl in Hc.
  destruct (DeleteFileInternal_ok env target Hok) as (env1 & -> & Hok1 & Hfs1 & Hm1).
  cbn [mbind option_bind]. assert (file_map_ env1 !! src = Some a) as E1
    by (by rewrite Hm1, lookup_delete_ne).
  rewrite E1. simpl default. eexists. split; [done|]. rewrite (insert_id (file_map_ env1) src a E1).
  destruct Hok1 as (H0 & Hm & Hinj). unfold env_ok. cbn [heap file_map_].
  assert (file_map_ env1 !! target = None) as Ht by (by rewrite Hm1, lookup_delete_eq).
  assert (forall n b, n <> src -> file_map_ env1 !! n = Some b -> b <> a) as Hother.
  { intros n b Hn Hb ->. by destruct Hn; eapply Hinj. }
  split.
  - split; [done|]. split.
    + intros n b [_ Hb]%lookup_delete_Some. rewrite lookup_insert_Some in Hb.
      destruct Hb as [[<- <-]|[_ Hb]]; by eapply Hm.
    + intros n1 n2 b [Hn1 H1]%lookup_delete_Some [Hn2 H2]%lookup_delete_Some.
      rewrite lookup_insert_Some in H1, H2.
      destruct H1 as [[<- <-]|[? H1]], H2 as [[<- Hb]|[? H2]]; try done.
      * by destruct (Hother n2 a).
      * subst b. by destruct (Hother n1 a).
      * by eapply Hinj.
  - apply map_eq. intros n. rewrite fs_lookup. cbn [heap file_map_].
    destruct (decide (n = src)) as [->|Hs].
    { by rewrite lookup_delete_eq, lookup_insert_ne, lookup_delete_eq by done. }
    rewrite lookup_delete_ne by done. destruct (decide (n = target)) as [->|Htn].
    + rewrite !lookup_insert_eq. simpl. destruct (heap env !! a) as [f|] eqn:Ef; [|done].
      destruct (Hm _ _ E1) as (f1 & Hf1 & _).
      pose proof (f_equal (.!! src) Hfs1) as Hsrc. rewrite lookup_delete_ne, !fs_lookup, E1, E in Hsrc by done.
      simpl in Hsrc. by rewrite Hsrc, Ef.
    + rewrite !(lookup_insert_ne _ target) by done. rewrite lookup_delete_ne by done.
      rewrite <- (fs_lookup env1), Hfs1. by rewrite lookup_delete_ne.
Qed.

(** *** Sequences of operations *)

Inductive EnvOp :=
| OpCreate (name : bytes) | OpAppend (name data : bytes) | OpDelete (name : bytes)
| OpRename (src target : bytes).

(** An operation on the environment; a file is written through the object that
    [NewWritableFile] returned for it. *)
Definition env_step (env : InMemoryEnv) (op : EnvOp) : option (bool * InMemoryEnv) :=
  match op with
  | OpCreate n => '(s, _, env) ← NewWritableFile alloc env n; Some (ok s, env)
  | OpAppend n d =>
      match file_map_ env !! n with
      | Some a => '(s, env) ← AppendAt junk env a d; Some (ok s, env)
      | None => Some (false, env)
      end
  | OpDelete n => '(s, env) ← DeleteFile env n; Some (ok s, env)
  | OpRename s t => '(s, env) ← RenameFile env s t; Some (ok s, env)
  end.

(** The same on a map from names to contents. *)
Definition fs_step (m : gmap bytes bytes) (op : EnvOp) : bool * gmap bytes bytes :=
  match op with
  | OpCreate n => (true, <[n := []]> m)
  | OpAppend n d => match m !! n with Some c => (true, <[n := c ++ d]> m) | None => (false, m) end
  | OpDelete n => match m !! n with Some _ => (true, delete n m) | None => (false, m) end
  | OpRename s t =>
      match m !! s with Some c => (true, <[t := c]> (delete s m)) | None => (false, m) end
  end.

Definition proper_op (op : EnvOp) : Prop :=
  match op with OpRename s t => s <> t | _ => True end.

Fixpoint env_run (env : InMemoryEnv) (ops : list EnvOp) : option (list bool * InMemoryEnv) :=
  match ops with
  | [] => Some ([], env)
  | op :: ops' =>
      '(s, env) ← env_step env op; '(ss, env) ← env_run env ops'; Some (s :: ss, env)
  end.

Fixpoint fs_run (m : gmap bytes bytes) (ops : list EnvOp) : list bool * gmap bytes bytes :=
  match ops with
  | [] => ([], m)
  | op :: ops' => let '(s, m) := fs_step m op in let '(ss, m) := fs_run m ops' in (s :: ss, m)
  end.

Lemma not_found_fails (name : bytes) : ok (not_found name) = false.
Proof. done. Qed.

Lemma fs_mapped (env : InMemoryEnv) (name : bytes) :
  env_ok env -> is_Some (fs env !! name) <-> is_Some (file_map_ env !! name).
Proof.
  intros (_ & Hm & _). rewrite fs_lookup. split.
  - destruct (file_map_ env !! name); [done|by intros [? ?]].
  - intros [a Ha]. rewrite Ha. simpl. destruct (Hm _ _ Ha) as (f & -> & _). by eexists.
Qed.

Lemma env_step_ok (env : InMemoryEnv) (op : EnvOp) :
  env_ok env -> proper_op op ->
  exists env', env_step env op = Some ((fs_step (fs env) op).1, env') /\ env_ok env' /\
    fs env' = (fs_step (fs env) op).2.
Proof.
  intros Hok Hp. destruct op as [n|n d|n|src t]; simpl.
  - destruct (NewWritableFile_ok env n Hok) as (a & env' & -> & ? & ? & _). simpl. eauto.
  - pose proof (fs_mapped env n Hok) as Hf. destruct (file_map_ env !! n) as [a|] eqn:E.
    + destruct (AppendAt_ok env n d a Hok E) as (c & env' & -> & -> & ? & ?). simpl. eauto.
    + destruct (fs env !! n); [destruct Hf as [Hf _]; by destruct (Hf ltac:(done))|]. simpl. eauto.
  - pose proof (fs_mapped env n Hok) as Hf. unfold DeleteFile.
    destruct (file_map_ env !! n) as [a|] eqn:E.
    + destruct (DeleteFileInternal_ok env n Hok) as (env' & -> & ? & ? & _). simpl.
      destruct Hf as [_ Hf]. destruct (Hf ltac:(done)) as [c ->]. simpl. eauto.
    + destruct (fs env !! n); [destruct Hf as [Hf _]; by destruct (Hf ltac:(done))|]. simpl. eauto.
  - pose proof (fs_mapped env src Hok) as Hf. destruct (fs env !! src) as [c|] eqn:Ec; simpl.
    + destruct (RenameFile_ok env src t c Hok Hp Ec) as (env' & -> & ? & ?). simpl. eauto.
    + unfold RenameFile. destruct (file_map_ env !! src); [destruct Hf as [_ Hf]; by destruct (Hf ltac:(done))|].
      simpl. eauto.
Qed.

Lemma env_run_ok (ops : list EnvOp) (env : InMemoryEnv) :
  env_ok env -> Forall proper_op ops ->
  exists env', env_run env ops = Some ((fs_run (fs env) ops).1, env') /\ env_ok env' /\
    fs env' = (fs_run (fs env) ops).2.
Proof.
  intros Hok Hp. revert env Hok. induction Hp as [|op ops Hop _ IH]; intros env Hok; simpl; [eauto|].
  destruct (env_step_ok env op Hok Hop) as (env1 & -> & Hok1 & Hfs1). simpl.
  destruct (IH env1 Hok1) as (env2 & -> & Hok2 & Hfs2). simpl.
  rewrite Hfs1 in Hfs2. rewrite Hfs1. destruct (fs_step (fs env) op) as [s m]. simpl in *.
  destruct (fs_run m ops) as [ss m']. eauto.
Qed.

(** Opening and reading a file. *)
Lemma open_read_ok (env : InMemoryEnv) (name c : bytes) (offset n : Z) :
  env_ok env -> fs env !! name = Some c -> 0 <= offset <= Z.of_nat (length c) -> 0 <= n ->
  exists a env' f, NewSequentialFile env name = Some (OK, Some a, env') /\ heap env' !! a = Some f /\
    FileRead f offset n true = Some (OK, take (Z.to_nat n) (drop (Z.to_nat offset) c)).
Proof.
  intros Hok Hc Hoff Hn. rewrite fs_lookup in Hc. unfold NewSequentialFile.
  destruct (file_map_ env !! name) as [a|] eqn:E; [|done]. simpl in Hc.
  destruct (proj1 (proj2 Hok) _ _ E) as (f & Hf & Hfok & _). rewrite Hf in Hc. injection Hc as <-.
  rewrite (Ref_eq _ _ _ Hf). simpl. do 3 eexists. split; [done|]. split; [apply lookup_insert_eq|].
  rewrite length_contents in Hoff by done.
  rewrite <- (contents_set_refs f (refs_ f + 1)). by apply FileRead_ok.
Qed.
End env.

(** ** Properties *)

Definition empty_env : InMemoryEnv := MkEnv ∅ ∅.

Lemma empty_env_ok : env_ok empty_env /\ fs empty_env = ∅.
Proof. done. Qed.



(** Renaming a file to its own name returns OK and loses the file. *)
Theorem RenameFile_same_loses (env : InMemoryEnv) (name : bytes) (a : Z) (f : FileState) :
  file_map_ env !! name = Some a -> heap env !! a = Some f ->
  exists env', RenameFile env name name = Some (OK, env') /\ FileExists env' name = false.
Proof.
  intros Ha Hf. unfold RenameFile, DeleteFileInternal, Unref. rewrite Ha, Hf.
  cbn [mbind option_bind]. eexists. split; [done|]. unfold FileExists. cbn [file_map_].
  by rewrite lookup_delete_eq.
Qed.

Lemma RenameFile_same_loses_witness :
  let env := MkEnv {[ 1 := set_refs FileState_new 1 ]} {[ bs "a" := 1 ]} in
  exists env', RenameFile env (bs "a") (bs "a") = Some (OK, env') /\ FileExists env' (bs "a") = false.
Proof. apply (RenameFile_same_loses _ (bs "a") 1 (set_refs FileState_new 1)); reflexivity. Defined.

(** A file that [NewAppendableFile] creates is not entered in the map: the
    name is there with a null pointer, and opening it for reading goes through
    that pointer. *)
Theorem NewAppendableFile_unreadable (alloc : gset Z -> Z) (env : InMemoryEnv) (name : bytes) :
  (forall s, alloc s <> 0) -> heap env !! 0 = None -> file_map_ env !! name = None ->
  exists a env', NewAppendableFile alloc env name = Some (OK, a, env') /\
    FileExists env' name = true /\ NewSequentialFile env' name = None.
Proof.
  intros Ha H0 Hn. unfold NewAppendableFile. rewrite Hn. simpl default. cbn [Z.eqb new_FileState].
  set (a := alloc _). rewrite (Ref_eq _ a FileState_new) by apply lookup_insert_eq. cbn [mbind option_bind].
  erewrite (Ref_eq _ a) by apply lookup_insert_eq. cbn [mbind option_bind].
  do 2 eexists. split; [done|]. unfold FileExists, NewSequentialFile. cbn [file_map_ heap].
  rewrite lookup_insert_eq. split; [done|]. unfold Ref. cbn [heap].
  by rewrite !lookup_insert_ne, H0 by apply Ha.
Qed.

Lemma NewAppendableFile_unreadable_witness :
  exists a env', NewAppendableFile bump_alloc empty_env (bs "log") = Some (OK, a, env') /\
    FileExists env' (bs "log") = true /\ NewSequentialFile env' (bs "log") = None.
Proof.
  apply (NewAppendableFile_unreadable bump_alloc empty_env (bs "log"));
    [apply bump_alloc_nonnull|reflexivity|reflexivity].
Defined.

End Mem.
