(* ===== verification/Log.v ===== *)
(** * The write-ahead log

    [db/log_format.h], [db/log_writer.cc] and [db/log_reader.cc]: the writer,
    which cuts records into fragments that do not cross a block, and the
    reader, which puts them together again and drops what is damaged.

    The address of a buffer is given by [addr], since the checksum routine
    depends on its alignment.  [reports] has the calls of the reporter. *)

From Stdlib Require Import String.
From S2P Require Import Prelude Status Coding Crc32cTables Crc32c Files.

(** ** Definitions *)

Inductive RecordType := kZeroType | kFullType | kFirstType | kMiddleType | kLastType.

Definition RecordType_to_Z (t : RecordType) : Z :=
  match t with
  | kZeroType => 0 | kFullType => 1 | kFirstType => 2 | kMiddleType => 3 | kLastType => 4
  end.

Definition kMaxRecordType : Z := 4.
Definition kBlockSize : Z := 32768.
Definition kHeaderSize : Z := 4 + 2 + 1.

(** The two values that extend the record types in the reader. *)
Definition kEof : Z := kMaxRecordType + 1.
Definition kBadRecord : Z := kMaxRecordType + 2.

#[global] Arguments kBlockSize : simpl never.
#[global] Arguments kHeaderSize : simpl never.

Section log.
Context {P : CrcPort} (addr : bytes -> Z).

(** *** The writer *)

Definition InitTypeCrc : list Z :=
  map (fun i => Value (addr [byte.of_Z i]) [byte.of_Z i]) (seqZ 0 (kMaxRecordType + 1)).

Section writer.
Context {F : Type} {W : WritableFile F}.

Record Writer := MkWriter { dest_ : F; block_offset_ : Z; type_crc_ : list Z }.

Definition Writer_new (dest : F) : Writer :=
  {| dest_ := dest; block_offset_ := 0; type_crc_ := InitTypeCrc |}.

Definition Writer_append (dest : F) (dest_length : Z) : Writer :=
  {| dest_ := dest; block_offset_ := dest_length mod kBlockSize; type_crc_ := InitTypeCrc |}.

Definition set_dest (w : Writer) (f : F) (off : Z) : Writer :=
  {| dest_ := f; block_offset_ := off; type_crc_ := type_crc_ w |}.

Definition EmitPhysicalRecord (w : Writer) (t : RecordType) (ptr : bytes) : option (Status * Writer) :=
  let n := Z.of_nat (length ptr) in
  type_crc ← type_crc_ w !! Z.to_nat (RecordType_to_Z t);
  let crc := Mask (Extend (addr ptr) type_crc ptr) in
  let buf := EncodeFixed32 true crc
    ++ [byte.of_Z (Z.land n 0xff); byte.of_Z (Z.shiftr n 8); byte.of_Z (RecordType_to_Z t)] in
  '(s, f) ← Append (dest_ w) buf;
  '(s, f) ← (if ok s then
               '(s, f) ← Append f ptr;
               if ok s then Flush f else Some (s, f)
             else Some (s, f));
  Some (s, set_dest w f (block_offset_ w + (kHeaderSize + n))).

(** The [do] loop of [AddRecord] on what is left of the record. *)
Fixpoint AddRecord_loop (fuel : nat) (w : Writer) (ptr : bytes) (begin : bool)
    : option (Status * Writer) :=
  match fuel with
  | O => None
  | S fuel' =>
      let leftover := kBlockSize - block_offset_ w in
      w ← (if leftover <? kHeaderSize then
             if 0 <? leftover then
               '(_, f) ← Append (dest_ w) (replicate (Z.to_nat leftover) Byte.x00);
               Some (set_dest w f 0)
             else Some (set_dest w (dest_ w) 0)
           else Some w);
      let avail := Z.to_nat (kBlockSize - block_offset_ w - kHeaderSize) in
      let left := length ptr in
      let fragment_length := if (left <? avail)%nat then left else avail in
      let end_ := (left =? fragment_length)%nat in
      let type := if begin && end_ then kFullType
                  else if begin then kFirstType
                  else if end_ then kLastType
                  else kMiddleType in
      '(s, w) ← EmitPhysicalRecord w type (take fragment_length ptr);
      let ptr := drop fragment_length ptr in
      if ok s && (0 <? length ptr)%nat then AddRecord_loop fuel' w ptr false else Some (s, w)
  end.

(** Every turn but the first takes at least one character. *)
Definition AddRecord (w : Writer) (slice : bytes) : option (Status * Writer) :=
  AddRecord_loop (length slice + 2) w slice true.
End writer.

(** *** The reader *)

Section reader.
Context {F : Type} {R : SequentialFile F}.

Record Reader := MkReader {
  file_ : F;
  has_reporter : bool;
  reports : list (Z * Status);
  checksum_ : bool;
  buffer_ : bytes;
  eof_ : bool;
  last_record_offset_ : Z;
  end_of_buffer_offset_ : Z;
  initial_offset_ : Z;
  resyncing_ : bool }.

Definition Reader_new (file : F) (reporter checksum : bool) (initial_offset : Z) : Reader :=
  {| file_ := file; has_reporter := reporter; reports := []; checksum_ := checksum; buffer_ := [];
     eof_ := false; last_record_offset_ := 0; end_of_buffer_offset_ := 0;
     initial_offset_ := initial_offset; resyncing_ := 0 <? initial_offset |}.

Definition set_buffer (rd : Reader) (b : bytes) : Reader :=
  {| file_ := file_ rd; has_reporter := has_reporter rd; reports := reports rd;
     checksum_ := checksum_ rd; buffer_ := b; eof_ := eof_ rd;
     last_record_offset_ := last_record_offset_ rd;
     end_of_buffer_offset_ := end_of_buffer_offset_ rd;
     initial_offset_ := initial_offset_ rd; resyncing_ := resyncing_ rd |}.

Definition set_eof (rd : Reader) (e : bool) : Reader :=
  {| file_ := file_ rd; has_reporter := has_reporter rd; reports := reports rd;
     checksum_ := checksum_ rd; buffer_ := buffer_ rd; eof_ := e;
     last_record_offset_ := last_record_offset_ rd;
     end_of_buffer_offset_ := end_of_buffer_offset_ rd;
     initial_offset_ := initial_offset_ rd; resyncing_ := resyncing_ rd |}.

Definition set_file (rd : Reader) (f : F) (end_of_buffer_offset : Z) : Reader :=
  {| file_ := f; has_reporter := has_reporter rd; reports := reports rd;
     checksum_ := checksum_ rd; buffer_ := buffer_ rd; eof_ := eof_ rd;
     last_record_offset_ := last_record_offset_ rd;
     end_of_buffer_offset_ := end_of_buffer_offset;
     initial_offset_ := initial_offset_ rd; resyncing_ := resyncing_ rd |}.

Definition set_resyncing (rd : Reader) (b : bool) : Reader :=
  {| file_ := file_ rd; has_reporter := has_reporter rd; reports := reports rd;
     checksum_ := checksum_ rd; buffer_ := buffer_ rd; eof_ := eof_ rd;
     last_record_offset_ := last_record_offset_ rd;
     end_of_buffer_offset_ := end_of_buffer_offset_ rd;
     initial_offset_ := initial_offset_ rd; resyncing_ := b |}.

Definition set_last (rd : Reader) (off : Z) : Reader :=
  {| file_ := file_ rd; has_reporter := has_reporter rd; reports := reports rd;
     checksum_ := checksum_ rd; buffer_ := buffer_ rd; eof_ := eof_ rd;
     last_record_offset_ := off;
     end_of_buffer_offset_ := end_of_buffer_offset_ rd;
     initial_offset_ := initial_offset_ rd; resyncing_ := resyncing_ rd |}.

Definition buffer_size (rd : Reader) : Z := Z.of_nat (length (buffer_ rd)).

Definition ReportDrop (rd : Reader) (n : Z) (reason : Status) : Reader :=
  if has_reporter rd &&
     (initial_offset_ rd <=? u64 (end_of_buffer_offset_ rd - buffer_size rd - n)) then
    {| file_ := file_ rd; has_reporter := has_reporter rd; reports := reports rd ++ [(n, reason)];
       checksum_ := checksum_ rd; buffer_ := buffer_ rd; eof_ := eof_ rd;
       last_record_offset_ := last_record_offset_ rd;
       end_of_buffer_offset_ := end_of_buffer_offset_ rd;
       initial_offset_ := initial_offset_ rd; resyncing_ := resyncing_ rd |}
  else rd.

Definition ReportCorruption (rd : Reader) (n : Z) (reason : bytes) : Reader :=
  ReportDrop rd n (Corruption reason).

Definition SkipToInitialBlock (rd : Reader) : option (bool * Reader) :=
  let offset_in_block := initial_offset_ rd mod kBlockSize in
  let block_start_location := initial_offset_ rd - offset_in_block in
  let block_start_location :=
    if kBlockSize - 6 <? offset_in_block then u64 (block_start_location + kBlockSize)
    else block_start_location in
  let rd := set_file rd (file_ rd) block_start_location in
  if 0 <? block_start_location then
    '(skip_status, f) ← Skip (file_ rd) block_start_location;
    let rd := set_file rd f block_start_location in
    if negb (ok skip_status) then Some (false, ReportDrop rd block_start_location skip_status)
    else Some (true, rd)
  else Some (true, rd).

(** The part of [ReadPhysicalRecord] after the header is in the buffer. *)
Definition ParseRecord (rd : Reader) (result : bytes) : option (Z * bytes * Reader) :=
  let header := buffer_ rd in
  h4 ← header !! 4%nat;
  h5 ← header !! 5%nat;
  h6 ← header !! 6%nat;
  let a := Z.land (byte.unsigned h4) 0xff in
  let b := Z.land (byte.unsigned h5) 0xff in
  let type := u32 (signed_char h6) in
  let length_ := Z.lor a (Z.shiftl b 8) in
  if buffer_size rd <? kHeaderSize + length_ then
    let drop_size := buffer_size rd in
    let rd := set_buffer rd [] in
    if negb (eof_ rd)
    then Some (kBadRecord, result, ReportCorruption rd drop_size (bs "bad record length"))
    else Some (kEof, result, rd)
  else if (type =? RecordType_to_Z kZeroType) && (length_ =? 0) then
    Some (kBadRecord, result, set_buffer rd [])
  else
    expected ← DecodeFixed32 true header;
    let payload := take (Z.to_nat (1 + length_)) (drop 6 header) in
    if checksum_ rd && negb (Value (addr payload) payload =? Unmask expected) then
      let drop_size := buffer_size rd in
      let rd := set_buffer rd [] in
      Some (kBadRecord, result, ReportCorruption rd drop_size (bs "checksum mismatch"))
    else
      let rd := set_buffer rd (drop (Z.to_nat (kHeaderSize + length_)) header) in
      if u64 (end_of_buffer_offset_ rd - buffer_size rd - kHeaderSize - length_) <? initial_offset_ rd
      then Some (kBadRecord, [], rd)
      else Some (type, take (Z.to_nat length_) (drop (Z.to_nat kHeaderSize) header), rd).

(** [ReadPhysicalRecord(&result)]. *)
Fixpoint ReadPhysicalRecord_loop (fuel : nat) (rd : Reader) (result : bytes)
    : option (Z * bytes * Reader) :=
  match fuel with
  | O => None
  | S fuel' =>
      if buffer_size rd <? kHeaderSize then
        if negb (eof_ rd) then
          '(status, b, f) ← Read (file_ rd) kBlockSize;
          let rd := set_file (set_buffer rd b) f
                      (u64 (end_of_buffer_offset_ rd + Z.of_nat (length b))) in
          if negb (ok status) then
            let rd := ReportDrop (set_buffer rd []) kBlockSize status in
            Some (kEof, result, set_eof rd true)
          else
            let rd := if buffer_size rd <? kBlockSize then set_eof rd true else rd in
            ReadPhysicalRecord_loop fuel' rd result
        else Some (kEof, result, set_buffer rd [])
      else ParseRecord rd result
  end.

(** A read either fills the buffer or sets [eof_]. *)
Definition ReadPhysicalRecord (rd : Reader) (result : bytes) : option (Z * bytes * Reader) :=
  ReadPhysicalRecord_loop 3 rd result.

Definition unknown_type (t : Z) : bytes := bs "unknown record type " ++ to_string t.

(** The [while] loop of [ReadRecord]; the result is the record, if any. *)
Fixpoint ReadRecord_loop (fuel : nat) (rd : Reader) (fragment scratch : bytes)
    (in_fragmented_record : bool) (prospective_record_offset : Z) : option (option bytes * Reader) :=
  match fuel with
  | O => None
  | S fuel' =>
      '(record_type, fragment, rd) ← ReadPhysicalRecord rd fragment;
      let fragment_size := Z.of_nat (length fragment) in
      let scratch_size := Z.of_nat (length scratch) in
      let physical_record_offset :=
        u64 (end_of_buffer_offset_ rd - buffer_size rd - kHeaderSize - fragment_size) in
      if resyncing_ rd && (record_type =? RecordType_to_Z kMiddleType) then
        ReadRecord_loop fuel' rd fragment scratch in_fragmented_record prospective_record_offset
      else if resyncing_ rd && (record_type =? RecordType_to_Z kLastType) then
        ReadRecord_loop fuel' (set_resyncing rd false) fragment scratch
          in_fragmented_record prospective_record_offset
      else
        let rd := set_resyncing rd false in
        if record_type =? RecordType_to_Z kFullType then
          let rd := if in_fragmented_record && (0 <? scratch_size)
                    then ReportCorruption rd scratch_size (bs "partial record without end(1)")
                    else rd in
          Some (Some fragment, set_last rd physical_record_offset)
        else if record_type =? RecordType_to_Z kFirstType then
          let rd := if in_fragmented_record && (0 <? scratch_size)
                    then ReportCorruption rd scratch_size (bs "partial record without end(2)")
                    else rd in
          ReadRecord_loop fuel' rd fragment fragment true physical_record_offset
        else if record_type =? RecordType_to_Z kMiddleType then
          if negb in_fragmented_record then
            ReadRecord_loop fuel'
              (ReportCorruption rd fragment_size (bs "missing start of fragmented record(1)"))
              fragment scratch in_fragmented_record prospective_record_offset
          else
            ReadRecord_loop fuel' rd fragment (scratch ++ fragment)
              in_fragmented_record prospective_record_offset
        else if record_type =? RecordType_to_Z kLastType then
          if negb in_fragmented_record then
            ReadRecord_loop fuel'
              (ReportCorruption rd fragment_size (bs "missing start of fragmented record(2)"))
              fragment scratch in_fragmented_record prospective_record_offset
          else Some (Some (scratch ++ fragment), set_last rd prospective_record_offset)
        else if record_type =? kEof then Some (None, rd)
        else if record_type =? kBadRecord then
          if in_fragmented_record then
            ReadRecord_loop fuel'
              (ReportCorruption rd scratch_size (bs "error in middle of record"))
              fragment [] false prospective_record_offset
          else ReadRecord_loop fuel' rd fragment scratch false prospective_record_offset
        else
          ReadRecord_loop fuel'
            (ReportCorruption rd
               (u64 (fragment_size + (if in_fragmented_record then scratch_size else 0)))
               (unknown_type record_type))
            fragment [] false prospective_record_offset
  end.

Definition ReadRecord (fuel : nat) (rd : Reader) : option (option bytes * Reader) :=
  if last_record_offset_ rd <? initial_offset_ rd then
    '(skipped, rd) ← SkipToInitialBlock rd;
    if negb skipped then Some (None, rd) else ReadRecord_loop fuel rd [] [] false 0
  else ReadRecord_loop fuel rd [] [] false 0.

Definition LastRecordOffset (rd : Reader) : Z := last_record_offset_ rd.
End reader.
End log.

#[global] Arguments Writer : clear implicits.
#[global] Arguments Reader : clear implicits.
