(* ===== verification/LogSpec.v ===== *)
(** * The write-ahead log: recovery

    What the writer lays out in the file, and that the reader recovers from
    any truncation of it exactly the records that were written in full, and
    reports no corruption. *)

From Stdlib Require Import String.
From S2P Require Import Prelude Status Coding Crc32cTables Crc32c Files MemEnv Log.

(** ** The layout *)

Abbreviation phys := (RecordType * bytes)%type.

Definition size_of (p : phys) : Z := kHeaderSize + Z.of_nat (length p.2).

(** A physical record. *)
Definition type_byte (t : RecordType) : Byte.byte := byte.of_Z (RecordType_to_Z t).

Definition rec_bytes (p : phys) : bytes :=
  let n := Z.of_nat (length p.2) in
  (EncodeFixed32 true (Mask (crc32c 0 (type_byte p.1 :: p.2)))
   ++ [byte.of_Z (Z.land n 0xff); byte.of_Z (Z.shiftr n 8); type_byte p.1]) ++ p.2.

(** The padding in front of a record at block offset [b], and where it then
    starts. *)
Definition trailer (b : Z) : bytes :=
  if kBlockSize - b <? kHeaderSize then replicate (Z.to_nat (kBlockSize - b)) Byte.x00 else [].

Definition start (b : Z) : Z := if kBlockSize - b <? kHeaderSize then 0 else b.

Definition next (b : Z) (p : phys) : Z := start b + size_of p.

Definition header (p : phys) : bytes :=
  let n := Z.of_nat (length p.2) in
  EncodeFixed32 true (Mask (crc32c 0 (type_byte p.1 :: p.2)))
  ++ [byte.of_Z (Z.land n 0xff); byte.of_Z (Z.shiftr n 8); type_byte p.1].

Lemma rec_bytes_eq (p : phys) : rec_bytes p = header p ++ p.2.
Proof. done. Qed.

#[global] Opaque rec_bytes.
#[global] Arguments trailer : simpl never.
#[global] Arguments size_of : simpl never.
#[global] Arguments next : simpl never.

Fixpoint enc (b : Z) (ps : list phys) : bytes :=
  match ps with
  | [] => []
  | p :: ps' => trailer b ++ rec_bytes p ++ enc (next b p) ps'
  end.

Definition end_off (b : Z) (ps : list phys) : Z := fold_left next ps b.

Fixpoint fits (b : Z) (ps : list phys) : Prop :=
  match ps with
  | [] => True
  | p :: ps' => p.1 <> kZeroType /\ next b p <= kBlockSize /\ fits (next b p) ps'
  end.

(** [ps] is a fragmentation of the rest [s] of a record. *)
Inductive frag_of : bool -> bytes -> list phys -> Prop :=
| frag_full s : frag_of true s [(kFullType, s)]
| frag_last s : frag_of false s [(kLastType, s)]
| frag_first a s ps : frag_of false s ps -> frag_of true (a ++ s) ((kFirstType, a) :: ps)
| frag_middle a s ps : frag_of false s ps -> frag_of false (a ++ s) ((kMiddleType, a) :: ps).

Lemma enc_app (b : Z) (ps qs : list phys) : enc b (ps ++ qs) = enc b ps ++ enc (end_off b ps) qs.
Proof.
  revert b. induction ps as [|p ps IH]; intros b; [done|]. simpl.
  rewrite IH, <- !app_assoc. done.
Qed.

Lemma fits_app (b : Z) (ps qs : list phys) : fits b (ps ++ qs) <-> fits b ps /\ fits (end_off b ps) qs.
Proof.
  revert b. induction ps as [|p ps IH]; intros b; simpl; [tauto|]. rewrite IH. tauto.
Qed.

Lemma end_off_app (b : Z) (ps qs : list phys) : end_off b (ps ++ qs) = end_off (end_off b ps) qs.
Proof. apply fold_left_app. Qed.

Lemma size_of_pos (p : phys) : kHeaderSize <= size_of p.
Proof. unfold size_of. lia. Qed.

Lemma start_bound (b : Z) : 0 <= b <= kBlockSize -> 0 <= start b <= kBlockSize - kHeaderSize.
Proof.
  intros Hb. unfold start, kBlockSize, kHeaderSize in *.
  destruct (Z.ltb_spec (32768 - b) (4 + 2 + 1)); lia.
Qed.

Lemma end_off_bound (b : Z) (ps : list phys) :
  0 <= b <= kBlockSize -> fits b ps -> 0 <= end_off b ps <= kBlockSize.
Proof.
  revert b. induction ps as [|p ps IH]; intros b Hb; simpl; [done|]. intros (_ & Hn & Hf).
  apply IH; [|done]. pose proof (start_bound b Hb). pose proof (size_of_pos p).
  unfold next, kHeaderSize in *. lia.
Qed.

(** ** The writer *)

Section writer.
Context {P : CrcPort} {HP : CrcPortSpec P} (addr : bytes -> Z).
Context {F : Type} {W : WritableFile F} {contents : F -> bytes} {file_ok : F -> Prop}.
Context {HW : WritableFileSpec F contents file_ok}.

(** A writer whose file has [c], at block offset [b]. *)
Definition writes (w : Writer F) (c : bytes) (b : Z) : Prop :=
  contents (dest_ w) = c /\ file_ok (dest_ w) /\ block_offset_ w = b /\ 0 <= b <= kBlockSize /\
  type_crc_ w = InitTypeCrc addr.

Lemma type_crc (t : RecordType) :
  InitTypeCrc addr !! Z.to_nat (RecordType_to_Z t) = Some (crc32c 0 [type_byte t]).
Proof.
  unfold InitTypeCrc. rewrite list_lookup_fmap, lookup_seqZ_lt by (destruct t; simpl; unfold kMaxRecordType; lia).
  simpl. rewrite Value_ok. by destruct t.
Qed.

Lemma Emit_ok (w : Writer F) (c : bytes) (b : Z) (t : RecordType) (s : bytes) :
  writes w c b -> b + size_of (t, s) <= kBlockSize ->
  exists w', EmitPhysicalRecord addr w t s = Some (OK, w') /\
    writes w' (c ++ rec_bytes (t, s)) (b + size_of (t, s)).
Proof.
  intros (Hc & Hok & Hb & Hr & Ht) Hsize. unfold EmitPhysicalRecord. rewrite Ht, type_crc.
  cbn [mbind option_bind]. rewrite Extend_ok by (apply crc32c_bound; lia).
  rewrite <- crc32c_app.
  match goal with |- context [Append (dest_ w) ?x] =>
    destruct (Append_contents (dest_ w) x Hok) as (f1 & -> & Hc1 & Hok1) end.
  cbn [mbind option_bind]. change (ok OK) with true. cbv iota.
  destruct (Append_contents f1 s Hok1) as (f2 & -> & Hc2 & Hok2).
  cbn [mbind option_bind]. change (ok OK) with true. cbv iota.
  destruct (Flush_contents f2 Hok2) as (f3 & -> & Hc3 & Hok3). cbn [mbind option_bind].
  eexists. split; [done|]. unfold writes, set_dest. cbn [dest_ block_offset_ type_crc_].
  split; [rewrite Hc3, Hc2, Hc1, Hc, <- app_assoc, rec_bytes_eq; done|]. split; [done|].
  split; [rewrite Hb; done|]. pose proof (size_of_pos (t, s)). unfold kHeaderSize in *. split; [lia|done].
Qed.

(** The padding at the end of a block. *)
Lemma switch_block (w : Writer F) (c : bytes) (b : Z) :
  writes w c b ->
  exists w',
    (if kBlockSize - block_offset_ w <? kHeaderSize then
       if 0 <? kBlockSize - block_offset_ w then
         '(_, f) ← Append (dest_ w) (replicate (Z.to_nat (kBlockSize - block_offset_ w)) Byte.x00);
         Some (set_dest w f 0)
       else Some (set_dest w (dest_ w) 0)
     else Some w) = Some w' /\ writes w' (c ++ trailer b) (start b).
Proof.
  intros (Hc & Hok & Hb & Hr & Ht). rewrite Hb. unfold trailer, start.
  destruct (Z.ltb_spec (kBlockSize - b) kHeaderSize).
  - destruct (Z.ltb_spec 0 (kBlockSize - b)).
    + destruct (Append_contents (dest_ w) (replicate (Z.to_nat (kBlockSize - b)) Byte.x00) Hok)
        as (f1 & -> & Hc1 & Hok1). cbn [mbind option_bind].
      eexists. split; [done|]. unfold writes, set_dest. cbn [dest_ block_offset_ type_crc_].
      rewrite Hc1, Hc. unfold kBlockSize. repeat split; auto; lia.
    + eexists. split; [done|]. unfold writes, set_dest. cbn [dest_ block_offset_ type_crc_].
      replace (Z.to_nat (kBlockSize - b)) with O by lia. rewrite app_nil_r.
      unfold kBlockSize. repeat split; auto; lia.
  - exists w. rewrite app_nil_r. unfold writes. auto 10.
Qed.

(** The loop writes a fragmentation of what is left of the record. *)
Lemma AddRecord_loop_ok (fuel : nat) (w : Writer F) (c s : bytes) (b : Z) (begin : bool) :
  writes w c b ->
  (length s + 2 <= fuel)%nat \/ (length s + 1 <= fuel)%nat /\ kHeaderSize < kBlockSize - start b ->
  exists w' ps, AddRecord_loop addr fuel w s begin = Some (OK, w') /\
    frag_of begin s ps /\ fits b ps /\ writes w' (c ++ enc b ps) (end_off b ps).
Proof.
  revert w c s b begin. induction fuel as [|fuel IH]; intros w c s b begin Hw Hfuel; [lia|].
  cbn [AddRecord_loop]. destruct (switch_block w c b Hw) as (w1 & -> & Hw1). cbn [mbind option_bind].
  assert (0 <= start b <= kBlockSize - kHeaderSize) as Hst by (apply start_bound, Hw).
  assert (block_offset_ w1 = start b) as -> by apply Hw1.
  set (avail := Z.to_nat (kBlockSize - start b - kHeaderSize)).
  destruct (Nat.ltb_spec (length s) avail) as [Hlt|Hge].
  - rewrite Nat.eqb_refl, firstn_all, drop_all. cbn [length].
    set (t := if begin && true then kFullType else if begin then kFirstType
              else if true then kLastType else kMiddleType).
    destruct (Emit_ok w1 _ _ t s Hw1) as (w2 & -> & Hw2); [unfold size_of; simpl; lia|].
    cbn [mbind option_bind]. rewrite andb_false_r.
    exists w2, [(t, s)]. simpl. rewrite app_nil_r, app_assoc. split; [done|].
    split; [destruct begin; constructor|]. split; [|done].
    split; [by destruct begin|]. split; [|done]. unfold next, size_of. simpl. lia.
  - assert (length (take avail s) = avail) as Hlen by (rewrite length_take; lia).
    set (t := if begin && (length s =? avail)%nat then kFullType else if begin then kFirstType
              else if (length s =? avail)%nat then kLastType else kMiddleType).
    destruct (Emit_ok w1 _ _ t (take avail s) Hw1) as (w2 & -> & Hw2);
      [unfold size_of; simpl; lia|]. cbn [mbind option_bind].
    change (ok OK) with true. cbn [andb]. rewrite length_drop.
    assert (next b (t, take avail s) <= kBlockSize) as Hn by (unfold next, size_of; simpl; lia).
    rewrite <- app_assoc in Hw2. change (start b + size_of (t, take avail s)) with (next b (t, take avail s)) in Hw2.
    destruct (Nat.ltb_spec 0 (length s - avail)) as [Hmore|Hdone].
    + assert (next b (t, take avail s) = kBlockSize) as He by (unfold next, size_of; simpl; lia).
      destruct (IH w2 _ (drop avail s) _ false Hw2) as (w3 & ps & -> & Hf & Hfit & Hw3).
      { right. rewrite length_drop, He. unfold start. rewrite Z.sub_diag. simpl.
        unfold kHeaderSize, kBlockSize in *. lia. }
      assert ((length s =? avail)%nat = false) as Hneq by (apply Nat.eqb_neq; lia).
      unfold t in *. rewrite Hneq, andb_false_r in *. exists w3.
      eexists ((if begin then kFirstType else kMiddleType, take avail s) :: ps). split; [done|].
      split; [rewrite <- (take_drop avail s) at 1; destruct begin; by constructor|].
      split; [split; [by destruct begin|done]|]. simpl. rewrite <- !app_assoc in Hw3. exact Hw3.
    + assert (length s = avail) as He by lia. assert (take avail s = s) as Hs by (apply take_ge; lia).
      unfold t in *. rewrite He, Nat.eqb_refl, Hs in *. exists w2.
      exists [(if begin && true then kFullType else if begin then kFirstType else kLastType, s)].
      simpl. rewrite app_nil_r. split; [done|]. split; [destruct begin; constructor|].
      split; [split; [by destruct begin|done]|exact Hw2].
Qed.

Lemma AddRecord_ok (w : Writer F) (c s : bytes) (b : Z) :
  writes w c b ->
  exists w' ps, AddRecord addr w s = Some (OK, w') /\
    frag_of true s ps /\ fits b ps /\ writes w' (c ++ enc b ps) (end_off b ps).
Proof. intros Hw. apply AddRecord_loop_ok; [done|lia]. Qed.

(** Some records in a row. *)
Fixpoint add_all (w : Writer F) (rs : list bytes) : option (Writer F) :=
  match rs with
  | [] => Some w
  | r :: rs' => '(s, w) ← AddRecord addr w r; if ok s then add_all w rs' else None
  end.

Lemma add_all_ok (rs : list bytes) (w : Writer F) (c : bytes) (b : Z) :
  writes w c b ->
  exists pss, Forall2 (frag_of true) rs pss /\ fits b (concat pss) /\
    forall j, exists w', add_all w (take j rs) = Some w' /\
      writes w' (c ++ enc b (concat (take j pss))) (end_off b (concat (take j pss))).
Proof.
  revert w c b. induction rs as [|r rs IH]; intros w c b Hw.
  - exists []. split; [constructor|]. split; [done|]. intros j. exists w.
    rewrite !take_nil. simpl. by rewrite app_nil_r.
  - destruct (AddRecord_ok w c r b Hw) as (w1 & ps & Hadd & Hf & Hfit & Hw1).
    destruct (IH w1 _ _ Hw1) as (pss & Hfs & Hfits & Hall).
    exists (ps :: pss). split; [by constructor|]. split; [simpl; by apply fits_app|].
    intros [|j]; simpl; [exists w; by rewrite app_nil_r|].
    destruct (Hall j) as (w' & Hj & Hw'). exists w'. rewrite Hadd. cbn [mbind option_bind].
    split; [done|]. by rewrite enc_app, end_off_app, app_assoc.
Qed.

Lemma Writer_new_writes (dest : F) :
  file_ok dest -> writes (Writer_new addr dest) (contents dest) 0.
Proof. intros Hok. unfold writes. simpl. unfold kBlockSize. repeat split; auto; lia. Qed.
End writer.

(** ** Headers *)

Lemma length_header (p : phys) : length (header p) = 7%nat.
Proof. unfold header, EncodeFixed32. by rewrite length_app, length_le_split. Qed.

Lemma length_rec_bytes (p : phys) : Z.of_nat (length (rec_bytes p)) = size_of p.
Proof.
  rewrite rec_bytes_eq, length_app, length_header. unfold size_of, kHeaderSize. lia.
Qed.

Lemma length_bytes (n : Z) :
  0 <= n < 2 ^ 16 ->
  Z.lor (Z.land (byte.unsigned (byte.of_Z (Z.land n 0xff))) 0xff)
    (Z.shiftl (Z.land (byte.unsigned (byte.of_Z (Z.shiftr n 8))) 0xff) 8) = n.
Proof.
  intros Hn. rewrite !land_ff, Z.shiftr_div_pow2 by lia. change (2 ^ 8) with 256.
  pose proof (Z.mod_pos_bound n 256 ltac:(lia)) as Hm.
  assert (0 <= n / 256 < 256) by (split; [apply Z.div_pos; lia|apply Z.div_lt_upper_bound; lia]).
  rewrite !byte_small, Z.mod_mod, (Z.mod_small (n / 256)) by lia.
  rewrite Z.lor_comm, lor_shiftl_add by lia. pose proof (Z.div_mod n 256 ltac:(lia)). lia.
Qed.

(** What is in the header, whatever follows it. *)
Lemma header_fields (p : phys) (x : bytes) :
  let n := Z.of_nat (length p.2) in
  (header p ++ x) !! 4%nat = Some (byte.of_Z (Z.land n 0xff)) /\
  (header p ++ x) !! 5%nat = Some (byte.of_Z (Z.shiftr n 8)) /\
  (header p ++ x) !! 6%nat = Some (type_byte p.1) /\
  DecodeFixed32 true (header p ++ x) = Some (Mask (crc32c 0 (type_byte p.1 :: p.2))) /\
  drop 6 (header p ++ x) = type_byte p.1 :: x.
Proof.
  intros n. unfold header. fold n. rewrite <- app_assoc.
  set (e := EncodeFixed32 _ _).
  assert (length e = 4%nat) as He by (unfold e, EncodeFixed32; apply length_le_split).
  rewrite !lookup_app_r, He by lia. do 3 (split; [done|]). split.
  - unfold e. apply fixed32_round. unfold Mask, u32. apply Z.mod_pos_bound. lia.
  - change 6%nat with (4 + 2)%nat. rewrite <- He, drop_app_add. done.
Qed.

Lemma type_byte_value (t : RecordType) : u32 (signed_char (type_byte t)) = RecordType_to_Z t.
Proof. by destruct t. Qed.

(** ** The reader *)

Section reader.
Context {P : CrcPort} {HP : CrcPortSpec P} (addr : bytes -> Z).
Context {F : Type} {Rd : SequentialFile F} {rest : F -> bytes} {file_ok : F -> Prop}.
Context {HR : SequentialFileSpec F rest file_ok}.

(** A reader at block offset [b] with [R] still to be read.  Before the first
    read the offset is that of the end of a block. *)
Definition reads (rd : Reader F) (b : Z) (R : bytes) : Prop :=
  buffer_ rd = take (Z.to_nat (kBlockSize - b)) R /\
  rest (file_ rd) = drop (Z.to_nat (kBlockSize - b)) R /\
  eof_ rd = (Z.of_nat (length R) <? kBlockSize - b) /\
  file_ok (file_ rd) /\ 0 <= b <= kBlockSize /\
  initial_offset_ rd = 0 /\ resyncing_ rd = false /\ reports rd = [] /\ 0 <= last_record_offset_ rd.

Lemma u64_nonneg (x : Z) : 0 <= u64 x.
Proof. apply Z.mod_pos_bound. lia. Qed.

Lemma buffer_size_reads (rd : Reader F) (b : Z) (R : bytes) :
  reads rd b R -> buffer_size rd = Z.min (kBlockSize - b) (Z.of_nat (length R)).
Proof. intros (Hb & _ & _ & _ & Hr & _). unfold buffer_size. rewrite Hb, length_take. lia. Qed.

(** At the end of a block the next one is read. *)
Lemma refill (fuel : nat) (rd : Reader F) (b : Z) (R r : bytes) :
  reads rd b R -> kBlockSize - b < kHeaderSize -> kBlockSize - b <= Z.of_nat (length R) ->
  exists rd', ReadPhysicalRecord_loop addr (S fuel) rd r = ReadPhysicalRecord_loop addr fuel rd' r /\
    reads rd' 0 (drop (Z.to_nat (kBlockSize - b)) R).
Proof.
  intros Hr Hend Hlen. cbn [ReadPhysicalRecord_loop]. rewrite (buffer_size_reads rd b R Hr).
  rewrite (proj2 (Z.ltb_lt _ _)) by lia.
  destruct Hr as (Hb & Hrest & Heof & Hok & Hbnd & Hini & Hres & Hrep & Hlast).
  rewrite (proj2 (Z.ltb_ge _ _)) in Heof by lia. rewrite Heof. cbn [negb].
  destruct (Read_rest (file_ rd) kBlockSize Hok ltac:(unfold kBlockSize; lia)) as (f' & -> & Hrest' & Hok').
  cbn [mbind option_bind]. change (ok OK) with true. cbn [negb].
  eexists. split; [reflexivity|]. rewrite Hrest in *. set (X := drop _ R) in *.
  unfold buffer_size, set_file, set_buffer. cbn [buffer_].
  rewrite length_take, Nat2Z.inj_min, Z2Nat.id by (unfold kBlockSize; lia).
  assert ((Z.min kBlockSize (Z.of_nat (length X)) <? kBlockSize)
    = (Z.of_nat (length X) <? kBlockSize - 0)) as Hcmp.
  { rewrite Z.sub_0_r. destruct (Z.ltb_spec (Z.of_nat (length X)) kBlockSize);
      [apply Z.ltb_lt|apply Z.ltb_ge]; lia. }
  unfold reads. rewrite Hcmp, Z.sub_0_r.
  destruct (Z.ltb_spec (Z.of_nat (length X)) kBlockSize); cbn; split_and!; (done || (unfold kBlockSize; lia)).
Qed.

(** At the end of the file there is nothing more. *)
Lemma short_eof (fuel : nat) (rd : Reader F) (b : Z) (R r : bytes) :
  reads rd b R -> Z.of_nat (length R) < kHeaderSize -> Z.of_nat (length R) < kBlockSize - b ->
  ReadPhysicalRecord_loop addr (S fuel) rd r = Some (kEof, r, set_buffer rd []).
Proof.
  intros Hr Hshort Hblk. cbn [ReadPhysicalRecord_loop]. rewrite (buffer_size_reads rd b R Hr).
  rewrite (proj2 (Z.ltb_lt _ _)) by lia. destruct Hr as (_ & _ & -> & _).
  by rewrite (proj2 (Z.ltb_lt _ _)) by lia.
Qed.

(** The buffer has the header of the record [p]. *)
Lemma ParseRecord_header (rd : Reader F) (p : phys) (x r : bytes) :
  buffer_ rd = header p ++ x -> p.1 <> kZeroType -> Z.of_nat (length p.2) < 2 ^ 16 ->
  initial_offset_ rd = 0 ->
  ParseRecord addr rd r =
  if Z.of_nat (length x) <? Z.of_nat (length p.2) then
    if negb (eof_ rd)
    then Some (kBadRecord, r, ReportCorruption (set_buffer rd []) (buffer_size rd) (bs "bad record length"))
    else Some (kEof, r, set_buffer rd [])
  else if checksum_ rd && negb (crc32c 0 (type_byte p.1 :: take (length p.2) x)
            =? crc32c 0 (type_byte p.1 :: p.2)) then
    Some (kBadRecord, r, ReportCorruption (set_buffer rd []) (buffer_size rd) (bs "checksum mismatch"))
  else Some (RecordType_to_Z p.1, take (length p.2) x, set_buffer rd (drop (length p.2) x)).
Proof.
  intros Hb Ht Hn Hi. unfold ParseRecord. rewrite Hb.
  destruct (header_fields p x) as (-> & -> & -> & -> & Hd6). cbn [mbind option_bind].
  rewrite length_bytes, type_byte_value by lia. set (n := Z.of_nat (length p.2)).
  assert (buffer_size rd = 7 + Z.of_nat (length x)) as Hsz
    by (unfold buffer_size; rewrite Hb, length_app, length_header; lia).
  assert ((buffer_size rd <? kHeaderSize + n) = (Z.of_nat (length x) <? n)) as ->.
  { rewrite Hsz. unfold kHeaderSize. destruct (Z.ltb_spec (Z.of_nat (length x)) n);
      [apply Z.ltb_lt|apply Z.ltb_ge]; lia. }
  destruct (Z.of_nat (length x) <? n); [done|].
  assert ((RecordType_to_Z p.1 =? RecordType_to_Z kZeroType) = false) as -> by (by destruct p.1).
  cbn [andb]. rewrite Unmask_Mask, Value_ok, Hd6 by (apply crc32c_bound; lia).
  replace (Z.to_nat (1 + n)) with (S (length p.2)) by lia. cbn [firstn].
  destruct (checksum_ rd && _); [done|].
  rewrite (proj2 (Z.ltb_ge _ _)); [|cbn [set_buffer initial_offset_]; rewrite Hi; apply u64_nonneg].
  replace (Z.to_nat (kHeaderSize + n)) with (length (header p) + length p.2)%nat
    by (rewrite length_header; unfold kHeaderSize; lia).
  replace (Z.to_nat kHeaderSize) with (length (header p)) by (by rewrite length_header).
  rewrite drop_app_add, drop_app_length. unfold n. by rewrite Nat2Z.id.
Qed.

(** A complete record in the block is returned. *)
Lemma ParseRecord_ok (rd : Reader F) (b : Z) (p : phys) (tail r : bytes) :
  reads rd b (rec_bytes p ++ tail) -> p.1 <> kZeroType -> b + size_of p <= kBlockSize ->
  exists rd', ParseRecord addr rd r = Some (RecordType_to_Z p.1, p.2, rd') /\ reads rd' (b + size_of p) tail.
Proof.
  intros (Hb & Hrest & Heof & Hok & Hbnd & Hini & Hres & Hrep & Hlast) Ht Hfit.
  assert (Z.to_nat (kBlockSize - b) = (length (rec_bytes p) + Z.to_nat (kBlockSize - (b + size_of p)))%nat) as Hn.
  { pose proof (length_rec_bytes p). lia. }
  rewrite Hn, take_app_add in Hb. rewrite Hn, drop_app_add in Hrest.
  rewrite rec_bytes_eq, <- app_assoc in Hb.
  rewrite (ParseRecord_header rd p _ r Hb) by (done || unfold size_of, kBlockSize, kHeaderSize in *; lia).
  rewrite length_app, (proj2 (Z.ltb_ge _ _)) by lia.
  rewrite take_app_length, drop_app_length, Z.eqb_refl, andb_false_r.
  eexists. split; [done|]. unfold reads, set_buffer. cbn.
  split; [done|]. split; [done|]. split.
  { rewrite Heof, length_app. pose proof (length_rec_bytes p).
    destruct (Z.ltb_spec (Z.of_nat (length tail)) (kBlockSize - (b + size_of p)));
      [apply Z.ltb_lt|apply Z.ltb_ge]; lia. }
  pose proof (size_of_pos p). unfold kHeaderSize in *. repeat split; auto; lia.
Qed.

(** A record cut off by the end of the file is not. *)
Lemma ParseRecord_cut (rd : Reader F) (b : Z) (p : phys) (m : nat) (r : bytes) :
  reads rd b (take m (rec_bytes p)) -> p.1 <> kZeroType -> b + size_of p <= kBlockSize ->
  kHeaderSize <= Z.of_nat m < size_of p ->
  ParseRecord addr rd r = Some (kEof, r, set_buffer rd []).
Proof.
  intros (Hb & Hrest & Heof & Hok & Hbnd & Hini & Hres & Hrep & Hlast) Ht Hfit Hm.
  pose proof (length_rec_bytes p) as Hl. assert (length (take m (rec_bytes p)) = m) as Hlm by (rewrite length_take; lia).
  rewrite take_ge in Hb by lia. rewrite rec_bytes_eq in Hb.
  rewrite take_app_ge in Hb by (rewrite length_header; unfold kHeaderSize in Hm; lia).
  rewrite (ParseRecord_header rd p _ r Hb) by (done || unfold size_of, kBlockSize, kHeaderSize in *; lia).
  rewrite length_header, length_take, (proj2 (Z.ltb_lt _ _))
    by (unfold size_of, kHeaderSize in *; lia).
  by rewrite Heof, Hlm, (proj2 (Z.ltb_lt _ _)) by lia.
Qed.

(** Nothing was reported, and nothing is being skipped. *)
Definition quiet (rd : Reader F) : Prop := reports rd = [] /\ resyncing_ rd = false.

Lemma reads_quiet (rd : Reader F) (b : Z) (R : bytes) : reads rd b R -> quiet (set_buffer rd []).
Proof. intros (_ & _ & _ & _ & _ & _ & ? & ? & _). done. Qed.

Lemma length_trailer (b : Z) :
  0 <= b <= kBlockSize ->
  Z.of_nat (length (trailer b)) = if kBlockSize - b <? kHeaderSize then kBlockSize - b else 0.
Proof.
  intros Hb. unfold trailer. destruct (_ <? _); [|done]. rewrite length_replicate. lia.
Qed.

(** The reader skips the trailer of a block. *)
Lemma to_record (rd : Reader F) (b : Z) (n : nat) (X r : bytes) :
  reads rd b (take n (trailer b ++ X)) -> (length (trailer b) <= n)%nat ->
  exists fuel rd', ReadPhysicalRecord addr rd r = ReadPhysicalRecord_loop addr (S fuel) rd' r /\
    reads rd' (start b) (take (n - length (trailer b)) X).
Proof.
  intros Hr Hn. assert (0 <= b <= kBlockSize) as Hb by apply Hr.
  pose proof (length_trailer b Hb) as Hl. unfold start.
  rewrite take_app_ge in Hr by done. unfold ReadPhysicalRecord.
  destruct (Z.ltb_spec (kBlockSize - b) kHeaderSize).
  - destruct (refill 2 rd b _ r Hr) as (rd' & -> & Hr'); [done|rewrite length_app; lia|].
    exists 1%nat, rd'. split; [done|].
    replace (Z.to_nat (kBlockSize - b)) with (length (trailer b)) in Hr' by lia.
    by rewrite drop_app_length in Hr'.
  - exists 2%nat, rd. split; [done|]. destruct (trailer b); [done|simpl in Hl; lia].
Qed.

(** The end of the file in the trailer or in the header. *)
Lemma read_short (rd : Reader F) (b : Z) (R r : bytes) :
  reads rd b R -> Z.of_nat (length R) < Z.of_nat (length (trailer b)) + kHeaderSize ->
  exists rd', ReadPhysicalRecord addr rd r = Some (kEof, r, rd') /\ quiet rd'.
Proof.
  intros Hr Hlen. assert (0 <= b <= kBlockSize) as Hb by apply Hr. rewrite length_trailer in Hlen by done.
  destruct (Z.ltb_spec (kBlockSize - b) kHeaderSize) as [Hlt|Hge].
  - destruct (Z.lt_ge_cases (Z.of_nat (length R)) (kBlockSize - b)).
    + exists (set_buffer rd []). split; [by apply (short_eof _ rd b R); [|lia|]|]. by eapply reads_quiet.
    + destruct (refill 2 rd b R r Hr) as (rd' & Heq & Hr'); [done|done|].
      exists (set_buffer rd' []). unfold ReadPhysicalRecord. rewrite Heq.
      split; [|by eapply reads_quiet]. apply (short_eof _ rd' 0 _ r Hr'); rewrite length_drop;
        unfold kBlockSize, kHeaderSize in *; lia.
  - exists (set_buffer rd []). split; [apply (short_eof _ rd b R r Hr); lia|]. by eapply reads_quiet.
Qed.

(** One physical record, or the end of the file inside it. *)
Lemma phys_step (rd : Reader F) (b : Z) (p : phys) (ps : list phys) (n : nat) (r : bytes) :
  fits b (p :: ps) -> reads rd b (take n (enc b (p :: ps))) ->
  let m := length (trailer b ++ rec_bytes p) in
  ((m <= n)%nat /\ exists rd', ReadPhysicalRecord addr rd r = Some (RecordType_to_Z p.1, p.2, rd') /\
     reads rd' (next b p) (take (n - m) (enc (next b p) ps))) \/
  ((n < m)%nat /\ exists rd', ReadPhysicalRecord addr rd r = Some (kEof, r, rd') /\ quiet rd').
Proof.
  intros (Ht & Hfit & _) Hr m. cbn [enc] in Hr. pose proof (length_rec_bytes p) as Hl.
  assert (m = (length (trailer b) + length (rec_bytes p))%nat) as Hm by apply length_app.
  unfold next in *. set (X := enc (start b + size_of p) ps) in *.
  assert (0 <= b <= kBlockSize) as Hb by apply Hr. pose proof (start_bound b Hb) as Hst.
  destruct (le_lt_dec (length (trailer b) + 7) n) as [Hn|Hn].
  2:{ right. split; [pose proof (size_of_pos p); unfold kHeaderSize in *; lia|].
      apply (read_short rd b _ r Hr). rewrite length_take. unfold kHeaderSize. lia. }
  destruct (to_record rd b n _ r Hr) as (fuel & rd1 & -> & Hr1); [lia|].
  cbn [ReadPhysicalRecord_loop]. rewrite (buffer_size_reads rd1 _ _ Hr1).
  assert (Z.of_nat (length (take (n - length (trailer b)) (rec_bytes p ++ X))) >= kHeaderSize).
  { pose proof (size_of_pos p). rewrite length_take, length_app. unfold kHeaderSize in *. lia. }
  rewrite (proj2 (Z.ltb_ge _ _)) by lia.
  destruct (le_lt_dec m n) as [Hc|Hc]; [left|right]; (split; [lia|]).
  - rewrite take_app_ge in Hr1 by lia. destruct (ParseRecord_ok rd1 _ p _ r Hr1) as (rd2 & -> & Hr2); [done|done|].
    exists rd2. split; [done|]. by replace (n - m)%nat with (n - length (trailer b) - length (rec_bytes p))%nat by lia.
  - rewrite take_app_le in Hr1 by lia. exists (set_buffer rd1 []). split; [|by eapply reads_quiet].
    apply (ParseRecord_cut rd1 _ p _ r Hr1); [done|done|]. unfold kHeaderSize. lia.
Qed.

Lemma phys_none (rd : Reader F) (b : Z) (r : bytes) :
  reads rd b [] -> exists rd', ReadPhysicalRecord addr rd r = Some (kEof, r, rd') /\ quiet rd'.
Proof. intros Hr. apply (read_short rd b [] r Hr). simpl. unfold kHeaderSize. lia. Qed.

(** ** Logical records *)

Lemma set_resyncing_same (rd : Reader F) : resyncing_ rd = false -> set_resyncing rd false = rd.
Proof. destruct rd. simpl. by intros ->. Qed.

Lemma reads_set_last (rd : Reader F) (b off : Z) (R : bytes) :
  0 <= off -> reads rd b R -> reads (set_last rd off) b R.
Proof. intros Ho (? & ? & ? & ? & ? & ? & ? & ? & ?). unfold reads, set_last. simpl. auto 10. Qed.

Lemma ReadRecord_loop_eof (fuel : nat) (rd rd' : Reader F) (f s : bytes) (infrag : bool) (off : Z) :
  ReadPhysicalRecord addr rd f = Some (kEof, f, rd') -> quiet rd' ->
  exists rd'', ReadRecord_loop addr (S fuel) rd f s infrag off = Some (None, rd'') /\ quiet rd''.
Proof.
  intros Hp [Hrep Hres]. cbn [ReadRecord_loop]. rewrite Hp. cbn [mbind option_bind].
  rewrite Hres. exists (set_resyncing rd' false). split; [done|]. split; [done|]. done.
Qed.

(** The rest of a record is put together, or the file ends inside it. *)
Lemma ReadRecord_loop_ok (begin : bool) (s : bytes) (ps : list phys) :
  frag_of begin s ps ->
  forall fuel rd b n qs f scratch off,
  (length ps <= fuel)%nat -> 0 <= off -> fits b (ps ++ qs) -> reads rd b (take n (enc b (ps ++ qs))) ->
  ((length (enc b ps) <= n)%nat /\
   exists rd', ReadRecord_loop addr fuel rd f (if begin then [] else scratch) (negb begin) off
     = Some (Some (if begin then s else scratch ++ s), rd') /\
     reads rd' (end_off b ps) (take (n - length (enc b ps)) (enc (end_off b ps) qs))) \/
  ((n < length (enc b ps))%nat /\
   exists rd', ReadRecord_loop addr fuel rd f (if begin then [] else scratch) (negb begin) off
     = Some (None, rd') /\ quiet rd').
Proof.
  induction 1 as [s|s|a s ps Hf IH|a s ps Hf IH]; intros fuel rd b n qs f scratch off Hfuel Hoff Hfit Hr;
    (destruct fuel as [|fuel]; [simpl in Hfuel; lia|]); cbn [app] in Hfit, Hr;
    (destruct (phys_step rd b _ _ n f Hfit Hr) as [(Hm & rd1 & Hp & Hr1)|(Hm & rd1 & Hp & Hq)]);
    (assert (resyncing_ rd1 = false) as Hres by (apply Hr1 || apply Hq)).
  all: try (right; split; [cbn [enc]; rewrite ?app_assoc, ?length_app in *; lia|];
            exact (ReadRecord_loop_eof fuel rd rd1 f _ _ off Hp Hq)).
  - left. cbn [enc]. rewrite app_nil_r. split; [done|]. cbn [ReadRecord_loop]. rewrite Hp.
    cbn [mbind option_bind]. rewrite Hres, set_resyncing_same by done. cbn.
    eexists. split; [done|]. apply reads_set_last; [apply u64_nonneg|exact Hr1].
  - left. cbn [enc]. rewrite app_nil_r. split; [done|]. cbn [ReadRecord_loop]. rewrite Hp.
    cbn [mbind option_bind]. rewrite Hres, set_resyncing_same by done. cbn.
    eexists. split; [done|]. by apply reads_set_last.
  - cbn [ReadRecord_loop]. rewrite Hp. cbn [mbind option_bind].
    rewrite Hres, set_resyncing_same by done. cbn [andb negb RecordType_to_Z Z.eqb Pos.eqb].
    destruct Hfit as (_ & _ & Hfit). simpl in Hfuel.
    destruct (IH fuel rd1 _ _ qs a a (u64 (end_of_buffer_offset_ rd1 - buffer_size rd1 - kHeaderSize
      - Z.of_nat (length a))) ltac:(lia) ltac:(apply u64_nonneg) Hfit Hr1)
      as [(Hn & rd' & Heq & Hr')|(Hn & rd' & Heq & Hq')].
    + left. cbn [enc]. rewrite app_assoc, length_app. split; [lia|]. exists rd'. split; [exact Heq|].
      rewrite Nat.sub_add_distr. exact Hr'.
    + right. cbn [enc]. rewrite app_assoc, length_app. split; [lia|]. by exists rd'.
  - cbn [ReadRecord_loop]. rewrite Hp. cbn [mbind option_bind].
    rewrite Hres, set_resyncing_same by done. cbn [andb negb RecordType_to_Z Z.eqb Pos.eqb].
    destruct Hfit as (_ & _ & Hfit). simpl in Hfuel.
    destruct (IH fuel rd1 _ _ qs a (scratch ++ a) off ltac:(lia) Hoff Hfit Hr1)
      as [(Hn & rd' & Heq & Hr')|(Hn & rd' & Heq & Hq')].
    + left. cbn [enc]. rewrite app_assoc, length_app. split; [lia|]. exists rd'.
      rewrite app_assoc. split; [exact Heq|]. rewrite Nat.sub_add_distr. exact Hr'.
    + right. cbn [enc]. rewrite app_assoc, length_app. split; [lia|]. by exists rd'.
Qed.

(** ** All records *)

(** Reading until [ReadRecord] returns [false]. *)
Fixpoint read_all (k fuel : nat) (rd : Reader F) : option (list bytes * Reader F) :=
  match k with
  | O => None
  | S k' =>
      '(r, rd) ← ReadRecord addr fuel rd;
      match r with
      | None => Some ([], rd)
      | Some r => '(rs, rd) ← read_all k' fuel rd; Some (r :: rs, rd)
      end
  end.

Lemma ReadRecord_noskip (fuel : nat) (rd : Reader F) (b : Z) (R : bytes) :
  reads rd b R -> ReadRecord addr fuel rd = ReadRecord_loop addr fuel rd [] [] false 0.
Proof.
  intros (_ & _ & _ & _ & _ & Hini & _ & _ & Hlast). unfold ReadRecord.
  by rewrite Hini, (proj2 (Z.ltb_ge _ _)).
Qed.

Lemma length_enc (ps : list phys) (b : Z) : (length ps <= length (enc b ps))%nat.
Proof.
  revert b. induction ps as [|p ps IH]; intros b; [done|]. simpl. rewrite !length_app.
  specialize (IH (next b p)). pose proof (length_rec_bytes p). pose proof (size_of_pos p).
  unfold kHeaderSize in *. lia.
Qed.

(** From a truncated file, the records before the cut. *)
Lemma read_all_ok (rs : list bytes) (pss : list (list phys)) :
  Forall2 (frag_of true) rs pss ->
  forall fuel rd b n, (length (enc b (concat pss)) < fuel)%nat -> fits b (concat pss) ->
  reads rd b (take n (enc b (concat pss))) ->
  exists k rd', read_all (S (length rs)) fuel rd = Some (take k rs, rd') /\ reports rd' = [] /\
    forall j, (j <= length rs)%nat -> (length (enc b (concat (take j pss))) <= n)%nat -> (j <= k)%nat.
Proof.
  induction 1 as [|r ps rs pss Hf Hfs IH]; intros fuel rd b n Hfuel Hfit Hr.
  - simpl in Hr. rewrite take_nil in Hr. destruct (phys_none rd b [] Hr) as (rd1 & Hp & Hq).
    destruct fuel as [|fuel]; [lia|].
    destruct (ReadRecord_loop_eof fuel rd rd1 [] [] false 0 Hp Hq) as (rd2 & Heq & [Hrep _]).
    exists 0%nat, rd2. cbn [read_all length]. rewrite (ReadRecord_noskip _ rd b _ Hr), Heq.
    split; [done|]. split; [done|]. intros j Hj _. simpl in Hj. lia.
  - cbn [concat] in *. rewrite enc_app, length_app in Hfuel. pose proof Hfit as [_ Hfit2]%fits_app.
    pose proof (length_enc ps b).
    destruct (ReadRecord_loop_ok true r ps Hf fuel rd b n (concat pss) [] [] 0 ltac:(lia) ltac:(lia) Hfit Hr)
      as [(Hn & rd1 & Heq & Hr1)|(Hn & rd1 & Heq & Hq)]; simpl in Heq.
    + destruct (IH fuel rd1 (end_off b ps) (n - length (enc b ps))%nat ltac:(lia) Hfit2 Hr1) as (k & rd2 & Hall & Hrep & Hk).
      exists (S k), rd2. cbn [read_all]. rewrite (ReadRecord_noskip _ rd b _ Hr), Heq.
      cbn [mbind option_bind]. change (length (r :: rs)) with (S (length rs)). rewrite Hall.
      split; [done|]. split; [done|]. intros [|j] Hj Hlen; [lia|]. simpl in Hj, Hlen.
      rewrite enc_app, length_app in Hlen. specialize (Hk j ltac:(lia) ltac:(lia)). lia.
    + exists 0%nat, rd1. cbn [read_all]. rewrite (ReadRecord_noskip _ rd b _ Hr), Heq.
      split; [done|]. split; [apply Hq|]. intros [|j] Hj Hlen; [lia|]. simpl in Hlen.
      rewrite enc_app, length_app in Hlen. lia.
Qed.

(** A new reader is at the end of a block that was not there. *)
Lemma Reader_new_reads (f : F) (reporter checksum : bool) :
  file_ok f -> reads (Reader_new f reporter checksum 0) kBlockSize (rest f).
Proof.
  intros Hok. unfold reads, Reader_new. cbn. rewrite Z.sub_diag. simpl. rewrite drop_0.
  split_and!; try done. symmetry. apply Z.ltb_ge. lia.
Qed.

Lemma enc_block_start (ps : list phys) : enc kBlockSize ps = enc 0 ps /\ (fits 0 ps -> fits kBlockSize ps).
Proof. destruct ps as [|p ps]; [done|]. split; [done|]. intros (H & Hn & Hf). done. Qed.
End reader.

(** ** Properties *)

Section recovery.
Context {P : CrcPort} {HP : CrcPortSpec P}.
Context {F : Type} {W : WritableFile F} {contents : F -> bytes} {ok_w : F -> Prop}.
Context {HW : WritableFileSpec F contents ok_w}.
Context {G : Type} {R : SequentialFile G} {rest : G -> bytes} {ok_r : G -> Prop}.
Context {HR : SequentialFileSpec G rest ok_r}.

Lemma recovery (addr addr' : bytes -> Z) (dest : F) (rs : list bytes) :
  ok_w dest -> contents dest = [] ->
  exists w, add_all addr (Writer_new addr dest) rs = Some w /\
  forall (file : G) (n fuel : nat) (reporter checksum : bool),
    ok_r file -> rest file = take n (contents (dest_ w)) ->
    (length (contents (dest_ w)) < fuel)%nat ->
    exists k rd, read_all addr' (S (length rs)) fuel (Reader_new file reporter checksum 0)
        = Some (take k rs, rd) /\ reports rd = [] /\
      forall j wj, (j <= length rs)%nat -> add_all addr (Writer_new addr dest) (take j rs) = Some wj ->
        (length (contents (dest_ wj)) <= n)%nat -> (j <= k)%nat.
Proof.
  intros Hok Hc. assert (writes (contents := contents) (file_ok := ok_w) addr (Writer_new addr dest) [] 0) as Hw
    by (rewrite <- Hc; by apply Writer_new_writes).
  destruct (add_all_ok addr rs _ _ _ Hw) as (pss & Hfs & Hfit & Hall).
  destruct (Hall (length rs)) as (w & Hadd & Hcw & _). rewrite firstn_all in Hadd.
  rewrite (Forall2_length _ _ _ Hfs), firstn_all in Hcw. simpl in Hcw.
  exists w. split; [done|]. intros file n fuel reporter checksum Hfile Hrest Hfuel.
  assert (reads (rest := rest) (file_ok := ok_r) (Reader_new file reporter checksum 0) kBlockSize (rest file))
    as Hr by (by apply Reader_new_reads).
  destruct (enc_block_start (concat pss)) as [He Hf]. rewrite Hrest, Hcw, <- He in Hr. rewrite Hcw, <- He in Hfuel.
  destruct (read_all_ok addr' rs pss Hfs fuel _ _ n Hfuel (Hf Hfit) Hr) as (k & rd & Hread & Hrep & Hk).
  exists k, rd. split; [done|]. split; [done|]. intros j wj Hj Haddj Hlen. apply Hk; [done|].
  destruct (Hall j) as (wj' & Hj' & Hcj & _). rewrite Haddj in Hj'. injection Hj' as <-.
  rewrite Hcj in Hlen. simpl in Hlen. by rewrite (proj1 (enc_block_start _)).
Qed.
End recovery.

(** *** Reports

    Reading adds reports and takes none back. *)

Section reports.
Context {P : CrcPort} (addr : bytes -> Z) {G : Type} {R : SequentialFile G}.

Lemma ReportDrop_grows (rd : Reader G) (n : Z) (s : Status) : reports rd `prefix_of` reports (ReportDrop rd n s).
Proof. unfold ReportDrop. case_match; [by eexists|done]. Qed.

Lemma ReportCorruption_grows (rd : Reader G) (n : Z) (s : bytes) : reports rd `prefix_of` reports (ReportCorruption rd n s).
Proof. apply ReportDrop_grows. Qed.

Lemma SkipToInitialBlock_grows (rd rd' : Reader G) (b : bool) :
  SkipToInitialBlock rd = Some (b, rd') -> reports rd `prefix_of` reports rd'.
Proof.
  unfold SkipToInitialBlock. cbv zeta. generalize (if kBlockSize - 6 <? initial_offset_ rd mod kBlockSize then u64 (initial_offset_ rd - initial_offset_ rd mod kBlockSize + kBlockSize)
    else initial_offset_ rd - initial_offset_ rd mod kBlockSize). intros loc. destruct (0 <? loc); [|by intros [= _ <-]].
  destruct (Skip _ _) as [[st f]|]; [|done]. cbn [mbind option_bind].
  destruct (negb (Status.ok st)); intros [= _ <-]; [|done]. exact (ReportDrop_grows (set_file rd f loc) loc st).
Qed.

Lemma ParseRecord_grows (rd rd' : Reader G) (r r' : bytes) (t : Z) :
  ParseRecord addr rd r = Some (t, r', rd') -> reports rd `prefix_of` reports rd'.
Proof.
  unfold ParseRecord. destruct (buffer_ rd !! 4%nat), (buffer_ rd !! 5%nat), (buffer_ rd !! 6%nat); try done.
  cbn [mbind option_bind]. case_match.
  { case_match; intros ?; simplify_eq/=; [|done]. etrans; [|apply ReportCorruption_grows]. done. }
  case_match; [by intros ?; simplify_eq|]. destruct (DecodeFixed32 true _); [|done]. cbn [mbind option_bind].
  case_match; [intros ?; simplify_eq; etrans; [|apply ReportCorruption_grows]; done|].
  by case_match; intros ?; simplify_eq.
Qed.

Lemma ReadPhysicalRecord_grows (fuel : nat) (rd rd' : Reader G) (r r' : bytes) (t : Z) :
  ReadPhysicalRecord_loop addr fuel rd r = Some (t, r', rd') -> reports rd `prefix_of` reports rd'.
Proof.
  revert rd r. induction fuel as [|fuel IH]; intros rd r; [done|]. cbn [ReadPhysicalRecord_loop].
  case_match; [|apply ParseRecord_grows]. case_match; [|by intros ?; simplify_eq].
  destruct (Read _ _) as [[[st b] f]|]; [|done]. cbn [mbind option_bind]. case_match.
  - intros ?; simplify_eq. etrans; [|apply ReportDrop_grows]. done.
  - intros Hrec. etrans; [|by eapply IH]. by case_match.
Qed.

Lemma ReadRecord_loop_grows (fuel : nat) (rd rd' : Reader G) (f s : bytes) (b : bool) (o : Z) (r : option bytes) :
  ReadRecord_loop addr fuel rd f s b o = Some (r, rd') -> reports rd `prefix_of` reports rd'.
Proof.
  revert rd f s b o. induction fuel as [|fuel IH]; intros rd f s b o; [done|]. cbn [ReadRecord_loop].
  destruct (ReadPhysicalRecord addr rd f) as [[[t f'] rd1]|] eqn:Ep; [|done]. cbn [mbind option_bind].
  apply ReadPhysicalRecord_grows in Ep. intros Hr. etrans; [exact Ep|]. revert Hr.
  repeat (case_match; try (intros Hr; apply IH in Hr; etrans; [|exact Hr])); try done;
    try (apply (ReportCorruption_grows (set_resyncing rd1 false))).
  all: try (intros ?; simplify_eq; first [done|apply (ReportCorruption_grows (set_resyncing rd1 false))]).
Qed.

Lemma ReadRecord_grows (fuel : nat) (rd rd' : Reader G) (r : option bytes) :
  ReadRecord addr fuel rd = Some (r, rd') -> reports rd `prefix_of` reports rd'.
Proof.
  unfold ReadRecord. case_match; [|apply ReadRecord_loop_grows].
  destruct (SkipToInitialBlock rd) as [[b rd1]|] eqn:Es; [|done]. cbn [mbind option_bind].
  apply SkipToInitialBlock_grows in Es. case_match; [by intros ?; simplify_eq|].
  intros Hr. etrans; [exact Es|by eapply ReadRecord_loop_grows].
Qed.

Lemma read_all_grows (k fuel : nat) (rd rd' : Reader G) (rs : list bytes) :
  read_all addr k fuel rd = Some (rs, rd') -> reports rd `prefix_of` reports rd'.
Proof.
  revert rd rs. induction k as [|k IH]; intros rd rs; [done|]. cbn [read_all].
  destruct (ReadRecord addr fuel rd) as [[[r|] rd1]|] eqn:Er; [| |done]; cbn [mbind option_bind]; apply ReadRecord_grows in Er.
  - destruct (read_all addr k fuel rd1) as [[rs1 rd2]|] eqn:Ea; [|done]. cbn [mbind option_bind].
    intros ?; simplify_eq. etrans; [exact Er|by eapply IH].
  - by intros ?; simplify_eq.
Qed.

Lemma read_all_more (k k' fuel : nat) (rd : Reader G) (r : list bytes * Reader G) :
  (k <= k')%nat -> read_all addr k fuel rd = Some r -> read_all addr k' fuel rd = Some r.
Proof.
  revert k' rd r. induction k as [|k IH]; intros [|k'] rd r Hk; try done; [lia|]. cbn [read_all].
  destruct (ReadRecord addr fuel rd) as [[[x|] rd1]|]; [|done|done]. cbn [mbind option_bind].
  destruct (read_all addr k fuel rd1) as [y|] eqn:Ea; [|done]. by rewrite (IH k' rd1 y ltac:(lia) Ea).
Qed.
End reports.

(** *** Logs *)

(** The file of writer [lg] has the records [rs]. *)
Section log_has.
Context {P : CrcPort} {HP : CrcPortSpec P} {F G : Type} {W : WritableFile F} {R : SequentialFile G}.
Context {contents : F -> bytes} {ok_w : F -> Prop} {HW : WritableFileSpec F contents ok_w}.
Context {rest : G -> bytes} {ok_r : G -> Prop} {HR : SequentialFileSpec G rest ok_r}.
Context (addr : bytes -> Z).

Definition log_has (lg : Writer F) (rs : list bytes) : Prop :=
  exists pss, Forall2 (frag_of true) rs pss /\ fits 0 (concat pss) /\
    writes (contents := contents) (file_ok := ok_w) addr lg (enc 0 (concat pss)) (end_off 0 (concat pss)).

Lemma log_has_new (f : F) : ok_w f -> contents f = [] -> log_has (Writer_new addr f) [].
Proof. intros Hf Hc. exists []. split_and!; [constructor|done|]. simpl. rewrite <- Hc. by apply Writer_new_writes. Qed.

Lemma log_has_add (lg : Writer F) (rs : list bytes) (r : bytes) :
  log_has lg rs -> exists lg', AddRecord addr lg r = Some (OK, lg') /\ log_has lg' (rs ++ [r]).
Proof.
  intros (pss & Hf & Hfit & Hw). destruct (AddRecord_ok addr lg _ r _ Hw) as (lg' & ps & Hadd & Hfr & Hfit' & Hw').
  exists lg'. split; [done|]. exists (pss ++ [ps]). rewrite concat_app. simpl. rewrite app_nil_r, enc_app, end_off_app.
  split_and!; [by apply Forall2_app; [|constructor]|by apply fits_app|done].
Qed.

Lemma log_has_sync (lg : Writer F) (rs : list bytes) :
  log_has lg rs -> exists f, Sync (dest_ lg) = Some (OK, f) /\ log_has (set_dest lg f (block_offset_ lg)) rs.
Proof.
  intros (pss & Hf & Hfit & Hc & Hok & Hb & Hr & Ht). destruct (Sync_contents (dest_ lg) Hok) as (f & Hs & Hcf & Hokf).
  exists f. split; [done|]. exists pss. split_and!; [done|done|]. unfold writes. simpl. split_and!; try done; [by rewrite Hcf|lia|lia].
Qed.

Lemma log_has_read (addr' : bytes -> Z) (lg : Writer F) (rs : list bytes) (file : G) (n fuel : nat) (reporter checksum : bool) :
  log_has lg rs -> ok_r file -> rest file = take n (contents (dest_ lg)) -> (length (contents (dest_ lg)) < fuel)%nat ->
  exists k rd, read_all addr' (S (length rs)) fuel (Reader_new file reporter checksum 0) = Some (take k rs, rd) /\ reports rd = [] /\
    ((length (contents (dest_ lg)) <= n)%nat -> (length rs <= k)%nat).
Proof.
  intros (pss & Hfs & Hfit & Hc & _) Hfile Hrest Hfuel.
  assert (reads (rest := rest) (file_ok := ok_r) (Reader_new file reporter checksum 0) kBlockSize (rest file)) as Hr
    by (by apply Reader_new_reads).
  destruct (enc_block_start (concat pss)) as [He Hf]. rewrite Hrest, Hc, <- He in Hr. rewrite Hc, <- He in Hfuel.
  destruct (read_all_ok addr' rs pss Hfs fuel _ _ n Hfuel (Hf Hfit) Hr) as (k & rd & Hread & Hrep & Hk).
  exists k, rd. split_and!; [done|done|]. rewrite Hc. intros Hn. apply Hk; [lia|].
  by rewrite take_ge, He by (rewrite (Forall2_length _ _ _ Hfs); lia).
Qed.
End log_has.

(** C17. Crash recovery of the log: of any records written to a new log, a
    reader of the first [n] bytes of the file, with or without checksums,
    returns an initial segment, which has every record that was written in
    full within these bytes, then the end of the log; it reports no
    corruption.  The whole file gives all records back. *)
Theorem log_recovery (P : CrcPort) (F G : Type) (W : WritableFile F) (R : SequentialFile G)
    (contents : F -> bytes) (ok_w : F -> Prop) (rest : G -> bytes) (ok_r : G -> Prop)
    (addr addr' : bytes -> Z) (dest : F) (rs : list bytes) :
  CrcPortSpec P -> WritableFileSpec F contents ok_w -> SequentialFileSpec G rest ok_r ->
  ok_w dest -> contents dest = [] ->
  exists w, add_all addr (Writer_new addr dest) rs = Some w /\
  forall (file : G) (n fuel : nat) (reporter checksum : bool),
    ok_r file -> rest file = take n (contents (dest_ w)) ->
    (length (contents (dest_ w)) < fuel)%nat ->
    exists k rd, read_all addr' (S (length rs)) fuel (Reader_new file reporter checksum 0)
        = Some (take k rs, rd) /\ reports rd = [] /\
      forall j wj, (j <= length rs)%nat -> add_all addr (Writer_new addr dest) (take j rs) = Some wj ->
        (length (contents (dest_ wj)) <= n)%nat -> (j <= k)%nat.
Proof. intros ? ? ?. apply recovery. Qed.

Lemma log_recovery_witness :
  let W := Mem.WritableFileImpl (replicate Mem.K Byte.x00) in
  let addr := fun _ : bytes => 1 in
  let rs := [bs "first"; []; bs "third"] in
  exists w, @add_all port_posix addr _ W (@Writer_new port_posix addr _ Mem.FileState_new) rs = Some w /\
  forall (file : Mem.SequentialFileImpl) (n fuel : nat) (reporter checksum : bool),
    Mem.seq_ok file -> Mem.seq_rest file = take n (Mem.contents (dest_ w)) ->
    (length (Mem.contents (dest_ w)) < fuel)%nat ->
    exists k rd, @read_all port_posix addr _ Mem.SequentialFileImpl_file (S (length rs)) fuel (Reader_new file reporter checksum 0)
        = Some (take k rs, rd) /\ reports rd = [] /\
      forall j wj, (j <= length rs)%nat ->
        @add_all port_posix addr _ W (@Writer_new port_posix addr _ Mem.FileState_new) (take j rs) = Some wj ->
        (length (Mem.contents (dest_ wj)) <= n)%nat -> (j <= k)%nat.
Proof.
  apply (log_recovery port_posix Mem.FileState Mem.SequentialFileImpl _ _ Mem.contents Mem.file_ok
    Mem.seq_rest Mem.seq_ok).
  - apply port_posix_spec.
  - apply Mem.FileState_writable, length_replicate.
  - apply Mem.SequentialFileImpl_spec.
  - apply Mem.FileState_new_ok.
  - apply Mem.FileState_new_ok.
Defined.
