(* ===== verification/LogSafe.v ===== *)
(** * The write-ahead log: arbitrary files

    The reader returns on every file, whatever it holds: it reads nothing
    outside its buffer, and the loops end. *)

From Stdlib Require Import String.
From S2P Require Import Prelude Status Coding Crc32cTables Crc32c Files MemEnv Log LogSpec.

#[local] Strategy 1000 [kBlockSize Z.to_nat].

Section safe.
Context {P : CrcPort} (addr : bytes -> Z).
Context {F : Type} {Rd : SequentialFile F} {rest : F -> bytes} {file_ok : F -> Prop}.
Context {HR : SequentialFileSpec F rest file_ok}.

(** The bytes that were not yet looked at. *)
Definition unread (rd : Reader F) : nat := (length (buffer_ rd) + length (rest (file_ rd)))%nat.

Lemma ReportCorruption_frame (rd : Reader F) (n : Z) (reason : bytes) :
  file_ (ReportCorruption rd n reason) = file_ rd /\ buffer_ (ReportCorruption rd n reason) = buffer_ rd.
Proof. unfold ReportCorruption, ReportDrop. by destruct (_ && _). Qed.

Lemma unread_report (rd : Reader F) (n : Z) (reason : bytes) :
  unread (ReportCorruption rd n reason) = unread rd.
Proof. unfold unread. destruct (ReportCorruption_frame rd n reason) as [-> ->]. done. Qed.

(** A turn returns, and stops or uses up bytes. *)
Definition progress (rd : Reader F) (res : option (Z * bytes * Reader F)) : Prop :=
  exists t r rd', res = Some (t, r, rd') /\ file_ok (file_ rd') /\
    (t = kEof \/ (unread rd' < unread rd)%nat).

Lemma ParseRecord_progress (rd : Reader F) (r : bytes) :
  file_ok (file_ rd) -> kHeaderSize <= buffer_size rd -> progress rd (ParseRecord addr rd r).
Proof.
  intros Hok Hlen. unfold buffer_size, kHeaderSize in Hlen. unfold ParseRecord, progress.
  destruct (lookup_lt_is_Some_2 (buffer_ rd) 4) as [h4 ->]; [lia|].
  destruct (lookup_lt_is_Some_2 (buffer_ rd) 5) as [h5 ->]; [lia|].
  destruct (lookup_lt_is_Some_2 (buffer_ rd) 6) as [h6 ->]; [lia|]. cbn [mbind option_bind].
  set (len := Z.lor _ _). set (t := u32 _).
  assert (forall rd0, file_ rd0 = file_ rd -> buffer_ rd0 = [] ->
    file_ok (file_ rd0) /\ (unread rd0 < unread rd)%nat) as Hempty.
  { intros rd0 Hf Hb. unfold unread. rewrite Hf, Hb. simpl. split; [done|lia]. }
  destruct (buffer_size rd <? kHeaderSize + len).
  { destruct (negb (eof_ (set_buffer rd []))); [|by do 3 eexists; split; [done|]; split; [|left]].
    do 3 eexists. split; [done|]. rewrite unread_report.
    destruct (ReportCorruption_frame (set_buffer rd []) (buffer_size rd) (bs "bad record length")) as [-> _].
    destruct (Hempty (set_buffer rd [])) as [? ?]; [done|done|auto]. }
  destruct ((t =? RecordType_to_Z kZeroType) && (len =? 0)).
  { do 3 eexists. split; [done|]. destruct (Hempty (set_buffer rd [])) as [? ?]; [done|done|auto]. }
  unfold DecodeFixed32. rewrite (proj2 (Nat.leb_le 4 _)) by lia. cbn [mbind option_bind].
  destruct (checksum_ rd && _).
  { do 3 eexists. split; [done|]. rewrite unread_report.
    destruct (ReportCorruption_frame (set_buffer rd []) (buffer_size rd) (bs "checksum mismatch")) as [-> _].
    destruct (Hempty (set_buffer rd [])) as [? ?]; [done|done|auto]. }
  assert (0 <= len).
  { unfold len. apply Z.lor_nonneg. split; [|apply Z.shiftl_nonneg]; apply Z.land_nonneg; left; apply byte_range. }
  match goal with |- context [if ?c then _ else _] => destruct c end;
    (do 3 eexists; split; [done|]; split; [done|]; right; unfold unread; simpl;
     rewrite length_drop; unfold kHeaderSize; lia).
Qed.

Lemma unread_set (rd : Reader F) (b : bytes) (f : F) (off : Z) :
  unread (set_file (set_buffer rd b) f off) = (length b + length (rest f))%nat.
Proof. done. Qed.

Lemma file_set (rd : Reader F) (f : F) (off : Z) : file_ (set_file rd f off) = f.
Proof. done. Qed.

Lemma next_block (fuel : nat) (rd : Reader F) (r : bytes) :
  file_ok (file_ rd) -> buffer_size rd < kHeaderSize -> eof_ rd = false ->
  exists rd', ReadPhysicalRecord_loop addr (S fuel) rd r = ReadPhysicalRecord_loop addr fuel rd' r /\
    file_ok (file_ rd') /\ (unread rd' <= unread rd)%nat /\
    (buffer_size rd' < kHeaderSize -> eof_ rd' = true).
Proof.
  intros Hok Hlt Heof. cbn [ReadPhysicalRecord_loop].
  rewrite (proj2 (Z.ltb_lt _ _)), Heof by done. cbn [negb].
  destruct (Read_rest (file_ rd) kBlockSize Hok ltac:(unfold kBlockSize; lia)) as (f & -> & Hrest & Hok').
  cbn [mbind option_bind]. change (ok OK) with true. cbn [negb]. eexists. split; [reflexivity|].
  match goal with |- context [if buffer_size ?x <? kBlockSize then _ else _] => set (rd1 := x) end.
  assert (file_ok (file_ rd1) /\ (unread rd1 <= unread rd)%nat) as [Hok1 Hun1].
  { unfold rd1. rewrite unread_set, file_set. split; [done|].
    rewrite Hrest, length_take, length_drop. unfold unread. lia. }
  clearbody rd1. destruct (Z.ltb_spec (buffer_size rd1) kBlockSize); [done|].
  split; [done|]. split; [done|]. assert (kHeaderSize < kBlockSize) by done. lia.
Qed.

Lemma loop_progress (fuel : nat) (rd : Reader F) (r : bytes) :
  file_ok (file_ rd) -> (buffer_size rd < kHeaderSize -> eof_ rd = true) ->
  progress rd (ReadPhysicalRecord_loop addr (S fuel) rd r).
Proof.
  intros Hok Heof. cbn [ReadPhysicalRecord_loop].
  destruct (Z.ltb_spec (buffer_size rd) kHeaderSize); [|by apply ParseRecord_progress].
  rewrite Heof by done. cbn [negb]. do 3 eexists. split; [done|]. split; [done|by left].
Qed.

Lemma ReadPhysicalRecord_progress (rd : Reader F) (r : bytes) :
  file_ok (file_ rd) -> progress rd (ReadPhysicalRecord addr rd r).
Proof.
  intros Hok. unfold ReadPhysicalRecord.
  destruct (Z.lt_ge_cases (buffer_size rd) kHeaderSize) as [Hlt|Hge]; [|apply loop_progress; [done|lia]].
  destruct (eof_ rd) eqn:Heof; [by apply loop_progress|].
  destruct (next_block 2 rd r Hok Hlt Heof) as (rd1 & -> & Hok1 & Hun & Heof1).
  destruct (loop_progress 1 rd1 r Hok1 Heof1) as (t & r' & rd2 & -> & Hok2 & Ht).
  exists t, r', rd2. split; [done|]. split; [done|]. destruct Ht; [auto|right; lia].
Qed.

Lemma ReadRecord_loop_returns (fuel : nat) (rd : Reader F) (f s : bytes) (infrag : bool) (off : Z) :
  file_ok (file_ rd) -> (unread rd < fuel)%nat ->
  exists r rd', ReadRecord_loop addr fuel rd f s infrag off = Some (r, rd') /\ file_ok (file_ rd').
Proof.
  revert rd f s infrag off. induction fuel as [|fuel IH]; intros rd f s infrag off Hok Hfuel; [lia|].
  cbn [ReadRecord_loop].
  destruct (ReadPhysicalRecord_progress rd f Hok) as (t & r & rd1 & -> & Hok1 & Ht).
  cbn [mbind option_bind].
  assert (forall rd2, file_ rd2 = file_ rd1 -> unread rd2 = unread rd1 -> t <> kEof ->
    forall f s infrag off, exists r rd', ReadRecord_loop addr fuel rd2 f s infrag off = Some (r, rd') /\
      file_ok (file_ rd')) as Hgo.
  { intros rd2 Hf Hu Hne f' s' i' o'. apply IH; [by rewrite Hf|]. destruct Ht as [|Ht]; [done|lia]. }
  assert (forall rd2 n x, file_ rd2 = file_ rd1 -> file_ (ReportCorruption rd2 n x) = file_ rd1) as Hfile.
  { intros rd2 n x Hf. by rewrite (proj1 (ReportCorruption_frame rd2 n x)). }
  repeat (match goal with |- context [if ?c then _ else _] =>
            let E := fresh "E" in destruct c eqn:E end; try (by do 2 eexists)).
  all: try (apply Hgo; [by rewrite ?Hfile|by rewrite ?unread_report|intros ->; done]).
  all: try (apply Hgo; [done|done|intros ->];
            match goal with H : _ && _ = true |- _ => by apply andb_true_iff in H as [_ ?] end).
  all: try (do 2 eexists; split; [done|]; simpl; by rewrite ?Hfile).
Qed.

Lemma SkipToInitialBlock_returns (rd : Reader F) :
  file_ok (file_ rd) -> 0 <= initial_offset_ rd ->
  exists rd', SkipToInitialBlock rd = Some (true, rd') /\ file_ok (file_ rd') /\ (unread rd' <= unread rd)%nat.
Proof.
  intros Hok Hi. unfold SkipToInitialBlock. set (loc := if kBlockSize - 6 <? _ then _ else _).
  destruct (Z.ltb_spec 0 loc); [|by eexists].
  destruct (Skip_rest (file_ rd) loc Hok ltac:(lia)) as (f & Hskip & Hrest & Hok').
  cbn [set_file file_]. rewrite Hskip. cbn [mbind option_bind]. change (ok OK) with true. cbn [negb].
  eexists. split; [done|]. split; [done|]. unfold unread. simpl. rewrite Hrest, length_drop. lia.
Qed.

Lemma ReadRecord_returns_ok (fuel : nat) (rd : Reader F) :
  file_ok (file_ rd) -> 0 <= initial_offset_ rd -> (unread rd < fuel)%nat ->
  exists r rd', ReadRecord addr fuel rd = Some (r, rd') /\ file_ok (file_ rd').
Proof.
  intros Hok Hi Hfuel. unfold ReadRecord. destruct (last_record_offset_ rd <? initial_offset_ rd).
  - destruct (SkipToInitialBlock_returns rd Hok Hi) as (rd1 & -> & Hok1 & Hun). cbn [mbind option_bind negb].
    apply ReadRecord_loop_returns; [done|lia].
  - by apply ReadRecord_loop_returns.
Qed.
End safe.

(** ** Properties *)


