(* ===== verification/DbFormat.v ===== *)
(** * Internal keys

    [db/dbformat.h] and [db/dbformat.cc]: the encoding of a user key with its
    sequence number and value type, the comparator and the filter policy of
    internal keys as wrappers of the user's, and the key a lookup starts
    from. *)

From Stdlib Require Import String.
From S2P Require Import Prelude Status Coding Bloom Comparator FileName.

(** ** Definitions *)

Inductive ValueType := kTypeDeletion | kTypeValue.

#[export] Instance ValueType_eq_dec : EqDecision ValueType.
Proof. solve_decision. Defined.

Definition ValueType_to_Z (t : ValueType) : Z :=
  match t with kTypeDeletion => 0 | kTypeValue => 1 end.

Definition ValueType_of_Z (c : Z) : option ValueType :=
  if c =? 0 then Some kTypeDeletion else if c =? 1 then Some kTypeValue else None.

Definition kValueTypeForSeek : ValueType := kTypeValue.

Definition kMaxSequenceNumber : Z := Z.shiftl 1 56 - 1.

Record ParsedInternalKey := MkParsed { p_user_key : bytes; sequence : Z; type : ValueType }.

Definition InternalKeyEncodingLength (key : ParsedInternalKey) : Z :=
  Z.of_nat (length (p_user_key key)) + 8.

Definition PackSequenceAndType (seq : Z) (t : ValueType) : Z :=
  Z.lor (u64 (Z.shiftl seq 8)) (ValueType_to_Z t).

Definition AppendInternalKey (result : bytes) (key : ParsedInternalKey) : bytes :=
  PutFixed64 (result ++ p_user_key key) (PackSequenceAndType (sequence key) (type key)).

(** Reading before the start of a key shorter than eight bytes is [None]. *)
Definition ExtractUserKey (internal_key : bytes) : option bytes :=
  if (length internal_key <? 8)%nat then None
  else Some (take (length internal_key - 8) internal_key).

(** [DecodeFixed64(key.data() + key.size() - 8)]. *)
Definition ExtractTag (internal_key : bytes) : option Z :=
  if (length internal_key <? 8)%nat then None
  else DecodeFixed64 true (drop (length internal_key - 8) internal_key).

Definition ExtractValueType (internal_key : bytes) : option ValueType :=
  num ← ExtractTag internal_key;
  ValueType_of_Z (Z.land num 0xff).

Definition ParseInternalKey (internal_key : bytes) : option ParsedInternalKey :=
  let n := length internal_key in
  if (n <? 8)%nat then None
  else
    num ← DecodeFixed64 true (drop (n - 8) internal_key);
    let c := Z.land num 0xff in
    if c <=? ValueType_to_Z kTypeValue then
      t ← ValueType_of_Z c;
      Some {| p_user_key := take (n - 8) internal_key; sequence := Z.shiftr num 8; type := t |}
    else None.

(** [ParsedInternalKey::DebugString] and [InternalKey::DebugString]. *)
Definition ParsedDebugString (k : ParsedInternalKey) : bytes :=
  [Byte.x27] ++ EscapeString (p_user_key k) ++ bs "' @ " ++ to_string (sequence k) ++ bs " : "
  ++ to_string (ValueType_to_Z (type k)).

Definition DebugString (rep : bytes) : bytes :=
  match ParseInternalKey rep with
  | Some parsed => ParsedDebugString parsed
  | None => bs "(bad)" ++ EscapeString rep
  end.

(** [InternalKey(user_key, s, t)]; an [InternalKey] is its [rep_]. *)
Definition InternalKey_new (user_key : bytes) (s : Z) (t : ValueType) : bytes :=
  AppendInternalKey [] {| p_user_key := user_key; sequence := s; type := t |}.

(** *** The comparator of internal keys *)

Section comparator.
Context (user_comparator_ : Comparator).

Definition InternalCompare (akey bkey : bytes) : option Z :=
  ua ← ExtractUserKey akey;
  ub ← ExtractUserKey bkey;
  r ← @Compare user_comparator_ ua ub;
  if r =? 0 then
    anum ← ExtractTag akey;
    bnum ← ExtractTag bkey;
    Some (if bnum <? anum then -1 else if anum <? bnum then 1 else r)
  else Some r.

Definition InternalFindShortestSeparator (start limit : bytes) : option bytes :=
  user_start ← ExtractUserKey start;
  user_limit ← ExtractUserKey limit;
  tmp ← @FindShortestSeparator user_comparator_ user_start user_limit;
  if (length tmp <? length user_start)%nat then
    r ← @Compare user_comparator_ user_start tmp;
    Some (if r <? 0 then PutFixed64 tmp (PackSequenceAndType kMaxSequenceNumber kValueTypeForSeek)
          else start)
  else Some start.

Definition InternalFindShortSuccessor (key : bytes) : option bytes :=
  user_key ← ExtractUserKey key;
  tmp ← @FindShortSuccessor user_comparator_ user_key;
  if (length tmp <? length user_key)%nat then
    r ← @Compare user_comparator_ user_key tmp;
    Some (if r <? 0 then PutFixed64 tmp (PackSequenceAndType kMaxSequenceNumber kValueTypeForSeek)
          else key)
  else Some key.

Definition InternalKeyComparator : Comparator :=
  {| Compare := InternalCompare;
     FindShortestSeparator := InternalFindShortestSeparator;
     FindShortSuccessor := InternalFindShortSuccessor |}.
End comparator.

(** *** The filter policy of internal keys *)

Definition InternalFilterPolicy (user_policy_ : FilterPolicy) : FilterPolicy :=
  {| PolicyName := @PolicyName user_policy_;
     CreateFilter keys dst :=
       mkey ← mapM ExtractUserKey keys;
       @CreateFilter user_policy_ mkey dst;
     KeyMayMatch key f :=
       k ← ExtractUserKey key;
       @KeyMayMatch user_policy_ k f |}.

(** *** Lookup keys *)

(** The characters from [start_] to [end_], and where [kstart_] is. *)
Record LookupKey := MkLookup { lk_chars : bytes; lk_kstart : nat }.

Definition LookupKey_new (user_key : bytes) (s : Z) : LookupKey :=
  let usize := Z.of_nat (length user_key) in
  let len := EncodeVarint32 (u32 (usize + 8)) in
  {| lk_chars := len ++ user_key
       ++ EncodeFixed64 true (PackSequenceAndType s kValueTypeForSeek);
     lk_kstart := length len |}.

Definition memtable_key (k : LookupKey) : bytes := lk_chars k.
Definition internal_key (k : LookupKey) : bytes := drop (lk_kstart k) (lk_chars k).
Definition user_key (k : LookupKey) : bytes :=
  take (length (lk_chars k) - lk_kstart k - 8) (drop (lk_kstart k) (lk_chars k)).

(** ** Tags *)

Definition seq_ok (s : Z) : Prop := 0 <= s <= kMaxSequenceNumber.

Lemma PackSequenceAndType_value (s : Z) (t : ValueType) :
  seq_ok s -> PackSequenceAndType s t = s * 256 + ValueType_to_Z t.
Proof.
  intros Hs. unfold seq_ok in Hs. change kMaxSequenceNumber with (2 ^ 56 - 1) in Hs.
  unfold PackSequenceAndType, u64.
  rewrite Z.mod_small by (rewrite Z.shiftl_mul_pow2 by lia; lia).
  rewrite lor_shiftl_add; [done|lia|]. destruct t; simpl; lia.
Qed.

Lemma PackSequenceAndType_range (s : Z) (t : ValueType) :
  seq_ok s -> 0 <= PackSequenceAndType s t < 2 ^ 64.
Proof.
  intros Hs. rewrite PackSequenceAndType_value by done. unfold seq_ok in Hs.
  change kMaxSequenceNumber with (2 ^ 56 - 1) in Hs. destruct t; simpl; lia.
Qed.

(** The internal key of user key [u] with tag [t]. *)
Definition ikey (u : bytes) (t : Z) : bytes := u ++ EncodeFixed64 true t.

Lemma length_ikey (u : bytes) (t : Z) : length (ikey u t) = (length u + 8)%nat.
Proof. unfold ikey, EncodeFixed64. by rewrite length_app, length_le_split. Qed.

Lemma ikey_take (u : bytes) (t : Z) : take (length (ikey u t) - 8) (ikey u t) = u.
Proof. rewrite length_ikey, Nat.add_sub. apply take_app_length. Qed.

Lemma ikey_drop (u : bytes) (t : Z) : drop (length (ikey u t) - 8) (ikey u t) = EncodeFixed64 true t.
Proof. rewrite length_ikey, Nat.add_sub. apply drop_app_length. Qed.

Lemma ikey_long (u : bytes) (t : Z) : (length (ikey u t) <? 8)%nat = false.
Proof. rewrite length_ikey. apply Nat.ltb_ge. lia. Qed.

Lemma ExtractUserKey_ikey (u : bytes) (t : Z) : ExtractUserKey (ikey u t) = Some u.
Proof. unfold ExtractUserKey. by rewrite ikey_long, ikey_take. Qed.

Lemma decode_tag (t : Z) : 0 <= t < 2 ^ 64 -> DecodeFixed64 true (EncodeFixed64 true t) = Some t.
Proof. intros Ht. rewrite <- (app_nil_r (EncodeFixed64 true t)). by apply fixed64_round. Qed.

Lemma ExtractTag_ikey (u : bytes) (t : Z) : 0 <= t < 2 ^ 64 -> ExtractTag (ikey u t) = Some t.
Proof. intros Ht. unfold ExtractTag. rewrite ikey_long, ikey_drop. by apply decode_tag. Qed.

Lemma InternalKey_new_ikey (u : bytes) (s : Z) (t : ValueType) :
  InternalKey_new u s t = ikey u (PackSequenceAndType s t).
Proof. done. Qed.

Lemma ParseInternalKey_ikey (u : bytes) (s : Z) (t : ValueType) :
  seq_ok s -> ParseInternalKey (ikey u (PackSequenceAndType s t)) = Some (MkParsed u s t).
Proof.
  intros Hs. unfold ParseInternalKey.
  rewrite ikey_long, ikey_drop, ikey_take, decode_tag by (by apply PackSequenceAndType_range).
  cbn [mbind option_bind]. rewrite PackSequenceAndType_value by done.
  change 0xff with (2 ^ 8 - 1). rewrite land_mask_mod, Z.shiftr_div_pow2 by lia.
  change (2 ^ 8) with 256. rewrite Z.add_comm, Z.mod_add, Z.div_add by lia.
  by destruct t.
Qed.

Create HintDb dbformat.
Create Rewrite HintDb dbformat.
#[export] Hint Resolve PackSequenceAndType_range : dbformat.
#[export] Hint Rewrite ExtractUserKey_ikey ExtractTag_ikey using (eauto with dbformat) : dbformat.

(** Every key of at least eight bytes is an internal key. *)
Lemma ikey_cover (k : bytes) :
  (8 <= length k)%nat -> exists u t, k = ikey u t /\ 0 <= t < 2 ^ 64.
Proof.
  intros Hl. set (tl := drop (length k - 8) k).
  assert (length tl = 8%nat) as Ht by (unfold tl; rewrite length_drop; lia).
  exists (take (length k - 8) k), (le_combine tl). split.
  - unfold ikey, EncodeFixed64. pose proof (split_le_combine tl) as Hs. rewrite Ht in Hs.
    rewrite Hs. unfold tl. by rewrite take_drop.
  - pose proof (le_combine_bound tl) as Hb. by rewrite Ht in Hb.
Qed.

Lemma ikey_inj (u u' : bytes) (t t' : Z) :
  0 <= t < 2 ^ 64 -> 0 <= t' < 2 ^ 64 -> ikey u t = ikey u' t' -> u = u' /\ t = t'.
Proof.
  intros Ht Ht' H. pose proof (ExtractUserKey_ikey u t) as H1. pose proof (ExtractTag_ikey u t Ht) as H2.
  rewrite H in H1, H2. rewrite ExtractUserKey_ikey in H1. rewrite ExtractTag_ikey in H2 by done.
  by simplify_eq.
Qed.

(** ** The order of internal keys *)

Section order.
Context {U : Comparator} {ok : bytes -> Prop} {HU : ComparatorSpec U ok}.

Definition ikey_ok (k : bytes) : Prop := exists u t, k = ikey u t /\ 0 <= t < 2 ^ 64 /\ ok u.

Lemma ikey_ok_intro (u : bytes) (t : Z) : 0 <= t < 2 ^ 64 -> ok u -> ikey_ok (ikey u t).
Proof. intros. by exists u, t. Qed.

Lemma InternalCompare_ikey (u v : bytes) (t s : Z) :
  0 <= t < 2 ^ 64 -> 0 <= s < 2 ^ 64 ->
  InternalCompare U (ikey u t) (ikey v s)
  = r ← Compare u v;
    Some (if r =? 0 then if s <? t then -1 else if t <? s then 1 else 0 else r).
Proof.
  intros Ht Hs. unfold InternalCompare. autorewrite with dbformat. cbn [mbind option_bind].
  destruct (Compare u v) as [r|]; [|done]. cbn [mbind option_bind].
  destruct (Z.eqb_spec r 0) as [->|]; [|done]. by autorewrite with dbformat.
Qed.

(** By user key, then by falling sequence number and type. *)
Lemma icmp_lt (u v : bytes) (t s : Z) :
  0 <= t < 2 ^ 64 -> 0 <= s < 2 ^ 64 -> ok u -> ok v ->
  @cmp_lt (InternalKeyComparator U) (ikey u t) (ikey v s) <-> cmp_lt u v \/ (u = v /\ s < t).
Proof.
  intros Ht Hs Hu Hv. unfold cmp_lt at 1. simpl. rewrite InternalCompare_ikey by done.
  destruct (cmp_cases u v Hu Hv) as [(r & -> & Hr & Hlt)|[(-> & ->)|(r & -> & Hr & Hlt)]];
    cbn [mbind option_bind].
  - destruct (Z.eqb_spec r 0); [lia|]. split; [by left|]. intros _. by exists r.
  - simpl. split.
    + intros (r & [= <-] & Hr). right. split; [done|].
      destruct (Z.ltb_spec s t); [lia|]. destruct (t <? s); lia.
    + intros [Hl|[_ Hst]]; [by destruct (cmp_lt_irrefl v Hv Hl)|].
      exists (-1). by rewrite (proj2 (Z.ltb_lt _ _)).
  - destruct (Z.eqb_spec r 0); [lia|]. split.
    + intros (r' & [= <-] & ?). lia.
    + intros [Hl|[-> _]]; [by destruct (cmp_lt_asym u v Hu Hv Hl)|by destruct (cmp_lt_irrefl v Hv Hlt)].
Qed.

Lemma max_tag_range : 0 <= PackSequenceAndType kMaxSequenceNumber kValueTypeForSeek < 2 ^ 64.
Proof. by apply PackSequenceAndType_range. Qed.

(** Shortening a key: the tag is the one that sorts first. *)
Lemma shortened (u tmp : bytes) (t : Z) :
  0 <= t < 2 ^ 64 -> ok u -> ok tmp -> (u = tmp \/ cmp_lt u tmp) ->
  exists k',
    (if (length tmp <? length u)%nat then
       r ← Compare u tmp;
       Some (if r <? 0 then PutFixed64 tmp (PackSequenceAndType kMaxSequenceNumber kValueTypeForSeek)
             else ikey u t)
     else Some (ikey u t)) = Some k' /\
    (k' = ikey u t \/
     cmp_lt u tmp /\ k' = ikey tmp (PackSequenceAndType kMaxSequenceNumber kValueTypeForSeek)).
Proof.
  intros Ht Hu Htmp [->|(r & Hr & Hneg)]; [rewrite Nat.ltb_irrefl; eauto|].
  destruct (_ <? _)%nat; [|eauto]. rewrite Hr. cbn [mbind option_bind].
  rewrite (proj2 (Z.ltb_lt _ _)) by done. eexists. split; [done|]. right. split; [by exists r|done].
Qed.

Lemma internal_cmp_eq (a b : bytes) :
  ikey_ok a -> ikey_ok b -> InternalCompare U a b = Some 0 <-> a = b.
Proof.
  intros (u & t & -> & Ht & Hu) (v & s & -> & Hs & Hv). rewrite InternalCompare_ikey by done. split.
  - destruct (cmp_cases u v Hu Hv) as [(r & -> & Hr & _)|[(-> & ->)|(r & -> & Hr & _)]];
      cbn [mbind option_bind]; [destruct (Z.eqb_spec r 0); intros [= ?]; lia|simpl|
      destruct (Z.eqb_spec r 0); intros [= ?]; lia].
    destruct (Z.ltb_spec s t); [done|]. destruct (Z.ltb_spec t s); [done|].
    intros _. f_equal. lia.
  - intros [-> ->]%ikey_inj; [|done|done]. rewrite (proj2 (cmp_eq v v Hv Hv) eq_refl).
    cbn [mbind option_bind]. by rewrite Z.ltb_irrefl.
Qed.

Lemma internal_sep (a b : bytes) :
  ikey_ok a -> ikey_ok b -> @cmp_lt (InternalKeyComparator U) a b ->
  exists k, InternalFindShortestSeparator U a b = Some k /\ ikey_ok k /\
    (a = k \/ @cmp_lt (InternalKeyComparator U) a k) /\ @cmp_lt (InternalKeyComparator U) k b.
Proof.
  intros (u & t & -> & Ht & Hu) (v & s & -> & Hs & Hv) Hlt.
  unfold InternalFindShortestSeparator. autorewrite with dbformat. cbn [mbind option_bind].
  assert (exists tmp, FindShortestSeparator u v = Some tmp /\ ok tmp /\ (u = tmp \/ cmp_lt u tmp) /\
    (u = tmp \/ cmp_lt tmp v)) as (tmp & -> & Hok & Hle & Htv).
  { pose proof Hlt as Hlt'. rewrite icmp_lt in Hlt' by done. destruct Hlt' as [Hlt'|[-> _]].
    - destruct (sep_between u v Hu Hv Hlt') as (tmp & ? & ? & ? & ?). eauto 10.
    - exists v. rewrite (sep_same v) by done. auto. }
  cbn [mbind option_bind]. destruct (shortened u tmp t Ht Hu Hok Hle) as (k' & -> & [->|[Hl ->]]).
  - exists (ikey u t). split; [done|]. split; [by apply ikey_ok_intro|]. auto.
  - eexists. split; [done|]. split; [by apply ikey_ok_intro; [apply max_tag_range|]|].
    rewrite !icmp_lt by (apply max_tag_range || done). split; [by right; left|].
    left. destruct Htv as [<-|?]; [by destruct (cmp_lt_irrefl u Hu Hl)|done].
Qed.

Lemma internal_succ (a : bytes) :
  ikey_ok a ->
  exists k, InternalFindShortSuccessor U a = Some k /\ ikey_ok k /\
    (a = k \/ @cmp_lt (InternalKeyComparator U) a k).
Proof.
  intros (u & t & -> & Ht & Hu). unfold InternalFindShortSuccessor.
  autorewrite with dbformat. cbn [mbind option_bind].
  destruct (succ_above u Hu) as (tmp & -> & Hok & Hle). cbn [mbind option_bind].
  destruct (shortened u tmp t Ht Hu Hok Hle) as (k' & -> & [->|[Hl ->]]).
  - exists (ikey u t). split; [done|]. split; [by apply ikey_ok_intro|auto].
  - eexists. split; [done|]. split; [by apply ikey_ok_intro; [apply max_tag_range|]|].
    rewrite icmp_lt by (apply max_tag_range || done). by right; left.
Qed.

#[export] Instance InternalKeyComparator_spec : ComparatorSpec (InternalKeyComparator U) ikey_ok.
Proof.
  constructor; [|exact internal_cmp_eq| | |exact internal_sep| |exact internal_succ].
  - intros a b (u & t & -> & Ht & Hu) (v & s & -> & Hs & Hv). simpl.
    rewrite InternalCompare_ikey by done. destruct (cmp_total u v Hu Hv) as [r ->]. by eexists.
  - intros a b r (u & t & -> & Ht & Hu) (v & s & -> & Hs & Hv). simpl.
    rewrite !InternalCompare_ikey by done.
    destruct (Compare u v) as [r0|] eqn:E; [|done]. cbn [mbind option_bind]. intros [= <-].
    destruct (cmp_flip u v r0 Hu Hv E) as (r' & -> & Hs'). cbn [mbind option_bind].
    eexists. split; [done|].
    destruct (Z.eqb_spec r0 0), (Z.eqb_spec r' 0); try lia.
    destruct (Z.ltb_spec s t), (Z.ltb_spec t s); lia.
  - intros a b c (u & t & -> & Ht & Hu) (v & s & -> & Hs & Hv) (w & q & -> & Hq & Hw).
    rewrite !icmp_lt by done. intros [H1|[-> H1]] [H2|[-> H2]]; auto.
    + left. by apply (cmp_trans u v w).
    + right. split; [done|lia].
  - intros a (u & t & -> & Ht & Hu). simpl. unfold InternalFindShortestSeparator.
    autorewrite with dbformat. cbn [mbind option_bind]. rewrite (sep_same u) by done.
    cbn [mbind option_bind]. by rewrite Nat.ltb_irrefl.
Qed.
End order.

(** ** The filter policy of internal keys *)

(** The keys are internal, and the user's policy takes their user keys. *)
Definition ikeys_ok (keys_ok : list bytes -> Prop) (keys : list bytes) : Prop :=
  exists uts : list (bytes * Z), keys = map (fun ut => ikey ut.1 ut.2) uts /\ keys_ok (map fst uts).

Lemma mapM_ExtractUserKey (uts : list (bytes * Z)) :
  mapM ExtractUserKey (map (fun ut => ikey ut.1 ut.2) uts) = Some (map fst uts).
Proof. induction uts as [|[u t] uts IH]; [done|]. simpl in *. by rewrite ExtractUserKey_ikey; simpl; rewrite IH. Qed.

(** Internal keys with the same user key are the same for the filter. *)
Definition same_user (same : bytes -> bytes -> Prop) (k k' : bytes) : Prop :=
  exists u u' t t', k = ikey u t /\ k' = ikey u' t' /\ same u u'.

#[export] Instance InternalFilterPolicy_spec (P : FilterPolicy) (keys_ok : list bytes -> Prop)
  (same : bytes -> bytes -> Prop) {HP : FilterPolicySpec P keys_ok same} :
  FilterPolicySpec (InternalFilterPolicy P) (ikeys_ok keys_ok) (same_user same).
Proof.
  constructor. intros keys dst (uts & -> & Hok). simpl. rewrite mapM_ExtractUserKey.
  destruct (policy_appends (map fst uts) dst Hok) as (f & Hf & Hm).
  exists f. split; [done|]. intros k k' (ut & -> & Hin)%list_elem_of_fmap (u & u' & t & t' & Hk & -> & Hs).
  rewrite ExtractUserKey_ikey. simpl. apply (Hm ut.1); [apply list_elem_of_fmap; eauto|].
  pose proof (f_equal ExtractUserKey Hk) as Hu. rewrite !ExtractUserKey_ikey in Hu. by injection Hu as ->.
Qed.

#[export] Instance InternalFilterPolicy_total (P : FilterPolicy) (key_ok : bytes -> Prop)
  {HP : FilterPolicyTotal P key_ok} :
  FilterPolicyTotal (InternalFilterPolicy P) (fun k => exists u t, k = ikey u t /\ key_ok u).
Proof.
  constructor. intros k filter (u & t & -> & Hu) Hlen. simpl. rewrite ExtractUserKey_ikey. by apply policy_returns.
Qed.

(** ** Lookup keys *)

Lemma internal_key_new (u : bytes) (s : Z) :
  internal_key (LookupKey_new u s) = ikey u (PackSequenceAndType s kValueTypeForSeek).
Proof. unfold internal_key. simpl. apply drop_app_length. Qed.

Lemma user_key_new (u : bytes) (s : Z) : user_key (LookupKey_new u s) = u.
Proof.
  unfold user_key. simpl. rewrite drop_app_length, length_app.
  rewrite Nat.add_comm, Nat.add_sub.
  change (u ++ ?e) with (ikey u (PackSequenceAndType s kValueTypeForSeek)). apply ikey_take.
Qed.

Lemma length_EncodeVarint32 (v : Z) : (1 <= length (EncodeVarint32 v) <= 5)%nat.
Proof. unfold EncodeVarint32. repeat case_match; simpl; lia. Qed.

(** ** Properties *)

(** Parsing an internal key gives back the user key, sequence number and
    type it was made of, and every key that parses is the encoding of what it
    parses to. *)
Theorem internal_key_roundtrip (k : bytes) (p : ParsedInternalKey) :
  seq_ok (sequence p) -> ParseInternalKey k = Some p <-> k = AppendInternalKey [] p.
Proof.
  destruct p as [u s t]. simpl. intros Hs. split.
  - intros Hp. destruct (decide (8 <= length k)%nat) as [Hl|Hl].
    2:{ unfold ParseInternalKey in Hp. by rewrite (proj2 (Nat.ltb_lt _ _)) in Hp by lia. }
    destruct (ikey_cover k Hl) as (u' & n & -> & Hn). unfold ParseInternalKey in Hp.
    rewrite ikey_long, ikey_drop, ikey_take, decode_tag in Hp by done.
    cbn [mbind option_bind] in Hp. change 0xff with (2 ^ 8 - 1) in Hp.
    rewrite land_mask_mod, Z.shiftr_div_pow2 in Hp by lia. change (2 ^ 8) with 256 in Hp.
    destruct (Z.leb_spec (n mod 256) (ValueType_to_Z kTypeValue)) as [Hc|]; [|done].
    destruct (ValueType_of_Z (n mod 256)) as [t'|] eqn:Et; [|done]. injection Hp as -> <- ->.
    change (ikey u n = ikey u (PackSequenceAndType (n / 256) t)). f_equal.
    rewrite PackSequenceAndType_value by done. rewrite (Z.div_mod n 256) at 1 by lia.
    unfold ValueType_of_Z in Et.
    destruct (Z.eqb_spec (n mod 256) 0); [injection Et as <-; simpl; lia|].
    destruct (Z.eqb_spec (n mod 256) 1); [injection Et as <-; simpl; lia|done].
  - intros ->. by apply ParseInternalKey_ikey.
Qed.

Lemma internal_key_roundtrip_witness :
  ParseInternalKey (AppendInternalKey [] (MkParsed (bs "k") 7 kTypeValue))
  = Some (MkParsed (bs "k") 7 kTypeValue).
Proof. apply internal_key_roundtrip; [done|reflexivity]. Defined.

(** Whatever order the user's comparator defines, internal keys are ordered
    by user key, then by falling sequence number, then by falling type. *)
Theorem InternalCompare_order (U : Comparator) (ok : bytes -> Prop) (u v : bytes) (s s' : Z)
    (t t' : ValueType) :
  ComparatorSpec U ok -> ok u -> ok v -> seq_ok s -> seq_ok s' ->
  @cmp_lt (InternalKeyComparator U) (InternalKey_new u s t) (InternalKey_new v s' t') <->
  cmp_lt u v \/ (u = v /\ (s' < s \/ (s' = s /\ ValueType_to_Z t' < ValueType_to_Z t))).
Proof.
  intros HU Hu Hv Hs Hs'. rewrite !InternalKey_new_ikey, icmp_lt by eauto with dbformat.
  rewrite !PackSequenceAndType_value by done.
  assert (s' * 256 + ValueType_to_Z t' < s * 256 + ValueType_to_Z t <->
    s' < s \/ (s' = s /\ ValueType_to_Z t' < ValueType_to_Z t)) as ->; [|done].
  destruct t, t'; simpl; lia.
Qed.

Lemma InternalCompare_order_witness :
  @cmp_lt (InternalKeyComparator Bytewise.BytewiseComparator)
    (InternalKey_new (bs "a") 9 kTypeDeletion) (InternalKey_new (bs "a") 3 kTypeValue) <->
  @cmp_lt Bytewise.BytewiseComparator (bs "a") (bs "a") \/
  (bs "a" = bs "a" /\ (3 < 9 \/ (3 = 9 /\ 1 < 0))).
Proof.
  apply (InternalCompare_order Bytewise.BytewiseComparator (fun _ => True) (bs "a") (bs "a") 9 3
    kTypeDeletion kTypeValue); done || apply Bytewise.BytewiseComparator_spec.
Defined.

(** The keys that the comparator of internal keys makes up for index blocks:
    the separator of [start < limit] is in [[start, limit)], and the successor
    of a key is not smaller than it. *)
Theorem InternalSeparator_between (U : Comparator) (ok : bytes -> Prop) (start limit : bytes) :
  ComparatorSpec U ok -> @ikey_ok ok start -> @ikey_ok ok limit ->
  @cmp_lt (InternalKeyComparator U) start limit ->
  exists k k', InternalFindShortestSeparator U start limit = Some k /\
    (start = k \/ @cmp_lt (InternalKeyComparator U) start k) /\
    @cmp_lt (InternalKeyComparator U) k limit /\
    InternalFindShortSuccessor U start = Some k' /\
    (start = k' \/ @cmp_lt (InternalKeyComparator U) start k').
Proof.
  intros HU Hs Hl Hlt. destruct (internal_sep start limit Hs Hl Hlt) as (k & ? & _ & ? & ?).
  destruct (internal_succ start Hs) as (k' & ? & _ & ?). exists k, k'. auto 10.
Qed.

Lemma InternalSeparator_between_witness :
  let U := Bytewise.BytewiseComparator in
  let start := ikey (bs "abcdef") 5 in let limit := ikey (bs "abzz") 5 in
  exists k k', InternalFindShortestSeparator U start limit = Some k /\
    (start = k \/ @cmp_lt (InternalKeyComparator U) start k) /\
    @cmp_lt (InternalKeyComparator U) k limit /\
    InternalFindShortSuccessor U start = Some k' /\
    (start = k' \/ @cmp_lt (InternalKeyComparator U) start k').
Proof.
  apply (InternalSeparator_between Bytewise.BytewiseComparator (fun _ => True)).
  - apply Bytewise.BytewiseComparator_spec.
  - by exists (bs "abcdef"), 5.
  - by exists (bs "abzz"), 5.
  - exists (-1). split; [vm_compute; reflexivity|lia].
Defined.

(** C29. A lookup at sequence number [s] starts at the newest entry it may see:
    its key is not after an entry of the same user key exactly when the
    entry's sequence number is at most [s].  Its memtable key is the internal
    key with its length in front, and fits the buffer of [usize + 13] bytes. *)
Theorem LookupKey_seek (U : Comparator) (ok : bytes -> Prop) (u : bytes) (s s' : Z) (t : ValueType) :
  ComparatorSpec U ok -> ok u -> seq_ok s -> seq_ok s' -> Z.of_nat (length u) + 8 < 2 ^ 32 ->
  let lk := LookupKey_new u s in
  (~ @cmp_lt (InternalKeyComparator U) (InternalKey_new u s' t) (internal_key lk) <-> s' <= s) /\
  GetLengthPrefixedSlice (memtable_key lk) = Some (internal_key lk, []) /\
  user_key lk = u /\ (length (memtable_key lk) <= length u + 13)%nat.
Proof.
  intros HU Hu Hs Hs' Hl lk. split; [|split; [|split]].
  - unfold lk. rewrite internal_key_new, InternalKey_new_ikey, icmp_lt by eauto with dbformat.
    rewrite !PackSequenceAndType_value by done. split.
    + intros H. destruct (Z.lt_ge_cases s s'); [|done]. destruct H. right. split; [done|].
      destruct t; simpl; lia.
    + intros Hle [Hlt|[_ Hlt]]; [by destruct (cmp_lt_irrefl u Hu Hlt)|].
      destruct t; simpl in Hlt; lia.
  - unfold lk. rewrite internal_key_new.
    rewrite <- (slice_round (ikey u (PackSequenceAndType s kValueTypeForSeek)) []).
    + rewrite app_nil_r. unfold PutLengthPrefixedSlice, memtable_key. simpl.
      rewrite length_ikey. do 3 f_equal. f_equal. lia.
    + rewrite length_ikey. lia.
  - apply user_key_new.
  - unfold lk, memtable_key. simpl. rewrite !length_app. unfold EncodeFixed64.
    rewrite length_le_split. pose proof (length_EncodeVarint32 (u32 (Z.of_nat (length u) + 8))). lia.
Qed.

Lemma LookupKey_seek_witness :
  let lk := LookupKey_new (bs "key") 5 in
  (~ @cmp_lt (InternalKeyComparator Bytewise.BytewiseComparator)
       (InternalKey_new (bs "key") 5 kTypeDeletion) (internal_key lk) <-> 5 <= 5) /\
  GetLengthPrefixedSlice (memtable_key lk) = Some (internal_key lk, []) /\
  user_key lk = bs "key" /\ (length (memtable_key lk) <= length (bs "key") + 13)%nat.
Proof.
  apply (LookupKey_seek Bytewise.BytewiseComparator (fun _ => True)); try done.
  apply Bytewise.BytewiseComparator_spec.
Defined.
