(* ===== verification/VersionEdit.v ===== *)
(** * Version edits

    [db/version_edit.h] and [db/version_edit.cc]: the changes to the set of
    live files that one record of the manifest describes, and their encoding;
    [FileMetaData] of [db/version.h].

    A vector is a list; an [unordered_map] is a [gmap], and the order in which
    a loop visits it is an argument of the operation that loops.  The
    reference count, the mutex and the condition variable of an edit, which
    let [LogAndApply] wait for other threads to finish the edit, are left
    out. *)

From Stdlib Require Import String.
From S2P Require Import Prelude Status Coding DbFormat.

(** ** Definitions *)

(** [InternalKey]s are their [rep_]; [allowed_seeks] is indeterminate until
    the builder of a version sets it. *)
Record FileMetaData := MkFile {
  number : Z;
  allowed_seeks : option Z;
  file_size : Z;
  total : Z;
  alive : Z;
  smallest : bytes;
  largest : bytes }.

Record VersionEdit := MkEdit {
  new_files_ : list FileMetaData;
  merge_candidates_ : list FileMetaData;
  deleted_files_ : list Z;
  dead_key_counter_ : gmap Z Z;
  recovery_list_ : list Z;
  comparator_ : bytes;
  log_number_ : Z;
  prev_log_number_ : Z;
  next_file_number_ : Z;
  last_sequence_ : Z;
  has_comparator_ : bool;
  has_log_number_ : bool;
  has_prev_log_number_ : bool;
  has_next_file_number_ : bool;
  has_last_sequence_ : bool }.

(** [VersionEdit::Clear] leaves [dead_key_counter_] and [merge_candidates_]
    as they are. *)
Definition Clear (e : VersionEdit) : VersionEdit :=
  {| new_files_ := []; merge_candidates_ := merge_candidates_ e; deleted_files_ := [];
     dead_key_counter_ := dead_key_counter_ e; recovery_list_ := []; comparator_ := [];
     log_number_ := 0; prev_log_number_ := 0; next_file_number_ := 0; last_sequence_ := 0;
     has_comparator_ := false; has_log_number_ := false; has_prev_log_number_ := false;
     has_next_file_number_ := false; has_last_sequence_ := false |}.

Definition VersionEdit_new : VersionEdit :=
  Clear (MkEdit [] [] [] ∅ [] [] 0 0 0 0 false false false false false).

Definition SetComparatorName (c : bytes) (e : VersionEdit) : VersionEdit :=
  MkEdit (new_files_ e) (merge_candidates_ e) (deleted_files_ e) (dead_key_counter_ e)
    (recovery_list_ e) c (log_number_ e) (prev_log_number_ e) (next_file_number_ e)
    (last_sequence_ e) true (has_log_number_ e) (has_prev_log_number_ e)
    (has_next_file_number_ e) (has_last_sequence_ e).

Definition SetLogNumber (num : Z) (e : VersionEdit) : VersionEdit :=
  MkEdit (new_files_ e) (merge_candidates_ e) (deleted_files_ e) (dead_key_counter_ e)
    (recovery_list_ e) (comparator_ e) num (prev_log_number_ e) (next_file_number_ e)
    (last_sequence_ e) (has_comparator_ e) true (has_prev_log_number_ e)
    (has_next_file_number_ e) (has_last_sequence_ e).

Definition SetPrevLogNumber (num : Z) (e : VersionEdit) : VersionEdit :=
  MkEdit (new_files_ e) (merge_candidates_ e) (deleted_files_ e) (dead_key_counter_ e)
    (recovery_list_ e) (comparator_ e) (log_number_ e) num (next_file_number_ e)
    (last_sequence_ e) (has_comparator_ e) (has_log_number_ e) true
    (has_next_file_number_ e) (has_last_sequence_ e).

Definition SetNextFile (num : Z) (e : VersionEdit) : VersionEdit :=
  MkEdit (new_files_ e) (merge_candidates_ e) (deleted_files_ e) (dead_key_counter_ e)
    (recovery_list_ e) (comparator_ e) (log_number_ e) (prev_log_number_ e) num
    (last_sequence_ e) (has_comparator_ e) (has_log_number_ e) (has_prev_log_number_ e)
    true (has_last_sequence_ e).

Definition SetLastSequence (num : Z) (e : VersionEdit) : VersionEdit :=
  MkEdit (new_files_ e) (merge_candidates_ e) (deleted_files_ e) (dead_key_counter_ e)
    (recovery_list_ e) (comparator_ e) (log_number_ e) (prev_log_number_ e)
    (next_file_number_ e) num (has_comparator_ e) (has_log_number_ e)
    (has_prev_log_number_ e) (has_next_file_number_ e) true.

Definition set_new_files (fs : list FileMetaData) (e : VersionEdit) : VersionEdit :=
  MkEdit fs (merge_candidates_ e) (deleted_files_ e) (dead_key_counter_ e)
    (recovery_list_ e) (comparator_ e) (log_number_ e) (prev_log_number_ e)
    (next_file_number_ e) (last_sequence_ e) (has_comparator_ e) (has_log_number_ e)
    (has_prev_log_number_ e) (has_next_file_number_ e) (has_last_sequence_ e).

Definition set_merge_candidates (fs : list FileMetaData) (e : VersionEdit) : VersionEdit :=
  MkEdit (new_files_ e) fs (deleted_files_ e) (dead_key_counter_ e)
    (recovery_list_ e) (comparator_ e) (log_number_ e) (prev_log_number_ e)
    (next_file_number_ e) (last_sequence_ e) (has_comparator_ e) (has_log_number_ e)
    (has_prev_log_number_ e) (has_next_file_number_ e) (has_last_sequence_ e).

Definition set_deleted_files (ns : list Z) (e : VersionEdit) : VersionEdit :=
  MkEdit (new_files_ e) (merge_candidates_ e) ns (dead_key_counter_ e)
    (recovery_list_ e) (comparator_ e) (log_number_ e) (prev_log_number_ e)
    (next_file_number_ e) (last_sequence_ e) (has_comparator_ e) (has_log_number_ e)
    (has_prev_log_number_ e) (has_next_file_number_ e) (has_last_sequence_ e).

Definition set_dead_key_counter (c : gmap Z Z) (e : VersionEdit) : VersionEdit :=
  MkEdit (new_files_ e) (merge_candidates_ e) (deleted_files_ e) c
    (recovery_list_ e) (comparator_ e) (log_number_ e) (prev_log_number_ e)
    (next_file_number_ e) (last_sequence_ e) (has_comparator_ e) (has_log_number_ e)
    (has_prev_log_number_ e) (has_next_file_number_ e) (has_last_sequence_ e).

Definition set_recovery_list (ns : list Z) (e : VersionEdit) : VersionEdit :=
  MkEdit (new_files_ e) (merge_candidates_ e) (deleted_files_ e) (dead_key_counter_ e)
    ns (comparator_ e) (log_number_ e) (prev_log_number_ e)
    (next_file_number_ e) (last_sequence_ e) (has_comparator_ e) (has_log_number_ e)
    (has_prev_log_number_ e) (has_next_file_number_ e) (has_last_sequence_ e).

(** [dead_key_counter_[fnumber]++], or 1 for a number not counted yet. *)
Definition DecreaseCount (fnumber : Z) (e : VersionEdit) : VersionEdit :=
  match dead_key_counter_ e !! fnumber with
  | Some n => set_dead_key_counter (<[fnumber := u64 (n + 1)]> (dead_key_counter_ e)) e
  | None => set_dead_key_counter (<[fnumber := 1]> (dead_key_counter_ e)) e
  end.

Definition DeleteFile (file : Z) (e : VersionEdit) : VersionEdit :=
  set_deleted_files (deleted_files_ e ++ [file]) e.

Definition AddFile (file size total alive : Z) (smallest largest : bytes) (e : VersionEdit)
    : VersionEdit :=
  set_new_files (new_files_ e ++ [MkFile file None size total alive smallest largest]) e.

Definition AddMergeCandidates (file size total alive : Z) (smallest largest : bytes)
    (e : VersionEdit) : VersionEdit :=
  set_merge_candidates
    (merge_candidates_ e ++ [MkFile file None size total alive smallest largest]) e.

Definition AddToRecoveryList (fnumber : Z) (e : VersionEdit) : VersionEdit :=
  set_recovery_list (recovery_list_ e ++ [fnumber]) e.

(** *** Encoding *)

Definition kComparator : Z := 1.
Definition kLogNumber : Z := 2.
Definition kNextFileNumber : Z := 3.
Definition kLastSequence : Z := 4.
Definition kDeletedFile : Z := 5.
Definition kNewFile : Z := 6.
Definition kPrevLogNumber : Z := 7.
Definition kDeadCount : Z := 8.
Definition kMergeFile : Z := 9.

(** The bodies of the two loops over files. *)
Definition put_file (tag : Z) (dst : bytes) (file : FileMetaData) : bytes :=
  let dst := PutVarint32 dst tag in
  let dst := PutVarint64 dst (number file) in
  let dst := PutVarint64 dst (file_size file) in
  let dst := PutVarint64 dst (total file) in
  let dst := PutVarint64 dst (alive file) in
  let dst := PutLengthPrefixedSlice dst (smallest file) in
  PutLengthPrefixedSlice dst (largest file).

Section encode.
(** The order in which a loop visits an [unordered_map]. *)
Context (order : gmap Z Z -> list (Z * Z)).

Definition EncodeTo (dst : bytes) (e : VersionEdit) : bytes :=
  let dst := if has_comparator_ e
    then PutLengthPrefixedSlice (PutVarint32 dst kComparator) (comparator_ e) else dst in
  let dst := if has_log_number_ e
    then PutVarint64 (PutVarint32 dst kLogNumber) (log_number_ e) else dst in
  let dst := if has_prev_log_number_ e
    then PutVarint64 (PutVarint32 dst kPrevLogNumber) (prev_log_number_ e) else dst in
  let dst := if has_next_file_number_ e
    then PutVarint64 (PutVarint32 dst kNextFileNumber) (next_file_number_ e) else dst in
  let dst := if has_last_sequence_ e
    then PutVarint64 (PutVarint32 dst kLastSequence) (last_sequence_ e) else dst in
  let dst := fold_left (fun dst file => PutVarint64 (PutVarint32 dst kDeletedFile) file)
               (deleted_files_ e) dst in
  let dst := fold_left (put_file kNewFile) (new_files_ e) dst in
  let dst := fold_left
               (fun dst '(first, second) =>
                  PutVarint64 (PutVarint64 (PutVarint32 dst kDeadCount) first) second)
               (order (dead_key_counter_ e)) dst in
  fold_left (put_file kMergeFile) (merge_candidates_ e) dst.
End encode.

(** *** Decoding *)

Definition GetInternalKey (input : bytes) : option (bytes * bytes) := GetLengthPrefixedSlice input.

(** The chain of parsers that reads a file. *)
Definition get_file (input : bytes) : option (FileMetaData * bytes) :=
  '(n, input) ← GetVarint64 input;
  '(size, input) ← GetVarint64 input;
  '(tot, input) ← GetVarint64 input;
  '(liv, input) ← GetVarint64 input;
  '(small, input) ← GetInternalKey input;
  '(large, input) ← GetInternalKey input;
  Some (MkFile n None size tot liv small large, input).

(** [unordered_map::insert], which keeps the value of a key it has. *)
Definition map_insert_new (k v : Z) (m : gmap Z Z) : gmap Z Z :=
  match m !! k with Some _ => m | None => <[k := v]> m end.

(** One [case] of the loop: the edit and the unread input, or the message. *)
Definition decode_case (tag : Z) (input : bytes) (e : VersionEdit)
    : (VersionEdit * bytes) + bytes :=
  if tag =? kComparator then
    match GetLengthPrefixedSlice input with
    | Some (str, input) => inl (SetComparatorName str e, input)
    | None => inr (bs "comparator name")
    end
  else if tag =? kLogNumber then
    match GetVarint64 input with
    | Some (n, input) => inl (SetLogNumber n e, input)
    | None => inr (bs "log number")
    end
  else if tag =? kPrevLogNumber then
    match GetVarint64 input with
    | Some (n, input) => inl (SetPrevLogNumber n e, input)
    | None => inr (bs "prev log number")
    end
  else if tag =? kNextFileNumber then
    match GetVarint64 input with
    | Some (n, input) => inl (SetNextFile n e, input)
    | None => inr (bs "next file number")
    end
  else if tag =? kLastSequence then
    match GetVarint64 input with
    | Some (n, input) => inl (SetLastSequence n e, input)
    | None => inr (bs "last sequence number")
    end
  else if tag =? kDeletedFile then
    match GetVarint64 input with
    | Some (n, input) => inl (DeleteFile n e, input)
    | None => inr (bs "deleted file")
    end
  else if tag =? kNewFile then
    match get_file input with
    | Some (f, input) => inl (set_new_files (new_files_ e ++ [f]) e, input)
    | None => inr (bs "new-file entry")
    end
  else if tag =? kDeadCount then
    match ('(first, input) ← GetVarint64 input;
           '(second, input) ← GetVarint64 input;
           Some (first, second, input)) with
    | Some (first, second, input) =>
        inl (set_dead_key_counter (map_insert_new first second (dead_key_counter_ e)) e, input)
    | None => inr (bs "dead-count")
    end
  else if tag =? kMergeFile then
    match get_file input with
    | Some (f, input) => inl (set_merge_candidates (merge_candidates_ e ++ [f]) e, input)
    | None => inr (bs "new-file entry")
    end
  else inr (bs "unknown tag").

(** The loop; it stops at a message or when no tag can be read.  [None] is out
    of fuel. *)
Fixpoint DecodeFrom_loop (fuel : nat) (input : bytes) (e : VersionEdit)
    : option (VersionEdit * option bytes) :=
  match fuel with
  | O => None
  | S fuel =>
      match GetVarint32 input with
      | Some (tag, input) =>
          match decode_case tag input e with
          | inl (e, input) => DecodeFrom_loop fuel input e
          | inr msg => Some (e, Some msg)
          end
      | None => Some (e, if bool_decide (input = []) then None else Some (bs "invalid tag"))
      end
  end.

(** Every iteration consumes the tag. *)
Definition DecodeFrom (e : VersionEdit) (src : bytes) : option (VersionEdit * Status) :=
  '(e, msg) ← DecodeFrom_loop (S (length src)) src (Clear e);
  Some (e, match msg with
           | None => OK
           | Some m => Corruption2 (bs "ZeroVersionEdit") m
           end).

(** ** Reading back what was written *)

(** [enc] makes the decoder apply [f]; it takes no more iterations than it has
    bytes. *)
Definition reads (enc : bytes) (f : VersionEdit -> VersionEdit) : Prop :=
  exists k, (k <= length enc)%nat /\
  forall fuel rest e, DecodeFrom_loop (k + fuel) (enc ++ rest) e = DecodeFrom_loop fuel rest (f e).

(** The encoder step [w] appends bytes that make the decoder apply [f]. *)
Definition writes (w : bytes -> bytes) (f : VersionEdit -> VersionEdit) : Prop :=
  exists enc, (forall dst, w dst = dst ++ enc) /\ reads enc f.

Lemma writes_skip : writes (fun dst => dst) (fun e => e).
Proof.
  exists []. split; [intros; by rewrite app_nil_r|]. exists 0%nat. split; [simpl; lia|]. done.
Qed.

Lemma writes_comp (w1 w2 : bytes -> bytes) (f1 f2 : VersionEdit -> VersionEdit) :
  writes w1 f1 -> writes w2 f2 -> writes (fun dst => w2 (w1 dst)) (fun e => f2 (f1 e)).
Proof.
  intros (a & Ha & k1 & Hk1 & H1) (b & Hb & k2 & Hk2 & H2). exists (a ++ b). split.
  - intros dst. by rewrite Ha, Hb, app_assoc.
  - exists (k1 + k2)%nat. split; [rewrite length_app; lia|]. intros fuel rest e.
    by rewrite <- app_assoc, <- Nat.add_assoc, H1, H2.
Qed.

Lemma writes_if (b : bool) (w : bytes -> bytes) (f : VersionEdit -> VersionEdit) :
  (b = true -> writes w f) ->
  writes (fun dst => if b then w dst else dst) (fun e => if b then f e else e).
Proof. destruct b; intros H; [by apply H|apply writes_skip]. Qed.

Lemma writes_fold {A} (w : bytes -> A -> bytes) (f : VersionEdit -> A -> VersionEdit) (l : list A) :
  Forall (fun a => writes (fun dst => w dst a) (fun e => f e a)) l ->
  writes (fun dst => fold_left w l dst) (fun e => fold_left f l e).
Proof.
  induction 1 as [|a l Ha _ IH]; [apply writes_skip|].
  apply (writes_comp (fun dst => w dst a) _ (fun e => f e a) _ Ha IH).
Qed.

(** A tag and a payload that its case parses. *)
Lemma writes_case (tag : Z) (w : bytes -> bytes) (p : bytes) (f : VersionEdit -> VersionEdit) :
  0 <= tag < 2 ^ 32 -> (forall dst, w (PutVarint32 dst tag) = PutVarint32 dst tag ++ p) ->
  (forall rest e, decode_case tag (p ++ rest) e = inl (f e, rest)) ->
  writes (fun dst => w (PutVarint32 dst tag)) f.
Proof.
  intros Ht Hw Hp. exists (EncodeVarint32 tag ++ p). split.
  - intros dst. rewrite Hw. unfold PutVarint32. by rewrite app_assoc.
  - exists 1%nat. split.
    + rewrite length_app. unfold EncodeVarint32. repeat case_match; simpl; lia.
    + intros fuel rest e. change (1 + fuel)%nat with (S fuel). cbn [DecodeFrom_loop].
      by rewrite <- app_assoc, varint32_round, Hp by done.
Qed.

Definition u64_ok (z : Z) : Prop := 0 <= z < 2 ^ 64.
Definition slice_ok (s : bytes) : Prop := Z.of_nat (length s) < 2 ^ 32.

Lemma varint64_app (v : Z) (dst rest : bytes) :
  u64_ok v -> GetVarint64 (PutVarint64 [] v ++ rest) = Some (v, rest).
Proof. intros Hv. unfold PutVarint64. rewrite app_nil_l. by apply varint64_round. Qed.

Lemma PutLengthPrefixedSlice_app (dst value : bytes) :
  PutLengthPrefixedSlice dst value = dst ++ PutLengthPrefixedSlice [] value.
Proof. unfold PutLengthPrefixedSlice, PutVarint32. by rewrite app_nil_l, app_assoc. Qed.

Lemma PutVarint64_app (dst : bytes) (v : Z) : PutVarint64 dst v = dst ++ PutVarint64 [] v.
Proof. done. Qed.

Definition file_ok (f : FileMetaData) : Prop :=
  u64_ok (number f) /\ u64_ok (file_size f) /\ u64_ok (total f) /\ u64_ok (alive f) /\
  slice_ok (smallest f) /\ slice_ok (largest f).

(** What the encoding keeps of a file. *)
Definition no_seeks (f : FileMetaData) : FileMetaData :=
  MkFile (number f) None (file_size f) (total f) (alive f) (smallest f) (largest f).

Definition file_bytes (f : FileMetaData) : bytes :=
  PutVarint64 [] (number f) ++ PutVarint64 [] (file_size f) ++ PutVarint64 [] (total f)
  ++ PutVarint64 [] (alive f) ++ PutLengthPrefixedSlice [] (smallest f)
  ++ PutLengthPrefixedSlice [] (largest f).

Lemma get_file_bytes (f : FileMetaData) (rest : bytes) :
  file_ok f -> get_file (file_bytes f ++ rest) = Some (no_seeks f, rest).
Proof.
  intros (? & ? & ? & ? & ? & ?). unfold get_file, file_bytes, GetInternalKey.
  rewrite <- !app_assoc. do 4 (rewrite varint64_app by done; cbn [mbind option_bind]).
  do 2 (rewrite slice_round by done; cbn [mbind option_bind]). done.
Qed.

Lemma put_file_app (tag : Z) (dst : bytes) (f : FileMetaData) :
  put_file tag dst f = PutVarint32 dst tag ++ file_bytes f.
Proof.
  unfold put_file, file_bytes. rewrite (PutLengthPrefixedSlice_app _ (largest f)),
    (PutLengthPrefixedSlice_app _ (smallest f)). unfold PutVarint64. by rewrite <- !app_assoc.
Qed.

(** The fields an edit can have when it is encoded. *)
Record edit_ok (e : VersionEdit) : Prop := MkEditOk {
  eo_comparator : slice_ok (comparator_ e);
  eo_log : u64_ok (log_number_ e);
  eo_prev : u64_ok (prev_log_number_ e);
  eo_next : u64_ok (next_file_number_ e);
  eo_last : u64_ok (last_sequence_ e);
  eo_deleted : Forall u64_ok (deleted_files_ e);
  eo_new : Forall file_ok (new_files_ e);
  eo_merge : Forall file_ok (merge_candidates_ e);
  eo_dead : map_Forall (fun k v => u64_ok k /\ u64_ok v) (dead_key_counter_ e) }.

(** The edit that decoding the encoding of [e] gives in an object that was
    [e0] before. *)
Definition read_back (e0 e : VersionEdit) : VersionEdit :=
  {| new_files_ := map no_seeks (new_files_ e);
     merge_candidates_ := merge_candidates_ e0 ++ map no_seeks (merge_candidates_ e);
     deleted_files_ := deleted_files_ e;
     dead_key_counter_ := dead_key_counter_ e0 ∪ dead_key_counter_ e;
     recovery_list_ := [];
     comparator_ := if has_comparator_ e then comparator_ e else [];
     log_number_ := if has_log_number_ e then log_number_ e else 0;
     prev_log_number_ := if has_prev_log_number_ e then prev_log_number_ e else 0;
     next_file_number_ := if has_next_file_number_ e then next_file_number_ e else 0;
     last_sequence_ := if has_last_sequence_ e then last_sequence_ e else 0;
     has_comparator_ := has_comparator_ e;
     has_log_number_ := has_log_number_ e;
     has_prev_log_number_ := has_prev_log_number_ e;
     has_next_file_number_ := has_next_file_number_ e;
     has_last_sequence_ := has_last_sequence_ e |}.

Lemma writes_u64 (tag v : Z) (f : Z -> VersionEdit -> VersionEdit) :
  0 <= tag < 2 ^ 32 -> u64_ok v ->
  (forall input e, decode_case tag input e =
    match GetVarint64 input with
    | Some (n, input) => inl (f n e, input)
    | None => decode_case tag [] e
    end) ->
  writes (fun dst => PutVarint64 (PutVarint32 dst tag) v) (f v).
Proof.
  intros Ht Hv Hd. eapply (writes_case tag (fun dst => PutVarint64 dst v)); [done|done|].
  intros rest e. rewrite Hd. unfold PutVarint64. by rewrite varint64_round.
Qed.

Lemma writes_file (tag : Z) (file : FileMetaData) (f : FileMetaData -> VersionEdit -> VersionEdit) :
  0 <= tag < 2 ^ 32 -> file_ok file ->
  (forall input e, decode_case tag input e =
    match get_file input with
    | Some (n, input) => inl (f n e, input)
    | None => decode_case tag [] e
    end) ->
  writes (fun dst => put_file tag dst file) (f (no_seeks file)).
Proof.
  intros Ht Hf Hd. destruct (writes_case tag (fun dst => dst ++ file_bytes file) (file_bytes file)
    (f (no_seeks file)) Ht) as (enc & Henc & Hr).
  - done.
  - intros rest e. by rewrite Hd, get_file_bytes.
  - exists enc. split; [|done]. intros dst. by rewrite put_file_app.
Qed.

Lemma fold_deleted (l : list Z) (e : VersionEdit) :
  fold_left (fun e n => DeleteFile n e) l e = set_deleted_files (deleted_files_ e ++ l) e.
Proof.
  revert e. induction l as [|n l IH]; intros e; [by rewrite app_nil_r; destruct e|].
  simpl. rewrite IH. simpl. by rewrite <- app_assoc.
Qed.

Lemma fold_new (l : list FileMetaData) (e : VersionEdit) :
  fold_left (fun e f => set_new_files (new_files_ e ++ [no_seeks f]) e) l e
  = set_new_files (new_files_ e ++ map no_seeks l) e.
Proof.
  revert e. induction l as [|n l IH]; intros e; [by rewrite app_nil_r; destruct e|].
  simpl. rewrite IH. simpl. by rewrite <- app_assoc.
Qed.

Lemma fold_merge (l : list FileMetaData) (e : VersionEdit) :
  fold_left (fun e f => set_merge_candidates (merge_candidates_ e ++ [no_seeks f]) e) l e
  = set_merge_candidates (merge_candidates_ e ++ map no_seeks l) e.
Proof.
  revert e. induction l as [|n l IH]; intros e; [by rewrite app_nil_r; destruct e|].
  simpl. rewrite IH. simpl. by rewrite <- app_assoc.
Qed.

Lemma fold_dead (l : list (Z * Z)) (e : VersionEdit) :
  NoDup l.*1 ->
  fold_left (fun e '(k, v) => set_dead_key_counter (map_insert_new k v (dead_key_counter_ e)) e) l e
  = set_dead_key_counter (dead_key_counter_ e ∪ list_to_map l) e.
Proof.
  revert e. induction l as [|[k v] l IH]; intros e Hn.
  - simpl. rewrite (right_id_L ∅ (∪)). by destruct e.
  - apply NoDup_cons in Hn as [Hk Hn]. cbn [fold_left]. rewrite IH by done. simpl.
    unfold set_dead_key_counter. cbn. f_equal. unfold map_insert_new.
    apply not_elem_of_list_to_map in Hk. cbn [fst] in Hk. destruct (dead_key_counter_ e !! k) eqn:E.
    + apply map_eq. intros i. rewrite !lookup_union. destruct (decide (i = k)) as [->|Hi].
      * rewrite E, Hk, lookup_insert_eq. done.
      * by rewrite lookup_insert_ne.
    + rewrite <- insert_union_l, insert_union_r by done. done.
Qed.

Section roundtrip.
Context (order : gmap Z Z -> list (Z * Z)) (Horder : forall m, order m ≡ₚ map_to_list m).

Lemma order_list_to_map (m : gmap Z Z) : NoDup (order m).*1 /\ list_to_map (order m) = m.
Proof.
  assert (NoDup (order m).*1) as Hn by (rewrite Horder; apply NoDup_fst_map_to_list).
  split; [done|]. transitivity (list_to_map (M := gmap Z Z) (map_to_list m)).
  - by apply list_to_map_proper.
  - apply list_to_map_to_list.
Qed.

Lemma writes_deleted (l : list Z) :
  Forall u64_ok l ->
  writes (fun dst => fold_left (fun dst file => PutVarint64 (PutVarint32 dst kDeletedFile) file) l dst)
    (fun e => set_deleted_files (deleted_files_ e ++ l) e).
Proof.
  intros Hl. destruct (writes_fold (fun dst file => PutVarint64 (PutVarint32 dst kDeletedFile) file)
    (fun e n => DeleteFile n e) l) as (enc & He & k & Hk & Hr).
  - eapply Forall_impl; [exact Hl|]. intros n Hn. by apply (writes_u64 _ _ DeleteFile).
  - exists enc. split; [done|]. exists k. split; [done|]. intros. by rewrite Hr, fold_deleted.
Qed.

Lemma writes_new (l : list FileMetaData) :
  Forall file_ok l ->
  writes (fun dst => fold_left (put_file kNewFile) l dst)
    (fun e => set_new_files (new_files_ e ++ map no_seeks l) e).
Proof.
  intros Hl. destruct (writes_fold (put_file kNewFile)
    (fun e f => set_new_files (new_files_ e ++ [no_seeks f]) e) l) as (enc & He & k & Hk & Hr).
  - eapply Forall_impl; [exact Hl|]. intros f Hf.
    by apply (writes_file _ _ (fun f e => set_new_files (new_files_ e ++ [f]) e)).
  - exists enc. split; [done|]. exists k. split; [done|]. intros. by rewrite Hr, fold_new.
Qed.

Lemma writes_merge (l : list FileMetaData) :
  Forall file_ok l ->
  writes (fun dst => fold_left (put_file kMergeFile) l dst)
    (fun e => set_merge_candidates (merge_candidates_ e ++ map no_seeks l) e).
Proof.
  intros Hl. destruct (writes_fold (put_file kMergeFile)
    (fun e f => set_merge_candidates (merge_candidates_ e ++ [no_seeks f]) e) l)
    as (enc & He & k & Hk & Hr).
  - eapply Forall_impl; [exact Hl|]. intros f Hf.
    by apply (writes_file _ _ (fun f e => set_merge_candidates (merge_candidates_ e ++ [f]) e)).
  - exists enc. split; [done|]. exists k. split; [done|]. intros. by rewrite Hr, fold_merge.
Qed.

Lemma writes_dead_count (k v : Z) :
  u64_ok k -> u64_ok v ->
  writes (fun dst => PutVarint64 (PutVarint64 (PutVarint32 dst kDeadCount) k) v)
    (fun e => set_dead_key_counter (map_insert_new k v (dead_key_counter_ e)) e).
Proof.
  intros Hk Hv. eapply (writes_case kDeadCount (fun dst => PutVarint64 (PutVarint64 dst k) v)); [done| |].
  - intros dst. unfold PutVarint64. by rewrite <- app_assoc.
  - intros rest e. unfold decode_case. simpl. rewrite <- app_assoc.
    rewrite varint64_round by done. cbn [mbind option_bind]. by rewrite varint64_round.
Qed.

Lemma writes_dead (m : gmap Z Z) :
  map_Forall (fun k v => u64_ok k /\ u64_ok v) m ->
  writes (fun dst => fold_left (fun dst '(first, second) =>
      PutVarint64 (PutVarint64 (PutVarint32 dst kDeadCount) first) second) (order m) dst)
    (fun e => set_dead_key_counter (dead_key_counter_ e ∪ m) e).
Proof.
  intros Hm. destruct (order_list_to_map m) as [Hn Hl].
  destruct (writes_fold (fun dst '(first, second) =>
      PutVarint64 (PutVarint64 (PutVarint32 dst kDeadCount) first) second)
    (fun e '(k, v) => set_dead_key_counter (map_insert_new k v (dead_key_counter_ e)) e) (order m))
    as (enc & He & k & Hk & Hr).
  - apply Forall_forall. intros [a b] Hab. rewrite Horder in Hab.
    apply elem_of_map_to_list, Hm in Hab as [? ?]. by apply writes_dead_count.
  - exists enc. split; [done|]. exists k. split; [done|]. intros. by rewrite Hr, fold_dead, Hl by done.
Qed.

Lemma writes_comparator (c : bytes) :
  slice_ok c ->
  writes (fun dst => PutLengthPrefixedSlice (PutVarint32 dst kComparator) c) (SetComparatorName c).
Proof.
  intros Hc. eapply (writes_case kComparator (fun dst => PutLengthPrefixedSlice dst c)); [done| |].
  - intros dst. apply PutLengthPrefixedSlice_app.
  - intros rest e. unfold decode_case. simpl. by rewrite slice_round.
Qed.

(** What the decoder does with the encoding of [e]. *)
Definition decoded (e e0 : VersionEdit) : VersionEdit :=
  let e0 := if has_comparator_ e then SetComparatorName (comparator_ e) e0 else e0 in
  let e0 := if has_log_number_ e then SetLogNumber (log_number_ e) e0 else e0 in
  let e0 := if has_prev_log_number_ e then SetPrevLogNumber (prev_log_number_ e) e0 else e0 in
  let e0 := if has_next_file_number_ e then SetNextFile (next_file_number_ e) e0 else e0 in
  let e0 := if has_last_sequence_ e then SetLastSequence (last_sequence_ e) e0 else e0 in
  let e0 := set_deleted_files (deleted_files_ e0 ++ deleted_files_ e) e0 in
  let e0 := set_new_files (new_files_ e0 ++ map no_seeks (new_files_ e)) e0 in
  let e0 := set_dead_key_counter (dead_key_counter_ e0 ∪ dead_key_counter_ e) e0 in
  set_merge_candidates (merge_candidates_ e0 ++ map no_seeks (merge_candidates_ e)) e0.

Lemma EncodeTo_writes (e : VersionEdit) :
  edit_ok e -> writes (fun dst => EncodeTo order dst e) (decoded e).
Proof.
  intros [Hc Hl Hp Hn Hs Hd Hnf Hm Hdead].
  pose proof (writes_if (has_comparator_ e) _ _ (fun _ => writes_comparator _ Hc)) as W1.
  pose proof (writes_if (has_log_number_ e) _ _
    (fun _ => writes_u64 kLogNumber _ SetLogNumber ltac:(done) Hl (fun _ _ => eq_refl))) as W2.
  pose proof (writes_if (has_prev_log_number_ e) _ _
    (fun _ => writes_u64 kPrevLogNumber _ SetPrevLogNumber ltac:(done) Hp (fun _ _ => eq_refl))) as W3.
  pose proof (writes_if (has_next_file_number_ e) _ _
    (fun _ => writes_u64 kNextFileNumber _ SetNextFile ltac:(done) Hn (fun _ _ => eq_refl))) as W4.
  pose proof (writes_if (has_last_sequence_ e) _ _
    (fun _ => writes_u64 kLastSequence _ SetLastSequence ltac:(done) Hs (fun _ _ => eq_refl))) as W5.
  pose proof (writes_deleted _ Hd) as W6. pose proof (writes_new _ Hnf) as W7.
  pose proof (writes_dead _ Hdead) as W8. pose proof (writes_merge _ Hm) as W9.
  exact (writes_comp _ _ _ _ (writes_comp _ _ _ _ (writes_comp _ _ _ _ (writes_comp _ _ _ _
    (writes_comp _ _ _ _ (writes_comp _ _ _ _ (writes_comp _ _ _ _ (writes_comp _ _ _ _
      W1 W2) W3) W4) W5) W6) W7) W8) W9).
Qed.

Lemma decoded_read_back (e e0 : VersionEdit) : decoded e (Clear e0) = read_back e0 e.
Proof.
  unfold decoded. destruct e as [nf mf df dk rl c l p n s bc bl bp bn bs]. cbn.
  by destruct bc, bl, bp, bn, bs.
Qed.

Lemma DecodeFrom_EncodeTo (e e0 : VersionEdit) :
  edit_ok e -> DecodeFrom e0 (EncodeTo order [] e) = Some (read_back e0 e, OK).
Proof.
  intros He. destruct (EncodeTo_writes e He) as (enc & Henc & k & Hk & Hr).
  rewrite Henc, app_nil_l. unfold DecodeFrom.
  replace (S (length enc)) with (k + S (length enc - k))%nat by lia.
  rewrite <- (app_nil_r enc) at 2. rewrite Hr, decoded_read_back. done.
Qed.
End roundtrip.

(** ** Totality of the decoder *)

Lemma get_file_consumes (p : bytes) (f : FileMetaData) (rest : bytes) :
  get_file p = Some (f, rest) -> (length rest < length p)%nat.
Proof.
  unfold get_file, GetInternalKey. intros H.
  do 6 (let E := fresh in apply bind_Some in H as ([? ?] & E & H); cbn beta iota in H;
    first [apply GetVarint64_consumes in E | apply GetLengthPrefixedSlice_consumes in E]).
  injection H as _ <-. lia.
Qed.

Lemma decode_case_consumes (tag : Z) (input : bytes) (e e' : VersionEdit) (rest : bytes) :
  decode_case tag input e = inl (e', rest) -> (length rest < length input)%nat.
Proof.
  unfold decode_case. intros H. repeat (case_match; simplify_eq);
    try (by eapply GetLengthPrefixedSlice_consumes); try (by eapply GetVarint64_consumes);
    try (by eapply get_file_consumes).
  match goal with H : _ = Some _ |- _ => rename H into Hd end.
  apply bind_Some in Hd as ([? ?] & E1 & Hd). simpl in Hd.
  apply bind_Some in Hd as ([? ?] & E2 & Hd). simpl in Hd. simplify_eq.
  apply GetVarint64_consumes in E1, E2. lia.
Qed.

Lemma DecodeFrom_loop_total (fuel : nat) (input : bytes) (e : VersionEdit) :
  (length input < fuel)%nat -> is_Some (DecodeFrom_loop fuel input e).
Proof.
  revert input e. induction fuel as [|fuel IH]; intros input e Hf; [lia|]. cbn [DecodeFrom_loop].
  destruct (GetVarint32 input) as [[tag input']|] eqn:E; [|by eexists].
  apply GetVarint32_consumes in E. destruct (decode_case tag input' e) as [[e' rest]|] eqn:Ed; [|by eexists].
  apply decode_case_consumes in Ed. apply IH. lia.
Qed.

(** ** Properties *)

(** C32. Decoding an encoded edit gives back its fields, whatever the object held
    before and in whatever order the dead-key counters are visited, except
    that the merge candidates and counters the object had are kept: [Clear]
    does not clear them. *)
Theorem VersionEdit_roundtrip (order : gmap Z Z -> list (Z * Z)) (e e0 : VersionEdit) :
  (forall m, order m ≡ₚ map_to_list m) -> edit_ok e ->
  DecodeFrom e0 (EncodeTo order [] e) = Some (read_back e0 e, OK).
Proof. intros Ho He. by apply DecodeFrom_EncodeTo. Qed.

Definition edit_example : VersionEdit :=
  SetLogNumber 7 (DecreaseCount 3 (DeleteFile 4 (AddMergeCandidates 6 300 20 5 (bs "ka") (bs "kb")
    (AddFile 5 1000 10 10 (bs "kc") (bs "kd") (SetComparatorName (bs "cmp") VersionEdit_new))))).

Lemma VersionEdit_roundtrip_witness :
  edit_ok edit_example /\
  DecodeFrom VersionEdit_new (EncodeTo map_to_list [] edit_example) = Some (edit_example, OK).
Proof.
  assert (edit_ok edit_example) as He.
  { split; repeat constructor; try done.
    all: match goal with H : _ !! _ = Some _ |- _ =>
           change (({[3 := 1]} : gmap Z Z) !! i = Some x) in H; apply lookup_singleton_Some in H as [<- <-] end; done. }
  split; [exact He|]. rewrite (VersionEdit_roundtrip map_to_list edit_example VersionEdit_new
    (fun m => Permutation_refl _) He). vm_compute. reflexivity.
Defined.

(** Decoding returns for every byte string, with success or with a
    corruption status. *)
Theorem DecodeFrom_total (e : VersionEdit) (src : bytes) :
  exists e' s, DecodeFrom e src = Some (e', s) /\ (s = OK \/ code s = kCorruption).
Proof.
  unfold DecodeFrom. destruct (DecodeFrom_loop_total (S (length src)) src (Clear e)) as [[e' msg] H]; [lia|].
  rewrite H. simpl. eexists _, _. split; [done|]. destruct msg; [right; apply code_make|by left].
Qed.
