(* ===== verification/Version.v ===== *)
(** * Versions

    [db/version.h], [db/version.cc] and [db/version_control.cc]: the files of a
    version, those among them that are candidates for a merge, the builder
    that makes a version of another one and an edit, and the choice of the
    files to compact.

    The data of a file is shared by the versions that have it: it lives at an
    address of [heap], which a [shared_ptr] is.  [insert] of an
    [unordered_map] leaves an entry that is there as it is, [operator[]] makes
    one of 0; the order in which a loop visits a map is an argument, and so
    are the numbers [std::default_random_engine] draws and the arithmetic of
    [double].  [None] is undefined behaviour: a division by zero, or a key of
    less than 8 bytes.  The pointer to the current version in persistent
    memory and the reference counts of versions are left out. *)

From Stdlib Require Import String.
From S2P Require Import Prelude Status Coding Crc32cTables Crc32c Comparator Files Log DbFormat VersionEdit.

(** The operations on [double] that scores are computed with. *)
Class Double (D : Type) := {
  of_u64 : Z -> D;
  dzero : D;
  dadd : D -> D -> D;
  dsub : D -> D -> D;
  ddiv : D -> D -> D;
  dlt : D -> D -> bool;
  dle : D -> D -> bool;
  (** [std::sort] by falling score. *)
  dsort : list (D * Z) -> list (D * Z);
  (** [(int)(ratio * (double)n)] for [config::PickRatio]. *)
  pick_ratio : Z -> Z }.

Module VC.

Definition StopWritesTrigger : Z := 30.
Definition SlowdownWritesTrigger : Z := 15.
Definition CompactionMaxSize : Z := 15.
Definition CompactCandidateStopWriteTrigger : Z := 4.
Definition StartCompactionCheckTrigger : Z := 25.
Definition FilesToPickAtOneRound : Z := 50.
Definition MaxRoundNumberForPerFile : Z := 24.
Definition MaxPickTimes : Z := 250.
Definition MaxMergeCandidateCheckRound : nat := 3.

Abbreviation Heap := (gmap Z FileMetaData).

Record Version := MkVersion {
  files_ : gmap Z Z;
  candidates_ : gmap Z Z;
  file_check_count_ : gmap Z Z;
  files_to_compact_ : list Z;
  max_key_ : Z }.

Definition Version_new : Version := MkVersion ∅ ∅ ∅ [] 0.

(** [unordered_map::insert]. *)
Definition map_insert (k v : Z) (m : gmap Z Z) : gmap Z Z := match m !! k with Some _ => m | None => <[k := v]> m end.

Definition set_files (v : Version) (fs cs : gmap Z Z) : Version :=
  MkVersion fs cs (file_check_count_ v) (files_to_compact_ v) (max_key_ v).
Definition set_counts (v : Version) (c : gmap Z Z) : Version :=
  MkVersion (files_ v) (candidates_ v) c (files_to_compact_ v) (max_key_ v).
Definition set_to_compact (v : Version) (ps : list Z) : Version :=
  MkVersion (files_ v) (candidates_ v) (file_check_count_ v) ps (max_key_ v).

(** [file_check_count_[n]]. *)
Definition check_count (v : Version) (n : Z) : Z * Version :=
  match file_check_count_ v !! n with
  | Some c => (c, v)
  | None => (0, set_counts v (<[n := 0]> (file_check_count_ v)))
  end.

(** *** [Version] *)

Definition AddFile (h : Heap) (v : Version) (p : Z) : option Version :=
  f ← h !! p;
  k ← ExtractUserKey (largest f);
  Some (MkVersion (map_insert (number f) p (files_ v)) (candidates_ v) (file_check_count_ v) (files_to_compact_ v)
          (Z.max (max_key_ v) (fast_atoi k))).

Definition AddCompactionFile (h : Heap) (v : Version) (p : Z) : option Version :=
  f ← h !! p;
  Some (set_files v (files_ v) (map_insert (number f) p (candidates_ v))).

Definition SetFileCheckCount (h : Heap) (v : Version) (p : Z) (initial_count : Z) : option Version :=
  f ← h !! p;
  Some (set_counts v (map_insert (number f) initial_count (file_check_count_ v))).

Definition NumFiles (v : Version) : Z := Z.of_nat (size (files_ v)).
Definition MergeNumFiles (v : Version) : Z := Z.of_nat (size (candidates_ v)).

Definition IsAlive (v : Version) (fnumber : Z) : bool :=
  bool_decide (is_Some (files_ v !! fnumber)) || bool_decide (is_Some (candidates_ v !! fnumber)).

Definition GetFileSize (h : Heap) (v : Version) (file_number : Z) : option Z :=
  match files_ v !! file_number, candidates_ v !! file_number with
  | Some p, _ => file_size <$> h !! p
  | None, Some p => file_size <$> h !! p
  | None, None => Some 0
  end.

(** The loop of [MoveToMerge] over the numbers, in order; [files_.at] of a
    number that is not there throws, and the exception is dropped. *)
Fixpoint Move_loop (is_scan : bool) (added_files : Z) (array : list Z) (v : Version) : Version :=
  match array with
  | [] => v
  | f :: array =>
      let added_files := if is_scan then added_files + 1 else added_files in
      if is_scan && (CompactionMaxSize / 2 <? added_files) then v
      else
        Move_loop is_scan added_files array
          (match files_ v !! f with
           | Some p => set_files v (delete f (files_ v)) (map_insert f p (candidates_ v))
           | None => v
           end)
  end.

Definition MoveToMerge (v : Version) (array : list Z) (is_scan : bool) : bool * Version :=
  if is_scan && (SlowdownWritesTrigger <? MergeNumFiles v) then (false, v)
  else if StopWritesTrigger <? MergeNumFiles v then (false, v)
  else (true, Move_loop is_scan 0 array v).

(** *** [VersionControl::Builder] *)

Record Builder := MkBuilder {
  b_deleted : gset Z;
  b_dead : gmap Z Z;
  b_added : list Z }.

Definition Builder_new : Builder := MkBuilder ∅ ∅ [].

Definition make_file (f : FileMetaData) : FileMetaData :=
  let seeks := u32 (file_size f / 2048) in
  MkFile (number f) (Some (if seeks <? 100 then 100 else seeks)) (file_size f) (total f) (alive f) (smallest f) (largest f).

(** The loop of [Apply] over [new_files_]. *)
Fixpoint Apply_new (h : Heap) (b : Builder) (fs : list FileMetaData) : Heap * Builder :=
  match fs with
  | [] => (h, b)
  | f :: fs =>
      let p := fresh (dom h) in
      Apply_new (<[p := make_file f]> h)
        (MkBuilder (b_deleted b ∖ {[number f]}) (b_dead b) (b_added b ++ [p])) fs
  end.

(** The counters of an edit have distinct numbers, so that the order in which
    they are inserted does not matter. *)
Definition Apply (h : Heap) (b : Builder) (edit : VersionEdit) : Heap * Builder :=
  Apply_new h (MkBuilder (b_deleted b ∪ list_to_set (deleted_files_ edit)) (b_dead b ∪ dead_key_counter_ edit) (b_added b))
    (new_files_ edit).

(** What [SaveTo] changes: the shared data, the version it starts from (by
    [operator[]]), the new version and [state_change_]. *)
Record Saving := MkSaving { s_heap : Heap; s_base : Version; s_v : Version; s_change : bool }.

Definition set_alive (f : FileMetaData) (a : Z) : FileMetaData :=
  MkFile (number f) (allowed_seeks f) (file_size f) (total f) a (smallest f) (largest f).

(** The body of the loop over [files_]. *)
Definition Save_file (b : Builder) (threshold : Z) (s : Saving) (x : Z * Z) : option Saving :=
  if decide (x.1 ∈ b_deleted b) then Some s
  else
    f ← s_heap s !! x.2;
    let dead := default 0 (b_dead b !! number f) in
    if dead <? alive f then
      let f := set_alive f (alive f - dead) in
      let h := <[x.2 := f]> (s_heap s) in
      if total f =? 0 then None
      else if u64 (100 * alive f) / total f <=? u64 threshold then
        v ← AddCompactionFile h (s_v s) x.2;
        v ← SetFileCheckCount h v x.2 (-1);
        Some (MkSaving h (s_base s) v true)
      else
        v ← AddFile h (s_v s) x.2;
        let '(cnt, base) := check_count (s_base s) (number f) in
        v ← SetFileCheckCount h v x.2 cnt;
        Some (MkSaving h base v (s_change s))
    else Some s.

Definition Save_candidate (b : Builder) (s : Saving) (x : Z * Z) : option Saving :=
  if decide (x.1 ∈ b_deleted b) then Some s
  else
    v ← AddCompactionFile (s_heap s) (s_v s) x.2;
    v ← SetFileCheckCount (s_heap s) v x.2 (-1);
    Some (MkSaving (s_heap s) (s_base s) v (s_change s)).

Definition Save_added (s : Saving) (p : Z) : option Saving :=
  v ← AddFile (s_heap s) (s_v s) p;
  v ← SetFileCheckCount (s_heap s) v p 0;
  Some (MkSaving (s_heap s) (s_base s) v (s_change s)).

Fixpoint loop {A : Type} (body : Saving -> A -> option Saving) (s : Saving) (l : list A) : option Saving :=
  match l with
  | [] => Some s
  | x :: l => s ← body s x; loop body s l
  end.

Section vc.
Context {D : Type} {DD : Double D}.
Context (order : gmap Z Z -> list (Z * Z)).

Definition SaveTo (b : Builder) (threshold : Z) (s : Saving) : option Saving :=
  s ← loop (Save_file b threshold) s (order (files_ (s_base s)));
  s ← loop (Save_candidate b) s (order (candidates_ (s_base s)));
  loop Save_added s (b_added b).

(** *** The choice of candidates *)

(** The loop of [PickCandidates]; draw [e i] is that of round [i], and
    [picked] is the set of numbers as [uint32_t]. *)
Fixpoint Pick_loop (e : nat -> Z) (count : Z) (i : nat) (l : list (Z * Z)) (picked : gset Z) (v : Version)
    : option (gset Z * Version) :=
  match l with
  | [] => Some (picked, v)
  | (n, _) :: l =>
      if (Z.of_nat (size picked) <? u64 count) && (Z.of_nat i <? MaxPickTimes) then
        let '(cnt, v) := check_count v n in
        let m := u64 (cnt + 1) in
        if m =? 0 then None
        else if e i mod m =? 0 then
          let c := if cnt =? MaxRoundNumberForPerFile then 1 else cnt + 1 in
          Pick_loop e count (S i) l ({[u32 n]} ∪ picked) (set_counts v (<[n := c]> (file_check_count_ v)))
        else Pick_loop e count (S i) l picked v
      else Some (picked, v)
  end.

Definition PickCandidates (e : nat -> Z) (v : Version) : option Version :=
  if NumFiles v <? StartCompactionCheckTrigger then Some v
  else if StopWritesTrigger <=? MergeNumFiles v then Some v
  else
    let count := FilesToPickAtOneRound - MergeNumFiles v in
    let count := if NumFiles v <? count then pick_ratio (NumFiles v) else count in
    '(picked, v) ← Pick_loop e count 0 (order (files_ v)) ∅ v;
    Some (if decide (picked = ∅) then v else (MoveToMerge v (merge_sort Z.le (elements picked)) false).2).

(** The range of the user keys of a file. *)
Definition key_range (h : Heap) (p : Z) : option (D * D) :=
  f ← h !! p;
  s ← ExtractUserKey (smallest f);
  l ← ExtractUserKey (largest f);
  Some (of_u64 (fast_atoi s), of_u64 (fast_atoi l)).

Definition dmin (a b : D) : D := if dlt b a then b else a.
Definition dmax (a b : D) : D := if dlt a b then b else a.

(** The inner loop of [CalculateScore]. *)
Fixpoint Score_inner (h : Heap) (r1 : D * D) (l : list (Z * Z)) (score : D) (picks : list (D * Z)) : option (D * list (D * Z)) :=
  match l with
  | [] => Some (score, picks)
  | (_, p) :: l =>
      r2 ← key_range h p;
      if dlt r2.2 r1.1 || dlt r1.2 r2.1 then Score_inner h r1 l score picks
      else
        let s := ddiv (dsub (dmin r1.2 r2.2) (dmax r1.1 r2.1)) (dsub (dmax r1.2 r2.2) (dmin r1.1 r2.1)) in
        Score_inner h r1 l (dadd score s) (picks ++ [(s, p)])
  end.

Fixpoint Score_outer (h : Heap) (all l : list (Z * Z)) (best : D) (picks : list (D * Z)) : option (list (D * Z)) :=
  match l with
  | [] => Some picks
  | (_, p) :: l =>
      r1 ← key_range h p;
      '(score, cur) ← Score_inner h r1 all dzero [];
      if dlt best score then Score_outer h all l score cur else Score_outer h all l best picks
  end.

(** The last loop; the threshold is 0 whatever [state_change_] is. *)
Fixpoint Score_take (l : list (D * Z)) (ps : list Z) : list Z :=
  match l with
  | [] => ps
  | (s, p) :: l =>
      let ps := ps ++ [p] in
      if dle s dzero || (CompactCandidateStopWriteTrigger <=? Z.of_nat (length ps)) then ps else Score_take l ps
  end.

Definition CalculateScore (h : Heap) (v : Version) : option Version :=
  let all := order (candidates_ v) in
  best ← Score_outer h all all dzero [];
  Some (set_to_compact v (Score_take (dsort best) (files_to_compact_ v))).

(** The loop of [EvictCandidates]; a draw is made for a candidate whose count is
    not -1. *)
Fixpoint Evict_loop (e : nat -> Z) (i : nat) (l : list (Z * Z)) (tmp : gmap Z Z) (v : Version) : option (gmap Z Z * Version) :=
  match l with
  | [] => Some (tmp, v)
  | (n, p) :: l =>
      let '(cnt, v) := check_count v n in
      if cnt =? -1 then Evict_loop e i l (map_insert n p tmp) v
      else
        let m := u64 (cnt + 1) in
        if m =? 0 then None
        else Evict_loop e (S i) l (if e i mod m =? 0 then map_insert n p tmp else tmp) v
  end.

Definition EvictCandidates (e : nat -> Z) (v : Version) : option Version :=
  '(tmp, v) ← Evict_loop e 0 (order (candidates_ v)) ∅ v;
  Some (set_files v (files_ v) tmp).

(** The loop of [EvictAll]; [None] is the exit on a duplicate. *)
Fixpoint EvictAll_loop (l : list (Z * Z)) (tmp : gmap Z Z) (v : Version) : option (gmap Z Z * Version) :=
  match l with
  | [] => Some (tmp, v)
  | (n, p) :: l =>
      let '(cnt, v) := check_count v n in
      if cnt =? -1 then EvictAll_loop l (map_insert n p tmp) v
      else
        match files_ v !! n with
        | Some _ => None
        | None => EvictAll_loop l tmp (set_files v (<[n := p]> (files_ v)) (candidates_ v))
        end
  end.

Definition EvictAll (v : Version) : option Version :=
  '(tmp, v) ← EvictAll_loop (order (candidates_ v)) ∅ v;
  Some (set_files v (files_ v) tmp).

(** The loop of [Finalize]; the engines of round [i] are seeded by the time. *)
Fixpoint Finalize_loop (k : nat) (pick evict : nat -> nat -> Z) (i : nat) (h : Heap) (v : Version) : option Version :=
  match k with
  | O => Some v
  | S k =>
      v ← PickCandidates (pick i) v;
      v ← CalculateScore h v;
      if 2 <=? Z.of_nat (length (files_to_compact_ v)) then Some v
      else
        v ← EvictCandidates (evict i) (set_to_compact v []);
        Finalize_loop k pick evict (S i) h v
  end.

Definition Finalize (pick evict : nat -> nat -> Z) (h : Heap) (v : Version) : option Version :=
  v ← Finalize_loop MaxMergeCandidateCheckRound pick evict 0 h v;
  EvictAll v.
End vc.
End VC.

(** ** The descriptor *)

Section control.
Context {P : CrcPort} {D F G : Type} {DD : Double D} {W : WritableFile F} {R : SequentialFile G}.
Context (addr : bytes -> Z) (order : gmap Z Z -> list (Z * Z)).
Context (cmp_name : bytes) (merge_threshold : Z).
Implicit Types pick evict : nat -> nat -> Z.

Record VersionControl := MkVC {
  vc_next_file_number_ : Z;
  vc_manifest_file_number_ : Z;
  vc_last_sequence_ : Z;
  vc_log_number_ : Z;
  vc_prev_log_number_ : Z;
  vc_state_change_ : bool;
  vc_heap : VC.Heap;
  vc_current_ : VC.Version;
  vc_descriptor_log_ : option (Log.Writer F) }.
Implicit Types vc : VersionControl.

Definition VersionControl_new (h : VC.Heap) : VersionControl := MkVC 2 0 0 0 0 false h VC.Version_new None.

Definition set_next vc (n : Z) : VersionControl :=
  MkVC n (vc_manifest_file_number_ vc) (vc_last_sequence_ vc) (vc_log_number_ vc) (vc_prev_log_number_ vc)
    (vc_state_change_ vc) (vc_heap vc) (vc_current_ vc) (vc_descriptor_log_ vc).

Definition NewFileNumber vc : Z * VersionControl := (vc_next_file_number_ vc, set_next vc (u64 (vc_next_file_number_ vc + 1))).

Definition MarkFileNumberUsed vc (number : Z) : VersionControl :=
  if vc_next_file_number_ vc <=? number then set_next vc (u64 (number + 1)) else vc.

Definition ReuseFileNumber vc (file_number : Z) : VersionControl :=
  if vc_next_file_number_ vc =? u64 (file_number + 1) then set_next vc file_number else vc.

Definition CompactionSize vc : Z := VC.MergeNumFiles (vc_current_ vc).

(** [int] and [size_t]: the sizes are not negative. *)
Definition NeedsCompaction vc : bool :=
  (VC.CompactCandidateStopWriteTrigger <? Z.of_nat (length (VC.files_to_compact_ (vc_current_ vc)))) ||
  ((VC.StopWritesTrigger <? VC.MergeNumFiles (vc_current_ vc)) && vc_state_change_ vc).

(** [RegisterFileAccess], whose argument is a [uint16_t]; the second component
    tells whether a compaction is to be scheduled.  [allowed_seeks] is a
    [uint32_t]. *)
Definition RegisterFileAccess vc (file_number : Z) : option (VersionControl * bool) :=
  let n := u16 file_number in
  if n =? 0 then Some (vc, false)
  else
    match VC.files_ (vc_current_ vc) !! n with
    | None => Some (vc, false)
    | Some p =>
        f ← vc_heap vc !! p;
        seeks ← allowed_seeks f;
        let seeks := u32 (seeks - 1) in
        let h := <[p := MkFile (number f) (Some seeks) (file_size f) (total f) (alive f) (smallest f) (largest f)]> (vc_heap vc) in
        let upd b v := MkVC (vc_next_file_number_ vc) (vc_manifest_file_number_ vc) (vc_last_sequence_ vc) (vc_log_number_ vc)
                         (vc_prev_log_number_ vc) b h v (vc_descriptor_log_ vc) in
        if seeks <=? 0 then Some (upd true (VC.MoveToMerge (vc_current_ vc) [n] false).2, true)
        else Some (upd (vc_state_change_ vc) (vc_current_ vc), false)
    end.

(** The loops of [WriteSnapshot]. *)
Definition snapshot_edit (h : VC.Heap) (v : VC.Version) : option VersionEdit :=
  fs ← mapM (fun x => h !! x.2) (order (VC.files_ v));
  cs ← mapM (fun x => h !! x.2) (order (VC.candidates_ v));
  let e := SetComparatorName cmp_name VersionEdit_new in
  let e := foldl (fun e f => AddFile (number f) (file_size f) (total f) (alive f) (smallest f) (largest f) e) e fs in
  Some (foldl (fun e f => AddMergeCandidates (number f) (file_size f) (total f) (alive f) (smallest f) (largest f) e) e cs).

Definition WriteSnapshot vc (log : Log.Writer F) : option (Status * Log.Writer F) :=
  e ← snapshot_edit (vc_heap vc) (vc_current_ vc);
  AddRecord addr log (EncodeTo order [] e).

(** The edit with the numbers it lacks, as [LogAndApply] completes it. *)
Definition complete_edit vc (edit : VersionEdit) : VersionEdit :=
  let edit := if has_log_number_ edit then edit else SetLogNumber (vc_log_number_ vc) edit in
  let edit := if has_prev_log_number_ edit then edit else SetPrevLogNumber (vc_prev_log_number_ vc) edit in
  SetLastSequence (vc_last_sequence_ vc) (SetNextFile (vc_next_file_number_ vc) edit).

(** The version that [edit] makes of the current one, before [Finalize]. *)
Definition build_version vc (edit : VersionEdit) : option VC.Saving :=
  let '(h, b) := VC.Apply (vc_heap vc) VC.Builder_new edit in
  VC.SaveTo order b merge_threshold (VC.MkSaving h (vc_current_ vc) VC.Version_new (vc_state_change_ vc)).

(** The writing part of [LogAndApply]: a new descriptor starts with a snapshot.
    [open] is [NewWritableFile] on the descriptor's name, [set_current] is
    [SetCurrentFile]. *)
Definition log_edit (open : Z -> F + Status) (set_current : Z -> Status) vc (edit : VersionEdit)
    : option (Status * option (Log.Writer F)) :=
  let new_manifest := bool_decide (vc_descriptor_log_ vc = None) in
  '(s, log) ← match vc_descriptor_log_ vc with
              | Some log => Some (OK, Some log)
              | None =>
                  match open (vc_manifest_file_number_ vc) with
                  | inr s => Some (s, None)
                  | inl f => '(s, log) ← WriteSnapshot vc (Writer_new addr f); Some (s, Some log)
                  end
              end;
  match log with
  | Some log =>
      '(s, log) ← (if ok s then
                     '(s, log) ← AddRecord addr log (EncodeTo order [] edit);
                     if ok s then '(s, f) ← Sync (dest_ log); Some (s, set_dest log f (block_offset_ log)) else Some (s, log)
                   else Some (s, log));
      let s := if ok s && new_manifest then set_current (vc_manifest_file_number_ vc) else s in
      Some (s, if negb (ok s) && new_manifest then None else Some log)
  | None => Some (s, None)
  end.

(** [LogAndApply] on an edit that other threads have finished; the edit is
    completed in place. *)
Definition LogAndApply pick evict (open : Z -> F + Status) (set_current : Z -> Status) vc (edit : VersionEdit)
    : option (Status * VersionEdit * VersionControl) :=
  let edit := complete_edit vc edit in
  s ← build_version vc edit;
  v ← VC.Finalize order pick evict (VC.s_heap s) (VC.s_v s);
  let upd cur log_number prev log :=
    MkVC (vc_next_file_number_ vc) (vc_manifest_file_number_ vc) (vc_last_sequence_ vc) log_number prev
      (VC.s_change s) (VC.s_heap s) cur log in
  let vc' := upd (VC.s_base s) (vc_log_number_ vc) (vc_prev_log_number_ vc) (vc_descriptor_log_ vc) in
  '(st, log) ← log_edit open set_current vc' edit;
  Some (st, edit, if ok st then upd v (log_number_ edit) (prev_log_number_ edit) log
                  else upd (VC.s_base s) (vc_log_number_ vc) (vc_prev_log_number_ vc) log).

(** *** Reading the descriptor *)

(** The variables of the loop of [Recover]; a number that no edit set is
    [None]. *)
Record Manifest := MkManifest {
  mf_heap : VC.Heap;
  mf_builder : VC.Builder;
  mf_log_number : option Z;
  mf_prev_log_number : option Z;
  mf_next_file : option Z;
  mf_last_sequence : option Z }.

Definition set_if (b : bool) (n : Z) (old : option Z) : option Z := if b then Some n else old.

Definition Manifest_apply (m : Manifest) (s : Status) (edit : VersionEdit) : Manifest :=
  let '(h, b) := if ok s then VC.Apply (mf_heap m) (mf_builder m) edit else (mf_heap m, mf_builder m) in
  MkManifest h b
    (set_if (has_log_number_ edit) (log_number_ edit) (mf_log_number m))
    (set_if (has_prev_log_number_ edit) (prev_log_number_ edit) (mf_prev_log_number m))
    (set_if (has_next_file_number_ edit) (next_file_number_ edit) (mf_next_file m))
    (set_if (has_last_sequence_ edit) (last_sequence_ edit) (mf_last_sequence m)).

Definition check_name (s : Status) (edit : VersionEdit) : Status :=
  if ok s && has_comparator_ edit && negb (slice_eqb (comparator_ edit) cmp_name)
  then InvalidArgument (comparator_ edit ++ bs " does not match existing comparator ") cmp_name else s.

(** The [while] loop. *)
Fixpoint Manifest_loop (k fuel : nat) (rd : Reader G) (s : Status) (m : Manifest) : option (Status * Manifest) :=
  match k with
  | O => None
  | S k' =>
      '(r, rd') ← ReadRecord addr fuel rd;
      let s := foldl (fun s r => if ok s then r.2 else s) s (drop (length (reports rd)) (reports rd')) in
      match r with
      | None => Some (s, m)
      | Some record =>
          if negb (ok s) then Some (s, m)
          else
            '(edit, s) ← DecodeFrom VersionEdit_new record;
            let s := check_name s edit in
            Manifest_loop k' fuel rd' s (Manifest_apply m s edit)
      end
  end.

Definition missing_entry (m : Manifest) : Status :=
  match mf_next_file m, mf_log_number m, mf_last_sequence m with
  | None, _, _ => Corruption (bs "no meta-nextfile entry in descriptor")
  | _, None, _ => Corruption (bs "no meta-lognumber entry in descriptor")
  | _, _, None => Corruption (bs "no last-sequence-number entry in descriptor")
  | _, _, _ => OK
  end.

(** [Recover] from the file that CURRENT names on; the result has
    [save_manifest].  With [reuse_logs] set [ReuseManifest] returns no value. *)
Definition Recover (k fuel : nat) pick evict (reuse_logs : bool) (file : G) vc : option (Status * bool * VersionControl) :=
  '(s, m) ← Manifest_loop k fuel (Reader_new file true true 0) OK
              (MkManifest (vc_heap vc) VC.Builder_new None None None None);
  let with_heap vc h := MkVC (vc_next_file_number_ vc) (vc_manifest_file_number_ vc) (vc_last_sequence_ vc) (vc_log_number_ vc)
                          (vc_prev_log_number_ vc) (vc_state_change_ vc) h (vc_current_ vc) (vc_descriptor_log_ vc) in
  let vc := with_heap vc (mf_heap m) in
  if negb (ok s) then Some (s, false, vc)
  else
    let s := missing_entry m in
    let vc := MarkFileNumberUsed (MarkFileNumberUsed vc (default 0 (mf_prev_log_number m))) (default 0 (mf_log_number m)) in
    match mf_next_file m, mf_log_number m, mf_last_sequence m with
    | Some next_file, Some log_number, Some last_sequence =>
        sv ← VC.SaveTo order (mf_builder m) merge_threshold
               (VC.MkSaving (vc_heap vc) (vc_current_ vc) VC.Version_new (vc_state_change_ vc));
        v ← VC.Finalize order pick evict (VC.s_heap sv) (VC.s_v sv);
        if (reuse_logs : bool) then None
        else Some (OK, true,
               MkVC (u64 (next_file + 1)) next_file last_sequence log_number (default 0 (mf_prev_log_number m))
                 (VC.s_change sv) (VC.s_heap sv) v (vc_descriptor_log_ vc))
    | _, _, _ => Some (s, false, vc)
    end.
End control.
Arguments VersionControl : clear implicits.
