(* ===== verification/VersionSpec.v ===== *)
(** * Versions keep their files

    The invariant of versions, that making a version of an edit and choosing
    the candidates keep it and run into no undefined behaviour, which files
    are alive afterwards, and what is read back from a descriptor. *)

From Stdlib Require Import String.
From stdpp Require Import sorting.
From S2P Require Import Prelude Status Coding Crc32cTables Crc32c Comparator Files MemEnv Log LogSpec DbFormat VersionEdit Version.
Import VC.

(** ** The invariant *)

Definition valid (h : Heap) (n p : Z) : Prop :=
  exists f, h !! p = Some f /\ number f = n /\ (8 <= length (smallest f))%nat /\ (8 <= length (largest f))%nat /\ 0 < total f.

(** A candidate whose count is -1 has few live keys; a count that is not -1 is
    the number of rounds a file was picked in. *)
Record version_ok (h : Heap) (v : Version) : Prop := MkVersionOk {
  vo_files : map_Forall (valid h) (files_ v);
  vo_candidates : map_Forall (valid h) (candidates_ v);
  vo_disjoint : files_ v ##ₘ candidates_ v;
  vo_file_count : forall n, n ∈ dom (files_ v) -> exists c, file_check_count_ v !! n = Some c /\ 0 <= c <= MaxRoundNumberForPerFile;
  vo_candidate_count : forall n, n ∈ dom (candidates_ v) ->
    exists c, file_check_count_ v !! n = Some c /\ -1 <= c <= MaxRoundNumberForPerFile }.

Definition live (v : Version) : gset Z := dom (files_ v) ∪ dom (candidates_ v).

(** All candidates have few live keys. *)
Definition settled (v : Version) : Prop := forall n, n ∈ dom (candidates_ v) -> file_check_count_ v !! n = Some (-1).

Lemma IsAlive_live (v : Version) (n : Z) : IsAlive v n = bool_decide (n ∈ live v).
Proof.
  unfold IsAlive, live. rewrite <- bool_decide_or. apply bool_decide_ext. by rewrite elem_of_union, !elem_of_dom.
Qed.

Lemma version_ok_new (h : Heap) : version_ok h Version_new.
Proof.
  split; simpl; [apply map_Forall_empty|apply map_Forall_empty|apply map_disjoint_empty_l|..]; intros n; by rewrite dom_empty_L.
Qed.

Lemma dom_map_insert (n p : Z) (m : gmap Z Z) : dom (map_insert n p m) = {[n]} ∪ dom m.
Proof.
  unfold map_insert. destruct (m !! n) eqn:E; [|apply dom_insert_L]. apply elem_of_dom_2 in E. set_solver.
Qed.

Lemma map_insert_forall (Q : Z -> Z -> Prop) (n p : Z) (m : gmap Z Z) :
  map_Forall Q m -> Q n p -> map_Forall Q (map_insert n p m).
Proof. intros Hm Hp. unfold map_insert. case_match; [done|]. by apply map_Forall_insert_2. Qed.

Lemma lookup_map_insert_ne (n k p : Z) (m : gmap Z Z) : k <> n -> map_insert n p m !! k = m !! k.
Proof. intros Hne. unfold map_insert. case_match; [done|]. by apply lookup_insert_ne. Qed.

Lemma lookup_map_insert_none (n p : Z) (m : gmap Z Z) : n ∉ dom m -> map_insert n p m !! n = Some p.
Proof.
  intros Hn. apply not_elem_of_dom in Hn. unfold map_insert. rewrite Hn. apply lookup_insert_eq.
Qed.

Lemma lookup_map_insert_some (n p q : Z) (m : gmap Z Z) : m !! n = Some q -> map_insert n p m !! n = Some q.
Proof. intros Hn. unfold map_insert. by rewrite Hn. Qed.

Lemma disjoint_dom (m1 m2 : gmap Z Z) : dom m1 ## dom m2 -> m1 ##ₘ m2.
Proof. apply map_disjoint_dom_2. Qed.

Lemma ExtractUserKey_long (k : bytes) : (8 <= length k)%nat -> exists u, ExtractUserKey k = Some u.
Proof. intros Hk. unfold ExtractUserKey. rewrite (proj2 (Nat.ltb_ge _ _)) by done. by eexists. Qed.

(** ** Adding files to a new version *)

(** A version under construction has a count for its files only. *)
Definition saving_ok (h : Heap) (v : Version) : Prop :=
  version_ok h v /\ dom (file_check_count_ v) = live v /\ settled v.

Lemma add_file_ok (h : Heap) (v : Version) (n p c : Z) :
  saving_ok h v -> valid h n p -> n ∉ dom (candidates_ v) -> 0 <= c <= MaxRoundNumberForPerFile ->
  exists v1 v2, AddFile h v p = Some v1 /\ SetFileCheckCount h v1 p c = Some v2 /\ saving_ok h v2 /\
    live v2 = {[n]} ∪ live v /\ dom (candidates_ v2) = dom (candidates_ v).
Proof.
  intros ([Hf Hc Hd Hfc Hcc] & Hdom & Hset) Hv Hn Hrange. pose proof Hv as (f & Hp & <- & _ & Hlen & _).
  unfold AddFile, SetFileCheckCount. rewrite Hp. cbn [mbind option_bind].
  destruct (ExtractUserKey_long _ Hlen) as [u ->]. cbn [mbind option_bind]. do 2 eexists. split_and!; [done|done| | |done].
  2:{ unfold live. simpl. rewrite dom_map_insert. set_solver. }
  assert (forall k, k ∈ dom (files_ v) -> k <> number f -> exists c', map_insert (number f) c (file_check_count_ v) !! k = Some c' /\
    0 <= c' <= MaxRoundNumberForPerFile) as Hother.
  { intros k Hk Hne. destruct (Hfc k Hk) as (c' & Hc' & ?). exists c'. by rewrite lookup_map_insert_ne. }
  assert (forall k, k ∈ dom (candidates_ v) -> map_insert (number f) c (file_check_count_ v) !! k = file_check_count_ v !! k) as Hcand.
  { intros k Hk. apply lookup_map_insert_ne. set_solver. }
  split_and!; [split| |]; simpl.
  - by apply map_insert_forall.
  - done.
  - apply disjoint_dom. rewrite dom_map_insert. apply map_disjoint_dom_1 in Hd. set_solver.
  - intros k. rewrite dom_map_insert. intros [->%elem_of_singleton|Hk]%elem_of_union.
    + destruct (decide (number f ∈ dom (files_ v))) as [Hin|Hout].
      * destruct (Hfc _ Hin) as (c' & Hc' & ?). exists c'. split; [by apply lookup_map_insert_some|done].
      * exists c. split; [|done]. apply lookup_map_insert_none. rewrite Hdom. unfold live. set_solver.
    + destruct (decide (k = number f)) as [->|Hne]; [|by apply Hother].
      destruct (Hfc _ Hk) as (c' & Hc' & ?). exists c'. split; [by apply lookup_map_insert_some|done].
  - intros k Hk. rewrite Hcand by done. by apply Hcc.
  - rewrite dom_map_insert, Hdom. unfold live. simpl. rewrite dom_map_insert. set_solver.
  - intros k Hk. simpl in *. rewrite Hcand by done. by apply Hset.
Qed.

Lemma add_candidate_ok (h : Heap) (v : Version) (n p : Z) :
  saving_ok h v -> valid h n p -> n ∉ dom (files_ v) ->
  exists v1 v2, AddCompactionFile h v p = Some v1 /\ SetFileCheckCount h v1 p (-1) = Some v2 /\ saving_ok h v2 /\
    live v2 = {[n]} ∪ live v /\ dom (candidates_ v2) = {[n]} ∪ dom (candidates_ v).
Proof.
  intros ([Hf Hc Hd Hfc Hcc] & Hdom & Hset) Hv Hn. pose proof Hv as (f & Hp & <- & _).
  unfold AddCompactionFile, SetFileCheckCount. rewrite Hp. cbn [mbind option_bind]. do 2 eexists. split_and!; [done|done| | |].
  2:{ unfold live. simpl. rewrite dom_map_insert. set_solver. }
  2:{ simpl. apply dom_map_insert. }
  assert (forall k, k ∈ {[number f]} ∪ dom (candidates_ v) -> map_insert (number f) (-1) (file_check_count_ v) !! k = Some (-1)) as Hcand.
  { intros k Hk. destruct (decide (k ∈ dom (candidates_ v))) as [Hin|Hout].
    - destruct (decide (k = number f)) as [->|Hne]; [by apply lookup_map_insert_some, Hset|].
      rewrite lookup_map_insert_ne by done. by apply Hset.
    - assert (k = number f) as -> by set_solver. apply lookup_map_insert_none. rewrite Hdom. unfold live. set_solver. }
  split_and!; [split| |]; simpl.
  - done.
  - by apply map_insert_forall.
  - apply disjoint_dom. rewrite dom_map_insert. apply map_disjoint_dom_1 in Hd. set_solver.
  - intros k Hk. destruct (Hfc k Hk) as (c & ? & ?). exists c. rewrite lookup_map_insert_ne by set_solver. done.
  - intros k. rewrite dom_map_insert. intros Hk. exists (-1). split; [by apply Hcand|done].
  - rewrite dom_map_insert, Hdom. unfold live. simpl. rewrite dom_map_insert. set_solver.
  - intros k. simpl. rewrite dom_map_insert. apply Hcand.
Qed.

(** ** [SaveTo] *)

(** A file of the base version is kept. *)
Definition survives (h : Heap) (b : Builder) (n p : Z) : Prop :=
  (n ∉ b_deleted b) /\ exists f, h !! p = Some f /\ default 0 (b_dead b !! n) < alive f.

Lemma valid_alive (h : Heap) (p a : Z) (f : FileMetaData) (n q : Z) :
  h !! p = Some f -> valid h n q -> valid (<[p := set_alive f a]> h) n q.
Proof.
  intros Hp (g & Hq & Hg). destruct (decide (q = p)) as [->|Hne].
  - exists (set_alive f a). rewrite lookup_insert_eq. split; [done|]. rewrite Hp in Hq. by injection Hq as ->.
  - exists g. by rewrite lookup_insert_ne.
Qed.

Lemma version_ok_heap (h h' : Heap) (v : Version) :
  (forall n p, valid h n p -> valid h' n p) -> version_ok h v -> version_ok h' v.
Proof. intros Hh [Hf Hc Hd H1 H2]. split; [..|done|done|done]; eapply map_Forall_impl; eauto. Qed.

Lemma Save_file_ok (b : Builder) (threshold : Z) (s : Saving) (n p : Z) (base : Version) :
  s_base s = base -> valid (s_heap s) n p -> n ∉ live (s_v s) ->
  (exists c, file_check_count_ base !! n = Some c /\ 0 <= c <= MaxRoundNumberForPerFile) -> saving_ok (s_heap s) (s_v s) ->
  exists s', Save_file b threshold s (n, p) = Some s' /\ s_base s' = base /\ saving_ok (s_heap s') (s_v s') /\
    (forall k q, valid (s_heap s) k q -> valid (s_heap s') k q) /\
    (forall q, q <> p -> s_heap s' !! q = s_heap s !! q) /\
    (forall k, k ∈ live (s_v s') <-> k ∈ live (s_v s) \/ k = n /\ survives (s_heap s) b n p).
Proof.
  intros <- Hv Hn (c & Hc & Hrange) Hs. unfold Save_file. cbn [fst snd].
  assert (Hsame : ~ survives (s_heap s) b n p -> exists s', Some s = Some s' /\ s_base s' = s_base s /\ saving_ok (s_heap s') (s_v s') /\
    (forall k q, valid (s_heap s) k q -> valid (s_heap s') k q) /\ (forall q, q <> p -> s_heap s' !! q = s_heap s !! q) /\
    (forall k, k ∈ live (s_v s') <-> k ∈ live (s_v s) \/ k = n /\ survives (s_heap s) b n p)).
  { intros Hno. exists s. split_and!; try done. intros k. split; [by left|]. by intros [|[_ ?]]. }
  case_decide as Hdel; [apply Hsame; by intros [? _]|].
  pose proof Hv as (f & Hp & Hnum & Hl1 & Hl2 & Htot). rewrite Hp. cbn [mbind option_bind]. rewrite Hnum.
  destruct (Z.ltb_spec (default 0 (b_dead b !! n)) (alive f)) as [Hlt|Hge].
  2:{ apply Hsame. intros (_ & g & Hg & ?). rewrite Hp in Hg. injection Hg as <-. lia. }
  set (g := set_alive f _). set (h' := <[p := g]> (s_heap s)).
  assert (forall k q, valid (s_heap s) k q -> valid h' k q) as Hh by (intros; by apply valid_alive).
  assert (saving_ok h' (s_v s)) as Hs' by (destruct Hs as (? & ? & ?); split_and!; [by eapply version_ok_heap|done|done]).
  assert (survives (s_heap s) b n p) as Hsurv by (split; [done|]; by exists f).
  rewrite (proj2 (Z.eqb_neq _ _)) by (simpl; lia).
  assert (forall q, q <> p -> h' !! q = s_heap s !! q) as Hq by (intros; by apply lookup_insert_ne).
  destruct (u64 (100 * alive g) / total g <=? u64 threshold).
  - destruct (add_candidate_ok h' (s_v s) n p Hs' (Hh _ _ Hv)) as (v1 & v2 & H1 & H2 & Hok & Hlive & _); [unfold live in Hn; set_solver|].
    rewrite H1. cbn [mbind option_bind]. rewrite H2. cbn [mbind option_bind]. eexists. split_and!; try done.
    intros k. simpl. rewrite Hlive. set_solver.
  - destruct (add_file_ok h' (s_v s) n p c Hs' (Hh _ _ Hv)) as (v1 & v2 & H1 & H2 & Hok & Hlive & _); [unfold live in Hn; set_solver|done|].
    rewrite H1. cbn [mbind option_bind]. unfold check_count. change (number g) with (number f). rewrite Hnum, Hc.
    rewrite H2. cbn [mbind option_bind]. eexists. split_and!; try done. intros k. simpl. rewrite Hlive. set_solver.
Qed.

Lemma Save_files_ok (b : Builder) (threshold : Z) (base : Version) (l : list (Z * Z)) :
  forall s, NoDup (map fst l) -> Forall (fun x => valid (s_heap s) x.1 x.2) l -> Forall (fun x => x.1 ∉ live (s_v s)) l ->
  Forall (fun x => exists c, file_check_count_ base !! x.1 = Some c /\ 0 <= c <= MaxRoundNumberForPerFile) l ->
  s_base s = base -> saving_ok (s_heap s) (s_v s) ->
  exists s', loop (Save_file b threshold) s l = Some s' /\ s_base s' = base /\ saving_ok (s_heap s') (s_v s') /\
    (forall k q, valid (s_heap s) k q -> valid (s_heap s') k q) /\
    (forall k, k ∈ live (s_v s') <-> k ∈ live (s_v s) \/ exists q, (k, q) ∈ l /\ survives (s_heap s) b k q).
Proof.
  induction l as [|[n p] l IH]; intros s Hnd Hv Hn Hc Hb Hs.
  { exists s. split_and!; try done. intros k. split; [by left|]. intros [|(q & ?%elem_of_nil & _)]; done. }
  cbn [map fst] in Hnd. apply NoDup_cons in Hnd as [Hnew Hnd]. apply Forall_cons in Hv as [Hv1 Hv], Hn as [Hn1 Hn], Hc as [Hc1 Hc].
  cbn [fst snd] in *. destruct (Save_file_ok b threshold s n p base Hb Hv1 Hn1 Hc1 Hs) as (s1 & H1 & Hb1 & Hs1 & Hh1 & Hq1 & Hl1).
  cbn [loop]. rewrite H1. cbn [mbind option_bind].
  assert (forall x, x ∈ l -> x.1 <> n /\ x.2 <> p) as Hne.
  { intros x Hx. assert (x.1 <> n) as Hx1 by (intros Heq; apply Hnew; rewrite <- Heq; by apply (list_elem_of_fmap_2 fst)). split; [done|].
    intros Hp. rewrite Forall_forall in Hv. destruct (Hv x Hx) as (f & Hf & Hfn & _). destruct Hv1 as (g & Hg & Hgn & _).
    rewrite Hp, Hg in Hf. injection Hf as ->. congruence. }
  destruct (IH s1 Hnd) as (s' & H' & Hb' & Hs' & Hh' & Hl'); try done.
  { eapply Forall_impl; [exact Hv|]. auto. }
  { rewrite Forall_forall in Hn |- *. intros x Hx. rewrite Hl1. intros [?|[? _]]; [by apply (Hn x Hx)|by destruct (Hne x Hx)]. }
  exists s'. split_and!; try done; [auto|]. intros k. rewrite Hl', Hl1.
  assert (forall q, (k, q) ∈ l -> survives (s_heap s1) b k q <-> survives (s_heap s) b k q) as Hsv.
  { intros q Hq. unfold survives. rewrite Hq1; [done|]. by apply (Hne (k, q)). }
  split.
  - intros [[?|[-> ?]]|(q & Hq & Hsq)]; [by left|right; exists p; split; [by left|done]|].
    right. exists q. split; [by right|by apply Hsv].
  - intros [?|(q & [[= -> ->]|Hq]%elem_of_cons & Hsq)]; [by left; left|by left; right|].
    right. exists q. split; [done|by apply Hsv].
Qed.

Lemma Save_candidates_ok (b : Builder) (l : list (Z * Z)) :
  forall s, Forall (fun x => valid (s_heap s) x.1 x.2) l -> Forall (fun x => x.1 ∉ dom (files_ (s_v s))) l ->
  saving_ok (s_heap s) (s_v s) ->
  exists s', loop (Save_candidate b) s l = Some s' /\ s_base s' = s_base s /\ s_heap s' = s_heap s /\ saving_ok (s_heap s') (s_v s') /\
    (forall k, k ∈ live (s_v s') <-> k ∈ live (s_v s) \/ k ∈ map fst l /\ k ∉ b_deleted b).
Proof.
  induction l as [|[n p] l IH]; intros s Hv Hn Hs.
  { exists s. split_and!; try done. intros k. simpl. set_solver. }
  apply Forall_cons in Hv as [Hv1 Hv], Hn as [Hn1 Hn]. cbn [loop]. unfold Save_candidate at 2. cbn [fst snd] in *.
  case_decide as Hdel.
  - cbn [mbind option_bind]. destruct (IH s Hv Hn Hs) as (s' & ? & ? & ? & ? & Hl). exists s'. split_and!; try done.
    intros k. rewrite Hl. simpl. set_solver.
  - destruct (add_candidate_ok (s_heap s) (s_v s) n p Hs Hv1 Hn1) as (v1 & v2 & H1 & H2 & Hok & Hlive & Hcand).
    rewrite H1. cbn [mbind option_bind]. rewrite H2. cbn [mbind option_bind].
    destruct (IH (MkSaving (s_heap s) (s_base s) v2 (s_change s))) as (s' & ? & ? & ? & ? & Hl); try done.
    { assert (files_ v2 = files_ (s_v s)) as Hf.
      { unfold AddCompactionFile, SetFileCheckCount in H1, H2. destruct (s_heap s !! p); [|done]. by simplify_eq/=. }
      simpl. by rewrite Hf. }
    exists s'. split_and!; try done. intros k. rewrite Hl. simpl. rewrite Hlive. set_solver.
Qed.

Lemma Save_added_ok (ps : list Z) :
  forall s, Forall (fun p => exists n, valid (s_heap s) n p /\ n ∉ dom (candidates_ (s_v s))) ps -> saving_ok (s_heap s) (s_v s) ->
  exists s', loop Save_added s ps = Some s' /\ s_base s' = s_base s /\ s_heap s' = s_heap s /\ saving_ok (s_heap s') (s_v s') /\
    (forall k, k ∈ live (s_v s') <-> k ∈ live (s_v s) \/ exists p, p ∈ ps /\ valid (s_heap s) k p).
Proof.
  induction ps as [|p ps IH]; intros s Hv Hs.
  { exists s. split_and!; try done. intros k. set_solver. }
  apply Forall_cons in Hv as [(n & Hv1 & Hn) Hv]. cbn [loop]. unfold Save_added at 2.
  destruct (add_file_ok (s_heap s) (s_v s) n p 0 Hs Hv1 Hn) as (v1 & v2 & H1 & H2 & Hok & Hlive & Hcand); [done|].
  rewrite H1. cbn [mbind option_bind]. rewrite H2. cbn [mbind option_bind].
  destruct (IH (MkSaving (s_heap s) (s_base s) v2 (s_change s))) as (s' & ? & ? & ? & ? & Hl); [simpl; by rewrite Hcand|done|].
  exists s'. split_and!; try done. intros k. rewrite Hl. simpl. rewrite Hlive, elem_of_union, elem_of_singleton. split.
  - intros [[->|?]|(q & Hq & ?)]; [right; exists p; split; [by left|done]|by left|right; exists q; split; [by right|done]].
  - intros [?|(q & [->|Hq]%elem_of_cons & Hvq)]; [by left; right| |right; eauto].
    left; left. destruct Hv1 as (f & Hf & <- & _), Hvq as (g & Hg & <- & _). rewrite Hf in Hg. by injection Hg as ->.
Qed.

(** A file that an edit adds. *)
Definition new_file_ok (f : FileMetaData) : Prop :=
  (8 <= length (smallest f))%nat /\ (8 <= length (largest f))%nat /\ 0 < total f.

Lemma Apply_new_ok (fs : list FileMetaData) :
  forall h b, exists h' ps,
    Apply_new h b fs = (h', MkBuilder (b_deleted b ∖ list_to_set (map number fs)) (b_dead b) (b_added b ++ ps)) /\
    h ⊆ h' /\ Forall2 (fun p f => h' !! p = Some (make_file f)) ps fs.
Proof.
  induction fs as [|f fs IH]; intros h b.
  { exists h, []. rewrite app_nil_r. replace (b_deleted b ∖ list_to_set (map number [])) with (b_deleted b) by set_solver. destruct b. split_and!; [done|done|constructor]. }
  cbn [Apply_new]. set (p := fresh (dom h)). assert (h !! p = None) as Hp by (apply not_elem_of_dom, is_fresh).
  destruct (IH (<[p := make_file f]> h) (MkBuilder (b_deleted b ∖ {[number f]}) (b_dead b) (b_added b ++ [p]))) as (h' & ps & Heq & Hh & Hps).
  exists h', (p :: ps). split_and!.
  - etrans; [exact Heq|]. simpl. rewrite <- app_assoc. do 2 f_equal. set_solver.
  - etrans; [|exact Hh]. by apply insert_subseteq.
  - constructor; [|done]. eapply lookup_weaken; [|exact Hh]. apply lookup_insert_eq.
Qed.

(** The files that were added are in the heap, with their numbers. *)
Lemma added_valid (h : Heap) (ps : list Z) (fs : list FileMetaData) :
  Forall2 (fun p f => h !! p = Some (make_file f)) ps fs -> Forall new_file_ok fs ->
  Forall2 (fun p f => valid h (number f) p) ps fs.
Proof.
  intros H Hfs. induction H as [|p f ps fs Hp H IH]; [constructor|]. apply Forall_cons in Hfs as [(H1 & H2 & H3) Hfs].
  constructor; [|by apply IH]. by exists (make_file f).
Qed.

Lemma added_numbers (h : Heap) (ps : list Z) (fs : list FileMetaData) (n : Z) :
  Forall2 (fun p f => valid h (number f) p) ps fs ->
  (exists p, p ∈ ps /\ valid h n p) <-> n ∈ map number fs.
Proof.
  induction 1 as [|p f ps fs Hp H IH]; simpl; [set_solver|]. rewrite elem_of_cons, <- IH. split.
  - intros (q & [->|Hq]%elem_of_cons & Hv); [|right; eauto]. left. destruct Hv as (g & Hg & <- & _), Hp as (g' & Hg' & <- & _). congruence.
  - intros [->|(q & Hq & Hv)]; [exists p|exists q]; (split; [|done]); [by left|by right].
Qed.

Lemma valid_weaken (h h' : Heap) (n p : Z) : h ⊆ h' -> valid h n p -> valid h' n p.
Proof. intros Hh (f & Hf & Hv). exists f. split; [by eapply lookup_weaken|done]. Qed.

Section order.
Context (order : gmap Z Z -> list (Z * Z)) (Horder : forall m, order m ≡ₚ map_to_list m).

Lemma elem_of_order (m : gmap Z Z) (n p : Z) : (n, p) ∈ order m <-> m !! n = Some p.
Proof. rewrite Horder. apply elem_of_map_to_list. Qed.

Lemma NoDup_order (m : gmap Z Z) : NoDup (map fst (order m)).
Proof. change (map fst (order m)) with (fst <$> order m). rewrite Horder. apply NoDup_fst_map_to_list. Qed.

Lemma order_forall (Q : Z -> Z -> Prop) (m : gmap Z Z) : map_Forall Q m -> Forall (fun x => Q x.1 x.2) (order m).
Proof. intros H. apply Forall_forall. intros [n p] Hx%elem_of_order. by apply H. Qed.

Lemma order_fst (m : gmap Z Z) (n : Z) : n ∈ map fst (order m) <-> n ∈ dom m.
Proof.
  change (map fst (order m)) with (fst <$> order m). rewrite list_elem_of_fmap, elem_of_dom. split.
  - intros ([k p] & -> & Hx%elem_of_order). by exists p.
  - intros [p Hp]. exists (n, p). split; [done|]. by apply elem_of_order.
Qed.

(** The version that [SaveTo] makes: the files that survive, the candidates
    that are not deleted and the files added. *)
Lemma SaveTo_ok (b : Builder) (threshold : Z) (h : Heap) (base : Version) (ch : bool) :
  version_ok h base ->
  Forall (fun p => exists n, valid h n p /\ n ∉ live base) (b_added b) ->
  exists s, SaveTo order b threshold (MkSaving h base Version_new ch) = Some s /\ s_base s = base /\
    saving_ok (s_heap s) (s_v s) /\ (forall k q, valid h k q -> valid (s_heap s) k q) /\
    forall n, n ∈ live (s_v s) <->
      (exists p, files_ base !! n = Some p /\ survives h b n p) \/
      n ∈ dom (candidates_ base) /\ n ∉ b_deleted b \/
      exists p, p ∈ b_added b /\ valid h n p.
Proof.
  intros Hok Hadd. unfold SaveTo. cbn [s_base].
  destruct (Save_files_ok b threshold base (order (files_ base)) (MkSaving h base Version_new ch)) as (s1 & -> & Hb1 & Hs1 & Hh1 & Hl1); try done.
  { apply NoDup_order. }
  { apply order_forall, (vo_files _ _ Hok). }
  { apply Forall_forall. intros x _. unfold live. simpl. set_solver. }
  { apply Forall_forall. intros [n p] Hx%elem_of_order. apply (vo_file_count _ _ Hok). by eapply elem_of_dom_2. }
  cbn [mbind option_bind]. rewrite Hb1.
  assert (forall n, n ∈ live (s_v s1) -> n ∈ dom (files_ base)) as Hsub.
  { intros n. rewrite Hl1. unfold live at 1. simpl. rewrite !dom_empty_L. intros [?|(q & Hq%elem_of_order & _)]; [set_solver|by eapply elem_of_dom_2]. }
  destruct (Save_candidates_ok b (order (candidates_ base)) s1) as (s2 & -> & Hb2 & Hh2 & Hs2 & Hl2); [| |done|].
  { apply (order_forall (valid (s_heap s1))). eapply map_Forall_impl; [apply (vo_candidates _ _ Hok)|]. intros n p. apply Hh1. }
  { apply Forall_forall. intros [n p] Hx%elem_of_order Hn. apply (map_disjoint_dom_1 _ _ (vo_disjoint _ _ Hok) n);
      [apply Hsub; unfold live; set_solver|by eapply elem_of_dom_2]. }
  cbn [mbind option_bind].
  destruct (Save_added_ok (b_added b) s2) as (s3 & -> & Hb3 & Hh3 & Hs3 & Hl3); [|done|].
  { eapply Forall_impl; [exact Hadd|]. intros p (n & Hv & Hn). exists n. rewrite Hh2. split; [by apply Hh1|]. intros Hc. apply Hn.
    assert (n ∈ live (s_v s2)) as Hlive by (unfold live; set_solver). rewrite Hl2, order_fst in Hlive. unfold live.
    destruct Hlive as [?%Hsub|[? _]]; set_solver. }
  exists s3. rewrite Hh2 in Hl3. rewrite Hh3, Hh2. split_and!; [done|by rewrite Hb3, Hb2|by rewrite <- Hh2, <- Hh3|done|].
  intros n. rewrite Hl3, Hl2, Hl1, order_fst. unfold live at 1. simpl. rewrite !dom_empty_L, union_empty_l_L.
  assert ((exists q, (n, q) ∈ order (files_ base) /\ survives h b n q) <-> (exists q, files_ base !! n = Some q /\ survives h b n q)) as ->
    by (by setoid_rewrite elem_of_order).
  assert ((exists p, p ∈ b_added b /\ valid (s_heap s1) n p) <-> (exists p, p ∈ b_added b /\ valid h n p)) as ->.
  { split; intros (p & Hp & Hv); exists p; (split; [done|]); [|by apply Hh1].
    rewrite Forall_forall in Hadd. destruct (Hadd p Hp) as (m & Hm & _). pose proof (Hh1 _ _ Hm) as (f & Hf & <- & _).
    destruct Hv as (g & Hg & <- & _). rewrite Hf in Hg. injection Hg as <-. done. }
  set_solver.
Qed.
End order.

(** ** [Finalize] *)

Section finalize.
Context {D : Type} {DD : Double D} (order : gmap Z Z -> list (Z * Z)) (Horder : forall m, order m ≡ₚ map_to_list m).
Implicit Types (v : Version) (h : Heap).

Lemma check_count_some v (n c : Z) : file_check_count_ v !! n = Some c -> check_count v n = (c, v).
Proof. intros H. unfold check_count. by rewrite H. Qed.

Lemma Pick_loop_ok h (e : nat -> Z) (count : Z) (l : list (Z * Z)) :
  forall i picked v, version_ok h v -> Forall (fun x => x.1 ∈ dom (files_ v)) l ->
  exists picked' v', Pick_loop e count i l picked v = Some (picked', v') /\ version_ok h v' /\
    files_ v' = files_ v /\ candidates_ v' = candidates_ v /\
    forall k, k ∉ dom (files_ v) -> file_check_count_ v' !! k = file_check_count_ v !! k.
Proof.
  induction l as [|[n p] l IH]; intros i picked v Hok Hl; cbn [Pick_loop]; [eauto 10|].
  case_match; [|eauto 10]. apply Forall_cons in Hl as [Hn Hl]. cbn [fst] in Hn.
  destruct (vo_file_count _ _ Hok n Hn) as (c & Hc & Hrange). rewrite (check_count_some v n c Hc).
  change MaxRoundNumberForPerFile with 24 in *. unfold u64. rewrite (Z.mod_small (c + 1)) by lia.
  rewrite (proj2 (Z.eqb_neq _ _)) by lia. case_match; [|by apply IH].
  set (c' := if c =? 24 then 1 else c + 1).
  assert (0 <= c' <= 24) as Hc' by (unfold c'; destruct (Z.eqb_spec c 24); lia).
  set (v1 := set_counts v (<[n := c']> (file_check_count_ v))).
  assert (version_ok h v1) as Hok1.
  { destruct Hok as [Hf Hcd Hd Hfc Hcc]. split; [done|done|done|..]; intros k Hk; simpl in *; (destruct (decide (k = n)) as [->|Hne];
      [exists c'; rewrite lookup_insert_eq; split; [done|change MaxRoundNumberForPerFile with 24; lia]|rewrite lookup_insert_ne by done; auto]). }
  destruct (IH (S i) ({[u32 n]} ∪ picked) v1 Hok1 Hl) as (picked' & v' & -> & ? & Hf & ? & Hk).
  exists picked', v'. split_and!; try done. intros k Hkn. rewrite Hk by done. simpl. apply lookup_insert_ne. set_solver.
Qed.

Lemma Move_loop_ok h (is_scan : bool) (array : list Z) :
  forall added v, version_ok h v ->
  version_ok h (Move_loop is_scan added array v) /\ live (Move_loop is_scan added array v) = live v /\
    dom (candidates_ v) ⊆ dom (candidates_ (Move_loop is_scan added array v)) /\
    file_check_count_ (Move_loop is_scan added array v) = file_check_count_ v.
Proof.
  induction array as [|f array IH]; intros added v Hok; cbn [Move_loop]; [done|]. case_match; [done|].
  destruct (files_ v !! f) as [p|] eqn:Ef; [|by apply IH].
  set (v1 := set_files v (delete f (files_ v)) (map_insert f p (candidates_ v))).
  assert (version_ok h v1 /\ live v1 = live v /\ dom (candidates_ v) ⊆ dom (candidates_ v1)) as (Hok1 & Hl1 & Hd1).
  { destruct Hok as [Hf Hcd Hd Hfc Hcc]. pose proof (elem_of_dom_2 _ _ _ Ef) as Hin. unfold live, v1. simpl.
    rewrite dom_map_insert, dom_delete_L. split_and!; [split; simpl| |set_solver].
    - by apply map_Forall_delete.
    - apply map_insert_forall; [done|by apply Hf].
    - apply disjoint_dom. rewrite dom_map_insert, dom_delete_L. apply map_disjoint_dom_1 in Hd. set_solver.
    - intros k. rewrite dom_delete_L. intros Hk. apply Hfc. set_solver.
    - intros k. rewrite dom_map_insert. intros [->%elem_of_singleton|Hk]%elem_of_union; [|by apply Hcc].
      destruct (Hfc f Hin) as (c & ? & ?). exists c. split; [done|lia].
    - apply set_eq. intros k. rewrite !elem_of_union, elem_of_difference, elem_of_singleton.
      destruct (decide (k = f)) as [->|]; set_solver. }
  destruct (IH (if is_scan then added + 1 else added) v1 Hok1) as (? & Hl & ? & Hcnt). split_and!; [done|by rewrite Hl|set_solver|done].
Qed.

Lemma PickCandidates_ok h (e : nat -> Z) v :
  version_ok h v ->
  exists v', PickCandidates order e v = Some v' /\ version_ok h v' /\ live v' = live v /\
    dom (candidates_ v) ⊆ dom (candidates_ v') /\
    (forall n, file_check_count_ v !! n = Some (-1) -> n ∈ dom (candidates_ v) -> file_check_count_ v' !! n = Some (-1)) /\
    (NumFiles v < StartCompactionCheckTrigger -> v' = v).
Proof.
  intros Hok. unfold PickCandidates. destruct (Z.ltb_spec (NumFiles v) StartCompactionCheckTrigger) as [|Hge]; [by exists v|].
  destruct (StopWritesTrigger <=? MergeNumFiles v); [by exists v|].
  set (count := if _ <? _ then _ else _). destruct (Pick_loop_ok h e count (order (files_ v)) 0 ∅ v Hok) as
    (picked & v1 & -> & Hok1 & Hf & Hc & Hk).
  { apply Forall_forall. intros [n p] Hx%(elem_of_order order Horder). by eapply elem_of_dom_2. }
  cbn [mbind option_bind]. pose proof (map_disjoint_dom_1 _ _ (vo_disjoint _ _ Hok)) as Hdis.
  assert (forall n, file_check_count_ v !! n = Some (-1) -> n ∈ dom (candidates_ v) -> file_check_count_ v1 !! n = Some (-1)) as Hcnt.
  { intros n Hn Hin. rewrite Hk; [done|set_solver]. }
  assert (live v1 = live v) as Hl by (unfold live; by rewrite Hf, Hc).
  case_decide; [exists v1; split_and!; try done; [by rewrite Hc|lia]|].
  unfold MoveToMerge. cbn [andb]. destruct (StopWritesTrigger <? MergeNumFiles v1); cbn [snd].
  { exists v1. split_and!; try done; [by rewrite Hc|lia]. }
  destruct (Move_loop_ok h false (merge_sort Z.le (elements picked)) 0 v1 Hok1) as (Hok2 & Hl2 & Hd2 & Hc2).
  eexists. split_and!; [done|done|by rewrite Hl2|by rewrite <- Hc| |lia]. intros n Hn Hin. rewrite Hc2. auto.
Qed.

Lemma key_range_ok h (n p : Z) : valid h n p -> exists r : D * D, key_range h p = Some r.
Proof.
  intros (f & Hf & _ & Hs & Hl & _). unfold key_range. rewrite Hf. cbn [mbind option_bind].
  destruct (ExtractUserKey_long _ Hs) as [? ->], (ExtractUserKey_long _ Hl) as [? ->]. by eexists.
Qed.

Lemma Score_inner_ok h (r1 : D * D) (l : list (Z * Z)) :
  Forall (fun x => valid h x.1 x.2) l -> forall score picks, is_Some (Score_inner h r1 l score picks).
Proof.
  induction 1 as [|[n p] l Hv Hl IH]; intros score picks; cbn [Score_inner]; [by eexists|].
  destruct (key_range_ok h n p Hv) as [r2 ->]. cbn [mbind option_bind]. case_match; apply IH.
Qed.

Lemma Score_outer_ok h (all l : list (Z * Z)) :
  Forall (fun x => valid h x.1 x.2) all -> Forall (fun x => valid h x.1 x.2) l ->
  forall best picks, is_Some (Score_outer (D := D) h all l best picks).
Proof.
  intros Hall. induction 1 as [|[n p] l Hv Hl IH]; intros best picks; cbn [Score_outer]; [by eexists|].
  destruct (key_range_ok h n p Hv) as [r1 ->]. cbn [mbind option_bind].
  destruct (Score_inner_ok h r1 all Hall dzero []) as [[score cur] ->]. cbn [mbind option_bind]. case_match; apply IH.
Qed.

Lemma CalculateScore_ok h v :
  version_ok h v -> exists ps, CalculateScore order h v = Some (set_to_compact v ps).
Proof.
  intros Hok. unfold CalculateScore. pose proof (order_forall order Horder _ _ (vo_candidates _ _ Hok)) as Hall.
  destruct (Score_outer_ok h _ _ Hall Hall dzero []) as [best ->]. cbn [mbind option_bind]. by eexists.
Qed.

Lemma version_ok_compact h v (ps : list Z) : version_ok h v -> version_ok h (set_to_compact v ps).
Proof. by intros [? ? ? ? ?]. Qed.

(** Candidates with few live keys are not evicted. *)
Lemma Evict_loop_ok h (e : nat -> Z) v (l : list (Z * Z)) :
  version_ok h v -> Forall (fun x => candidates_ v !! x.1 = Some x.2) l ->
  forall i tmp, tmp ⊆ candidates_ v ->
  exists tmp', Evict_loop e i l tmp v = Some (tmp', v) /\ tmp' ⊆ candidates_ v /\ tmp ⊆ tmp' /\
    forall n p, (n, p) ∈ l -> file_check_count_ v !! n = Some (-1) -> n ∈ dom tmp'.
Proof.
  intros Hok. induction 1 as [|[n p] l Hx Hl IH]; intros i tmp Htmp; cbn [Evict_loop].
  { exists tmp. split_and!; try done. by intros n p ?%elem_of_nil. }
  cbn [fst snd] in Hx. destruct (vo_candidate_count _ _ Hok n) as (c & Hc & Hrange); [by eapply elem_of_dom_2|].
  rewrite (check_count_some v n c Hc).
  assert (map_insert n p tmp ⊆ candidates_ v /\ tmp ⊆ map_insert n p tmp) as [Hins Hmono].
  { unfold map_insert. destruct (tmp !! n) eqn:E; [done|]. split; [|by apply insert_subseteq]. by apply insert_subseteq_l. }
  destruct (Z.eqb_spec c (-1)) as [->|Hne].
  - destruct (IH i (map_insert n p tmp) Hins) as (tmp' & -> & Hs & Hm & Hall). exists tmp'. split_and!; try done; [by etrans|].
    intros k q [[= -> ->]|Hxl]%elem_of_cons Hcx; [|by eapply Hall]. apply (subseteq_dom _ _ Hm). rewrite dom_map_insert. set_solver.
  - change MaxRoundNumberForPerFile with 24 in Hrange. unfold u64. rewrite (Z.mod_small (c + 1)) by lia.
    rewrite (proj2 (Z.eqb_neq (c + 1) 0)) by lia.
    destruct (IH (S i) (if e i mod (c + 1) =? 0 then map_insert n p tmp else tmp)) as (tmp' & -> & Hs & Hm & Hall); [by case_match|].
    exists tmp'. split_and!; try done; [by case_match; [etrans|]|].
    intros k q [[= -> ->]|Hxl]%elem_of_cons Hcx; [|by eapply Hall]. congruence.
Qed.

Lemma EvictCandidates_ok h (e : nat -> Z) v :
  version_ok h v ->
  exists v', EvictCandidates order e v = Some v' /\ version_ok h v' /\ files_ v' = files_ v /\ candidates_ v' ⊆ candidates_ v /\
    file_check_count_ v' = file_check_count_ v /\
    forall n, n ∈ dom (candidates_ v) -> file_check_count_ v !! n = Some (-1) -> n ∈ dom (candidates_ v').
Proof.
  intros Hok. unfold EvictCandidates.
  destruct (Evict_loop_ok h e v (order (candidates_ v)) Hok) with (i := 0%nat) (tmp := ∅ : gmap Z Z) as (tmp & -> & Hsub & _ & Hall).
  { apply Forall_forall. intros [n p] Hx. by apply (elem_of_order order Horder) in Hx. }
  { apply map_empty_subseteq. }
  cbn [mbind option_bind]. eexists. split_and!; [done| |done|done|done|].
  - destruct Hok as [Hf Hcd Hd Hfc Hcc]. split; simpl; [done| | |done|].
    + intros n p Hn. apply Hcd. by eapply lookup_weaken.
    + by eapply map_disjoint_weaken_r.
    + intros n Hn. apply Hcc. by apply (subseteq_dom _ _ Hsub).
  - intros n [p Hp]%elem_of_dom Hc. apply (Hall n p); [by apply (elem_of_order order Horder)|done].
Qed.

Lemma EvictAll_loop_ok h (cs : gmap Z Z) (counts : gmap Z Z) (l : list (Z * Z)) :
  NoDup (map fst l) -> Forall (fun x => valid h x.1 x.2 /\ is_Some (counts !! x.1)) l ->
  forall tmp v, file_check_count_ v = counts -> candidates_ v = cs -> map_Forall (valid h) tmp -> map_Forall (valid h) (files_ v) ->
  Forall (fun x => x.1 ∉ dom (files_ v)) l ->
  exists tmp' v', EvictAll_loop l tmp v = Some (tmp', v') /\ file_check_count_ v' = counts /\
    map_Forall (valid h) tmp' /\ map_Forall (valid h) (files_ v') /\
    (forall n, n ∈ dom (files_ v') <-> n ∈ dom (files_ v) \/ n ∈ map fst l /\ counts !! n <> Some (-1)) /\
    (forall n, n ∈ dom tmp' <-> n ∈ dom tmp \/ n ∈ map fst l /\ counts !! n = Some (-1)).
Proof.
  intros Hnd Hl. induction Hl as [|[n p] l [Hv [c Hc]] Hl IH]; intros tmp v Hcnt Hcs Htmp Hf Hn; cbn [EvictAll_loop].
  { exists tmp, v. split_and!; try done; intros n; simpl; set_solver. }
  cbn [fst snd map] in *. apply NoDup_cons in Hnd as [Hnew Hnd]. apply Forall_cons in Hn as [Hn1 Hn].
  rewrite (check_count_some v n c) by (by rewrite Hcnt). destruct (Z.eqb_spec c (-1)) as [->|Hne].
  - destruct (IH Hnd (map_insert n p tmp) v Hcnt Hcs) as (tmp' & v' & -> & ? & ? & ? & Hd1 & Hd2); [by apply map_insert_forall|done|done|].
    exists tmp', v'. split_and!; try done; intros k.
    + rewrite Hd1. destruct (decide (k = n)) as [->|]; set_solver.
    + rewrite Hd2, dom_map_insert. destruct (decide (k = n)) as [->|]; set_solver.
  - cbn [fst] in Hn1. apply not_elem_of_dom in Hn1 as Hnone. rewrite Hnone.
    destruct (IH Hnd tmp (set_files v (<[n := p]> (files_ v)) (candidates_ v)) Hcnt Hcs) as (tmp' & v' & -> & ? & ? & ? & Hd1 & Hd2); [done| | |].
    { by apply map_Forall_insert_2. }
    { simpl. rewrite dom_insert_L. apply Forall_forall. intros x Hx. rewrite Forall_forall in Hn. specialize (Hn x Hx).
      assert (x.1 <> n) by (intros Heq; apply Hnew; rewrite <- Heq; by apply (list_elem_of_fmap_2 fst)). set_solver. }
    exists tmp', v'. split_and!; try done; intros k.
    + rewrite Hd1. simpl. rewrite dom_insert_L. destruct (decide (k = n)) as [->|]; [|set_solver]. rewrite Hc.
      split; [right; split; [by left|congruence]|intros _; left; set_solver].
    + rewrite Hd2. destruct (decide (k = n)) as [->|]; [|set_solver]. rewrite Hc. naive_solver congruence.
Qed.

Lemma EvictAll_ok h v :
  version_ok h v ->
  exists v', EvictAll order v = Some v' /\ version_ok h v' /\ live v' = live v /\ settled v' /\
    (settled v -> dom (candidates_ v') = dom (candidates_ v)).
Proof.
  intros Hok. unfold EvictAll. pose proof (map_disjoint_dom_1 _ _ (vo_disjoint _ _ Hok)) as Hdis.
  destruct (EvictAll_loop_ok h (candidates_ v) (file_check_count_ v) (order (candidates_ v)) (NoDup_order order Horder _))
    with (tmp := ∅ : gmap Z Z) (v := v) as (tmp & v1 & -> & Hcnt & Htmp & Hf & Hd1 & Hd2); try done.
  { apply Forall_forall. intros [n p] Hx%(elem_of_order order Horder). split; [by apply (vo_candidates _ _ Hok)|].
    cbn [fst]. destruct (vo_candidate_count _ _ Hok n) as (c & -> & _); [by eapply elem_of_dom_2|by eexists]. }
  { apply (vo_files _ _ Hok). }
  { apply Forall_forall. intros [n p] Hx%(elem_of_order order Horder) Hn. apply elem_of_dom_2 in Hx. set_solver. }
  cbn [mbind option_bind]. setoid_rewrite (order_fst order Horder) in Hd1. setoid_rewrite (order_fst order Horder) in Hd2.
  assert (forall n, n ∈ dom tmp <-> n ∈ dom (candidates_ v) /\ file_check_count_ v !! n = Some (-1)) as Hd3 by (intros n; rewrite Hd2, dom_empty_L; set_solver).
  eexists. split_and!; [done|split; simpl; [done|done| | |]| | |]; simpl.
  - apply disjoint_dom. intros n. rewrite Hd1, Hd3. set_solver.
  - intros n. rewrite Hd1, Hcnt. intros [?|[Hn Hc]]; [by apply (vo_file_count _ _ Hok)|].
    destruct (vo_candidate_count _ _ Hok n Hn) as (c & Hc' & ?). exists c. split; [done|].
    assert (c <> -1) by (intros ->; done). lia.
  - intros n [_ Hn]%Hd3. rewrite Hcnt. by exists (-1).
  - unfold live. simpl. apply set_eq. intros n. rewrite !elem_of_union, Hd1, Hd3.
    destruct (decide (file_check_count_ v !! n = Some (-1))); set_solver.
  - intros n Hn. simpl in *. rewrite Hcnt. by apply Hd3.
  - intros Hset. apply set_eq. intros n. rewrite Hd3. set_solver.
Qed.

(** A round picks candidates and may evict them; those with few live keys
    stay. *)
Lemma Finalize_loop_ok h (k : nat) (pick evict : nat -> nat -> Z) :
  forall i v, version_ok h v ->
  exists v', Finalize_loop order k pick evict i h v = Some v' /\ version_ok h v' /\ live v' ⊆ live v /\
    (forall n, n ∈ dom (candidates_ v) -> file_check_count_ v !! n = Some (-1) -> n ∈ dom (candidates_ v')) /\
    (NumFiles v < StartCompactionCheckTrigger -> settled v -> live v' = live v).
Proof.
  induction k as [|k IH]; intros i v Hok; cbn [Finalize_loop]; [exists v; split_and!; try done|].
  destruct (PickCandidates_ok h (pick i) v Hok) as (v1 & -> & Hok1 & Hl1 & Hd1 & Hc1 & Hsmall). cbn [mbind option_bind].
  destruct (CalculateScore_ok h v1 Hok1) as [ps ->]. cbn [mbind option_bind].
  case_match.
  { exists (set_to_compact v1 ps). split_and!; [done|by apply version_ok_compact|by rewrite <- Hl1|intros n Hn _; by apply Hd1|by intros; rewrite <- Hl1]. }
  destruct (EvictCandidates_ok h (evict i) (set_to_compact (set_to_compact v1 ps) [])) as (v2 & -> & Hok2 & Hf2 & Hs2 & Hc2 & Hk2).
  { by apply version_ok_compact, version_ok_compact. }
  cbn [mbind option_bind]. simpl in *. destruct (IH (S i) v2 Hok2) as (v3 & -> & Hok3 & Hl3 & Hk3 & Hall3).
  pose proof (subseteq_dom _ _ Hs2) as Hsd.
  exists v3. split_and!; [done|done| | |].
  - etrans; [exact Hl3|]. rewrite <- Hl1. unfold live. rewrite Hf2. set_solver.
  - intros n Hn Hc. apply Hk3; [apply Hk2; [by apply Hd1|by apply Hc1]|]. rewrite Hc2. by apply Hc1.
  - intros Hlt Hset. specialize (Hsmall Hlt). subst v1.
    assert (dom (candidates_ v2) = dom (candidates_ v)) as Heq by (apply set_eq; intros n; split; [apply Hsd|intros Hn; apply Hk2; [done|by apply Hset]]).
    rewrite Hall3; [unfold live; by rewrite Hf2, Heq|unfold NumFiles in *; by rewrite Hf2|].
    intros n Hn. rewrite Hc2. apply Hset. by apply Hsd.
Qed.

Lemma Finalize_ok h (pick evict : nat -> nat -> Z) v :
  version_ok h v ->
  exists v', Finalize order pick evict h v = Some v' /\ version_ok h v' /\ settled v' /\ live v' ⊆ live v /\
    (forall n, n ∈ dom (candidates_ v) -> file_check_count_ v !! n = Some (-1) -> n ∈ live v') /\
    (NumFiles v < StartCompactionCheckTrigger -> settled v -> live v' = live v).
Proof.
  intros Hok. unfold Finalize.
  destruct (Finalize_loop_ok h MaxMergeCandidateCheckRound pick evict 0 v Hok) as (v1 & -> & Hok1 & Hl1 & Hk1 & Hall1).
  cbn [mbind option_bind]. destruct (EvictAll_ok h v1 Hok1) as (v2 & -> & Hok2 & Hl2 & Hset & _).
  exists v2. rewrite Hl2. split_and!; try done. intros n Hn Hc. unfold live. specialize (Hk1 n Hn Hc). set_solver.
Qed.
End finalize.

(** ** Edits *)

Lemma size_union_length (X : gset Z) (l : list Z) : (size (X ∪ list_to_set l) <= size X + length l)%nat.
Proof.
  revert X. induction l as [|a l IH]; intros X; simpl; [by rewrite union_empty_r_L, Nat.add_0_r|].
  rewrite union_assoc_L. etrans; [apply IH|]. rewrite size_union_alt.
  pose proof (subseteq_size ({[a]} ∖ X) {[a]} ltac:(set_solver)) as Hs. rewrite size_singleton in Hs. lia.
Qed.

Section edits.
Context {P : CrcPort} {HP : CrcPortSpec P} {D F : Type} {DD : Double D} {W : WritableFile F}.
Context {contents : F -> bytes} {ok_w : F -> Prop} {HW : WritableFileSpec F contents ok_w}.
Context (addr : bytes -> Z) (order : gmap Z Z -> list (Z * Z)) (Horder : forall m, order m ≡ₚ map_to_list m).
Context (cmp_name : bytes) (merge_threshold : Z) (pick evict : nat -> nat -> Z).
Implicit Types (vc : VersionControl F) (e : VersionEdit).

(** File [n] is alive after edit [e]: it was, is not deleted and has keys that
    are not dead, or it is a candidate that is not deleted, or it is new. *)
Definition next_live vc e (n : Z) : Prop :=
  (exists p f, files_ (vc_current_ vc) !! n = Some p /\ vc_heap vc !! p = Some f /\ (n ∉ deleted_files_ e) /\
     default 0 (dead_key_counter_ e !! n) < alive f) \/
  n ∈ dom (candidates_ (vc_current_ vc)) /\ (n ∉ deleted_files_ e) \/
  n ∈ map number (new_files_ e).

Lemma build_version_ok vc e :
  version_ok (vc_heap vc) (vc_current_ vc) -> Forall new_file_ok (new_files_ e) ->
  Forall (fun f => number f ∉ live (vc_current_ vc)) (new_files_ e) ->
  exists s, build_version order merge_threshold vc e = Some s /\ s_base s = vc_current_ vc /\ saving_ok (s_heap s) (s_v s) /\
    version_ok (s_heap s) (vc_current_ vc) /\ forall n, n ∈ live (s_v s) <-> next_live vc e n.
Proof.
  intros Hok Hnew Hfresh. unfold build_version, Apply.
  match goal with |- context [Apply_new ?h ?b ?fs] => destruct (Apply_new_ok fs h b) as (h' & ps & -> & Hh & Hps) end.
  cbn [b_deleted b_dead b_added Builder_new app]. pose proof (added_valid _ _ _ Hps Hnew) as Hval.
  assert (forall n p, valid (vc_heap vc) n p -> valid h' n p) as Hv by (intros; by eapply valid_weaken).
  match goal with |- context [SaveTo order ?b _ _] => destruct (SaveTo_ok order Horder b merge_threshold h' (vc_current_ vc) (vc_state_change_ vc))
    as (s & -> & Hb & Hs & Hh' & Hl) end.
  { by eapply version_ok_heap. }
  { simpl. clear Hps. induction Hval as [|p f ps fs Hpf Hval IH]; [constructor|]. apply Forall_cons in Hnew as [_ Hnew], Hfresh as [Hf1 Hfresh].
    constructor; [|by apply IH]. by exists (number f). }
  exists s. split_and!; [done|done|done| |].
  { eapply version_ok_heap; [exact Hh'|]. by eapply version_ok_heap. }
  assert (forall n, n ∈ live (vc_current_ vc) -> n ∉ map number (new_files_ e)) as Hdis.
  { intros n Hn (f & -> & Hf)%list_elem_of_fmap. rewrite Forall_forall in Hfresh. by apply (Hfresh f). }
  intros n. rewrite Hl. cbn [b_added b_deleted]. rewrite (added_numbers h' ps (new_files_ e) n Hval). unfold next_live.
  assert (n ∈ live (vc_current_ vc) -> n ∉ (∅ ∪ list_to_set (deleted_files_ e)) ∖ (list_to_set (map number (new_files_ e)) : gset Z)
    <-> n ∉ deleted_files_ e) as Hdel by (intros Hn; specialize (Hdis n Hn); set_solver).
  f_equiv; [|f_equiv].
  - split.
    + intros (p & Hp & Hd & f & Hf & Hlt). cbn [b_deleted b_dead] in *. rewrite map_empty_union in Hlt.
      assert (n ∈ live (vc_current_ vc)) as Hn by (apply elem_of_dom_2 in Hp; unfold live; set_solver).
      destruct (vo_files _ _ Hok n p Hp) as (g & Hg & _). rewrite (lookup_weaken _ _ _ _ Hg Hh) in Hf. injection Hf as ->.
      exists p, f. by rewrite <- Hdel.
    + intros (p & f & Hp & Hf & Hd & Hlt). exists p. split; [done|].
      assert (n ∈ live (vc_current_ vc)) as Hn by (apply elem_of_dom_2 in Hp; unfold live; set_solver).
      split; [by apply Hdel|]. exists f. cbn [b_dead]. rewrite map_empty_union. split; [by eapply lookup_weaken|done].
  - split; intros [Hc Hd]; (split; [done|]); apply Hdel; (done || (unfold live; set_solver)).
Qed.

Lemma mapM_heap (h : Heap) (m : gmap Z Z) :
  map_Forall (valid h) m -> exists fs, mapM (fun x => h !! x.2) (order m) = Some fs /\ map number fs = map fst (order m).
Proof.
  intros Hm. pose proof (order_forall order Horder _ _ Hm) as Hall. clear Hm.
  induction Hall as [|[n p] l (f & Hf & Hnum & _) Hl (fs & IH & Hn)]; [by exists []|].
  exists (f :: fs). cbn [mapM snd] in *. rewrite Hf. cbn [mbind option_bind]. rewrite IH. simpl in *. by rewrite Hn, Hnum.
Qed.

(** The edit that a snapshot writes. *)
Lemma snapshot_edit_ok (h : Heap) (v : Version) :
  version_ok h v ->
  exists e fs cs, snapshot_edit order cmp_name h v = Some e /\ new_files_ e = map no_seeks fs /\ merge_candidates_ e = map no_seeks cs /\
    map number fs = map fst (order (files_ v)) /\ map number cs = map fst (order (candidates_ v)).
Proof.
  intros Hok. unfold snapshot_edit. destruct (mapM_heap h _ (vo_files _ _ Hok)) as (fs & -> & Hfs), (mapM_heap h _ (vo_candidates _ _ Hok)) as (cs & -> & Hcs).
  cbn [mbind option_bind]. set (e0 := SetComparatorName cmp_name VersionEdit_new).
  assert (forall fs e, let e' := foldl (fun e f => VersionEdit.AddFile (number f) (file_size f) (total f) (alive f) (smallest f) (largest f) e) e fs in
    new_files_ e' = new_files_ e ++ map no_seeks fs /\ merge_candidates_ e' = merge_candidates_ e) as H1.
  { clear. induction fs as [|f fs IH]; intros e; simpl; [by rewrite app_nil_r|].
    destruct (IH (VersionEdit.AddFile (number f) (file_size f) (total f) (alive f) (smallest f) (largest f) e)) as [-> ->]. simpl. by rewrite <- app_assoc. }
  assert (forall cs e, let e' := foldl (fun e f => AddMergeCandidates (number f) (file_size f) (total f) (alive f) (smallest f) (largest f) e) e cs in
    new_files_ e' = new_files_ e /\ merge_candidates_ e' = merge_candidates_ e ++ map no_seeks cs) as H2.
  { clear. induction cs as [|f cs IH]; intros e; simpl; [by rewrite app_nil_r|].
    destruct (IH (AddMergeCandidates (number f) (file_size f) (total f) (alive f) (smallest f) (largest f) e)) as [-> ->]. simpl. by rewrite <- app_assoc. }
  cbn zeta in H1, H2. eexists _, fs, cs. split; [done|].
  match goal with |- context [foldl ?g (foldl ?g' e0 fs) cs] => destruct (H2 cs (foldl g' e0 fs)) as [-> ->], (H1 fs e0) as [-> ->] end. done.
Qed.

(** The records of the descriptor, if there is one. *)
Definition descriptor_has vc (rs : list bytes) : Prop :=
  match vc_descriptor_log_ vc with
  | None => True
  | Some lg => log_has (contents := contents) (ok_w := ok_w) addr lg rs
  end.

(** The records before the next edit: those of the descriptor, or a snapshot. *)
Definition records_before vc (rs : list bytes) : option (list bytes) :=
  match vc_descriptor_log_ vc with
  | Some _ => Some rs
  | None => e ← snapshot_edit order cmp_name (vc_heap vc) (vc_current_ vc); Some [EncodeTo order [] e]
  end.

Lemma log_edit_ok (open : Z -> F + Status) (set_current : Z -> Status) vc e (rs : list bytes) :
  (forall n f, open n = inl f -> ok_w f /\ contents f = []) -> (forall n st, open n = inr st -> Status.ok st = false) ->
  version_ok (vc_heap vc) (vc_current_ vc) -> descriptor_has vc rs ->
  exists st log rs', log_edit addr order cmp_name open set_current vc e = Some (st, log) /\ records_before vc rs = Some rs' /\
    (Status.ok st = true -> exists lg, log = Some lg /\ log_has (contents := contents) (ok_w := ok_w) addr lg (rs' ++ [EncodeTo order [] e])) /\
    (Status.ok st = false -> vc_descriptor_log_ vc = None /\ log = None).
Proof.
  intros Hopen Hfail Hok Hd. unfold log_edit, records_before, descriptor_has in *.
  assert (forall lg rs, log_has (contents := contents) (ok_w := ok_w) addr lg rs -> exists lg', ('(s, log) ← AddRecord addr lg (EncodeTo order [] e);
    if Status.ok s then '(s, f) ← Sync (dest_ log); Some (s, set_dest log f (block_offset_ log)) else Some (s, log)) = Some (OK, lg') /\
    log_has (contents := contents) (ok_w := ok_w) addr lg' (rs ++ [EncodeTo order [] e])) as Hadd.
  { intros lg rs0 Hlg. destruct (log_has_add addr lg rs0 (EncodeTo order [] e) Hlg) as (lg1 & -> & H1). cbn [mbind option_bind].
    change (Status.ok OK) with true. cbv iota. destruct (log_has_sync addr lg1 _ H1) as (f & -> & H2). cbn [mbind option_bind]. eauto. }
  destruct (vc_descriptor_log_ vc) as [lg|].
  - cbn [mbind option_bind]. change (Status.ok OK) with true. cbv iota. destruct (Hadd lg rs Hd) as (lg' & -> & Hlg').
    cbn [mbind option_bind]. rewrite (bool_decide_eq_false_2 (Some lg = None)) by done. rewrite !andb_false_r.
    do 3 eexists. split_and!; [done|done|eauto|done].
  - destruct (snapshot_edit_ok (vc_heap vc) (vc_current_ vc) Hok) as (se & _ & _ & Hse & _). rewrite Hse. cbn [mbind option_bind].
    rewrite (bool_decide_eq_true_2 (None = None)) by done.
    destruct (open (vc_manifest_file_number_ vc)) as [f|st] eqn:Eo; [|].
    2:{ cbn [mbind option_bind]. exists st, None. eexists. split_and!; [done|done| |done]. rewrite (Hfail _ _ Eo). done. }
    destruct (Hopen _ _ Eo) as [Hf Hc]. unfold WriteSnapshot. rewrite Hse. cbn [mbind option_bind].
    destruct (log_has_add addr (Writer_new addr f) [] (EncodeTo order [] se)) as (lg1 & -> & H1); [by apply log_has_new|].
    cbn [mbind option_bind]. change (Status.ok OK) with true. cbv iota. destruct (Hadd lg1 _ H1) as (lg' & -> & Hlg').
    cbn [mbind option_bind]. change (Status.ok OK) with true. cbn [andb]. set (st := set_current _).
    exists st. do 2 eexists. split_and!; [done|done| |].
    + intros Hst. rewrite Hst. cbn [negb andb]. eauto.
    + intros Hst. rewrite Hst. done.
Qed.

(** [LogAndApply] on any edit. *)
Lemma LogAndApply_ok (open : Z -> F + Status) (set_current : Z -> Status) vc e (rs : list bytes) :
  (forall n f, open n = inl f -> ok_w f /\ contents f = []) -> (forall n st, open n = inr st -> Status.ok st = false) ->
  version_ok (vc_heap vc) (vc_current_ vc) -> descriptor_has vc rs ->
  Forall new_file_ok (new_files_ e) -> Forall (fun f => number f ∉ live (vc_current_ vc)) (new_files_ e) ->
  exists st e' vc', LogAndApply addr order cmp_name merge_threshold pick evict open set_current vc e = Some (st, e', vc') /\
    version_ok (vc_heap vc') (vc_current_ vc') /\
    (Status.ok st = false -> vc_current_ vc' = vc_current_ vc /\ vc_descriptor_log_ vc' = None) /\
    (Status.ok st = true -> settled (vc_current_ vc') /\ (forall n, n ∈ live (vc_current_ vc') -> next_live vc e n) /\
      (Z.of_nat (size (live (vc_current_ vc)) + length (new_files_ e)) < StartCompactionCheckTrigger ->
       forall n, next_live vc e n -> n ∈ live (vc_current_ vc')) /\
      exists rs' lg, vc_descriptor_log_ vc' = Some lg /\ (is_Some (vc_descriptor_log_ vc) -> rs' = rs) /\
        log_has (contents := contents) (ok_w := ok_w) addr lg (rs' ++ [EncodeTo order [] e'])).
Proof.
  intros Hopen Hfail Hok Hd Hnew Hfresh. unfold LogAndApply. set (e' := complete_edit vc e).
  assert (new_files_ e' = new_files_ e /\ deleted_files_ e' = deleted_files_ e /\ dead_key_counter_ e' = dead_key_counter_ e) as (Hn & Hdel & Hdead)
    by (unfold e', complete_edit; destruct (has_log_number_ e); cbn; destruct (has_prev_log_number_ e); done).
  destruct (build_version_ok vc e' Hok) as (s & -> & Hb & (Hs & _ & Hset) & Hbase & Hl); [by rewrite Hn|by rewrite Hn|].
  assert (forall n, next_live vc e' n <-> next_live vc e n) as Hnl by (intros n; unfold next_live; by rewrite Hn, Hdel, Hdead).
  cbn [mbind option_bind]. destruct (Finalize_ok order Horder (s_heap s) pick evict (s_v s) Hs) as (v & -> & Hv & Hvset & Hsub & _ & Hsmall).
  cbn [mbind option_bind]. rewrite Hb. set (vc1 := MkVC _ _ _ _ _ _ _ _ _).
  destruct (log_edit_ok open set_current vc1 e' rs Hopen Hfail Hbase Hd) as (st & log & rs' & -> & Hrs & Hgood & Hbad).
  cbn [mbind option_bind]. exists st, e'. eexists. split; [done|]. destruct (Status.ok st); simpl.
  - split_and!; [done|done|]. intros _. split_and!; [done|intros n Hnv; by apply Hnl, Hl, Hsub| |].
    + intros Hlt n Hnx. rewrite Hsmall; [by apply Hl, Hnl| |done]. eapply Z.le_lt_trans; [|exact Hlt]. apply inj_le.
      rewrite <- size_dom. etrans; [apply (subseteq_size _ (live (vc_current_ vc) ∪ list_to_set (map number (new_files_ e))))|].
      * intros k Hk. assert (next_live vc e k) as Hnk by (apply Hnl, Hl; unfold live; set_solver).
        unfold next_live, live in *. destruct Hnk as [(p & f & Hp%elem_of_dom_2 & _)|[[? _]|?]]; set_solver.
      * etrans; [apply size_union_length|]. by rewrite length_map.
    + destruct (Hgood eq_refl) as (lg & -> & Hlg). exists rs', lg. split_and!; [done| |done]. intros Hsome.
      unfold records_before in Hrs. cbn [vc_descriptor_log_ vc1] in Hrs. destruct Hsome as [x Hx]. rewrite Hx in Hrs. by injection Hrs.
  - split_and!; [done|intros _|done]. split; [done|]. by apply Hbad.
Qed.

(** *** Reading a descriptor *)

Context {G : Type} {R : SequentialFile G} {rest : G -> bytes} {ok_r : G -> Prop} {HR : SequentialFileSpec G rest ok_r}.

(** The variables of [Recover] after the edits [es]. *)
Definition replayed (m : Manifest) (es : list VersionEdit) : Manifest :=
  foldl (fun m e => Manifest_apply m OK (read_back VersionEdit_new e)) m es.

Definition name_ok e : Prop := has_comparator_ e = true -> comparator_ e = cmp_name.

Lemma Manifest_loop_ok (k fuel : nat) (es : list VersionEdit) :
  forall (rd rd' : Reader G) (m : Manifest),
  read_all addr k fuel rd = Some (map (EncodeTo order []) es, rd') -> reports rd' = [] -> Forall edit_ok es -> Forall name_ok es ->
  Manifest_loop addr cmp_name k fuel rd OK m = Some (OK, replayed m es).
Proof.
  revert es. induction k as [|k IH]; intros es rd rd' m Hread Hrep Hok Hname; [done|].
  cbn [read_all] in Hread. cbn [Manifest_loop]. destruct (ReadRecord addr fuel rd) as [[r rd1]|] eqn:Er; [|done].
  cbn [mbind option_bind] in *.
  assert (reports rd1 = []) as Hrd1.
  { destruct r as [r|]; [|simplify_eq; done]. destruct (read_all addr k fuel rd1) as [[rs rd2]|] eqn:Ea; [|done].
    cbn [mbind option_bind] in Hread. injection Hread as _ <-. apply read_all_grows in Ea. rewrite Hrep in Ea.
    by apply prefix_nil_inv in Ea. }
  rewrite Hrd1, drop_nil. cbn [foldl]. change (Status.ok OK) with true. cbn [negb].
  destruct r as [r|]; [|by destruct es].
  destruct (read_all addr k fuel rd1) as [[rs rd2]|] eqn:Ea; [|done]. cbn [mbind option_bind] in Hread.
  destruct es as [|e es]; [done|]. cbn [map] in Hread. injection Hread as -> -> ->.
  apply Forall_cons in Hok as [He Hok], Hname as [Hn Hname].
  rewrite (DecodeFrom_EncodeTo order Horder e VersionEdit_new He). cbn [mbind option_bind].
  assert (check_name cmp_name OK (read_back VersionEdit_new e) = OK) as ->.
  { unfold check_name. cbn [has_comparator_ comparator_ read_back]. destruct (has_comparator_ e) eqn:Eh; [|done].
    rewrite (Hn Eh). by rewrite (proj2 (Bytewise.slice_eqb_spec _ _)). }
  apply (IH es rd1 rd' _ Ea Hrep Hok Hname).
Qed.

(** The number that the last edit to set it sets. *)
Definition last_set (has : VersionEdit -> bool) (val : VersionEdit -> Z) (es : list VersionEdit) (old : option Z) : option Z :=
  match last (filter (fun e => has e = true) es) with Some e => Some (val e) | None => old end.

Lemma last_set_cons (has : VersionEdit -> bool) (val : VersionEdit -> Z) (e : VersionEdit) (es : list VersionEdit) (old : option Z) :
  last_set has val (e :: es) old = last_set has val es (set_if (has e) (val e) old).
Proof.
  unfold last_set, set_if. rewrite filter_cons. destruct (has e); case_decide; try done. rewrite last_cons.
  by destruct (last (filter (fun e => has e = true) es)).
Qed.

Lemma replayed_ok (es : list VersionEdit) :
  Forall (fun e => Forall new_file_ok (new_files_ e)) es -> forall m fs,
  Forall2 (fun p f => valid (mf_heap m) (number f) p) (b_added (mf_builder m)) fs ->
  let m' := replayed m es in
  mf_heap m ⊆ mf_heap m' /\
  Forall2 (fun p f => valid (mf_heap m') (number f) p) (b_added (mf_builder m')) (fs ++ map no_seeks (concat (map new_files_ es))) /\
  mf_log_number m' = last_set has_log_number_ log_number_ es (mf_log_number m) /\
  mf_prev_log_number m' = last_set has_prev_log_number_ prev_log_number_ es (mf_prev_log_number m) /\
  mf_next_file m' = last_set has_next_file_number_ next_file_number_ es (mf_next_file m) /\
  mf_last_sequence m' = last_set has_last_sequence_ last_sequence_ es (mf_last_sequence m).
Proof.
  induction 1 as [|e es He Hes IH]; intros m fs Hm; [simpl; by rewrite app_nil_r|]. cbv zeta.
  cbn [replayed foldl map concat]. fold (replayed (Manifest_apply m OK (read_back VersionEdit_new e)) es).
  set (m1 := Manifest_apply m OK (read_back VersionEdit_new e)).
  assert (mf_heap m ⊆ mf_heap m1 /\
    Forall2 (fun p f => valid (mf_heap m1) (number f) p) (b_added (mf_builder m1)) (fs ++ map no_seeks (new_files_ e))) as [Hh Hadd].
  { unfold m1, Manifest_apply. change (Status.ok OK) with true. cbv iota. unfold Apply.
    match goal with |- context [Apply_new ?h ?b ?fs] => destruct (Apply_new_ok fs h b) as (h' & ps & -> & Hh & Hps) end. cbn [mf_heap mf_builder b_added].
    split; [done|]. apply Forall2_app.
    - eapply Forall2_impl; [exact Hm|]. intros p f. by apply valid_weaken.
    - apply added_valid in Hps; [done|]. cbn [new_files_ read_back]. apply Forall_fmap. eapply Forall_impl; [exact He|]. done. }
  assert (mf_log_number m1 = set_if (has_log_number_ e) (log_number_ e) (mf_log_number m) /\
    mf_prev_log_number m1 = set_if (has_prev_log_number_ e) (prev_log_number_ e) (mf_prev_log_number m) /\
    mf_next_file m1 = set_if (has_next_file_number_ e) (next_file_number_ e) (mf_next_file m) /\
    mf_last_sequence m1 = set_if (has_last_sequence_ e) (last_sequence_ e) (mf_last_sequence m)) as (H1 & H2 & H3 & H4).
  { unfold m1, Manifest_apply. destruct (if Status.ok OK then _ else _) as [h b].
    cbn [mf_log_number mf_prev_log_number mf_next_file mf_last_sequence read_back has_log_number_ log_number_ has_prev_log_number_ prev_log_number_
      has_next_file_number_ next_file_number_ has_last_sequence_ last_sequence_].
    by destruct (has_log_number_ e), (has_prev_log_number_ e), (has_next_file_number_ e), (has_last_sequence_ e). }
  destruct (IH m1 _ Hadd) as (Hh' & Hadd' & -> & -> & -> & ->). rewrite !last_set_cons, H1, H2, H3, H4. split_and!; [by etrans| |done..].
  by rewrite map_app, app_assoc.
Qed.

Lemma map_number_no_seeks (fs : list FileMetaData) : map number (map no_seeks fs) = map number fs.
Proof. induction fs as [|f fs IH]; simpl; [done|]. by rewrite IH. Qed.

Lemma Recover_ok (lg : Log.Writer F) (es : list VersionEdit) (file : G) (n k fuel : nat) (h : Heap) :
  log_has (contents := contents) (ok_w := ok_w) addr lg (map (EncodeTo order []) es) -> Forall edit_ok es -> Forall name_ok es ->
  Forall (fun e => Forall new_file_ok (new_files_ e)) es ->
  ok_r file -> rest file = take n (contents (dest_ lg)) -> (length (contents (dest_ lg)) < fuel)%nat -> (length es < k)%nat ->
  exists j, ((length (contents (dest_ lg)) <= n)%nat -> (length es <= j)%nat) /\
  let es' := take j es in let added := map number (concat (map new_files_ es')) in
  let r := Recover addr order cmp_name merge_threshold k fuel pick evict false file (VersionControl_new (F := F) h) in
  match last_set has_next_file_number_ next_file_number_ es' None, last_set has_log_number_ log_number_ es' None,
        last_set has_last_sequence_ last_sequence_ es' None with
  | Some next_file, Some log_number, Some last_sequence =>
      exists vc, r = Some (OK, true, vc) /\ vc_manifest_file_number_ vc = next_file /\ vc_next_file_number_ vc = u64 (next_file + 1) /\
        vc_log_number_ vc = log_number /\ vc_last_sequence_ vc = last_sequence /\
        version_ok (vc_heap vc) (vc_current_ vc) /\ settled (vc_current_ vc) /\
        (forall x, x ∈ live (vc_current_ vc) -> x ∈ added) /\
        (Z.of_nat (length added) < StartCompactionCheckTrigger -> forall x, x ∈ added -> x ∈ live (vc_current_ vc))
  | _, _, _ => exists st vc, r = Some (st, false, vc) /\ code st = kCorruption /\ vc_current_ vc = Version_new
  end.
Proof.
  intros Hlog Hok Hname Hnew Hfile Hrest Hfuel Hk.
  destruct (log_has_read addr addr lg _ file n fuel true true Hlog Hfile Hrest Hfuel) as (j & rd & Hread & Hrep & Hj).
  rewrite length_map in Hread, Hj. apply (read_all_more addr _ k) in Hread; [|lia]. rewrite <- fmap_take in Hread.
  exists j. split; [done|]. cbv zeta. set (es' := take j es) in *.
  set (m0 := MkManifest h Builder_new None None None None).
  pose proof (Manifest_loop_ok k fuel es' _ rd m0 Hread Hrep (Forall_take _ _ _ Hok) (Forall_take _ _ _ Hname)) as Hloop.
  destruct (replayed_ok es' (Forall_take _ _ _ Hnew) m0 [] ltac:(constructor)) as (Hh & Hadd & H1 & H2 & H3 & H4).
  unfold Recover. cbn [vc_heap VersionControl_new]. fold m0. rewrite Hloop. cbn [mbind option_bind]. change (Status.ok OK) with true. cbn [negb].
  cbn [app m0 mf_log_number mf_next_file mf_last_sequence] in Hadd, H1, H3, H4. rewrite <- H1, <- H3, <- H4.
  set (m' := replayed m0 es') in *. set (vc0 := MarkFileNumberUsed _ _).
  assert (vc_heap vc0 = mf_heap m' /\ vc_current_ vc0 = Version_new) as [Hvh Hvc].
  { unfold vc0, MarkFileNumberUsed. repeat case_match; done. }
  assert (missing_entry m' <> OK -> code (missing_entry m') = kCorruption) as Hcorr.
  { unfold missing_entry. by destruct (mf_next_file m'), (mf_log_number m'), (mf_last_sequence m'). }
  destruct (mf_next_file m') as [next|] eqn:En; [destruct (mf_log_number m') as [ln|] eqn:El; [destruct (mf_last_sequence m') as [sq|] eqn:Es|]|].
  2,3,4: do 2 eexists; (split_and!; [done| |done]); apply Hcorr; unfold missing_entry; rewrite ?En, ?El, ?Es; done.
  rewrite Hvh, Hvc. destruct (SaveTo_ok order Horder (mf_builder m') merge_threshold (mf_heap m') Version_new (vc_state_change_ vc0))
    as (s & -> & _ & (Hs & _ & Hset) & Hh' & Hl); [apply version_ok_new| |].
  { clear -Hadd. induction Hadd as [|p f ps fs Hv H IH]; constructor; [|done]. exists (number f). split; [done|]. unfold live. simpl. set_solver. }
  assert (forall x, x ∈ live (s_v s) <-> x ∈ map number (concat (map new_files_ es'))) as Hlive.
  { intros x. rewrite Hl, (added_numbers _ _ _ x Hadd), map_number_no_seeks. simpl. rewrite dom_empty_L. split; [|by right; right].
    intros [(p & Hp & _)|[[? _]|?]]; [by rewrite lookup_empty in Hp|set_solver|done]. }
  cbn [mbind option_bind]. destruct (Finalize_ok order Horder (s_heap s) pick evict (s_v s) Hs) as (v & -> & Hv & Hvset & Hsub & _ & Hsmall).
  cbn [mbind option_bind]. eexists. split_and!; try done.
  - intros x Hx. apply Hlive. by apply Hsub.
  - intros Hlt x Hx. simpl. rewrite Hsmall; [by apply Hlive| |done]. eapply Z.le_lt_trans; [|exact Hlt]. apply inj_le.
    rewrite <- size_dom. etrans; [apply (subseteq_size _ (∅ ∪ list_to_set (map number (concat (map new_files_ es')))))|].
    + intros y Hy. assert (y ∈ live (s_v s)) as Hyl by (unfold live; set_solver). apply Hlive in Hyl. set_solver.
    + etrans; [apply size_union_length|]. rewrite size_empty. done.
Qed.
End edits.

(** ** Properties *)



(** ** Examples *)

Module Example.
#[local] Instance port : CrcPort := port_posix.
#[local] Instance files : WritableFile Mem.FileState := Mem.WritableFileImpl (replicate Mem.K Byte.x00).
#[local] Instance readers : SequentialFile Mem.SequentialFileImpl := Mem.SequentialFileImpl_file.

(** Whole numbers in place of [double]s. *)
#[local] Instance whole : Double Z := {|
  of_u64 z := z; dzero := 0; dadd := Z.add; dsub := Z.sub; ddiv := Z.div; dlt := Z.ltb; dle := Z.leb;
  dsort l := l; pick_ratio n := n * 7 / 10 |}.

Definition key (c : Byte.byte) : bytes := c :: replicate 8 Byte.x01.

(** An edit that adds file 5, and one that deletes it. *)
Definition add5 : VersionEdit :=
  VersionEdit.SetLastSequence 9 (SetNextFile 7 (SetLogNumber 3 (VersionEdit.AddFile 5 1000 10 10 (key Byte.x31) (key Byte.x32) VersionEdit_new))).
Definition del5 : VersionEdit := DeleteFile 5 VersionEdit_new.


End Example.
