(* ===== verification/Random.v ===== *)
(** * Random numbers

    [util/random.h]: the linear congruential generator that skip lists and
    database iterators draw from.  A generator is its [seed_]. *)

From S2P Require Import Prelude.

Module Rnd.

(** ** Definitions *)

Definition M : Z := 2147483647.
Definition A : Z := 16807.

(** [Random::Random]. *)
Definition Random_new (s : Z) : Z :=
  let seed := Z.land s 0x7fffffff in
  if (seed =? 0) || (seed =? M) then 1 else seed.

(** [Random::Next] returns the new [seed_]. *)
Definition Next (seed : Z) : Z :=
  let product := u64 (seed * A) in
  let seed := u32 (Z.shiftr product 31 + Z.land product M) in
  if M <? seed then seed - M else seed.

(** The methods below draw and return the drawn value and the new seed. *)
Definition Uniform (n seed : Z) : Z * Z := let seed := Next seed in (seed mod n, seed).
Definition OneIn (n seed : Z) : bool * Z := let seed := Next seed in (seed mod n =? 0, seed).
Definition Skewed (max_log seed : Z) : Z * Z :=
  let '(base, seed) := Uniform (max_log + 1) seed in Uniform (Z.shiftl 1 base) seed.

(** ** The generator *)

(** The seeds the constructor and [Next] produce. *)
Definition seed_ok (seed : Z) : Prop := 0 < seed < M.

Lemma Random_new_ok (s : Z) : seed_ok (Random_new s).
Proof.
  unfold Random_new. change 0x7fffffff with (2 ^ 31 - 1). rewrite land_mask_mod by lia.
  pose proof (Z.mod_pos_bound s (2 ^ 31) ltac:(lia)) as Hb. unfold seed_ok, M.
  destruct (Z.eqb_spec (s mod 2 ^ 31) 0); [simpl; lia|].
  destruct (Z.eqb_spec (s mod 2 ^ 31) 2147483647); simpl; lia.
Qed.

(** [M] divides no product of the multiplier and a seed. *)
Lemma product_not_multiple (seed : Z) : seed_ok seed -> (seed * A) mod M <> 0.
Proof.
  intros Hs Hm. apply Z.mod_divide in Hm; [|done]. rewrite Z.mul_comm in Hm.
  apply Z.gauss in Hm; [|reflexivity].
  apply Z.divide_pos_le in Hm; unfold seed_ok in Hs; lia.
Qed.

Lemma Next_mod (seed : Z) : seed_ok seed -> Next seed = (seed * A) mod M.
Proof.
  intros Hs. pose proof (product_not_multiple seed Hs) as Hn. unfold seed_ok in Hs.
  unfold Next. change (Z.land (u64 (seed * A)) M) with (Z.land (u64 (seed * A)) (2 ^ 31 - 1)).
  unfold u64, A, M in *. rewrite (Z.mod_small (seed * 16807) (2 ^ 64)) by lia.
  rewrite land_mask_mod, Z.shiftr_div_pow2 by lia. set (p := seed * 16807) in *.
  pose proof (Z.div_mod p (2 ^ 31) ltac:(lia)) as Hd.
  pose proof (Z.mod_pos_bound p (2 ^ 31) ltac:(lia)) as Hb.
  assert (0 <= p / 2 ^ 31 < 16807) as Hq.
  { split; [apply Z.div_pos; lia|]. apply Z.div_lt_upper_bound; lia. }
  unfold u32. rewrite Z.mod_small by lia.
  set (s := p / 2 ^ 31 + p mod 2 ^ 31) in *.
  assert (p = s + p / 2 ^ 31 * 2147483647) as Hp by (unfold s; lia).
  rewrite Hp, Z.mod_add in Hn |- * by lia.
  destruct (Z.ltb_spec 2147483647 s).
  - rewrite <- (Z.mod_small (s - 2147483647) 2147483647) by lia.
    replace s with ((s - 2147483647) + 1 * 2147483647) at 2 by lia. by rewrite Z.mod_add.
  - destruct (Z.eq_dec s 2147483647) as [E|]; [by rewrite E in Hn|]. rewrite Z.mod_small; lia.
Qed.

Lemma Next_ok (seed : Z) : seed_ok seed -> seed_ok (Next seed).
Proof.
  intros Hs. rewrite Next_mod by done. pose proof (product_not_multiple seed Hs).
  pose proof (Z.mod_pos_bound (seed * A) M ltac:(done)). unfold seed_ok. lia.
Qed.

(** ** Properties *)

(** From every seed the constructor can leave, the shift-and-add step is
    multiplication by 16807 modulo 2^31-1, and the seed never becomes one of
    the two bad values. *)
Theorem Next_is_lehmer (s : Z) (n : nat) :
  let seed := Nat.iter n Next (Random_new s) in
  0 < seed < M /\ Next seed = (seed * A) mod M.
Proof.
  assert (seed_ok (Nat.iter n Next (Random_new s))) as Hs.
  { induction n as [|n IH]; [apply Random_new_ok|]. by apply Next_ok. }
  split; [done|]. by apply Next_mod.
Qed.

End Rnd.
