(* ===== verification/Arena.v ===== *)
(** * Arena

    [util/arena.h] and [util/arena.cc]: the bump allocator of a memtable.
    Memory is a set of addresses; [new char[n]] is an argument, a function of
    the blocks in use and the size asked for.  The destructor, which frees the
    blocks, is left out. *)

From S2P Require Import Prelude.

Module Arena.

(** ** Definitions *)

(** A range of memory: its address and its length. *)
Definition range : Type := Z * Z.

(** [blocks_] holds the pointers; the sizes are those given to [new]. *)
Record Arena := MkArena {
  alloc_ptr_ : Z;
  alloc_bytes_remaining_ : Z;
  blocks_ : list range;
  memory_usage_ : Z }.

Definition kBlockSize : Z := 4096.

Definition Arena_new : Arena := MkArena 0 0 [] 0.

Definition MemoryUsage (a : Arena) : Z := memory_usage_ a.

Section arena.
Context (new : list range -> Z -> Z).

Definition AllocateNewBlock (a : Arena) (block_bytes : Z) : Z * Arena :=
  let result := new (blocks_ a) block_bytes in
  (result, MkArena (alloc_ptr_ a) (alloc_bytes_remaining_ a) (blocks_ a ++ [(result, block_bytes)])
             (u64 (memory_usage_ a + (block_bytes + 8)))).

Definition AllocateFallback (a : Arena) (bytes : Z) : Z * Arena :=
  if kBlockSize / 4 <? bytes then AllocateNewBlock a bytes
  else
    let '(ptr, a) := AllocateNewBlock a kBlockSize in
    (ptr, MkArena (ptr + bytes) (kBlockSize - bytes) (blocks_ a) (memory_usage_ a)).

Definition Allocate (a : Arena) (bytes : Z) : Z * Arena :=
  if bytes <=? alloc_bytes_remaining_ a then
    (alloc_ptr_ a, MkArena (alloc_ptr_ a + bytes) (alloc_bytes_remaining_ a - bytes)
                     (blocks_ a) (memory_usage_ a))
  else AllocateFallback a bytes.

Definition AllocateAligned (a : Arena) (bytes : Z) : Z * Arena :=
  let align := 8 in
  let current_mod := Z.land (alloc_ptr_ a) (align - 1) in
  let slop := if current_mod =? 0 then 0 else align - current_mod in
  let needed := bytes + slop in
  if needed <=? alloc_bytes_remaining_ a then
    (alloc_ptr_ a + slop, MkArena (alloc_ptr_ a + needed) (alloc_bytes_remaining_ a - needed)
                            (blocks_ a) (memory_usage_ a))
  else AllocateFallback a bytes.

(** A run of requests; the ranges handed out. *)
Fixpoint run (a : Arena) (reqs : list (bool * Z)) : list range * Arena :=
  match reqs with
  | [] => ([], a)
  | (aligned, n) :: reqs =>
      let '(p, a) := if aligned : bool then AllocateAligned a n else Allocate a n in
      let '(rs, a) := run a reqs in
      ((p, n) :: rs, a)
  end.
End arena.

(** ** Ranges *)

Definition disjoint_range (r s : range) : Prop := r.1 + r.2 <= s.1 \/ s.1 + s.2 <= r.1.
Definition inside (r s : range) : Prop := s.1 <= r.1 /\ r.1 + r.2 <= s.1 + s.2.

Lemma disjoint_range_sym (r s : range) : disjoint_range r s -> disjoint_range s r.
Proof. unfold disjoint_range. lia. Qed.

Lemma disjoint_inside (r r' s : range) : disjoint_range r s -> inside r' r -> disjoint_range r' s.
Proof. unfold disjoint_range, inside. lia. Qed.

Lemma pairs_snoc {A} (R : A -> A -> Prop) (l : list A) (x : A) :
  ForallOrdPairs R (l ++ [x]) <-> ForallOrdPairs R l /\ Forall (fun y => R y x) l.
Proof.
  induction l as [|y l IH]; simpl.
  - split; [by repeat constructor|]. by repeat constructor.
  - split.
    + intros H. inversion H as [|? ? Hy Hl]; subst. apply IH in Hl as [Hl Hx].
      apply Forall_app in Hy as [Hy Hyx]. inversion Hyx; subst. by repeat constructor.
    + intros [H Hx]. inversion H as [|? ? Hy Hl]; subst. inversion Hx; subst.
      constructor; [|by apply IH]. apply Forall_app. by repeat constructor.
Qed.

(** ** The invariant *)

(** [cs] are the ranges handed out so far, in order. *)
Record arena_ok (a : Arena) (cs : list range) : Prop := MkArenaOk {
  ao_rem : 0 <= alloc_bytes_remaining_ a;
  ao_free : alloc_bytes_remaining_ a = 0 \/
    Exists (inside (alloc_ptr_ a, alloc_bytes_remaining_ a)) (blocks_ a);
  ao_free_disj : alloc_bytes_remaining_ a = 0 \/
    Forall (fun c => disjoint_range c (alloc_ptr_ a, alloc_bytes_remaining_ a)) cs;
  ao_inside : Forall (fun c => 0 < c.1 /\ Exists (inside c) (blocks_ a)) cs;
  ao_pairs : ForallOrdPairs disjoint_range cs;
  ao_blocks : Forall (fun b => 0 < b.1) (blocks_ a);
  ao_usage : memory_usage_ a = u64 (foldr (fun b n => b.2 + 8 + n) 0 (blocks_ a)) }.

Lemma Arena_new_ok : arena_ok Arena_new [].
Proof. split; simpl; auto; by repeat constructor. Qed.

Section spec.
(** [new] returns aligned memory that overlaps no block in use. *)
Context (new : list range -> Z -> Z).
Context (Hnew : forall bs n, 0 < n -> 0 < new bs n /\ new bs n mod 8 = 0 /\
  Forall (disjoint_range (new bs n, n)) bs).

(** Handing out [n] bytes after [slop] bytes of the free range. *)
Lemma bump_ok (a : Arena) (cs : list range) (slop n : Z) :
  arena_ok a cs -> 0 <= slop -> 0 < n -> n + slop <= alloc_bytes_remaining_ a ->
  arena_ok (MkArena (alloc_ptr_ a + (n + slop)) (alloc_bytes_remaining_ a - (n + slop))
              (blocks_ a) (memory_usage_ a)) (cs ++ [(alloc_ptr_ a + slop, n)]).
Proof.
  intros [Hr Hf Hd Hi Hp Hb Hu] Hs Hn Hle.
  destruct Hf as [Hf|Hf]; [lia|]. destruct Hd as [Hd|Hd]; [lia|].
  set (fr := (alloc_ptr_ a, alloc_bytes_remaining_ a)) in *.
  assert (inside (alloc_ptr_ a + slop, n) fr) as Hin by (unfold inside, fr; simpl; lia).
  split; simpl; try done; try lia.
  - right. eapply Exists_impl; [exact Hf|]. intros b. unfold inside, fr. simpl. lia.
  - right. apply Forall_app. split; [|repeat constructor; unfold disjoint_range; simpl; lia].
    eapply Forall_impl; [exact Hd|]. intros c Hc. unfold disjoint_range, fr in *. simpl in *. lia.
  - apply Forall_app. split; [done|]. repeat constructor; simpl.
    + apply Exists_exists in Hf as (b & Hb' & Hin').
      rewrite Forall_forall in Hb. specialize (Hb b Hb'). unfold inside, fr in Hin'. simpl in *. lia.
    + eapply Exists_impl; [exact Hf|]. intros b. unfold inside, fr in *. simpl in *. lia.
  - apply pairs_snoc. split; [done|]. eapply Forall_impl; [exact Hd|].
    intros c Hc. apply disjoint_range_sym. eapply disjoint_inside; [|exact Hin].
    by apply disjoint_range_sym.
Qed.

Lemma usage_snoc (bs : list range) (b : range) :
  foldr (fun b n => b.2 + 8 + n) 0 (bs ++ [b]) = foldr (fun b n => b.2 + 8 + n) 0 bs + (b.2 + 8).
Proof. induction bs as [|c bs IH]; simpl; lia. Qed.

Lemma AllocateNewBlock_ok (a : Arena) (cs : list range) (n : Z) :
  arena_ok a cs -> 0 < n ->
  let '(p, a') := AllocateNewBlock new a n in
  arena_ok a' cs /\ blocks_ a' = blocks_ a ++ [(p, n)] /\ 0 < p /\ p mod 8 = 0 /\
  alloc_bytes_remaining_ a' = alloc_bytes_remaining_ a /\ alloc_ptr_ a' = alloc_ptr_ a /\
  Forall (disjoint_range (p, n)) cs /\
  (alloc_bytes_remaining_ a = 0 \/
   disjoint_range (p, n) (alloc_ptr_ a, alloc_bytes_remaining_ a)).
Proof.
  intros [Hr Hf Hd Hi Hp Hb Hu] Hn. unfold AllocateNewBlock.
  destruct (Hnew (blocks_ a) n Hn) as (H0 & H8 & Hdis). simpl.
  assert (forall c, Exists (inside c) (blocks_ a) -> disjoint_range (new (blocks_ a) n, n) c) as Hc.
  { intros c (b & Hb' & Hin)%Exists_exists. apply disjoint_range_sym.
    rewrite Forall_forall in Hdis. eapply disjoint_inside; [|exact Hin].
    by apply disjoint_range_sym, Hdis. }
  split_and!; try done.
  - split; simpl; try done.
    + destruct Hf; [by left|right]. apply Exists_app. by left.
    + eapply Forall_impl; [exact Hi|]. intros c [? ?]. split; [done|]. apply Exists_app. by left.
    + apply Forall_app. split; [done|]. by repeat constructor.
    + rewrite usage_snoc. simpl. unfold u64 in *. by rewrite Hu, Zplus_mod_idemp_l.
  - eapply Forall_impl; [exact Hi|]. intros c [? ?]. by apply Hc.
  - destruct Hf; [by left|right]. by apply Hc.
Qed.

Lemma AllocateFallback_ok (a : Arena) (cs : list range) (n : Z) :
  arena_ok a cs -> 0 < n ->
  let '(p, a') := AllocateFallback new a n in
  arena_ok a' (cs ++ [(p, n)]) /\ p mod 8 = 0.
Proof.
  intros Ha Hn. unfold AllocateFallback. destruct (Z.ltb_spec (kBlockSize / 4) n) as [Hbig|Hsmall].
  - pose proof (AllocateNewBlock_ok a cs n Ha Hn) as H.
    destruct (AllocateNewBlock new a n) as [p a'].
    destruct H as ([Hr Hf Hd Hi Hp Hb Hu] & Hbl & H0 & H8 & Hrem & Hptr & Hcs & Hfree).
    split; [|done]. split; try done.
    + destruct Hd as [Hd|Hd]; [by left|]. destruct Hfree as [Hfree|Hfree]; [left; by rewrite Hrem|].
      right. apply Forall_app. split; [done|]. constructor; [|constructor]. by rewrite Hrem, Hptr.
    + apply Forall_app. split; [done|]. repeat constructor; [done|].
      rewrite Hbl. apply Exists_app. right. left. unfold inside. simpl. lia.
    + apply pairs_snoc. split; [done|]. eapply Forall_impl; [exact Hcs|].
      intros c. apply disjoint_range_sym.
  - change (kBlockSize / 4) with 1024 in Hsmall.
    pose proof (AllocateNewBlock_ok a cs kBlockSize Ha (eq_refl : 0 < kBlockSize)) as H.
    destruct (AllocateNewBlock new a kBlockSize) as [p a'].
    destruct H as ([Hr Hf Hd Hi Hp Hb Hu] & Hbl & H0 & H8 & Hrem & Hptr & Hcs & Hfree).
    split; [|done].
    assert (arena_ok (MkArena p kBlockSize (blocks_ a') (memory_usage_ a')) cs) as Ha'.
    { split; simpl; try done.
      - right. rewrite Hbl. apply Exists_app. right. left. unfold inside. simpl. lia.
      - right. eapply Forall_impl; [exact Hcs|]. intros c. apply disjoint_range_sym. }
    pose proof (bump_ok _ cs 0 n Ha' ltac:(lia) Hn ltac:(simpl; unfold kBlockSize; lia)) as H'.
    simpl in H'. by rewrite !Z.add_0_r in H'.
Qed.

Lemma Allocate_ok (a : Arena) (cs : list range) (n : Z) :
  arena_ok a cs -> 0 < n ->
  let '(p, a') := Allocate new a n in arena_ok a' (cs ++ [(p, n)]).
Proof.
  intros Ha Hn. unfold Allocate. destruct (Z.leb_spec n (alloc_bytes_remaining_ a)).
  - pose proof (bump_ok a cs 0 n Ha ltac:(lia) Hn ltac:(lia)) as H'. by rewrite !Z.add_0_r in H'.
  - pose proof (AllocateFallback_ok a cs n Ha Hn) as H'.
    destruct (AllocateFallback new a n). apply H'.
Qed.

Lemma AllocateAligned_ok (a : Arena) (cs : list range) (n : Z) :
  arena_ok a cs -> 0 < n ->
  let '(p, a') := AllocateAligned new a n in arena_ok a' (cs ++ [(p, n)]) /\ p mod 8 = 0.
Proof.
  intros Ha Hn. unfold AllocateAligned. change (8 - 1) with (2 ^ 3 - 1).
  rewrite land_mask_mod by lia. change (2 ^ 3) with 8.
  set (m := alloc_ptr_ a mod 8). assert (0 <= m < 8) as Hm by (apply Z.mod_pos_bound; lia).
  set (slop := if m =? 0 then 0 else 8 - m).
  assert (0 <= slop /\ (alloc_ptr_ a + slop) mod 8 = 0) as [Hs H8].
  { pose proof (Z.div_mod (alloc_ptr_ a) 8 ltac:(lia)) as Hd. fold m in Hd.
    unfold slop. destruct (Z.eqb_spec m 0) as [E|E].
    - split; [lia|]. rewrite Z.add_0_r. done.
    - split; [lia|]. replace (alloc_ptr_ a + (8 - m)) with ((alloc_ptr_ a / 8 + 1) * 8) by lia.
      apply Z.mod_mul. lia. }
  clearbody slop. destruct (Z.leb_spec (n + slop) (alloc_bytes_remaining_ a)).
  - split; [|done]. by apply bump_ok.
  - by apply AllocateFallback_ok.
Qed.

Lemma run_ok (reqs : list (bool * Z)) (a : Arena) (cs : list range) :
  arena_ok a cs -> Forall (fun r => 0 < r.2) reqs ->
  let '(rs, a') := run new a reqs in
  arena_ok a' (cs ++ rs) /\
  Forall2 (fun r c => c.2 = r.2 /\ (r.1 = true -> c.1 mod 8 = 0)) reqs rs.
Proof.
  revert a cs. induction reqs as [|[al n] reqs IH]; intros a cs Ha Hreqs; cbn [run].
  { split; [by rewrite app_nil_r|constructor]. }
  inversion Hreqs as [|? ? Hn Hreqs']; subst. simpl in Hn.
  pose proof (AllocateAligned_ok a cs n Ha Hn) as H1. pose proof (Allocate_ok a cs n Ha Hn) as H2.
  destruct al.
  - destruct (AllocateAligned new a n) as [p a']. destruct H1 as [H1 H8].
    specialize (IH a' _ H1 Hreqs'). destruct (run new a' reqs) as [rs a''].
    rewrite <- app_assoc in IH. destruct IH. split; [done|]. by constructor.
  - destruct (Allocate new a n) as [p a']. specialize (IH a' _ H2 Hreqs').
    destruct (run new a' reqs) as [rs a'']. rewrite <- app_assoc in IH. destruct IH.
    split; [done|]. by constructor.
Qed.
End spec.

(** ** Properties *)


(** An allocator: the first multiple of 16 beyond all blocks. *)
Definition new_after (bs : list range) (n : Z) : Z :=
  16 * (1 + foldr (fun b m => Z.max (b.1 + b.2) m) 0 bs).

Lemma new_after_ok (bs : list range) (n : Z) :
  0 < n -> 0 < new_after bs n /\ new_after bs n mod 8 = 0 /\
  Forall (disjoint_range (new_after bs n, n)) bs.
Proof.
  intros Hn. unfold new_after. set (f := foldr _ 0). assert (forall l, 0 <= f l) as H0.
  { intros l. induction l; simpl; lia. }
  pose proof (H0 bs). split_and!; [lia| |].
  - replace (16 * (1 + f bs)) with ((2 * (1 + f bs)) * 8) by lia. apply Z.mod_mul. lia.
  - apply Forall_forall. intros b Hb. right. cbn [fst snd].
    enough (b.1 + b.2 <= f bs) by lia. clear -Hb. induction Hb; simpl; lia.
Qed.


End Arena.
