(* ===== verification/SkipList.v ===== *)
(** * Skip lists

    [db/skiplist.h]: the ordered list of a memtable.  Nodes live in a heap from
    addresses to nodes; 0 is the null pointer.  A link that no store has
    initialised yet is [None], and so is reading it, dereferencing null or
    indexing a node beyond its height.  The nodes are allocated by the arena
    of the memtable, seen here through the interface [Allocator].

    A list has one writer; the memory-order annotations, which let readers run
    beside it, are not modelled. *)

From S2P Require Import Prelude Random.

(** ** The allocator of the nodes *)

(** [AllocateAligned]: the address and the allocator after it. *)
Class Allocator (A : Type) := { allocate : A -> Z -> Z * A }.

(** No address is handed out twice, and null never; [inv a s] says that the
    addresses in [s] are in use. *)
Class AllocatorSpec (A : Type) {H : Allocator A} (inv : A -> gset Z -> Prop) := {
  allocate_fresh : forall a s n, inv a s -> 0 < n ->
    let '(p, a') := allocate a n in p <> 0 /\ p ∉ s /\ inv a' ({[p]} ∪ s) }.

(** ** Definitions *)

Record Node (Key : Type) := MkNode { nkey : option Key; next_ : list (option Z) }.
Arguments MkNode {Key} _ _.
Arguments nkey {Key} _.
Arguments next_ {Key} _.

Record SkipList (Key A : Type) := MkList {
  heap : gmap Z (Node Key);
  arena_ : A;
  head_ : Z;
  max_height_ : nat;
  rnd_ : Z }.
Arguments MkList {Key A} _ _ _ _ _.
Arguments heap {Key A} _.
Arguments arena_ {Key A} _.
Arguments head_ {Key A} _.
Arguments max_height_ {Key A} _.
Arguments rnd_ {Key A} _.

Definition kMaxHeight : nat := 12.

Section skiplist.
Context {Key A : Type} `{Allocator A} (compare_ : Key -> Key -> option Z).

Definition set_heap (l : SkipList Key A) (h : gmap Z (Node Key)) : SkipList Key A :=
  MkList h (arena_ l) (head_ l) (max_height_ l) (rnd_ l).

(** [Node::Next] and [Node::NoBarrier_Next]. *)
Definition Node_Next (l : SkipList Key A) (x : Z) (n : nat) : option Z :=
  node ← heap l !! x;
  mjoin (next_ node !! n).

(** [Node::SetNext] and [Node::NoBarrier_SetNext]. *)
Definition SetNext (l : SkipList Key A) (x : Z) (n : nat) (y : Z) : option (SkipList Key A) :=
  node ← heap l !! x;
  if (n <? length (next_ node))%nat
  then Some (set_heap l (<[x := MkNode (nkey node) (<[n := Some y]> (next_ node))]> (heap l)))
  else None.

Definition node_key (l : SkipList Key A) (x : Z) : option Key := node ← heap l !! x; nkey node.

(** A node of height [h] takes a key, one link and [h - 1] further links. *)
Definition NewNode (l : SkipList Key A) (key : option Key) (height : nat) : Z * SkipList Key A :=
  let '(p, a) := allocate (arena_ l) (16 + 8 * (Z.of_nat height - 1)) in
  (p, MkList (<[p := MkNode key (replicate height None)]> (heap l)) a
        (head_ l) (max_height_ l) (rnd_ l)).

(** The loop of [RandomHeight] with [n] levels to go. *)
Fixpoint RandomHeight_loop (n height : nat) (rnd : Z) : nat * Z :=
  match n with
  | O => (height, rnd)
  | S n =>
      let rnd := Rnd.Next rnd in
      if rnd mod 4 =? 0 then RandomHeight_loop n (S height) rnd else (height, rnd)
  end.

Definition RandomHeight (rnd : Z) : nat * Z := RandomHeight_loop (kMaxHeight - 1) 1 rnd.

Definition KeyIsAfterNode (l : SkipList Key A) (key : Key) (n : Z) : option bool :=
  if n =? 0 then Some false
  else
    k ← node_key l n;
    r ← compare_ k key;
    Some (r <? 0).

(** Every iteration moves on in the list or down one level. *)
Definition search_fuel (l : SkipList Key A) : nat := size (heap l) + kMaxHeight.

Fixpoint FindGreaterOrEqual_loop (fuel : nat) (l : SkipList Key A) (key : Key) (x : Z)
    (level : nat) (prev : option (list (option Z))) : option (Z * option (list (option Z))) :=
  match fuel with
  | O => None
  | S fuel =>
      next ← Node_Next l x level;
      after ← KeyIsAfterNode l key next;
      if after : bool then FindGreaterOrEqual_loop fuel l key next level prev
      else
        let prev := match prev with Some p => Some (<[level := Some x]> p) | None => None end in
        match level with
        | O => Some (next, prev)
        | S level => FindGreaterOrEqual_loop fuel l key x level prev
        end
  end.

Definition FindGreaterOrEqual (l : SkipList Key A) (key : Key) (prev : option (list (option Z)))
    : option (Z * option (list (option Z))) :=
  FindGreaterOrEqual_loop (search_fuel l) l key (head_ l) (max_height_ l - 1) prev.

Fixpoint FindLessThan_loop (fuel : nat) (l : SkipList Key A) (key : Key) (x : Z) (level : nat)
    : option Z :=
  match fuel with
  | O => None
  | S fuel =>
      next ← Node_Next l x level;
      stop ← if next =? 0 then Some true
             else k ← node_key l next; r ← compare_ k key; Some (0 <=? r);
      if stop : bool then
        match level with
        | O => Some x
        | S level => FindLessThan_loop fuel l key x level
        end
      else FindLessThan_loop fuel l key next level
  end.

Definition FindLessThan (l : SkipList Key A) (key : Key) : option Z :=
  FindLessThan_loop (search_fuel l) l key (head_ l) (max_height_ l - 1).

Fixpoint FindLast_loop (fuel : nat) (l : SkipList Key A) (x : Z) (level : nat) : option Z :=
  match fuel with
  | O => None
  | S fuel =>
      next ← Node_Next l x level;
      if next =? 0 then
        match level with
        | O => Some x
        | S level => FindLast_loop fuel l x level
        end
      else FindLast_loop fuel l next level
  end.

Definition FindLast (l : SkipList Key A) : option Z :=
  FindLast_loop (search_fuel l) l (head_ l) (max_height_ l - 1).

(** The loop of the constructor. *)
Fixpoint head_links (levels : list nat) (l : SkipList Key A) (p : Z) : option (SkipList Key A) :=
  match levels with
  | [] => Some l
  | i :: levels => l ← SetNext l p i 0; head_links levels l p
  end.

(** [SkipList::SkipList]; the key of [head_] is never read. *)
Definition SkipList_new (arena : A) : option (SkipList Key A) :=
  let '(p, a) := NewNode (MkList ∅ arena 0 1 (Rnd.Random_new 0xdeadbeef)) None kMaxHeight in
  head_links (seq 0 kMaxHeight) (MkList (heap a) (arena_ a) p (max_height_ a) (rnd_ a)) p.

(** The loop of [Insert] that links the new node [x], for the levels to go. *)
Fixpoint Insert_link (levels : list nat) (l : SkipList Key A) (x : Z) (prev : list (option Z))
    : option (SkipList Key A) :=
  match levels with
  | [] => Some l
  | i :: levels =>
      p ← mjoin (prev !! i);
      next ← Node_Next l p i;
      l ← SetNext l x i next;
      l ← SetNext l p i x;
      Insert_link levels l x prev
  end.

Definition Insert (l : SkipList Key A) (key : Key) : option (SkipList Key A) :=
  '(_, prev) ← FindGreaterOrEqual l key (Some (replicate kMaxHeight None));
  prev ← prev;
  let '(height, rnd) := RandomHeight (rnd_ l) in
  let '(prev, max_height) :=
    if (max_height_ l <? height)%nat
    then (fold_left (fun p i => <[i := Some (head_ l)]> p)
            (seq (max_height_ l) (height - max_height_ l)) prev, height)
    else (prev, max_height_ l) in
  let l := MkList (heap l) (arena_ l) (head_ l) max_height rnd in
  let '(x, l) := NewNode l (Some key) height in
  Insert_link (seq 0 height) l x prev.

Definition Contains (l : SkipList Key A) (key : Key) : option bool :=
  '(x, _) ← FindGreaterOrEqual l key None;
  if x =? 0 then Some false
  else
    k ← node_key l x;
    r ← compare_ key k;
    Some (r =? 0).

(** *** The iterator, which is its [node_] *)

Definition Iterator_new : Z := 0.
Definition Iterator_Valid (node_ : Z) : bool := negb (node_ =? 0).
Definition Iterator_key (l : SkipList Key A) (node_ : Z) : option Key := node_key l node_.
Definition Iterator_Next (l : SkipList Key A) (node_ : Z) : option Z := Node_Next l node_ 0.
Definition Iterator_Prev (l : SkipList Key A) (node_ : Z) : option Z :=
  k ← node_key l node_;
  n ← FindLessThan l k;
  Some (if n =? head_ l then 0 else n).
Definition Iterator_Seek (l : SkipList Key A) (target : Key) : option Z :=
  fst <$> FindGreaterOrEqual l target None.
Definition Iterator_SeekToFirst (l : SkipList Key A) : option Z := Node_Next l (head_ l) 0.
Definition Iterator_SeekToLast (l : SkipList Key A) : option Z :=
  n ← FindLast l;
  Some (if n =? head_ l then 0 else n).
End skiplist.
