(* ===== verification/SkipListSpec.v ===== *)
(** * Skip lists are sorted lists

    The invariant of a skip list, the searches with respect to it, and that
    insertion keeps it: whatever heights the generator draws, a skip list is
    the sorted list of the keys inserted into it. *)

From S2P Require Import Prelude Random SkipList.

(** ** Orders *)

(** The comparator of a list is a strict weak order on the keys it holds. *)
Class KeyOrder {Key : Type} (compare_ : Key -> Key -> option Z) (ok : Key -> Prop)
    (lt : Key -> Key -> Prop) := {
  key_cmp : forall a b, ok a -> ok b ->
    exists r, compare_ a b = Some r /\ (r < 0 <-> lt a b) /\ (0 < r <-> lt b a);
  key_irrefl : forall a, ok a -> ~ lt a a;
  key_trans : forall a b c, ok a -> ok b -> ok c -> lt a b -> lt b c -> lt a c;
  key_cotrans : forall a b c, ok a -> ok b -> ok c -> lt a c -> lt a b \/ lt b c }.

Section order.
Context {Key : Type} {compare_ : Key -> Key -> option Z} {ok : Key -> Prop} {lt : Key -> Key -> Prop}.
Context {HO : KeyOrder compare_ ok lt}.

Lemma lt_dec_ok (a b : Key) : ok a -> ok b -> lt a b \/ ~ lt a b.
Proof.
  intros Ha Hb. destruct (key_cmp a b Ha Hb) as (r & _ & Hr & _).
  destruct (Z.lt_ge_cases r 0); [left; tauto|right]. intros Hlt%Hr. lia.
Qed.

(** A sorted list splits at every key. *)
Lemma sorted_split (ks : list Key) (k : Key) :
  StronglySorted lt ks -> Forall ok ks -> ok k ->
  exists ka kb, ks = ka ++ kb /\ Forall (fun a => lt a k) ka /\ Forall (fun b => ~ lt b k) kb.
Proof.
  intros Hs Hok Hk. induction Hs as [|a ks Hs IH Ha].
  { exists [], []. by split_and!. }
  apply Forall_cons in Hok as [Hoka Hok]. destruct (lt_dec_ok a k Hoka Hk) as [Hlt|Hge].
  - destruct (IH Hok) as (ka & kb & -> & H1 & H2). exists (a :: ka), kb. split_and!; auto.
  - exists [], (a :: ks). split_and!; [done|done|]. constructor; [done|].
    apply Forall_forall. intros b Hb Hbk. rewrite Forall_forall in Ha, Hok.
    destruct Hge. apply (key_trans a b k); auto.
Qed.
End order.

(** ** Lists of addresses *)

(** The last element, or [x] when there is none. *)
Definition lastd {B} (x : B) (l : list B) : B := default x (last l).

Lemma lastd_snoc {B} (x y : B) (l : list B) : lastd x (l ++ [y]) = y.
Proof. unfold lastd. by rewrite last_snoc. Qed.

Lemma lastd_cons {B} (x y : B) (l : list B) : lastd x (y :: l) = lastd y l.
Proof. unfold lastd. rewrite last_cons. by destruct (last l). Qed.

Lemma lastd_cases {B} (x : B) (l : list B) : (l = [] /\ lastd x l = x) \/ lastd x l ∈ l.
Proof.
  destruct l as [|y l] using rev_ind; [by left|right]. rewrite lastd_snoc. set_solver.
Qed.

(** The first element that passes a filter. *)
Lemma filter_first {B} (P : B -> Prop) `{forall x, Decision (P x)} (l : list B) (y : B) (q : list B) :
  filter P l = y :: q -> exists c l', l = c ++ y :: l' /\ filter P c = [] /\ P y /\ filter P l' = q.
Proof.
  induction l as [|x l IH]; [done|]. rewrite filter_cons. case_decide as Hx.
  - intros [= -> <-]. by exists [], l.
  - intros (c & l' & -> & Hc & Hy & Hq)%IH. exists (x :: c), l'. split_and!; [done| |done|done].
    by rewrite filter_cons_False.
Qed.

Lemma filter_all {B} (P : B -> Prop) `{forall x, Decision (P x)} (l : list B) :
  Forall P l -> filter P l = l.
Proof. induction 1; [done|]. rewrite filter_cons_True by done. by f_equal. Qed.

Lemma filter_none {B} (P : B -> Prop) `{forall x, Decision (P x)} (l : list B) :
  Forall (fun x => ~ P x) l -> filter P l = [].
Proof. induction 1; [done|]. by rewrite filter_cons_False. Qed.

Section spec.
Context {Key A : Type} {AL : Allocator A} (compare_ : Key -> Key -> option Z).

Implicit Types l : SkipList Key A.

(** ** Heaps *)

(** What linking a node never changes: keys and heights. *)
Definition shape l : gmap Z (option Key * nat) :=
  (fun nd => (nkey nd, length (next_ nd))) <$> heap l.

Definition same l l' : Prop :=
  shape l' = shape l /\ head_ l' = head_ l /\ max_height_ l' = max_height_ l /\
  arena_ l' = arena_ l /\ rnd_ l' = rnd_ l.

Lemma same_refl l : same l l.
Proof. by repeat split. Qed.

Lemma same_trans l1 l2 l3 : same l1 l2 -> same l2 l3 -> same l1 l3.
Proof. intros (? & ? & ? & ? & ?) (? & ? & ? & ? & ?). repeat split; congruence. Qed.

Definition height l (a : Z) : nat := match shape l !! a with Some (_, n) => n | None => 0 end.

Lemma node_key_shape l (a : Z) : node_key l a = shape l !! a ≫= fst.
Proof. unfold node_key, shape. rewrite lookup_fmap. by destruct (heap l !! a). Qed.

Lemma height_heap l (a : Z) (nd : Node Key) : heap l !! a = Some nd -> height l a = length (next_ nd).
Proof. intros Ha. unfold height, shape. by rewrite lookup_fmap, Ha. Qed.

Lemma height_some l (a : Z) (n : nat) :
  (n < height l a)%nat -> exists nd, heap l !! a = Some nd /\ (n < length (next_ nd))%nat.
Proof.
  unfold height, shape. rewrite lookup_fmap. destruct (heap l !! a) as [nd|]; simpl; [eauto|lia].
Qed.

Lemma SetNext_ok l (x y : Z) (n : nat) :
  (n < height l x)%nat ->
  exists l', SetNext l x n y = Some l' /\ same l l' /\ Node_Next l' x n = Some y /\
    forall z m, (z <> x \/ m <> n) -> Node_Next l' z m = Node_Next l z m.
Proof.
  intros Hn. destruct (height_some l x n Hn) as (nd & Hx & Hlen). unfold SetNext.
  rewrite Hx. cbn [mbind option_bind]. rewrite (proj2 (Nat.ltb_lt _ _)) by done.
  eexists. split; [reflexivity|]. unfold Node_Next. cbn. split_and!.
  - unfold same, shape. cbn. rewrite fmap_insert. cbn. rewrite length_insert.
    split_and!; try done. apply insert_id. by rewrite lookup_fmap, Hx.
  - rewrite lookup_insert_eq. cbn. by rewrite list_lookup_insert_eq.
  - intros z m Hzm. destruct (decide (z = x)) as [->|Hz].
    + rewrite lookup_insert_eq, Hx. cbn. destruct Hzm as [|Hm]; [done|].
      by rewrite list_lookup_insert_ne.
    + by rewrite lookup_insert_ne.
Qed.

(** ** Chains *)

(** Following the links of level [i] from [x] visits [ys] and ends in null. *)
Fixpoint chain l (i : nat) (x : Z) (ys : list Z) : Prop :=
  match ys with
  | [] => Node_Next l x i = Some 0
  | y :: ys => Node_Next l x i = Some y /\ chain l i y ys
  end.

Lemma chain_hd l (i : nat) (x : Z) (ys : list Z) : chain l i x ys -> Node_Next l x i = Some (hd 0 ys).
Proof. destruct ys; simpl; [done|]. by intros [? _]. Qed.

Lemma chain_app l (i : nat) (x : Z) (ps rs : list Z) :
  chain l i x (ps ++ rs) -> chain l i (lastd x ps) rs.
Proof.
  revert x. induction ps as [|p ps IH]; intros x; simpl; [done|]. intros [_ Hc].
  rewrite lastd_cons. by apply IH.
Qed.

Lemma chain_ext l l' (i : nat) (x : Z) (ys : list Z) :
  (forall z, z ∈ x :: ys -> Node_Next l' z i = Node_Next l z i) -> chain l i x ys -> chain l' i x ys.
Proof.
  revert x. induction ys as [|y ys IH]; intros x Heq; simpl; rewrite (Heq x) by set_solver; [done|].
  intros [? ?]. split; [done|]. apply IH; [|done]. intros z Hz. apply Heq. set_solver.
Qed.

(** Splicing [p] behind the last of [ps]. *)
Lemma chain_insert l l2 (i : nat) (h p : Z) (ps rs : list Z) :
  chain l i h (ps ++ rs) -> NoDup (h :: ps ++ rs) -> p ∉ h :: ps ++ rs ->
  Node_Next l2 p i = Some (hd 0 rs) -> Node_Next l2 (lastd h ps) i = Some p ->
  (forall z, z <> lastd h ps -> z <> p -> Node_Next l2 z i = Node_Next l z i) ->
  chain l2 i h (ps ++ p :: rs).
Proof.
  intros Hc Hnd Hp Hpn Hq Ho. revert h Hc Hnd Hp Hq Ho.
  induction ps as [|y ps IH]; intros h Hc Hnd Hp Hq Ho; cbn [app chain].
  - split; [done|]. change (lastd h []) with h in *. destruct rs as [|r rs]; [done|].
    split; [done|]. destruct Hc as [_ Hc]. eapply chain_ext; [|exact Hc].
    intros z Hz. apply NoDup_cons in Hnd as [Hh _]. simpl in *. apply Ho; set_solver.
  - rewrite lastd_cons in Hq, Ho. destruct Hc as [Hy Hc]. apply NoDup_cons in Hnd as [Hh Hnd].
    split.
    + rewrite Ho, Hy; [done| |set_solver].
      destruct (lastd_cases y ps) as [[_ ->]|Hin]; set_solver.
    + apply IH; auto. set_solver.
Qed.

Lemma chain_splice l (i : nat) (h p : Z) (ps rs : list Z) :
  chain l i h (ps ++ rs) -> NoDup (h :: ps ++ rs) -> p ∉ h :: ps ++ rs ->
  (i < height l p)%nat -> (i < height l (lastd h ps))%nat ->
  exists l1 l2, Node_Next l (lastd h ps) i = Some (hd 0 rs) /\
    SetNext l p i (hd 0 rs) = Some l1 /\ SetNext l1 (lastd h ps) i p = Some l2 /\
    same l l2 /\ chain l2 i h (ps ++ p :: rs) /\
    (forall z m, m <> i -> Node_Next l2 z m = Node_Next l z m).
Proof.
  intros Hc Hnd Hp Hhp Hhq. pose proof (chain_hd _ _ _ _ (chain_app _ _ _ _ _ Hc)) as Hq.
  destruct (SetNext_ok l p (hd 0 rs) i Hhp) as (l1 & H1 & Hs1 & Hn1 & Ho1).
  assert (i < height l1 (lastd h ps))%nat as Hhq1.
  { unfold height in *. by rewrite (proj1 Hs1). }
  destruct (SetNext_ok l1 (lastd h ps) p i Hhq1) as (l2 & H2 & Hs2 & Hn2 & Ho2).
  assert (lastd h ps <> p) as Hqp.
  { destruct (lastd_cases h ps) as [[_ ->]|Hin]; set_solver. }
  exists l1, l2. split_and!; try done; [by eapply same_trans| |].
  - eapply chain_insert; try done.
    + rewrite Ho2, Hn1; auto.
    + intros z ? ?. rewrite Ho2, Ho1; auto.
  - intros z m Hm. rewrite Ho2, Ho1; auto.
Qed.

(** ** The searches *)

(** The nodes of level [i]. *)
Definition at_level l (i : nat) (ns : list Z) : list Z := filter (fun a => (i < height l a)%nat) ns.

Lemma at_level_app l (i : nat) (ns ms : list Z) :
  at_level l i (ns ++ ms) = at_level l i ns ++ at_level l i ms.
Proof. apply filter_app. Qed.

(** The invariant, for a list whose nodes are [ns] in order. *)
Record linked l (ns : list Z) : Prop := MkLinked {
  lk_head : height l (head_ l) = kMaxHeight;
  lk_nodup : NoDup (head_ l :: ns);
  lk_nonnull : 0 ∉ head_ l :: ns;
  lk_height : Forall (fun a => (1 <= height l a <= max_height_ l)%nat) ns;
  lk_max : (1 <= max_height_ l <= kMaxHeight)%nat;
  lk_chain : forall i, (i < kMaxHeight)%nat -> chain l i (head_ l) (at_level l i ns) }.

(** The loop the three searches share: [go] says whether to move on to a
    node. *)
Fixpoint descend (go : Z -> option bool) (fuel : nat) l (x : Z) (level : nat)
    (prev : list (option Z)) : option (Z * Z * list (option Z)) :=
  match fuel with
  | O => None
  | S fuel =>
      next ← Node_Next l x level;
      b ← go next;
      if b : bool then descend go fuel l next level prev
      else
        let prev := <[level := Some x]> prev in
        match level with
        | O => Some (x, next, prev)
        | S level => descend go fuel l x level prev
        end
  end.

Lemma at_level_0 l (ns ms : list Z) :
  linked l ns -> ms ⊆ ns -> at_level l 0 ms = ms.
Proof.
  intros Hl Hsub. unfold at_level. apply filter_all, Forall_forall. intros a Ha.
  pose proof (lk_height _ _ Hl) as Hh. rewrite Forall_forall in Hh. specialize (Hh a (Hsub a Ha)). lia.
Qed.

Section descend.
Context (l : SkipList Key A) (xs ys : list Z) (go : Z -> option bool).
Context (Hl : linked l (xs ++ ys)) (Hxs : Forall (fun a => go a = Some true) xs).
Context (Hys : Forall (fun b => go b = Some false) ys) (H0 : go 0 = Some false).

(** The node in front of the split, at level [i]. *)
Definition pred_at (i : nat) : Z := lastd (head_ l) (at_level l i xs).

Lemma go_hd (i : nat) : go (hd 0 (at_level l i ys)) = Some false.
Proof.
  destruct (at_level l i ys) as [|y q] eqn:E; [done|]. simpl.
  assert (y ∈ at_level l i ys) as Hy by (rewrite E; set_solver).
  apply list_elem_of_filter in Hy as [_ Hy]. rewrite Forall_forall in Hys. by apply Hys.
Qed.

(** [x] is the last node of [xs1], and has a link at [level]. *)
Lemma descend_ok (fuel level : nat) (xs1 xs2 : list Z) (prev : list (option Z)) :
  xs = xs1 ++ xs2 -> (xs1 = [] \/ (level < height l (lastd (head_ l) xs1))%nat) ->
  (level < kMaxHeight)%nat -> (level < length prev)%nat -> (length xs2 + level < fuel)%nat ->
  exists prev', descend go fuel l (lastd (head_ l) xs1) level prev
      = Some (lastd (head_ l) xs, hd 0 ys, prev') /\ length prev' = length prev /\
    (forall i, (i <= level)%nat -> prev' !! i = Some (Some (pred_at i))) /\
    (forall i, (level < i)%nat -> prev' !! i = prev !! i).
Proof.
  revert level xs1 xs2 prev. induction fuel as [|fuel IH]; intros level xs1 xs2 prev Hx Hh Hlv Hp Hf; [lia|].
  assert (lastd (head_ l) (at_level l level xs1) = lastd (head_ l) xs1) as Hlast.
  { destruct xs1 as [|a xs1 _] using rev_ind; [done|]. destruct Hh as [Hh|Hh]; [by destruct xs1|].
    rewrite lastd_snoc in Hh |- *. rewrite at_level_app. unfold at_level at 2.
    by rewrite filter_cons_True, filter_nil, lastd_snoc by done. }
  pose proof (lk_chain _ _ Hl level Hlv) as Hc. rewrite Hx, <- app_assoc, !at_level_app in Hc.
  apply chain_app in Hc. rewrite Hlast in Hc. cbn [descend].
  destruct (at_level l level xs2) as [|y q] eqn:Eq.
  - rewrite (chain_hd _ _ _ _ Hc). cbn [app mbind option_bind]. rewrite go_hd. cbn [mbind option_bind].
    assert (pred_at level = lastd (head_ l) xs1) as Hpr.
    { unfold pred_at. by rewrite Hx, at_level_app, Eq, app_nil_r. }
    destruct level as [|level].
    + eexists. split; [|split; [apply length_insert|split]].
      * rewrite (at_level_0 l (xs ++ ys) ys) by (done || set_solver). f_equal. f_equal. f_equal.
        rewrite <- Hpr. unfold pred_at. by rewrite (at_level_0 l (xs ++ ys)) by (done || set_solver).
      * intros i Hi. replace i with 0%nat by lia. rewrite Hpr. by apply list_lookup_insert_eq.
      * intros i Hi. rewrite list_lookup_insert_ne; [done|lia].
    + destruct (IH level xs1 xs2 (<[S level := Some (lastd (head_ l) xs1)]> prev) Hx) as
        (prev' & Hd & Hlen & Hle & Hgt); [destruct Hh; [by left|right; lia]|lia|rewrite length_insert; lia|lia|].
      exists prev'. rewrite length_insert in Hlen. split_and!; [done|done| |].
      * intros i Hi. destruct (decide (i = S level)) as [->|]; [|apply Hle; lia].
        rewrite Hgt, Hpr by lia. apply list_lookup_insert_eq. lia.
      * intros i Hi. rewrite Hgt by lia. apply list_lookup_insert_ne. lia.
  - apply filter_first in Eq as (c & xs2' & -> & Hcnil & Hy & _).
    destruct Hc as [Hn _]. rewrite Hn. cbn [mbind option_bind].
    assert (go y = Some true) as ->.
    { rewrite Forall_forall in Hxs. apply Hxs. rewrite Hx. set_solver. }
    cbn [mbind option_bind].
    destruct (IH level (xs1 ++ c ++ [y]) xs2' prev) as (prev' & Hd & Hr).
    + rewrite Hx, <- !app_assoc. done.
    + right. by rewrite app_assoc, lastd_snoc.
    + done.
    + done.
    + rewrite length_app in Hf. simpl in Hf. lia.
    + rewrite app_assoc, lastd_snoc in Hd. eauto.
Qed.

(** The search from the head with the fuel of the source's loops. *)
Lemma descend_top (prev : list (option Z)) :
  length prev = kMaxHeight -> (length (xs ++ ys) <= size (heap l))%nat ->
  exists prev', descend go (search_fuel l) l (head_ l) (max_height_ l - 1) prev
      = Some (lastd (head_ l) xs, hd 0 ys, prev') /\ length prev' = kMaxHeight /\
    (forall i, (i < max_height_ l)%nat -> prev' !! i = Some (Some (pred_at i))) /\
    (forall i, (max_height_ l <= i)%nat -> prev' !! i = prev !! i).
Proof.
  intros Hp Hs. pose proof (lk_max _ _ Hl) as Hm. rewrite length_app in Hs.
  destruct (descend_ok (search_fuel l) (max_height_ l - 1) [] xs prev) as (prev' & Hd & Hlen & Hle & Hgt);
    [done|by left|lia|lia|unfold search_fuel; lia|].
  exists prev'. split_and!; [done|congruence| |].
  - intros i Hi. apply Hle. lia.
  - intros i Hi. apply Hgt. lia.
Qed.
End descend.

(** The loops of the source are this loop. *)
Lemma FindGreaterOrEqual_descend (fuel : nat) l (key : Key) (x : Z) (level : nat) (p : list (option Z)) :
  FindGreaterOrEqual_loop compare_ fuel l key x level (Some p)
    = (fun '(_, n, p) => (n, Some p)) <$> descend (KeyIsAfterNode compare_ l key) fuel l x level p /\
  FindGreaterOrEqual_loop compare_ fuel l key x level None
    = (fun '(_, n, _) => (n, None)) <$> descend (KeyIsAfterNode compare_ l key) fuel l x level p.
Proof.
  revert x level p. induction fuel as [|fuel IH]; intros x level p; [done|].
  cbn [FindGreaterOrEqual_loop descend].
  destruct (Node_Next l x level) as [next|]; [|done]. cbn [mbind option_bind].
  destruct (KeyIsAfterNode compare_ l key next) as [[]|]; [apply IH| |done]. cbn [mbind option_bind].
  destruct level; [done|]. apply IH.
Qed.

Lemma FindLessThan_descend (fuel : nat) l (key : Key) (x : Z) (level : nat) (p : list (option Z)) :
  FindLessThan_loop compare_ fuel l key x level
  = (fun '(x, _, _) => x) <$> descend (KeyIsAfterNode compare_ l key) fuel l x level p.
Proof.
  revert x level p. induction fuel as [|fuel IH]; intros x level p; [done|].
  cbn [FindLessThan_loop descend].
  destruct (Node_Next l x level) as [next|]; [|done]. cbn [mbind option_bind].
  assert (KeyIsAfterNode compare_ l key next = if next =? 0 then Some false
    else k ← node_key l next; r ← compare_ k key; Some (r <? 0)) as -> by done.
  destruct (next =? 0); cbn [mbind option_bind].
  - destruct level; [done|]. apply IH.
  - destruct (node_key l next) as [k|]; [|done]. cbn [mbind option_bind].
    destruct (compare_ k key) as [r|]; [|done]. cbn [mbind option_bind]. rewrite Z.leb_antisym.
    destruct (r <? 0); cbn [negb]; [apply IH|]. destruct level; [done|]. apply IH.
Qed.

Lemma FindLast_descend (fuel : nat) l (x : Z) (level : nat) (p : list (option Z)) :
  FindLast_loop fuel l x level
  = (fun '(x, _, _) => x) <$> descend (fun n => Some (negb (n =? 0))) fuel l x level p.
Proof.
  revert x level p. induction fuel as [|fuel IH]; intros x level p; [done|].
  cbn [FindLast_loop descend].
  destruct (Node_Next l x level) as [next|]; [|done]. cbn [mbind option_bind].
  destruct (next =? 0); cbn [negb]; [|apply IH]. destruct level; [done|]. apply IH.
Qed.

(** ** The list a skip list represents *)

Context {ok : Key -> Prop} {lt : Key -> Key -> Prop} {HO : KeyOrder compare_ ok lt}.
Context {inv : A -> gset Z -> Prop} {HA : AllocatorSpec A inv}.

(** The nodes [ns] hold the keys [ks]. *)
Record sl_ok l (ns : list Z) (ks : list Key) : Prop := MkSlOk {
  so_linked : linked l ns;
  so_keys : Forall2 (fun a k => node_key l a = Some k) ns ks;
  so_ok : Forall ok ks;
  so_sorted : StronglySorted lt ks;
  so_inv : inv (arena_ l) (dom (heap l)) }.

Lemma height_dom l (a : Z) : (1 <= height l a)%nat -> a ∈ dom (heap l).
Proof.
  intros Ha. destruct (height_some l a 0) as (nd & Hnd & _); [lia|].
  apply elem_of_dom. by exists nd.
Qed.

Lemma linked_size l (ns : list Z) : linked l ns -> (length ns <= size (heap l))%nat.
Proof.
  intros Hl. pose proof (lk_nodup _ _ Hl) as Hn. apply NoDup_cons in Hn as [_ Hn].
  rewrite <- (size_list_to_set (C := gset Z) ns Hn), <- size_dom. apply subseteq_size.
  intros a Ha. apply elem_of_list_to_set in Ha. apply height_dom.
  pose proof (lk_height _ _ Hl) as Hh. rewrite Forall_forall in Hh. by apply Hh in Ha as [? _].
Qed.

Lemma key_after l (ns : list Z) (ks : list Key) (a : Z) (k key : Key) :
  sl_ok l ns ks -> a ∈ ns -> node_key l a = Some k -> ok k -> ok key ->
  exists b : bool, KeyIsAfterNode compare_ l key a = Some b /\ (b = true <-> lt k key).
Proof.
  intros Hl Ha Hk Hok Hkey. unfold KeyIsAfterNode.
  pose proof (lk_nonnull _ _ (so_linked _ _ _ Hl)) as H0.
  destruct (Z.eqb_spec a 0) as [->|_]; [set_solver|]. rewrite Hk. cbn [mbind option_bind].
  destruct (key_cmp k key Hok Hkey) as (r & -> & Hr & _). cbn [mbind option_bind].
  eexists. split; [done|]. rewrite Z.ltb_lt. done.
Qed.

(** The split of a list at a key: smaller keys, then the others. *)
Lemma split_at l (ns : list Z) (ks : list Key) (key : Key) :
  sl_ok l ns ks -> ok key ->
  exists xs ys ka kb, ns = xs ++ ys /\ ks = ka ++ kb /\
    Forall2 (fun a k => node_key l a = Some k) xs ka /\
    Forall2 (fun a k => node_key l a = Some k) ys kb /\
    Forall (fun a => lt a key) ka /\ Forall (fun b => ~ lt b key) kb /\
    Forall (fun a => KeyIsAfterNode compare_ l key a = Some true) xs /\
    Forall (fun a => KeyIsAfterNode compare_ l key a = Some false) ys.
Proof.
  intros Hl Hkey. destruct (sorted_split ks key (so_sorted _ _ _ Hl) (so_ok _ _ _ Hl) Hkey)
    as (ka & kb & -> & Ha & Hb). pose proof (so_keys _ _ _ Hl) as Hk.
  pose proof (so_ok _ _ _ Hl) as Hok. apply Forall_app in Hok as [Hoka Hokb].
  apply Forall2_app_inv_r in Hk as (xs & ys & Hxa & Hyb & ->).
  exists xs, ys, ka, kb. split_and!; try done.
  - apply Forall_forall. intros a Hin. apply list_elem_of_lookup in Hin as [i Hi].
    destruct (Forall2_lookup_l _ _ _ _ _ Hxa Hi) as (k & Hki & Hk).
    pose proof (Forall_lookup_1 _ _ _ _ Ha Hki). pose proof (Forall_lookup_1 _ _ _ _ Hoka Hki).
    apply list_elem_of_lookup_2 in Hi.
    destruct (key_after l _ _ a k key Hl) as (b & -> & Hb'); [set_solver|done|done|done|].
    f_equal. tauto.
  - apply Forall_forall. intros a Hin. apply list_elem_of_lookup in Hin as [i Hi].
    destruct (Forall2_lookup_l _ _ _ _ _ Hyb Hi) as (k & Hki & Hk).
    pose proof (Forall_lookup_1 _ _ _ _ Hb Hki). pose proof (Forall_lookup_1 _ _ _ _ Hokb Hki).
    apply list_elem_of_lookup_2 in Hi.
    destruct (key_after l _ _ a k key Hl) as (b & -> & Hb'); [set_solver|done|done|done|].
    f_equal. cbv beta in *. destruct b; [exfalso; tauto|done].
Qed.

Lemma FindGreaterOrEqual_ok l (ns : list Z) (ks : list Key) (key : Key) (xs ys : list Z) :
  sl_ok l ns ks -> ns = xs ++ ys ->
  Forall (fun a => KeyIsAfterNode compare_ l key a = Some true) xs ->
  Forall (fun a => KeyIsAfterNode compare_ l key a = Some false) ys ->
  FindGreaterOrEqual compare_ l key None = Some (hd 0 ys, None) /\
  FindLessThan compare_ l key = Some (lastd (head_ l) xs) /\
  exists prev, FindGreaterOrEqual compare_ l key (Some (replicate kMaxHeight None))
      = Some (hd 0 ys, Some prev) /\ length prev = kMaxHeight /\
    forall i, (i < max_height_ l)%nat -> prev !! i = Some (Some (pred_at l xs i)).
Proof.
  intros Hl -> Hxs Hys. pose proof (so_linked _ _ _ Hl) as Hk.
  destruct (descend_top l xs ys (KeyIsAfterNode compare_ l key) Hk Hxs Hys eq_refl
    (replicate kMaxHeight None)) as (prev & Hd & Hlen & Hpr & _).
  { apply length_replicate. }
  { by apply linked_size. }
  unfold FindGreaterOrEqual, FindLessThan.
  rewrite (FindLessThan_descend _ _ _ _ _ (replicate kMaxHeight None)).
  destruct (FindGreaterOrEqual_descend (search_fuel l) l key (head_ l) (max_height_ l - 1)
    (replicate kMaxHeight None)) as [-> ->].
  rewrite Hd. cbn. split_and!; [done|done|]. by exists prev.
Qed.

Lemma FindLast_ok l (ns : list Z) (ks : list Key) :
  sl_ok l ns ks -> FindLast l = Some (lastd (head_ l) ns).
Proof.
  intros Hl. pose proof (so_linked _ _ _ Hl) as Hk.
  destruct (descend_top l ns [] (fun n => Some (negb (n =? 0)))) with (prev := replicate kMaxHeight (@None Z))
    as (prev & Hd & _).
  - by rewrite app_nil_r.
  - pose proof (lk_nonnull _ _ Hk) as H0. apply Forall_forall. intros a Ha.
    destruct (Z.eqb_spec a 0); [set_solver|done].
  - done.
  - done.
  - apply length_replicate.
  - rewrite app_nil_r. by apply linked_size.
  - unfold FindLast. rewrite (FindLast_descend _ _ _ _ (replicate kMaxHeight None)), Hd. done.
Qed.

(** ** Insertion *)

Lemma RandomHeight_range (rnd : Z) : (1 <= (RandomHeight rnd).1 <= kMaxHeight)%nat.
Proof.
  assert (forall n h r, h <= (RandomHeight_loop n h r).1 <= h + n)%nat as Hg.
  { induction n as [|n IH]; intros h r; cbn [RandomHeight_loop]; [simpl; lia|].
    destruct (_ =? 0); [|simpl; lia]. specialize (IH (S h) (Rnd.Next r)). lia. }
  specialize (Hg (kMaxHeight - 1)%nat 1%nat rnd). unfold RandomHeight, kMaxHeight in *. lia.
Qed.

(** The head at the levels that the list did not have before. *)
Lemma fill_prev (prev : list (option Z)) (h : Z) (m n i : nat) :
  (m + n <= length prev)%nat ->
  fold_left (fun p i => <[i := Some h]> p) (seq m n) prev !! i
  = if decide (m <= i < m + n)%nat then Some (Some h) else prev !! i.
Proof.
  revert m prev. induction n as [|n IH]; intros m prev Hlen; cbn [seq fold_left].
  { case_decide; [lia|done]. }
  rewrite IH by (rewrite length_insert; lia). repeat case_decide; try lia; [done| |].
  - replace i with m by lia. apply list_lookup_insert_eq. lia.
  - apply list_lookup_insert_ne. lia.
Qed.

Lemma at_level_shape l l' (i : nat) (ns : list Z) : shape l' = shape l -> at_level l' i ns = at_level l i ns.
Proof. intros Hs. unfold at_level, height. by rewrite Hs. Qed.

(** Linking the new node [p] level by level. *)
Lemma Insert_link_ok (levels : list nat) l (p : Z) (xs ys : list Z) (prev : list (option Z)) :
  NoDup levels -> NoDup (head_ l :: xs ++ ys) -> p ∉ head_ l :: xs ++ ys ->
  height l (head_ l) = kMaxHeight ->
  Forall (fun i => (i < kMaxHeight)%nat /\ (i < height l p)%nat /\
    prev !! i = Some (Some (pred_at l xs i)) /\ chain l i (head_ l) (at_level l i (xs ++ ys))) levels ->
  exists l', Insert_link levels l p prev = Some l' /\ same l l' /\
    (forall i, i ∈ levels -> chain l' i (head_ l) (at_level l i (xs ++ p :: ys))) /\
    (forall i z, i ∉ levels -> Node_Next l' z i = Node_Next l z i).
Proof.
  intros Hnd. revert l. induction Hnd as [|i levels Hi Hnd IH]; intros l Hns Hp Hh Hall.
  { exists l. split_and!; [done|apply same_refl|set_solver|done]. }
  apply Forall_cons in Hall as [(Hi12 & Hip & Hpr & Hc) Hall]. rewrite at_level_app in Hc.
  assert (NoDup (head_ l :: at_level l i xs ++ at_level l i ys)) as Hnf.
  { apply NoDup_cons in Hns as [Hh1 Hns]. rewrite <- at_level_app. apply NoDup_cons.
    split; [unfold at_level; rewrite list_elem_of_filter; tauto|by apply NoDup_filter]. }
  assert (p ∉ head_ l :: at_level l i xs ++ at_level l i ys) as Hpf.
  { rewrite <- at_level_app, elem_of_cons. unfold at_level. rewrite list_elem_of_filter. set_solver. }
  assert (i < height l (pred_at l xs i))%nat as Hhq.
  { unfold pred_at. destruct (lastd_cases (head_ l) (at_level l i xs)) as [[_ ->]|Hin]; [lia|].
    by apply list_elem_of_filter in Hin as [? _]. }
  destruct (chain_splice l i (head_ l) p (at_level l i xs) (at_level l i ys) Hc Hnf Hpf Hip Hhq)
    as (l1 & l2 & Hn & H1 & H2 & Hs & Hc2 & Ho).
  destruct Hs as (Hsh & Hhd & Hmx & Har & Hrn).
  destruct (IH l2) as (l' & Hl' & Hs' & Hc' & Ho').
  - by rewrite Hhd.
  - by rewrite Hhd.
  - unfold height. rewrite Hhd, Hsh. done.
  - rewrite Forall_forall in Hall |- *. intros j Hj.
    destruct (Hall j Hj) as (Hj12 & Hjp & Hjpr & Hjc). unfold pred_at, height in *. rewrite Hhd, Hsh.
    rewrite !(at_level_shape l l2) by done. split_and!; try done.
    eapply chain_ext; [|exact Hjc]. intros z _. apply Ho. set_solver.
  - exists l'. cbn [Insert_link]. rewrite Hpr. cbn [mjoin option_join mbind option_bind].
    unfold pred_at. rewrite Hn. cbn [mbind option_bind]. rewrite H1. cbn [mbind option_bind].
    rewrite H2. cbn [mbind option_bind]. split_and!; [done| | |].
    + eapply same_trans; [|exact Hs']. by repeat split.
    + intros j [->|Hj]%elem_of_cons.
      * assert (at_level l i (xs ++ p :: ys) = at_level l i xs ++ p :: at_level l i ys) as ->.
        { rewrite at_level_app. unfold at_level at 2. by rewrite filter_cons_True. }
        eapply chain_ext; [|exact Hc2]. intros z _. by apply Ho'.
      * rewrite <- Hhd, <- (at_level_shape l l2) by done. by apply Hc'.
    + intros j z Hj. rewrite Ho', Ho by set_solver. done.
Qed.

(** A new node [p] beside the nodes of [l]; the maximal height and the seed
    may change. *)
Record extends l l1 (p : Z) (key : Key) (h : nat) : Prop := MkExtends {
  ex_shape : shape l1 = <[p := (Some key, h)]> (shape l);
  ex_head : head_ l1 = head_ l;
  ex_next : forall z i, z <> p -> Node_Next l1 z i = Node_Next l z i }.

Lemma extends_height l l1 (p a : Z) (key : Key) (h : nat) :
  extends l l1 p key h -> a <> p -> height l1 a = height l a.
Proof. intros He Ha. unfold height. by rewrite (ex_shape _ _ _ _ _ He), lookup_insert_ne. Qed.

Lemma extends_at_level l l1 (p : Z) (key : Key) (h i : nat) (ns : list Z) :
  extends l l1 p key h -> p ∉ ns -> at_level l1 i ns = at_level l i ns.
Proof.
  intros He Hp. unfold at_level. induction ns as [|a ns IH]; [done|].
  rewrite !filter_cons, (extends_height l l1 p a key h), IH by set_solver. done.
Qed.

Lemma NewNode_ok l (key : Key) (h max : nat) (rnd : Z) :
  inv (arena_ l) (dom (heap l)) -> (1 <= h)%nat ->
  exists p l1, NewNode (MkList (heap l) (arena_ l) (head_ l) max rnd) (Some key) h = (p, l1) /\
    extends l l1 p key h /\ p <> 0 /\ (p ∉ dom (heap l)) /\ inv (arena_ l1) (dom (heap l1)) /\
    max_height_ l1 = max /\ height l1 p = h.
Proof.
  intros Hi Hh. unfold NewNode. cbn.
  pose proof (allocate_fresh (arena_ l) _ (16 + 8 * (Z.of_nat h - 1)) Hi ltac:(lia)) as Hf.
  destruct (allocate (arena_ l) (16 + 8 * (Z.of_nat h - 1))) as [p a]. destruct Hf as (H0 & Hp & Hi').
  eexists _, _. split; [reflexivity|]. unfold height, shape. cbn.
  assert (extends l (MkList (<[p := MkNode (Some key) (replicate h None)]> (heap l)) a (head_ l) max rnd)
    p key h) as He.
  { split; [unfold shape; cbn; rewrite fmap_insert; cbn; by rewrite length_replicate|done|].
    intros z i Hz. unfold Node_Next. cbn. by rewrite lookup_insert_ne. }
  split_and!; try done.
  - by rewrite dom_insert_L.
  - rewrite fmap_insert, lookup_insert_eq. cbn. apply length_replicate.
Qed.

Lemma keys_ext l l' (ns : list Z) (ks : list Key) :
  (forall a, a ∈ ns -> node_key l' a = node_key l a) ->
  Forall2 (fun a k => node_key l a = Some k) ns ks -> Forall2 (fun a k => node_key l' a = Some k) ns ks.
Proof.
  intros He H. induction H as [|a k ns ks Hk H IH]; constructor.
  - rewrite He by set_solver. done.
  - apply IH. intros b Hb. apply He. set_solver.
Qed.

(** The links of [l1] after the levels of [p] were spliced in. *)
Lemma linked_insert l l1 l' (p : Z) (key : Key) (h : nat) (xs ys : list Z) :
  linked l (xs ++ ys) -> extends l l1 p key h -> same l1 l' -> p <> 0 -> p ∉ head_ l :: xs ++ ys ->
  (1 <= h <= kMaxHeight)%nat -> max_height_ l1 = Nat.max (max_height_ l) h ->
  (forall i, i ∈ seq 0 h -> chain l' i (head_ l1) (at_level l1 i (xs ++ p :: ys))) ->
  (forall i z, i ∉ seq 0 h -> Node_Next l' z i = Node_Next l1 z i) ->
  linked l' (xs ++ p :: ys).
Proof.
  intros [Hhd Hnd Hnn Hh Hmx Hc] He (Hsh & Hhd' & Hmx' & _) H0 Hp Hh12 Hmax Hin Hout.
  pose proof (ex_head _ _ _ _ _ He) as Hhe.
  assert (forall a, a <> p -> height l' a = height l a) as Hha.
  { intros a Ha. unfold height at 1. rewrite Hsh. by apply (extends_height l l1 p a key h). }
  assert (height l' p = h) as Hhp.
  { unfold height. by rewrite Hsh, (ex_shape _ _ _ _ _ He), lookup_insert_eq. }
  assert (xs ++ p :: ys ≡ₚ p :: xs ++ ys) as Hperm by (symmetry; apply Permutation_middle).
  split.
  - rewrite Hhd', Hhe, Hha by set_solver. done.
  - rewrite Hhd', Hhe, Hperm. apply NoDup_cons in Hnd as [? ?]. apply NoDup_cons. split; [set_solver|].
    apply NoDup_cons. split; [set_solver|done].
  - rewrite Hhd', Hhe, Hperm. set_solver.
  - rewrite Hperm, Hmx', Hmax. constructor; [rewrite Hhp; lia|].
    rewrite Forall_forall in Hh |- *. intros a Ha. rewrite Hha by set_solver. specialize (Hh a Ha). lia.
  - rewrite Hmx', Hmax. lia.
  - intros i Hi. rewrite Hhd', (at_level_shape l1 l') by done. destruct (decide (i ∈ seq 0 h)) as [Hs|Hs].
    { by apply Hin. }
    rewrite at_level_app. unfold at_level at 2. rewrite filter_cons_False.
    2:{ unfold height. rewrite (ex_shape _ _ _ _ _ He), lookup_insert_eq.
        rewrite elem_of_seq in Hs. lia. }
    fold (at_level l1 i ys). rewrite <- at_level_app, (extends_at_level l l1 p key h), Hhe by set_solver.
    eapply chain_ext; [|by apply Hc]. intros z Hz. rewrite Hout by done.
    apply (ex_next _ _ _ _ _ He). apply elem_of_cons in Hz as [->|Hz]; [set_solver|].
    apply list_elem_of_filter in Hz as [_ Hz]. set_solver.
Qed.

Lemma pred_high l (xs ys : list Z) (i : nat) :
  linked l (xs ++ ys) -> (max_height_ l <= i)%nat -> pred_at l xs i = head_ l.
Proof.
  intros Hl Hi. unfold pred_at, at_level. rewrite filter_none; [done|].
  pose proof (lk_height _ _ Hl) as Hh. apply Forall_app in Hh as [Hh _].
  eapply Forall_impl; [exact Hh|]. intros a Ha. simpl in Ha. lia.
Qed.

(** The array of predecessors once the new levels are filled in. *)
Lemma prev_filled l (xs ys : list Z) (prev : list (option Z)) (h i : nat) :
  linked l (xs ++ ys) -> length prev = kMaxHeight -> (h <= kMaxHeight)%nat -> (i < h)%nat ->
  (forall i, (i < max_height_ l)%nat -> prev !! i = Some (Some (pred_at l xs i))) ->
  (if (max_height_ l <? h)%nat
   then fold_left (fun p i => <[i := Some (head_ l)]> p) (seq (max_height_ l) (h - max_height_ l)) prev
   else prev) !! i = Some (Some (pred_at l xs i)).
Proof.
  intros Hl Hlen Hh Hi Hpr. destruct (Nat.ltb_spec (max_height_ l) h); [|apply Hpr; lia].
  rewrite fill_prev by lia. case_decide; [|apply Hpr; lia].
  rewrite (pred_high l xs ys) by (done || lia). done.
Qed.

Lemma SkipList_Insert_ok l (ns : list Z) (ks : list Key) (key : Key) :
  sl_ok l ns ks -> ok key -> Forall (fun k => lt k key \/ lt key k) ks ->
  exists l' ns' ks', Insert compare_ l key = Some l' /\ sl_ok l' ns' ks' /\ ks' ≡ₚ key :: ks.
Proof.
  intros Hl Hkey Hne.
  destruct (split_at l ns ks key Hl Hkey) as (xs & ys & ka & kb & -> & -> & Hxa & Hyb & Ha & Hb & Hgx & Hgy).
  destruct (FindGreaterOrEqual_ok l _ _ key xs ys Hl eq_refl Hgx Hgy) as (_ & _ & prev & Hf & Hlen & Hpr).
  pose proof (so_linked _ _ _ Hl) as Hk. unfold Insert. rewrite Hf. cbn [mbind option_bind].
  pose proof (RandomHeight_range (rnd_ l)) as Hh. destruct (RandomHeight (rnd_ l)) as [h rnd]. cbn in Hh.
  pose proof (fun i Hi => prev_filled l xs ys prev h i Hk Hlen (proj2 Hh) Hi Hpr) as Hpf.
  set (prev' := if (max_height_ l <? h)%nat then fold_left (fun p i => <[i := Some (head_ l)]> p)
    (seq (max_height_ l) (h - max_height_ l)) prev else prev) in *.
  assert ((if (max_height_ l <? h)%nat then (fold_left (fun p i => <[i := Some (head_ l)]> p)
      (seq (max_height_ l) (h - max_height_ l)) prev, h) else (prev, max_height_ l))
    = (prev', Nat.max (max_height_ l) h)) as ->.
  { unfold prev'. destruct (Nat.ltb_spec (max_height_ l) h); f_equal; lia. }
  destruct (NewNode_ok l key h (Nat.max (max_height_ l) h) rnd (so_inv _ _ _ Hl) (proj1 Hh))
    as (p & l1 & Hnew & He & H0 & Hp & Hi1 & Hm1 & Hhp).
  rewrite Hnew. assert (p ∉ head_ l :: xs ++ ys) as Hpn.
  { intros Hin. apply Hp, height_dom. apply elem_of_cons in Hin as [->|Hin].
    - rewrite (lk_head _ _ Hk). unfold kMaxHeight. lia.
    - pose proof (lk_height _ _ Hk) as Hhh. rewrite Forall_forall in Hhh. by apply Hhh in Hin as [? _]. }
  pose proof (ex_head _ _ _ _ _ He) as Hhe. pose proof (lk_nodup _ _ Hk) as Hnd.
  destruct (Insert_link_ok (seq 0 h) l1 p xs ys prev') as (l' & Hl' & Hs & Hin & Hout).
  - apply NoDup_seq.
  - by rewrite Hhe.
  - by rewrite Hhe.
  - rewrite Hhe, (extends_height l l1 p _ key h), (lk_head _ _ Hk) by set_solver. done.
  - apply Forall_forall. intros i Hi%elem_of_seq. unfold pred_at.
    rewrite !(extends_at_level l l1 p key h), Hhe by set_solver. split_and!; [lia|lia|apply Hpf; lia|].
    eapply chain_ext; [|apply (lk_chain _ _ Hk); lia]. intros z Hz. apply (ex_next _ _ _ _ _ He).
    apply elem_of_cons in Hz as [->|Hz]; [set_solver|]. apply list_elem_of_filter in Hz as [_ Hz]. set_solver.
  - exists l', (xs ++ p :: ys), (ka ++ key :: kb). split_and!; [done| |symmetry; apply Permutation_middle].
    pose proof (linked_insert l l1 l' p key h xs ys Hk He Hs H0 Hpn Hh Hm1 Hin Hout) as Hk'.
    destruct Hs as (Hsh & _ & _ & Har & _).
    assert (forall a, a ∈ xs ++ ys -> node_key l' a = node_key l a) as Hke.
    { intros a Hin'. rewrite !node_key_shape, Hsh, (ex_shape _ _ _ _ _ He), lookup_insert_ne by set_solver. done. }
    pose proof (so_ok _ _ _ Hl) as Hok. apply Forall_app in Hok as [Hoka Hokb].
    apply Forall_app in Hne as [_ Hne]. split; [done| | | |].
    + apply Forall2_app; [eapply keys_ext; [|exact Hxa]; set_solver|]. constructor.
      * by rewrite node_key_shape, Hsh, (ex_shape _ _ _ _ _ He), lookup_insert_eq.
      * eapply keys_ext; [|exact Hyb]. set_solver.
    + apply Forall_app. by split; [|constructor].
    + apply sorted_insert; [apply (so_sorted _ _ _ Hl)|done|].
      rewrite Forall_forall in Hne, Hb |- *. intros k Hk''. destruct (Hne k Hk''); [|done]. by destruct (Hb k Hk'').
    + rewrite Har. assert (dom (heap l') = dom (heap l1)) as ->; [|done].
      rewrite <- (dom_fmap_L (fun nd => (nkey nd, length (next_ nd))) (heap l')).
      rewrite <- (dom_fmap_L (fun nd => (nkey nd, length (next_ nd))) (heap l1)). f_equal. exact Hsh.
Qed.

Lemma SkipList_new_ok (arena : A) :
  inv arena ∅ -> exists l, SkipList_new arena = Some l /\ sl_ok l [] [].
Proof.
  intros Hi. unfold SkipList_new, NewNode. cbn [arena_ heap max_height_ rnd_].
  pose proof (allocate_fresh arena ∅ (16 + 8 * (Z.of_nat kMaxHeight - 1)) Hi ltac:(done)) as Hf.
  destruct (allocate arena (16 + 8 * (Z.of_nat kMaxHeight - 1))) as [p a]. destruct Hf as (H0 & _ & Hi').
  set (l0 := MkList (<[p := MkNode None (replicate kMaxHeight None)]> ∅) a p 1
    (Rnd.Random_new 0xdeadbeef) : SkipList Key A).
  assert (forall levels l, Forall (fun i => (i < kMaxHeight)%nat) levels -> height l p = kMaxHeight ->
    exists l', head_links levels l p = Some l' /\ same l l' /\
      (forall i, i ∈ levels -> Node_Next l' p i = Some 0) /\
      (forall i, i ∉ levels -> Node_Next l' p i = Node_Next l p i)) as Hlinks.
  { induction levels as [|i levels IH]; intros l Hall Hp.
    - exists l. split_and!; [done|apply same_refl|set_solver|done].
    - apply Forall_cons in Hall as [Hi12 Hall].
      destruct (SetNext_ok l p 0 i) as (l1 & H1 & Hs1 & Hn1 & Ho1); [lia|].
      destruct (IH l1 Hall) as (l' & Hl' & Hs' & Hin & Hout).
      { unfold height. by rewrite (proj1 Hs1). }
      exists l'. cbn [head_links]. rewrite H1. cbn [mbind option_bind].
      split_and!; [done|by eapply same_trans| |].
      + intros j Hj. destruct (decide (j ∈ levels)); [by apply Hin|].
        rewrite Hout by done. apply elem_of_cons in Hj as [->|]; done.
      + intros j Hj. rewrite Hout, Ho1 by set_solver. done. }
  destruct (Hlinks (seq 0 kMaxHeight) l0) as (l & Hl & (Hsh & Hhd & Hmx & Har & _) & Hin & _).
  - apply Forall_forall. intros i Hi2%elem_of_seq. lia.
  - unfold height, shape, l0. cbn [heap]. by rewrite fmap_insert, lookup_insert_eq.
  - exists l. split; [done|]. split; try constructor.
    + unfold height. rewrite Hhd, Hsh. unfold shape, l0. cbn [heap head_]. by rewrite fmap_insert, lookup_insert_eq.
    + apply NoDup_singleton.
    + rewrite Hhd. set_solver.
    + constructor.
    + rewrite Hmx. unfold kMaxHeight. simpl. lia.
    + intros i Hi2. rewrite Hhd. apply Hin, elem_of_seq. lia.
    + rewrite Har. assert (dom (heap l) = {[p]} ∪ ∅) as ->; [|done].
      rewrite <- (dom_fmap_L (fun nd => (nkey nd, length (next_ nd))) (heap l)).
      change (dom (shape l) = {[p]} ∪ ∅). rewrite Hsh. unfold shape, l0. cbn [heap].
      by rewrite fmap_insert, dom_insert_L.
Qed.

(** ** The iterator *)

(** What a reader sees of a list with the keys [ks], whose [i]-th node is
    [node i]. *)
Record view l (ks : list Key) (node : nat -> Z) : Prop := MkView {
  vw_null : forall i, node i = 0 <-> (length ks <= i)%nat;
  vw_key : forall i k, ks !! i = Some k -> Iterator_key l (node i) = Some k;
  vw_first : Iterator_SeekToFirst l = Some (node 0%nat);
  vw_last : Iterator_SeekToLast l
    = Some (match length ks with O => 0 | S j => node j end);
  vw_next : forall i, (i < length ks)%nat -> Iterator_Next l (node i) = Some (node (S i));
  vw_prev : forall i, (i < length ks)%nat ->
    Iterator_Prev compare_ l (node i) = Some (match i with O => 0 | S j => node j end);
  vw_seek : forall target, ok target -> exists i, (i <= length ks)%nat /\
    Iterator_Seek compare_ l target = Some (node i) /\
    Forall (fun k => lt k target) (take i ks) /\ Forall (fun k => ~ lt k target) (drop i ks);
  vw_contains : forall key, ok key -> exists b : bool, Contains compare_ l key = Some b /\
    (b = true <-> Exists (fun k => ~ lt k key /\ ~ lt key k) ks) }.

Definition node_of (ns : list Z) (i : nat) : Z := default 0 (ns !! i).

Lemma hd_node_of (xs ys : list Z) : hd 0 ys = node_of (xs ++ ys) (length xs).
Proof.
  unfold node_of. rewrite lookup_app_r, Nat.sub_diag by lia. by destruct ys.
Qed.

Lemma lastd_node_of (h : Z) (xs ys : list Z) :
  h ∉ xs -> (if lastd h xs =? h then 0 else lastd h xs)
  = match length xs with O => 0 | S j => node_of (xs ++ ys) j end.
Proof.
  destruct xs as [|x xs _] using rev_ind; intros Hh; [by rewrite Z.eqb_refl|].
  rewrite lastd_snoc. destruct (Z.eqb_spec x h) as [->|_]; [set_solver|].
  rewrite length_app, Nat.add_1_r. cbn. unfold node_of. rewrite <- app_assoc. cbn.
  by rewrite list_lookup_middle.
Qed.

(** The split at a key of the list is at its index. *)
Lemma split_index (ka kb : list Key) (k : Key) (i : nat) :
  StronglySorted lt (ka ++ kb) -> Forall ok (ka ++ kb) -> (ka ++ kb) !! i = Some k ->
  Forall (fun a => lt a k) ka -> Forall (fun b => ~ lt b k) kb -> length ka = i.
Proof.
  intros Hs Hok Hi Ha Hb. pose proof (Forall_lookup_1 _ _ _ _ Hok Hi) as Hk.
  destruct (Nat.lt_trichotomy i (length ka)) as [Hlt|[->|Hgt]]; [|done|].
  - rewrite lookup_app_l in Hi by done. pose proof (Forall_lookup_1 _ _ _ _ Ha Hi) as Hkk.
    by destruct (key_irrefl k Hk).
  - rewrite lookup_app_r in Hi by lia. destruct kb as [|b kb]; [done|].
    apply sorted_app_inv in Hs as (_ & Hs & _). inversion Hs as [|? ? _ Hbk]; subst.
    destruct (i - length ka)%nat as [|j] eqn:E; [lia|]. simpl in Hi.
    pose proof (Forall_lookup_1 _ _ _ _ Hbk Hi). apply Forall_cons in Hb as [Hb _]. done.
Qed.

Lemma view_next l (ns : list Z) (i : nat) :
  linked l ns -> (i < length ns)%nat -> Node_Next l (node_of ns i) 0 = Some (node_of ns (S i)).
Proof.
  intros Hl Hi. pose proof (lk_chain _ _ Hl 0%nat (Nat.lt_0_succ 11)) as Hc.
  rewrite (at_level_0 l ns ns) in Hc by done.
  destruct (lookup_lt_is_Some_2 ns i Hi) as [a Ha].
  rewrite <- (take_drop_middle ns i a Ha) in Hc.
  change (take i ns ++ a :: drop (S i) ns) with (take i ns ++ [a] ++ drop (S i) ns) in Hc.
  rewrite app_assoc in Hc. apply chain_app in Hc. rewrite lastd_snoc in Hc.
  apply chain_hd in Hc. unfold node_of at 1. rewrite Ha. simpl. rewrite Hc. f_equal.
  unfold node_of. assert (ns !! S i = drop (S i) ns !! 0%nat) as -> by (rewrite lookup_drop; f_equal; lia).
  by destruct (drop (S i) ns).
Qed.

Lemma node_of_key l (ns : list Z) (ks : list Key) (i : nat) (k : Key) :
  sl_ok l ns ks -> ks !! i = Some k -> node_key l (node_of ns i) = Some k.
Proof.
  intros Hl Hi. destruct (Forall2_lookup_r _ _ _ _ _ (so_keys _ _ _ Hl) Hi) as (a & Ha & Hak).
  unfold node_of. by rewrite Ha.
Qed.

Lemma sl_prev l (ns : list Z) (ks : list Key) (i : nat) :
  sl_ok l ns ks -> (i < length ks)%nat ->
  Iterator_Prev compare_ l (node_of ns i) = Some (match i with O => 0 | S j => node_of ns j end).
Proof.
  intros Hl Hi. pose proof (lk_nodup _ _ (so_linked _ _ _ Hl)) as Hnd. apply NoDup_cons in Hnd as [Hhd _].
  unfold Iterator_Prev. destruct (lookup_lt_is_Some_2 ks i Hi) as [k Hik].
  rewrite (node_of_key l ns ks i k Hl Hik). cbn [mbind option_bind].
  pose proof (Forall_lookup_1 _ _ _ _ (so_ok _ _ _ Hl) Hik) as Hok.
  destruct (split_at l ns ks k Hl Hok) as (xs & ys & ka & kb & -> & -> & Hxa & Hyb & Ha & Hb & Hgx & Hgy).
  destruct (FindGreaterOrEqual_ok l _ _ k xs ys Hl eq_refl Hgx Hgy) as (_ & -> & _).
  cbn [mbind option_bind]. f_equal. rewrite (lastd_node_of _ xs ys) by set_solver.
  rewrite (Forall2_length _ _ _ Hxa).
  by rewrite (split_index ka kb k i (so_sorted _ _ _ Hl) (so_ok _ _ _ Hl) Hik Ha Hb).
Qed.

Lemma sl_contains l (ns : list Z) (ks : list Key) (t : Key) :
  sl_ok l ns ks -> ok t -> exists b : bool, Contains compare_ l t = Some b /\
    (b = true <-> Exists (fun k => ~ lt k t /\ ~ lt t k) ks).
Proof.
  intros Hl Ht. pose proof (lk_nonnull _ _ (so_linked _ _ _ Hl)) as H0.
  destruct (split_at l ns ks t Hl Ht) as (xs & ys & ka & kb & -> & -> & Hxa & Hyb & Ha & Hb & Hgx & Hgy).
  destruct (FindGreaterOrEqual_ok l _ _ t xs ys Hl eq_refl Hgx Hgy) as (Hf & _ & _).
  unfold Contains. rewrite Hf. cbn [mbind option_bind].
  pose proof (so_ok _ _ _ Hl) as Hok. apply Forall_app in Hok as [Hoka Hokb].
  pose proof (so_sorted _ _ _ Hl) as Hs. apply sorted_app_inv in Hs as (_ & Hs & _).
  assert (~ Exists (fun k => ~ lt k t /\ ~ lt t k) ka) as Hna.
  { intros (k & Hk' & Hn & _)%Exists_exists. rewrite Forall_forall in Ha. by apply Hn, Ha. }
  inversion Hyb as [|a k ys' kb' Hak Hyb']; subst; simpl.
  + eexists. split; [done|]. rewrite app_nil_r. split; [done|]. by intros ?%Hna.
  + destruct (Z.eqb_spec a 0) as [->|_]; [set_solver|]. rewrite Hak. cbn [mbind option_bind].
    apply Forall_cons in Hb as [Hb _]. apply Forall_cons in Hokb as [Hokk Hokb].
    destruct (key_cmp t k Ht Hokk) as (r & -> & Hr1 & Hr2). cbn [mbind option_bind].
    eexists. split; [done|]. rewrite Z.eqb_eq, Exists_app, Exists_cons. split.
    * intros ->. right. left. split; [done|]. intros Hlt%Hr1. lia.
    * intros [?|[[_ Hn]|Hex]]; [done| |].
      -- destruct (Z.lt_trichotomy r 0) as [Hr|[|Hr]]; [tauto|done|tauto].
      -- exfalso. apply Exists_exists in Hex as (k' & Hin & _ & Hn).
         inversion Hs as [|? ? _ Hkk']; subst. rewrite Forall_forall in Hkk', Hokb.
         specialize (Hkk' k' Hin). specialize (Hokb k' Hin).
         destruct (key_cotrans k t k' Hokk Ht Hokb Hkk'); done.
Qed.

Lemma sl_view l (ns : list Z) (ks : list Key) : sl_ok l ns ks -> view l ks (node_of ns).
Proof.
  intros Hl. pose proof (so_linked _ _ _ Hl) as Hk. pose proof (so_keys _ _ _ Hl) as Hkeys.
  pose proof (Forall2_length _ _ _ Hkeys) as Hlen. pose proof (lk_nonnull _ _ Hk) as H0.
  pose proof (lk_nodup _ _ Hk) as Hnd. apply NoDup_cons in Hnd as [Hhd _].
  split.
  - intros i. rewrite <- Hlen. unfold node_of. destruct (ns !! i) as [a|] eqn:E; simpl.
    + split; [intros ->; apply list_elem_of_lookup_2 in E; set_solver|].
      apply lookup_lt_Some in E. lia.
    + apply lookup_ge_None in E. done.
  - intros i k. by apply (node_of_key l ns ks).
  - unfold Iterator_SeekToFirst. rewrite (chain_hd _ _ _ ns); [by rewrite (hd_node_of [] ns)|].
    rewrite <- (at_level_0 l ns ns) by done. apply (lk_chain _ _ Hk). unfold kMaxHeight. lia.
  - unfold Iterator_SeekToLast. rewrite (FindLast_ok l ns ks Hl). cbn [mbind option_bind]. f_equal.
    rewrite (lastd_node_of _ ns []), app_nil_r, Hlen by done. done.
  - intros i Hi. apply view_next; [done|lia].
  - intros i Hi. by apply (sl_prev l ns ks).
  - intros t Ht.
    destruct (split_at l ns ks t Hl Ht) as (xs & ys & ka & kb & -> & -> & Hxa & Hyb & Ha & Hb & Hgx & Hgy).
    destruct (FindGreaterOrEqual_ok l _ _ t xs ys Hl eq_refl Hgx Hgy) as (Hf & _ & _).
    exists (length ka). rewrite take_app_length, drop_app_length. split_and!; try done.
    + rewrite length_app. lia.
    + unfold Iterator_Seek. rewrite Hf. cbn. by rewrite (hd_node_of xs), (Forall2_length _ _ _ Hxa).
  - intros t Ht. by apply (sl_contains l ns ks).
Qed.
End spec.

(** ** Properties *)

(** Insertions one after the other. *)
Fixpoint Inserts {Key A : Type} `{Allocator A} (compare_ : Key -> Key -> option Z)
    (l : SkipList Key A) (keys : list Key) : option (SkipList Key A) :=
  match keys with
  | [] => Some l
  | k :: keys => l ← Insert compare_ l k; Inserts compare_ l keys
  end.

(** Keys none of which compares equal to another. *)
Definition distinct {Key : Type} (lt : Key -> Key -> Prop) (keys : list Key) : Prop :=
  ForallOrdPairs (fun a b => lt a b \/ lt b a) keys.

Lemma SkipList_Inserts_ok {Key A : Type} {AL : Allocator A} (compare_ : Key -> Key -> option Z)
    (ok : Key -> Prop) (lt : Key -> Key -> Prop) (inv : A -> gset Z -> Prop)
    (HO : KeyOrder compare_ ok lt) (HA : AllocatorSpec A inv)
    (keys : list Key) (l : SkipList Key A) (ns : list Z) (ks : list Key) :
  sl_ok (ok := ok) (lt := lt) (inv := inv) l ns ks ->
  Forall ok keys -> distinct lt keys -> Forall (fun k => Forall (fun k' => lt k k' \/ lt k' k) keys) ks ->
  exists l' ns' ks', Inserts compare_ l keys = Some l' /\
    sl_ok (ok := ok) (lt := lt) (inv := inv) l' ns' ks' /\ ks' ≡ₚ ks ++ keys.
Proof.
  revert l ns ks. induction keys as [|k keys IH]; intros l ns ks Hl Hok Hd Hks.
  { exists l, ns, ks. by rewrite app_nil_r. }
  apply Forall_cons in Hok as [Hk Hok]. inversion Hd as [|? ? Hkk Hd']; subst.
  destruct (SkipList_Insert_ok compare_ l ns ks k Hl Hk) as (l1 & ns1 & ks1 & H1 & Hl1 & Hp1).
  { eapply Forall_impl; [exact Hks|]. intros a Ha. by apply Forall_cons in Ha as [? _]. }
  destruct (IH l1 ns1 ks1 Hl1 Hok Hd') as (l' & ns' & ks' & H' & Hl' & Hp').
  { rewrite Hp1. constructor; [done|]. eapply Forall_impl; [exact Hks|].
    intros a Ha. by apply Forall_cons in Ha as [_ ?]. }
  exists l', ns', ks'. cbn [Inserts]. rewrite H1. split_and!; [done|done|].
  rewrite Hp', Hp1. simpl. apply Permutation_middle.
Qed.

(** C34. Whatever heights the generator draws, a skip list into which keys were
    inserted that pairwise do not compare equal is the sorted list of them:
    the iterator visits it forwards and backwards in order, seeking finds the
    first key not before the target, and [Contains] finds the keys. *)
Theorem SkipList_refines_sorted {Key A : Type} (AL : Allocator A)
    (compare_ : Key -> Key -> option Z) (ok : Key -> Prop) (lt : Key -> Key -> Prop)
    (inv : A -> gset Z -> Prop) (arena : A) (keys : list Key) :
  KeyOrder compare_ ok lt -> AllocatorSpec A inv -> inv arena ∅ ->
  Forall ok keys -> distinct lt keys ->
  exists l ks node, (l ← SkipList_new arena; Inserts compare_ l keys) = Some l /\
    ks ≡ₚ keys /\ StronglySorted lt ks /\ view compare_ (ok := ok) (lt := lt) l ks node.
Proof.
  intros HO HA Hi Hok Hd. destruct (SkipList_new_ok (inv := inv) (ok := ok) (lt := lt) compare_ arena Hi) as (l0 & H0 & Hl0).
  destruct (SkipList_Inserts_ok compare_ ok lt inv HO HA keys l0 [] [] Hl0 Hok Hd) as (l & ns & ks & Hl & Hsl & Hp);
    [constructor|].
  exists l, ks, (node_of ns). rewrite H0. split_and!; [done|done|apply (so_sorted _ _ _ Hsl)|].
  by eapply sl_view.
Qed.

(** The allocator of the witness hands out the addresses from 1 on. *)
#[local] Instance counter : Allocator Z := {| allocate a n := (a, a + 1) |}.

#[local] Instance counter_spec : AllocatorSpec Z (fun a s => 0 < a /\ forall x, x ∈ s -> x < a).
Proof.
  split. intros a s n [H0 Hs] _. simpl. split_and!; [lia| |lia|].
  - intros Hin. specialize (Hs a Hin). lia.
  - intros x [->%elem_of_singleton|Hx]%elem_of_union; [lia|]. specialize (Hs x Hx). lia.
Qed.

#[local] Instance Z_order : KeyOrder (fun a b => Some (a - b)) (fun _ => True) Z.lt.
Proof.
  split.
  - intros a b _ _. eexists. split; [done|]. lia.
  - lia.
  - lia.
  - intros a b c _ _ _. lia.
Qed.

Lemma SkipList_refines_sorted_witness :
  exists l ks node, (l ← SkipList_new 1; Inserts (fun a b => Some (a - b)) l [5; 3; 9; 7]) = Some l /\
    ks ≡ₚ [5; 3; 9; 7] /\ StronglySorted Z.lt ks /\
    view (fun a b => Some (a - b)) (ok := fun _ => True) (lt := Z.lt) l ks node.
Proof.
  apply (SkipList_refines_sorted counter _ _ Z.lt (fun a s => 0 < a /\ forall x, x ∈ s -> x < a));
    [apply Z_order|apply counter_spec| | |].
  - split; [lia|]. set_solver.
  - by repeat constructor.
  - repeat constructor; lia.
Defined.
