(* ===== verification/Iterator.v ===== *)
(** * Iterators

    [include/leveldb/iterator.h], [table/iterator.cc] and
    [table/iterator_wrapper.h]: the interface that memtables, blocks and
    tables are read through, what its clients rely on, the iterator that is
    always empty, and the wrapper that caches the key. *)

From S2P Require Import Prelude Status.

(** ** Definitions *)

(** [Iterator]; an operation is [None] when it does not return or when the
    behaviour is undefined. *)
Class Iterator (S : Type) := {
  it_Valid : S -> bool;
  it_SeekToFirst : S -> option S;
  it_SeekToLast : S -> option S;
  it_Seek : S -> bytes -> option S;
  it_Next : S -> option S;
  it_Prev : S -> option S;
  it_key : S -> option bytes;
  it_value : S -> option bytes;
  it_status : S -> Status }.

(** [EmptyIterator] holds a status; assertions are compiled out. *)
#[export] Instance EmptyIterator : Iterator Status := {|
  it_Valid _ := false;
  it_SeekToFirst s := Some s;
  it_SeekToLast s := Some s;
  it_Seek s _ := Some s;
  it_Next s := Some s;
  it_Prev s := Some s;
  it_key _ := Some [];
  it_value _ := Some [];
  it_status s := s |}.

Definition NewEmptyIterator : Status := OK.
Definition NewErrorIterator (status : Status) : Status := status.

(** *** Clean-up functions *)

(** [cleanup_] and the list behind it, in the order in which the destructor
    calls the functions; the first element is the embedded one. *)
Definition cleanups (F : Type) : Type := list F.

Definition RegisterCleanup {F} (c : cleanups F) (func : F) : cleanups F :=
  match c with
  | [] => [func]
  | first :: next => first :: func :: next
  end.

(** *** [IteratorWrapper] *)

Section wrapper.
Context {S : Type} `{Iterator S}.

(** [iter_] is null or an iterator; [key_] is the last key cached. *)
Record IteratorWrapper := MkWrapper { iter_ : option S; valid_ : bool; key_ : bytes }.

Definition Wrapper_new : IteratorWrapper := MkWrapper None false [].

Definition Update (w : IteratorWrapper) : option IteratorWrapper :=
  it ← iter_ w;
  if it_Valid it then
    k ← it_key it;
    Some (MkWrapper (Some it) true k)
  else Some (MkWrapper (Some it) false (key_ w)).

Definition Wrapper_Set (w : IteratorWrapper) (it : option S) : option IteratorWrapper :=
  match it with
  | None => Some (MkWrapper None false (key_ w))
  | Some _ => Update (MkWrapper it (valid_ w) (key_ w))
  end.

Definition on_iter (f : S -> option S) (w : IteratorWrapper) : option IteratorWrapper :=
  it ← iter_ w;
  it ← f it;
  Update (MkWrapper (Some it) (valid_ w) (key_ w)).

Definition Wrapper_Valid (w : IteratorWrapper) : bool := valid_ w.
Definition Wrapper_key (w : IteratorWrapper) : bytes := key_ w.
Definition Wrapper_value (w : IteratorWrapper) : option bytes := it ← iter_ w; it_value it.
Definition Wrapper_status (w : IteratorWrapper) : option Status := it_status <$> iter_ w.
Definition Wrapper_Next : IteratorWrapper -> option IteratorWrapper := on_iter it_Next.
Definition Wrapper_Prev : IteratorWrapper -> option IteratorWrapper := on_iter it_Prev.
Definition Wrapper_Seek (w : IteratorWrapper) (k : bytes) : option IteratorWrapper :=
  on_iter (fun it => it_Seek it k) w.
Definition Wrapper_SeekToFirst : IteratorWrapper -> option IteratorWrapper := on_iter it_SeekToFirst.
Definition Wrapper_SeekToLast : IteratorWrapper -> option IteratorWrapper := on_iter it_SeekToLast.
End wrapper.
Arguments IteratorWrapper S : clear implicits.

(** ** The contract *)

(** A position of a sequence of [n] entries: an index, or not valid. *)
Definition pos_of (n i : nat) : option nat := if (i <? n)%nat then Some i else None.
Definition pos_before (i : nat) : option nat := match i with O => None | S j => Some j end.

(** [it] is an iterator over [ents], sorted by [lt] on the keys; [at_ it p]
    says that it is at position [p].  Seeking takes the targets in [ok]. *)
Class IteratorSpec {S : Type} (I : Iterator S) (ok : bytes -> Prop) (lt : bytes -> bytes -> Prop)
    (ents : list (bytes * bytes)) (at_ : S -> option nat -> Prop) := {
  it_valid_at : forall s p, at_ s p -> it_Valid s = bool_decide (is_Some p);
  it_entry_at : forall s i, at_ s (Some i) ->
    exists k v, ents !! i = Some (k, v) /\ it_key s = Some k /\ it_value s = Some v;
  it_first_at : forall s p, at_ s p ->
    exists s', it_SeekToFirst s = Some s' /\ at_ s' (pos_of (length ents) 0);
  it_last_at : forall s p, at_ s p ->
    exists s', it_SeekToLast s = Some s' /\ at_ s' (pos_before (length ents));
  it_next_at : forall s i, at_ s (Some i) ->
    exists s', it_Next s = Some s' /\ at_ s' (pos_of (length ents) (i + 1));
  it_prev_at : forall s i, at_ s (Some i) ->
    exists s', it_Prev s = Some s' /\ at_ s' (pos_before i);
  it_seek_at : forall s p target, at_ s p -> ok target ->
    exists s' i, it_Seek s target = Some s' /\ (i <= length ents)%nat /\ at_ s' (pos_of (length ents) i) /\
      Forall (fun e => lt e.1 target) (take i ents) /\ Forall (fun e => ~ lt e.1 target) (drop i ents);
  it_status_at : forall s p, at_ s p -> it_status s = OK }.

#[export] Instance EmptyIterator_spec (ok : bytes -> Prop) (lt : bytes -> bytes -> Prop) :
  IteratorSpec EmptyIterator ok lt [] (fun s p => s = OK /\ p = None).
Proof.
  split; simpl.
  - by intros s p [-> ->].
  - by intros s i [? ?].
  - intros s p [-> ->]. eauto.
  - intros s p [-> ->]. eauto.
  - by intros s i [? ?].
  - by intros s i [? ?].
  - intros s p t [-> ->] _. exists OK, 0%nat. by repeat split.
  - by intros s p [-> ->].
Qed.

(** The contract holds for a union of families of states it holds for. *)
Lemma IteratorSpec_ex {S A : Type} (I : Iterator S) (ok : bytes -> Prop) (lt : bytes -> bytes -> Prop)
    (ents : list (bytes * bytes)) (P : A -> Prop) (at_ : A -> S -> option nat -> Prop) :
  (forall a, P a -> IteratorSpec I ok lt ents (at_ a)) ->
  IteratorSpec I ok lt ents (fun s p => exists a, P a /\ at_ a s p).
Proof.
  intros H. split.
  - intros s p (a & Ha & Hat). by apply (it_valid_at (IteratorSpec := H a Ha)).
  - intros s i (a & Ha & Hat). by apply (it_entry_at (IteratorSpec := H a Ha)).
  - intros s p (a & Ha & Hat). destruct (it_first_at (IteratorSpec := H a Ha) s p Hat) as (s' & ? & ?). eauto.
  - intros s p (a & Ha & Hat). destruct (it_last_at (IteratorSpec := H a Ha) s p Hat) as (s' & ? & ?). eauto.
  - intros s i (a & Ha & Hat). destruct (it_next_at (IteratorSpec := H a Ha) s i Hat) as (s' & ? & ?). eauto.
  - intros s i (a & Ha & Hat). destruct (it_prev_at (IteratorSpec := H a Ha) s i Hat) as (s' & ? & ?). eauto.
  - intros s p t (a & Ha & Hat) Ht. destruct (it_seek_at (IteratorSpec := H a Ha) s p t Hat Ht) as (s' & i & ? & ? & ? & ?). eauto 10.
  - intros s p (a & Ha & Hat). by apply (it_status_at (IteratorSpec := H a Ha) s p).
Qed.

(** ** The wrapper keeps the contract *)

Section wrapper_spec.
Context {S : Type} {I : Iterator S} {ok : bytes -> Prop} {lt : bytes -> bytes -> Prop}.
Context {ents : list (bytes * bytes)} {at_ : S -> option nat -> Prop}.
Context {HI : IteratorSpec I ok lt ents at_}.

(** A wrapper around an iterator at [p], with its key cached. *)
Definition wrapped (w : IteratorWrapper S) (p : option nat) : Prop :=
  exists s, iter_ w = Some s /\ at_ s p /\ valid_ w = bool_decide (is_Some p) /\
  match p with Some i => exists v, ents !! i = Some (key_ w, v) | None => True end.

Lemma Update_wrapped (s : S) (p : option nat) (b : bool) (k : bytes) :
  at_ s p -> exists w, Update (MkWrapper (Some s) b k) = Some w /\ wrapped w p.
Proof.
  intros Hs. unfold Update. simpl. rewrite (it_valid_at s p Hs). destruct p as [i|]; simpl.
  - destruct (it_entry_at s i Hs) as (k' & v & He & Hk & _). rewrite Hk. simpl.
    eexists. split; [done|]. exists s. simpl. eauto.
  - eexists. split; [done|]. by exists s.
Qed.

Lemma on_iter_wrapped (f : S -> option S) (w : IteratorWrapper S) (p q : option nat) :
  wrapped w p -> (forall s, at_ s p -> exists s', f s = Some s' /\ at_ s' q) ->
  exists w', on_iter f w = Some w' /\ wrapped w' q.
Proof.
  intros (s & Hi & Hs & _) Hf. destruct (Hf s Hs) as (s' & Hs' & Hat).
  unfold on_iter. rewrite Hi. simpl. rewrite Hs'. simpl. by apply Update_wrapped.
Qed.

Lemma Set_wrapped (w : IteratorWrapper S) (s : S) (p : option nat) :
  at_ s p -> exists w', Wrapper_Set w (Some s) = Some w' /\ wrapped w' p.
Proof. intros Hs. by apply Update_wrapped. Qed.

Lemma wrapped_valid (w : IteratorWrapper S) (p : option nat) :
  wrapped w p -> Wrapper_Valid w = bool_decide (is_Some p).
Proof. by intros (s & _ & _ & ? & _). Qed.

Lemma wrapped_entry (w : IteratorWrapper S) (i : nat) :
  wrapped w (Some i) -> exists v, ents !! i = Some (Wrapper_key w, v) /\ Wrapper_value w = Some v.
Proof.
  intros (s & Hi & Hs & _ & v & Hv). destruct (it_entry_at s i Hs) as (k' & v' & He & _ & Hval).
  exists v. split; [done|]. unfold Wrapper_value. rewrite Hi. simpl. rewrite Hval. congruence.
Qed.
End wrapper_spec.
