(* ===== verification/MemTable.v ===== *)
(** * Memtables

    [db/memtable.h] and [db/memtable.cc]: the entries of the write buffer, in a
    skip list ordered by internal key, and the arena that holds them.  An
    entry is the string of bytes its pointer points to, which nothing writes
    after it was inserted; the reference count is left out. *)

From S2P Require Import Prelude Status Coding Comparator DbFormat Arena SkipList SkipListSpec Iterator.

(** ** Definitions *)

(** The list allocates its nodes in the arena, as the table its entries. *)
Section memtable.
Context (new : list Arena.range -> Z -> Z) (cmp : Comparator).

#[export] Instance arena_allocator : Allocator Arena.Arena :=
  {| allocate a n := Arena.AllocateAligned new a n |}.

Definition Table : Type := SkipList bytes Arena.Arena.

(** The file's own [GetLengthPrefixedSlice], with what follows the slice. *)
Definition GetLengthPrefixedSlice (data : bytes) : option (bytes * bytes) :=
  GetLengthPrefixedSlicePtr data.

(** [MemTable::KeyComparator::operator()] on the internal key comparator. *)
Definition KeyComparator (aptr bptr : bytes) : option Z :=
  '(a, _) ← GetLengthPrefixedSlice aptr;
  '(b, _) ← GetLengthPrefixedSlice bptr;
  InternalCompare cmp a b.

Definition EncodeKey (target : bytes) : bytes :=
  PutVarint32 [] (u32 (Z.of_nat (length target))) ++ target.

Definition MemTable_new : option Table := SkipList_new Arena.Arena_new.

Definition ApproximateMemoryUsage (m : Table) : Z := Arena.MemoryUsage (arena_ m).

Definition set_arena (m : Table) (a : Arena.Arena) : Table :=
  MkList (heap m) a (head_ m) (max_height_ m) (rnd_ m).

(** The bytes [Add] writes. *)
Definition encode_entry (s : Z) (type : ValueType) (key value : bytes) : bytes :=
  EncodeVarint32 (u32 (Z.of_nat (length key) + 8)) ++ key
  ++ EncodeFixed64 true (PackSequenceAndType s type)
  ++ EncodeVarint32 (u32 (Z.of_nat (length value))) ++ value.

(** [None] when the entry is longer than the memory allocated for it. *)
Definition Add (m : Table) (s : Z) (type : ValueType) (key value : bytes) : option Table :=
  let key_size := Z.of_nat (length key) in
  let val_size := Z.of_nat (length value) in
  let internal_key_size := key_size + 8 in
  let encoded_len := VarintLength internal_key_size + internal_key_size
    + VarintLength val_size + val_size in
  let '(_, a) := Arena.Allocate new (arena_ m) encoded_len in
  let buf := encode_entry s type key value in
  if Z.of_nat (length buf) <=? encoded_len
  then Insert KeyComparator (set_arena m a) buf
  else None.

(** What [Get] reports: [false]; [true] with a value; [true] with a status. *)
Inductive MemGet := MemMiss | MemValue (value : bytes) | MemStatus (s : Status).

Definition Get (m : Table) (key : LookupKey) : option MemGet :=
  let memkey := memtable_key key in
  node ← Iterator_Seek KeyComparator m memkey;
  if Iterator_Valid node then
    entry ← Iterator_key m node;
    '(key_length, key_ptr) ← GetVarint32Ptr entry;
    if (key_length <? 8) || (Z.of_nat (length key_ptr) <? key_length) then None
    else
      let ikey := take (Z.to_nat key_length) key_ptr in
      ukey ← ExtractUserKey ikey;
      r ← @Compare cmp ukey (user_key key);
      if r =? 0 then
        tag ← ExtractTag ikey;
        match ValueType_of_Z (Z.land tag 0xff) with
        | Some kTypeValue =>
            '(v, _) ← GetLengthPrefixedSlice (drop (Z.to_nat key_length) key_ptr);
            Some (MemValue v)
        | Some kTypeDeletion => Some (MemStatus (NotFound []))
        | None => Some MemMiss
        end
      else Some MemMiss
  else Some MemMiss.

(** *** [MemTableIterator]: the table and the node *)

Definition MemTableIterator : Type := Table * Z.

Definition NewIterator (m : Table) : MemTableIterator := (m, Iterator_new).

Definition mi_move (it : MemTableIterator) (n : option Z) : option MemTableIterator :=
  n ← n; Some (it.1, n).

#[export] Instance MemTableIterator_iterator : Iterator MemTableIterator := {|
  it_Valid it := Iterator_Valid it.2;
  it_SeekToFirst it := mi_move it (Iterator_SeekToFirst it.1);
  it_SeekToLast it := mi_move it (Iterator_SeekToLast it.1);
  it_Seek it k := mi_move it (Iterator_Seek KeyComparator it.1 (EncodeKey k));
  it_Next it := mi_move it (Iterator_Next it.1 it.2);
  it_Prev it := mi_move it (Iterator_Prev KeyComparator it.1 it.2);
  it_key it :=
    entry ← Iterator_key it.1 it.2;
    fst <$> GetLengthPrefixedSlice entry;
  it_value it :=
    entry ← Iterator_key it.1 it.2;
    '(_, rest) ← GetLengthPrefixedSlice entry;
    fst <$> GetLengthPrefixedSlice rest;
  it_status _ := OK |}.
End memtable.

(** ** The arena hands out fresh addresses *)

(** The addresses in [s] start ranges handed out before. *)
Definition arena_inv (a : Arena.Arena) (s : gset Z) : Prop :=
  exists cs, Arena.arena_ok a cs /\ forall x, x ∈ s -> exists n, 0 < n /\ (x, n) ∈ cs.

Lemma arena_inv_new : arena_inv Arena.Arena_new ∅.
Proof. exists []. split; [apply Arena.Arena_new_ok|set_solver]. Qed.

Section arena.
Context (new : list Arena.range -> Z -> Z).
Context (Hnew : forall bs n, 0 < n -> 0 < new bs n /\ new bs n mod 8 = 0 /\
  Forall (Arena.disjoint_range (new bs n, n)) bs).

Lemma arena_inv_grow (a a' : Arena.Arena) (s : gset Z) (cs : list Arena.range) (p n : Z) :
  (forall x, x ∈ s -> exists n, 0 < n /\ (x, n) ∈ cs) -> 0 < n ->
  Arena.arena_ok a' (cs ++ [(p, n)]) -> p <> 0 /\ (p ∉ s) /\ arena_inv a' ({[p]} ∪ s).
Proof.
  intros Hs Hn Ha. pose proof (Arena.ao_inside _ _ Ha) as Hi. pose proof (Arena.ao_pairs _ _ Ha) as Hp.
  apply Arena.pairs_snoc in Hp as [_ Hp]. apply Forall_app in Hi as [_ Hi].
  apply Forall_singleton in Hi as [Hp0 _]. simpl in Hp0. split_and!; [lia| |].
  - intros Hin. destruct (Hs p Hin) as (n' & Hn' & Hc). rewrite Forall_forall in Hp.
    specialize (Hp _ Hc). unfold Arena.disjoint_range in Hp. simpl in Hp. lia.
  - exists (cs ++ [(p, n)]). split; [done|]. intros x [->%elem_of_singleton|Hx]%elem_of_union.
    + exists n. split; [done|]. set_solver.
    + destruct (Hs x Hx) as (n' & ? & ?). exists n'. set_solver.
Qed.

#[export] Instance arena_allocator_spec :
  AllocatorSpec Arena.Arena (H := arena_allocator new) arena_inv.
Proof.
  constructor. intros a s n (cs & Ha & Hs) Hn. simpl.
  pose proof (Arena.AllocateAligned_ok new Hnew a cs n Ha Hn) as H.
  destruct (Arena.AllocateAligned new a n) as [p a']. destruct H as [H _]. by eapply arena_inv_grow.
Qed.

Lemma Allocate_inv (a : Arena.Arena) (s : gset Z) (n : Z) :
  arena_inv a s -> 0 < n -> arena_inv (Arena.Allocate new a n).2 s.
Proof.
  intros (cs & Ha & Hs) Hn. pose proof (Arena.Allocate_ok new Hnew a cs n Ha Hn) as H.
  destruct (Arena.Allocate new a n) as [p a'].
  exists (cs ++ [(p, n)]). split; [done|]. intros x Hx. destruct (Hs x Hx) as (n' & ? & ?).
  exists n'. set_solver.
Qed.

End arena.

(** ** Entries *)

Record Entry := MkEntry { e_seq : Z; e_type : ValueType; e_key : bytes; e_value : bytes }.

Definition enc (e : Entry) : bytes := encode_entry (e_seq e) (e_type e) (e_key e) (e_value e).

(** The internal key of an entry. *)
Definition e_ikey (e : Entry) : bytes := ikey (e_key e) (PackSequenceAndType (e_seq e) (e_type e)).

Lemma slice_ptr (p : bytes) : GetLengthPrefixedSlicePtr p = Coding.GetLengthPrefixedSlice p.
Proof.
  unfold GetLengthPrefixedSlicePtr, Coding.GetLengthPrefixedSlice, GetVarint32.
  destruct (GetVarint32Ptr p) as [[len q]|]; [|done]. cbn [mbind option_bind].
  rewrite Z.leb_antisym. by destruct (Z.of_nat (length q) <? len).
Qed.

Lemma enc_slices (e : Entry) :
  enc e = PutLengthPrefixedSlice [] (e_ikey e) ++ PutLengthPrefixedSlice [] (e_value e).
Proof.
  unfold enc, encode_entry, PutLengthPrefixedSlice, PutVarint32, e_ikey. rewrite length_ikey.
  rewrite !app_nil_l, Nat2Z.inj_add. unfold ikey. by rewrite <- !app_assoc.
Qed.

Definition short (s : bytes) : Prop := Z.of_nat (length s) < 2 ^ 32.

Lemma slice_parse (s rest : bytes) :
  short s -> GetLengthPrefixedSlice (PutLengthPrefixedSlice [] s ++ rest) = Some (s, rest).
Proof. intros Hs. unfold GetLengthPrefixedSlice. rewrite slice_ptr. by apply slice_round. Qed.

(** ** The newest entry of a key *)

(** An entry of [u] that a reader at sequence number [s] sees. *)
Definition visible (u : bytes) (s : Z) (e : Entry) : Prop := e_key e = u /\ e_seq e <= s.

#[export] Instance visible_dec (u : bytes) (s : Z) (e : Entry) : Decision (visible u s e).
Proof. unfold visible. apply _. Defined.

(** The visible entry with the largest sequence number. *)
Fixpoint newest (u : bytes) (s : Z) (es : list Entry) : option Entry :=
  match es with
  | [] => None
  | e :: es =>
      let best := newest u s es in
      if decide (visible u s e) then
        match best with
        | Some b => if e_seq e <? e_seq b then Some b else Some e
        | None => Some e
        end
      else best
  end.

Definition mem_get (u : bytes) (s : Z) (es : list Entry) : MemGet :=
  match newest u s es with
  | None => MemMiss
  | Some e => match e_type e with
              | kTypeValue => MemValue (e_value e)
              | kTypeDeletion => MemStatus (NotFound [])
              end
  end.

Lemma newest_none (u : bytes) (s : Z) (es : list Entry) :
  newest u s es = None <-> Forall (fun e => ~ visible u s e) es.
Proof.
  induction es as [|e es IH]; simpl; [done|]. rewrite Forall_cons. destruct (decide (visible u s e)).
  - split; [|tauto]. destruct (newest u s es) as [b|]; [|done]. by destruct (e_seq e <? e_seq b).
  - rewrite IH. tauto.
Qed.

Lemma newest_some (u : bytes) (s : Z) (es : list Entry) (e : Entry) :
  newest u s es = Some e ->
  e ∈ es /\ visible u s e /\ Forall (fun e' => visible u s e' -> e_seq e' <= e_seq e) es.
Proof.
  revert e. induction es as [|a es IH]; intros e; simpl; [done|].
  destruct (newest u s es) as [b|] eqn:E.
  - destruct (IH b eq_refl) as (Hin & Hv & Hall). destruct (decide (visible u s a)) as [Ha|Ha].
    + destruct (Z.ltb_spec (e_seq a) (e_seq b)); intros [= <-].
      * split_and!; [set_solver|done|]. constructor; [lia|done].
      * split_and!; [set_solver|done|]. constructor; [lia|].
        eapply Forall_impl; [exact Hall|]. intros e' He' Hve. specialize (He' Hve). lia.
    + intros [= <-]. split_and!; [set_solver|done|]. by constructor.
  - apply newest_none in E. destruct (decide (visible u s a)); [|done]. intros [= <-].
    split_and!; [set_solver|done|]. constructor; [lia|]. eapply Forall_impl; [exact E|]. by intros e' ? ?.
Qed.

(** With distinct sequence numbers these facts determine the entry. *)
Lemma newest_unique (u : bytes) (s : Z) (es : list Entry) (e : Entry) :
  NoDup (map e_seq es) -> e ∈ es -> visible u s e ->
  Forall (fun e' => visible u s e' -> e_seq e' <= e_seq e) es -> newest u s es = Some e.
Proof.
  intros Hnd Hin Hv Hall. destruct (newest u s es) as [b|] eqn:E.
  - apply newest_some in E as (Hb & Hvb & Hallb). rewrite Forall_forall in Hall, Hallb.
    assert (e_seq b = e_seq e) as Hs.
    { specialize (Hall b Hb Hvb). specialize (Hallb e Hin Hv). lia. }
    f_equal. apply list_elem_of_lookup in Hb as [i Hi]. apply list_elem_of_lookup in Hin as [j Hj].
    assert (i = j) as ->; [|congruence]. eapply NoDup_lookup; [exact Hnd| |].
    + by rewrite list_lookup_fmap, Hi.
    + rewrite list_lookup_fmap, Hj. simpl. by rewrite Hs.
  - apply newest_none in E. rewrite Forall_forall in E. by destruct (E e Hin).
Qed.

Lemma newest_perm (u : bytes) (s : Z) (es es' : list Entry) :
  es ≡ₚ es' -> NoDup (map e_seq es) -> newest u s es' = newest u s es.
Proof.
  intros Hp Hnd. assert (NoDup (map e_seq es')) as Hnd' by (by rewrite <- Hp).
  destruct (newest u s es) as [e|] eqn:E.
  - apply newest_some in E as (Hin & Hv & Hall). rewrite Hp in Hin, Hall. by apply newest_unique.
  - apply newest_none in E. rewrite Hp in E. by apply newest_none.
Qed.

Section spec.
Context (new : list Arena.range -> Z -> Z).
Context (Hnew : forall bs n, 0 < n -> 0 < new bs n /\ new bs n mod 8 = 0 /\
  Forall (Arena.disjoint_range (new bs n, n)) bs).
Context {U : Comparator} {ok : bytes -> Prop} {HU : ComparatorSpec U ok}.

Record entry_ok (e : Entry) : Prop := MkEntryOk {
  eo_seq : seq_ok (e_seq e);
  eo_key : ok (e_key e);
  eo_short : short (e_ikey e);
  eo_value : short (e_value e) }.

(** The key a string of the table starts with, and the order it gives. *)
Definition key_of (a : bytes) : bytes := default [] (fst <$> GetLengthPrefixedSlice a).
Definition mem_ok (a : bytes) : Prop :=
  exists k rest, a = PutLengthPrefixedSlice [] k ++ rest /\ short k /\ @ikey_ok ok k.
Definition mem_lt (a b : bytes) : Prop := @cmp_lt (InternalKeyComparator U) (key_of a) (key_of b).

Lemma mem_key (k rest : bytes) : short k -> key_of (PutLengthPrefixedSlice [] k ++ rest) = k.
Proof. intros Hk. unfold key_of. by rewrite slice_parse. Qed.

Lemma mem_compare (a b : bytes) :
  mem_ok a -> mem_ok b -> KeyComparator U a b = InternalCompare U (key_of a) (key_of b) /\
    @ikey_ok ok (key_of a).
Proof.
  intros (ka & ra & -> & Hsa & Hka) (kb & rb & -> & Hsb & Hkb). unfold KeyComparator.
  rewrite !slice_parse, !mem_key by done. done.
Qed.

#[export] Instance mem_order : KeyOrder (KeyComparator U) mem_ok mem_lt.
Proof.
  split.
  - intros a b Ha Hb. destruct (mem_compare a b Ha Hb) as [-> Hka].
    destruct (mem_compare b a Hb Ha) as [_ Hkb].
    destruct (cmp_cases (C := InternalKeyComparator U) _ _ Hka Hkb)
      as [(r & Hr & Hneg & Hlt)|[(Hr & Heq)|(r & Hr & Hpos & Hlt)]]; simpl in Hr.
    + exists r. split; [done|]. split; [done|]. split; [lia|].
      intros Hba. by destruct (cmp_lt_asym _ _ Hka Hkb Hlt).
    + exists 0. split; [done|]. unfold mem_lt. rewrite Heq.
      split; split; try lia; intros H; by destruct (cmp_lt_irrefl _ Hkb H).
    + exists r. split; [done|]. split; [|done]. split; [lia|].
      intros Hab. by destruct (cmp_lt_asym _ _ Hka Hkb Hab).
  - intros a Ha. destruct (mem_compare a a Ha Ha) as [_ Hka]. by apply cmp_lt_irrefl.
  - intros a b c Ha Hb Hc. destruct (mem_compare a b Ha Hb) as [_ Hka].
    destruct (mem_compare b c Hb Hc) as [_ Hkb]. destruct (mem_compare c c Hc Hc) as [_ Hkc].
    by apply cmp_trans.
  - intros a b c Ha Hb Hc Hac. destruct (mem_compare a b Ha Hb) as [_ Hka].
    destruct (mem_compare b c Hb Hc) as [_ Hkb]. destruct (mem_compare c c Hc Hc) as [_ Hkc].
    destruct (cmp_cases (C := InternalKeyComparator U) _ _ Hka Hkb)
      as [(r & _ & _ & Hlt)|[(_ & Heq)|(r & _ & _ & Hlt)]].
    + by left.
    + right. unfold mem_lt in *. by rewrite <- Heq.
    + right. unfold mem_lt in *. eapply cmp_trans; [exact Hkb|exact Hka|exact Hkc|done|done].
Qed.

Lemma e_ikey_ok (e : Entry) : entry_ok e -> @ikey_ok ok (e_ikey e).
Proof. intros He. apply ikey_ok_intro; [apply PackSequenceAndType_range, (eo_seq _ He)|apply (eo_key _ He)]. Qed.

Lemma enc_ok (e : Entry) : entry_ok e -> mem_ok (enc e).
Proof.
  intros He. exists (e_ikey e), (PutLengthPrefixedSlice [] (e_value e)).
  split_and!; [apply enc_slices|apply (eo_short _ He)|by apply e_ikey_ok].
Qed.

Lemma key_of_enc (e : Entry) : entry_ok e -> key_of (enc e) = e_ikey e.
Proof. intros He. rewrite enc_slices. apply mem_key, (eo_short _ He). Qed.

(** The order of two entries. *)
Lemma enc_lt (e e' : Entry) :
  entry_ok e -> entry_ok e' ->
  mem_lt (enc e) (enc e') <-> cmp_lt (e_key e) (e_key e') \/
    (e_key e = e_key e' /\ PackSequenceAndType (e_seq e') (e_type e')
                           < PackSequenceAndType (e_seq e) (e_type e)).
Proof.
  intros He He'. unfold mem_lt. rewrite !key_of_enc by done. unfold e_ikey.
  apply icmp_lt; try apply PackSequenceAndType_range; try apply eo_seq; try apply eo_key; done.
Qed.

(** ** The table as a sorted list of entries *)

Definition mem_sl (m : Table) (ns : list Z) (ks : list bytes) : Prop :=
  sl_ok (ok := mem_ok) (lt := mem_lt) (inv := arena_inv) m ns ks.

(** [m] holds the entries [es], in order. *)
Definition mem_rep (m : Table) (es : list Entry) : Prop :=
  Forall entry_ok es /\ exists ns, mem_sl m ns (map enc es).

#[local] Abbreviation al := (arena_allocator new).

Lemma MemTable_new_ok : exists m, MemTable_new new = Some m /\ mem_rep m [].
Proof.
  destruct (SkipList_new_ok (AL := al) (ok := mem_ok) (lt := mem_lt) (inv := arena_inv)
    (HA := arena_allocator_spec new Hnew) (KeyComparator U) Arena.Arena_new arena_inv_new)
    as (m & Hm & Hsl).
  exists m. split; [done|]. split; [constructor|]. by exists [].
Qed.

Lemma VarintLength_bound (v : Z) :
  0 <= v < 2 ^ 32 -> Z.of_nat (length (EncodeVarint32 v)) = VarintLength v.
Proof.
  intros Hv. rewrite EncodeVarint32_loop by done. unfold VarintLength.
  pose proof (VarintLength_encode 9 v 1) as H9.
  enough (EncodeVarint64_loop 4 v = EncodeVarint64_loop 9 v) as -> by lia.
  pose proof (varint64_round v [] ltac:(lia)) as H1. clear H9.
  assert (forall n k w, 0 <= w < 2 ^ (7 * (Z.of_nat n + 1)) ->
    EncodeVarint64_loop n w = EncodeVarint64_loop (n + k) w) as Hg.
  { clear. induction n as [|n IH]; intros k w Hw.
    - destruct k; [done|]. cbn [EncodeVarint64_loop Nat.add].
      destruct (Z.leb_spec 128 w); [|done]. change (2 ^ (7 * (Z.of_nat 0 + 1))) with 128 in Hw. lia.
    - cbn [EncodeVarint64_loop Nat.add]. destruct (128 <=? w); [|done]. f_equal. apply IH.
      rewrite Z.shiftr_div_pow2 by lia. split; [apply Z.div_pos; lia|].
      apply Z.div_lt_upper_bound; [lia|]. rewrite <- Z.pow_add_r by lia.
      replace (7 + 7 * (Z.of_nat n + 1)) with (7 * (Z.of_nat (S n) + 1)) by lia. lia. }
  apply (Hg 4%nat 5%nat). simpl. lia.
Qed.

Lemma length_enc_entry (e : Entry) :
  entry_ok e ->
  Z.of_nat (length (enc e)) = VarintLength (Z.of_nat (length (e_key e)) + 8)
    + (Z.of_nat (length (e_key e)) + 8) + VarintLength (Z.of_nat (length (e_value e)))
    + Z.of_nat (length (e_value e)).
Proof.
  intros He. pose proof (eo_short _ He) as Hk. pose proof (eo_value _ He) as Hv.
  unfold short, e_ikey in *. rewrite length_ikey in Hk.
  unfold enc, encode_entry, u32. rewrite !Z.mod_small by lia.
  rewrite !length_app, !Nat2Z.inj_add, !VarintLength_bound by lia.
  unfold EncodeFixed64. rewrite length_le_split. lia.
Qed.

Lemma sl_ok_set_arena (m : Table) (ns : list Z) (ks : list bytes) (a : Arena.Arena) :
  mem_sl m ns ks -> arena_inv a (dom (heap m)) -> mem_sl (set_arena m a) ns ks.
Proof.
  intros [[H1 H2 H3 H4 H5 H6] H7 H8 H9 _] Ha. split; [|done|done|done|done]. split; try done.
  intros i Hi. eapply chain_ext; [|by apply H6]. done.
Qed.

(** Entries with different internal keys are comparable. *)
Lemma enc_comparable (e e' : Entry) :
  entry_ok e -> entry_ok e' -> e_ikey e <> e_ikey e' ->
  mem_lt (enc e) (enc e') \/ mem_lt (enc e') (enc e).
Proof.
  intros He He' Hne. unfold mem_lt. rewrite !key_of_enc by done.
  destruct (cmp_cases (C := InternalKeyComparator U) _ _ (e_ikey_ok e He) (e_ikey_ok e' He'))
    as [(r & _ & _ & Hlt)|[(_ & Heq)|(r & _ & _ & Hlt)]]; [by left|done|by right].
Qed.

Lemma Add_ok (m : Table) (es : list Entry) (e : Entry) :
  mem_rep m es -> entry_ok e -> Forall (fun e' => e_ikey e' <> e_ikey e) es ->
  exists m' es', Add new U m (e_seq e) (e_type e) (e_key e) (e_value e) = Some m' /\
    mem_rep m' es' /\ es' ≡ₚ e :: es.
Proof.
  intros [Hes (ns & Hsl)] He Hne. unfold Add. pose proof (length_enc_entry e He) as Hlen.
  fold (enc e). rewrite <- Hlen. set (n := Z.of_nat (length (enc e))) in *.
  assert (0 < n) as Hn.
  { unfold n. rewrite enc_slices. unfold PutLengthPrefixedSlice, PutVarint32.
    rewrite !length_app. pose proof (length_EncodeVarint32 (u32 (Z.of_nat (length (e_ikey e))))). lia. }
  pose proof (Allocate_inv new Hnew (arena_ m) _ n (so_inv _ _ _ Hsl) Hn) as Ha.
  destruct (Arena.Allocate new (arena_ m) n) as [p a]. simpl in Ha.
  rewrite (proj2 (Z.leb_le _ _)) by lia.
  destruct (SkipList_Insert_ok (AL := al) (HA := arena_allocator_spec new Hnew) (KeyComparator U)
    (set_arena m a) ns (map enc es) (enc e)) as (m' & ns' & ks' & Hm' & Hsl' & Hp).
  - by apply sl_ok_set_arena.
  - by apply enc_ok.
  - apply Forall_fmap. apply Forall_forall. intros e' Hin. rewrite Forall_forall in Hes, Hne.
    apply enc_comparable; auto.
  - change (enc e :: map enc es) with (map enc (e :: es)) in Hp.
    apply Permutation_map_inv in Hp as (es' & -> & Hp'). exists m', es'. split_and!; [done| |by symmetry].
    split; [|by exists ns']. rewrite <- Hp'. by constructor.
Qed.

(** ** Lookups *)

Definition lookup_ok (u : bytes) (s : Z) : Prop :=
  ok u /\ seq_ok s /\ Z.of_nat (length u) + 8 < 2 ^ 32.

Lemma memtable_key_slice (u : bytes) (s : Z) :
  memtable_key (LookupKey_new u s)
  = PutLengthPrefixedSlice [] (ikey u (PackSequenceAndType s kTypeValue)) ++ [].
Proof.
  rewrite app_nil_r. unfold memtable_key, LookupKey_new, PutLengthPrefixedSlice, PutVarint32. simpl.
  rewrite length_ikey. unfold ikey. by rewrite Nat2Z.inj_add.
Qed.

Lemma lookup_short (u : bytes) (s : Z) :
  lookup_ok u s -> short (ikey u (PackSequenceAndType s kTypeValue)).
Proof. intros (_ & _ & ?). unfold short. rewrite length_ikey. lia. Qed.

Lemma memtable_key_ok (u : bytes) (s : Z) :
  lookup_ok u s -> mem_ok (memtable_key (LookupKey_new u s)).
Proof.
  intros Hl. pose proof (lookup_short u s Hl) as Hsh. destruct Hl as (Hu & Hs & _).
  eexists _, []. split; [apply memtable_key_slice|]. split; [done|].
  apply ikey_ok_intro; [by apply PackSequenceAndType_range|done].
Qed.

(** An entry sorts before the sought key when it is of a smaller key, or a
    newer one of the same key. *)
Lemma enc_lt_lookup (e : Entry) (u : bytes) (s : Z) :
  entry_ok e -> lookup_ok u s ->
  mem_lt (enc e) (memtable_key (LookupKey_new u s)) <->
  cmp_lt (e_key e) u \/ (e_key e = u /\ s < e_seq e).
Proof.
  intros He Hl. pose proof (lookup_short u s Hl) as Hsh. destruct Hl as (Hu & Hs & _).
  unfold mem_lt. rewrite memtable_key_slice, mem_key, key_of_enc by done. unfold e_ikey.
  rewrite icmp_lt by (apply PackSequenceAndType_range, (eo_seq _ He) || (by apply PackSequenceAndType_range)
    || apply (eo_key _ He) || done).
  rewrite !PackSequenceAndType_value by (done || apply (eo_seq _ He)).
  assert (s * 256 + ValueType_to_Z kTypeValue < e_seq e * 256 + ValueType_to_Z (e_type e) <-> s < e_seq e) as ->;
    [|done]. destruct (e_type e); simpl; lia.
Qed.

Lemma visible_before (e : Entry) (u : bytes) (s : Z) :
  entry_ok e -> lookup_ok u s -> mem_lt (enc e) (memtable_key (LookupKey_new u s)) -> ~ visible u s e.
Proof.
  intros He Hl Hlt [Hk Hs]. apply enc_lt_lookup in Hlt; [|done|done]. destruct Hl as (Hu & _ & _).
  destruct Hlt as [Hlt|[_ ?]]; [|lia]. rewrite Hk in Hlt. by destruct (cmp_lt_irrefl u Hu).
Qed.

(** Seeking lands on the newest visible entry, if there is one. *)
Lemma seek_newest (es : list Entry) (i : nat) (u : bytes) (s : Z) :
  Forall entry_ok es -> NoDup (map e_seq es) -> lookup_ok u s ->
  StronglySorted mem_lt (map enc es) ->
  Forall (fun k => mem_lt k (memtable_key (LookupKey_new u s))) (take i (map enc es)) ->
  Forall (fun k => ~ mem_lt k (memtable_key (LookupKey_new u s))) (drop i (map enc es)) ->
  newest u s es = match es !! i with
                  | Some e => if decide (e_key e = u) then Some e else None
                  | None => None
                  end.
Proof.
  intros Hes Hnd Hl Hsort Hlt Hge. rewrite <- fmap_take, Forall_fmap in Hlt.
  rewrite <- fmap_drop, Forall_fmap in Hge. pose proof (proj1 Hl) as Hu.
  assert (Forall (fun e => ~ visible u s e) (take i es)) as Hbefore.
  { rewrite Forall_forall in Hlt, Hes |- *. intros e He. apply visible_before; [|done|by apply Hlt].
    apply Hes. by eapply elem_of_take in He as (j & ? & _); eapply list_elem_of_lookup_2. }
  destruct (es !! i) as [e|] eqn:Ei.
  2:{ apply newest_none. apply lookup_ge_None in Ei. by rewrite take_ge in Hbefore. }
  pose proof (take_drop_middle es i e Ei) as Hsplit.
  assert (entry_ok e) as He by (by eapply Forall_lookup_1).
  assert (Forall entry_ok (drop (S i) es)) as Hrest.
  { rewrite <- Hsplit, Forall_app, Forall_cons in Hes. tauto. }
  rewrite <- Hsplit, map_app in Hsort. apply sorted_app_inv in Hsort as (_ & Hsort & _).
  simpl in Hsort. inversion Hsort as [|? ? _ Hafter]; subst. rewrite Forall_map in Hafter.
  rewrite (drop_S _ _ _ Ei) in Hge. apply Forall_cons in Hge as [Hge _].
  unfold compose in Hge. rewrite enc_lt_lookup in Hge by done. case_decide as Hk.
  - apply newest_unique; [done|by eapply list_elem_of_lookup_2|split; [done|]|].
    { destruct (Z.le_gt_cases (e_seq e) s); [done|]. destruct Hge. right. split; [done|lia]. }
    rewrite <- Hsplit. apply Forall_app. split; [eapply Forall_impl; [exact Hbefore|]; by intros e' ? ?|].
    constructor; [lia|]. rewrite Forall_forall in Hafter, Hrest |- *. intros e' He' [Hk' _].
    specialize (Hafter e' He'). apply enc_lt in Hafter; [|done|by apply Hrest].
    rewrite Hk, Hk' in Hafter. destruct Hafter as [Hc|[_ Hc]]; [by destruct (cmp_lt_irrefl u Hu)|].
    rewrite !PackSequenceAndType_value in Hc by (apply (eo_seq _ He) || apply eo_seq; auto).
    destruct (e_type e), (e_type e'); simpl in Hc; lia.
  - apply newest_none. rewrite <- Hsplit. apply Forall_app. split; [done|]. constructor; [by intros [? _]|].
    rewrite Forall_forall in Hafter, Hrest |- *. intros e' He' [Hk' _].
    specialize (Hafter e' He'). specialize (Hrest e' He'). apply enc_lt in Hafter; [|done|done].
    destruct (cmp_cases (e_key e) u (eo_key _ He) Hu) as [(r & _ & _ & Hc)|[(_ & ?)|(r & _ & _ & Hc)]];
      [tauto|done|].
    destruct Hafter as [Ha|[Ha _]]; [|congruence]. rewrite Hk' in Ha.
    by destruct (cmp_lt_asym u (e_key e) Hu (eo_key _ He)).
Qed.

(** What [Get] makes of the entry it landed on. *)
Lemma Get_entry (m : Table) (node : Z) (e : Entry) (u : bytes) (s : Z) :
  entry_ok e -> lookup_ok u s -> node <> 0 ->
  Iterator_Seek (KeyComparator U) m (memtable_key (LookupKey_new u s)) = Some node ->
  Iterator_key m node = Some (enc e) ->
  Get U m (LookupKey_new u s) = Some (if decide (e_key e = u) then mem_get (e_key e) (e_seq e) [e] else MemMiss).
Proof.
  intros He (Hu & Hs & _) Hn Hseek Hkey. unfold Get. rewrite Hseek. cbn [mbind option_bind].
  unfold Iterator_Valid. rewrite (proj2 (Z.eqb_neq _ _)) by done. cbn [negb].
  rewrite Hkey. cbn [mbind option_bind]. pose proof (eo_short _ He) as Hsh. unfold short in Hsh.
  rewrite enc_slices. unfold PutLengthPrefixedSlice at 1, PutVarint32 at 1.
  rewrite app_nil_l, <- app_assoc. unfold u32. rewrite Z.mod_small by lia.
  change (GetVarint32Ptr ?x) with (GetVarint32 x). rewrite varint32_round by lia. cbn [mbind option_bind].
  rewrite (proj2 (Z.ltb_ge (Z.of_nat (length (e_ikey e))) 8)) by (unfold e_ikey; rewrite length_ikey; lia).
  rewrite (proj2 (Z.ltb_ge _ (Z.of_nat (length (e_ikey e))))) by (rewrite length_app; lia). cbn [orb].
  rewrite Nat2Z.id, take_app_length, drop_app_length. unfold e_ikey at 1 2.
  rewrite ExtractUserKey_ikey. cbn [mbind option_bind]. rewrite user_key_new.
  destruct (cmp_total (e_key e) u (eo_key _ He) Hu) as [r Hr]. rewrite Hr. cbn [mbind option_bind].
  assert (r = 0 <-> e_key e = u) as Hr0.
  { rewrite <- (cmp_eq (e_key e) u (eo_key _ He) Hu), Hr. split; [by intros ->|by intros [= ->]]. }
  destruct (Z.eqb_spec r 0) as [E|E]; case_decide as Hk; try tauto.
  rewrite ExtractTag_ikey by (apply PackSequenceAndType_range, (eo_seq _ He)). cbn [mbind option_bind].
  rewrite PackSequenceAndType_value by apply (eo_seq _ He).
  change 0xff with (2 ^ 8 - 1). rewrite land_mask_mod by lia. change (2 ^ 8) with 256.
  rewrite Z.add_comm, Z.mod_add by lia. unfold mem_get. cbn [newest].
  rewrite decide_True by (split; [done|lia]). destruct (e_type e); [done|]. cbn [ValueType_to_Z].
  change (ValueType_of_Z (1 mod 256)) with (Some kTypeValue).
  rewrite <- (app_nil_r (PutLengthPrefixedSlice [] (e_value e))).
  rewrite slice_parse by apply (eo_value _ He). done.
Qed.

Lemma Get_ok (m : Table) (es : list Entry) (u : bytes) (s : Z) :
  mem_rep m es -> NoDup (map e_seq es) -> lookup_ok u s ->
  Get U m (LookupKey_new u s) = Some (mem_get u s es).
Proof.
  intros [Hes (ns & Hsl)] Hnd Hl.
  pose proof (sl_view (AL := al) (HA := arena_allocator_spec new Hnew) (KeyComparator U) m ns _ Hsl) as Hv.
  destruct (vw_seek _ _ _ _ Hv _ (memtable_key_ok u s Hl)) as (i & Hi & Hseek & Hlt & Hge).
  unfold mem_get. rewrite (seek_newest es i u s Hes Hnd Hl (so_sorted _ _ _ Hsl) Hlt Hge).
  rewrite length_map in Hi. destruct (es !! i) as [e|] eqn:Ei.
  - assert (node_of ns i <> 0) as Hn.
    { rewrite (vw_null _ _ _ _ Hv), length_map. apply lookup_lt_Some in Ei. lia. }
    pose proof (Forall_lookup_1 _ _ _ _ Hes Ei) as He.
    rewrite (Get_entry m (node_of ns i) e u s He Hl Hn Hseek).
    + case_decide; [|done]. unfold mem_get. cbn [newest]. rewrite decide_True by (split; [done|lia]). done.
    + apply (vw_key _ _ _ _ Hv). by rewrite list_lookup_fmap, Ei.
  - unfold Get. rewrite Hseek. cbn [mbind option_bind]. apply lookup_ge_None in Ei.
    assert (node_of ns i = 0) as -> by (apply (vw_null _ _ _ _ Hv); rewrite length_map; lia). done.
Qed.

(** ** The iterator *)

Definition e_entry (e : Entry) : bytes * bytes := (e_ikey e, e_value e).

(** The iterator is at the [i]-th entry of [es], or at none. *)
Definition mem_at (m : Table) (ns : list Z) (it : MemTableIterator) (p : option nat) : Prop :=
  it.1 = m /\ match p with
              | Some i => (i < length ns)%nat /\ it.2 = node_of ns i
              | None => it.2 = 0
              end.

(** Targets of [Seek]. *)
Definition seek_ok (k : bytes) : Prop := short k /\ @ikey_ok ok k.

Lemma EncodeKey_ok (k : bytes) : seek_ok k -> mem_ok (EncodeKey k) /\ key_of (EncodeKey k) = k.
Proof.
  intros [Hs Hk]. assert (EncodeKey k = PutLengthPrefixedSlice [] k ++ []) as -> by (by rewrite app_nil_r).
  split; [by exists k, []|by apply mem_key].
Qed.

Lemma mem_at_pos (m : Table) (ns : list Z) (n i : nat) :
  length ns = n -> (forall j, node_of ns j = 0 <-> (n <= j)%nat) ->
  mem_at m ns (m, node_of ns i) (pos_of n i).
Proof.
  intros Hn Hnull. unfold pos_of. destruct (Nat.ltb_spec i n); split; try done; simpl; [lia|].
  by apply Hnull.
Qed.

Lemma MemTableIterator_ok (m : Table) (es : list Entry) (ns : list Z) :
  Forall entry_ok es -> mem_sl m ns (map enc es) ->
  IteratorSpec (MemTableIterator_iterator U) seek_ok (@cmp_lt (InternalKeyComparator U))
    (map e_entry es) (mem_at m ns).
Proof.
  intros Hes Hsl.
  pose proof (sl_view (AL := al) (HA := arena_allocator_spec new Hnew) (KeyComparator U) m ns _ Hsl) as Hv.
  assert (length ns = length es) as Hlen.
  { by rewrite (Forall2_length _ _ _ (so_keys _ _ _ Hsl)), length_map. }
  pose proof (vw_null _ _ _ _ Hv) as Hnull. rewrite length_map in Hnull.
  split.
  - intros [m' n] [i|] [Em Hp]; simpl in *; subst m'; unfold Iterator_Valid.
    + destruct Hp as [Hi ->]. apply negb_true_iff, Z.eqb_neq.
      rewrite Hnull. lia.
    + by rewrite Hp.
  - intros [m' n] i [Em [Hi Hn]]. simpl in *. subst m'. destruct (lookup_lt_is_Some_2 es i ltac:(lia)) as [e He].
    pose proof (Forall_lookup_1 _ _ _ _ Hes He) as Hok. exists (e_ikey e), (e_value e).
    rewrite list_lookup_fmap, He, Hn.
    rewrite (vw_key _ _ _ _ Hv i (enc e)) by (by rewrite list_lookup_fmap, He).
    cbn [mbind option_bind]. rewrite enc_slices, slice_parse by apply (eo_short _ Hok).
    split; [done|]. split; [done|]. cbn [mbind option_bind].
    rewrite <- (app_nil_r (PutLengthPrefixedSlice [] (e_value e))).
    by rewrite slice_parse by apply (eo_value _ Hok).
  - intros [m' n] p [Em _]. simpl in *. subst m'. rewrite (vw_first _ _ _ _ Hv). eexists. split; [done|].
    rewrite length_map. by apply mem_at_pos.
  - intros [m' n] p [Em _]. simpl in *. subst m'. rewrite (vw_last _ _ _ _ Hv), !length_map. eexists. split; [done|].
    destruct (length es); split; try done. simpl. split; [lia|done].
  - intros [m' n] i [Em [Hi Hn]]. simpl in *. subst m'. rewrite Hn, (vw_next _ _ _ _ Hv) by (rewrite length_map; lia).
    eexists. split; [done|]. rewrite length_map, Nat.add_1_r. by apply mem_at_pos.
  - intros [m' n] i [Em [Hi Hn]]. simpl in *. subst m'. rewrite Hn, (vw_prev _ _ _ _ Hv) by (rewrite length_map; lia).
    eexists. split; [done|]. destruct i; split; try done. simpl. split; [lia|done].
  - intros [m' n] p t [Em _] Ht. simpl in *. subst m'. destruct (EncodeKey_ok t Ht) as [Hok Hkt].
    destruct (vw_seek _ _ _ _ Hv (EncodeKey t) Hok) as (i & Hi & Hseek & Hlt & Hge).
    rewrite Hseek. exists (m, node_of ns i), i. rewrite !length_map in *.
    split_and!; [done|done|by apply mem_at_pos| |].
    + rewrite <- fmap_take, Forall_fmap in Hlt. rewrite <- fmap_take, Forall_fmap. rewrite Forall_forall in Hlt |- *. intros e He.
      specialize (Hlt e He). unfold compose, mem_lt in Hlt. rewrite Hkt, key_of_enc in Hlt; [done|].
      apply (Forall_take _ i) in Hes. rewrite Forall_forall in Hes. by apply Hes.
    + rewrite <- fmap_drop, Forall_fmap in Hge. rewrite <- fmap_drop, Forall_fmap. rewrite Forall_forall in Hge |- *. intros e He.
      specialize (Hge e He). unfold compose, mem_lt in Hge. rewrite Hkt, key_of_enc in Hge; [done|].
      apply (Forall_drop _ i) in Hes. rewrite Forall_forall in Hes. by apply Hes.
  - done.
Qed.

(** ** Sequences of insertions *)

Fixpoint Adds (m : Table) (es : list Entry) : option Table :=
  match es with
  | [] => Some m
  | e :: es => m ← Add new U m (e_seq e) (e_type e) (e_key e) (e_value e); Adds m es
  end.

Lemma seq_ikey (e e' : Entry) :
  entry_ok e -> entry_ok e' -> e_ikey e = e_ikey e' -> e_seq e = e_seq e'.
Proof.
  intros He He' Heq. unfold e_ikey in Heq.
  apply ikey_inj in Heq as [_ Heq]; try apply PackSequenceAndType_range; try by apply eo_seq.
  rewrite !PackSequenceAndType_value in Heq by (by apply eo_seq).
  destruct (e_type e), (e_type e'); simpl in Heq; lia.
Qed.

Lemma Adds_ok (es : list Entry) (m : Table) (cur : list Entry) :
  mem_rep m cur -> Forall entry_ok es -> NoDup (map e_seq (cur ++ es)) ->
  exists m' all, Adds m es = Some m' /\ mem_rep m' all /\ all ≡ₚ cur ++ es.
Proof.
  revert m cur. induction es as [|e es IH]; intros m cur Hm Hes Hnd.
  { exists m, cur. by rewrite app_nil_r. }
  apply Forall_cons in Hes as [He Hes].
  destruct (Add_ok m cur e Hm He) as (m1 & cur1 & H1 & Hm1 & Hp1).
  { destruct Hm as [Hcur _]. rewrite Forall_forall in Hcur |- *. intros e' He' Heq.
    apply seq_ikey in Heq; [|by apply Hcur|done]. rewrite map_app in Hnd.
    apply NoDup_app in Hnd as (_ & Hnd & _). apply (Hnd (e_seq e')); [by apply list_elem_of_fmap_2|].
    rewrite Heq. simpl. set_solver. }
  destruct (IH m1 cur1 Hm1 Hes) as (m' & all & H' & Hm' & Hp').
  { rewrite Hp1. simpl. rewrite map_app in Hnd |- *. simpl in Hnd.
    by rewrite <- Permutation_middle in Hnd. }
  exists m', all. cbn [Adds]. rewrite H1. split_and!; [done|done|].
  rewrite Hp', Hp1. simpl. apply Permutation_middle.
Qed.
End spec.
Arguments Adds new U m es : clear implicits.

(** ** Properties *)

(** C35. After any sequence of insertions with distinct sequence numbers, a
    lookup at a sequence number gives the value of the newest entry of the
    key up to it, [NotFound] when that entry is a deletion, and a miss when
    there is none; and the iterator runs through the entries in the order of
    their internal keys. *)
Theorem MemTable_refines (new : list Arena.range -> Z -> Z) (U : Comparator) (ok : bytes -> Prop)
    (ops : list Entry) :
  (forall bs n, 0 < n -> 0 < new bs n /\ new bs n mod 8 = 0 /\
     Forall (Arena.disjoint_range (new bs n, n)) bs) ->
  ComparatorSpec U ok -> Forall (entry_ok (ok := ok)) ops -> NoDup (map e_seq ops) ->
  exists m, (m ← MemTable_new new; Adds new U m ops) = Some m /\
    (forall u s, lookup_ok (ok := ok) u s -> Get U m (LookupKey_new u s) = Some (mem_get u s ops)) /\
    exists es at_, es ≡ₚ ops /\ at_ (NewIterator m) None /\
      IteratorSpec (MemTableIterator_iterator U) (seek_ok (ok := ok))
        (@cmp_lt (InternalKeyComparator U)) (map e_entry es) at_.
Proof.
  intros Hnew HU Hops Hnd.
  destruct (MemTable_new_ok new Hnew (U := U) (ok := ok)) as (m0 & H0 & Hm0).
  destruct (Adds_ok new Hnew ops m0 [] Hm0 Hops Hnd) as (m & es & Hm & Hrep & Hp).
  exists m. rewrite H0. split; [done|]. split.
  - intros u s Hl. simpl in Hp. rewrite (Get_ok new Hnew m es u s Hrep); [|by rewrite Hp|done].
    unfold mem_get. by rewrite (newest_perm u s ops es).
  - destruct Hrep as [Hes (ns & Hsl)]. exists es, (mem_at m ns). split_and!; [done|by split|].
    by apply (MemTableIterator_ok new Hnew).
Qed.

Definition mem_example : list Entry :=
  [MkEntry 1 kTypeValue [Byte.x61] [Byte.x31]; MkEntry 2 kTypeValue [Byte.x62] [Byte.x32];
   MkEntry 3 kTypeDeletion [Byte.x61] []; MkEntry 4 kTypeValue [Byte.x61] [Byte.x33]].

Lemma MemTable_refines_witness :
  exists m, (m ← MemTable_new Arena.new_after;
             Adds Arena.new_after Bytewise.BytewiseComparator m mem_example) = Some m /\
    Get Bytewise.BytewiseComparator m (LookupKey_new [Byte.x61] 2) = Some (MemValue [Byte.x31]) /\
    Get Bytewise.BytewiseComparator m (LookupKey_new [Byte.x61] 3) = Some (MemStatus (NotFound [])) /\
    Get Bytewise.BytewiseComparator m (LookupKey_new [Byte.x61] 9) = Some (MemValue [Byte.x33]) /\
    Get Bytewise.BytewiseComparator m (LookupKey_new [Byte.x62] 1) = Some MemMiss.
Proof.
  destruct (MemTable_refines Arena.new_after Bytewise.BytewiseComparator (fun _ => True) mem_example
    Arena.new_after_ok Bytewise.BytewiseComparator_spec) as (m & Hm & Hget & _).
  - repeat constructor; done.
  - apply (bool_decide_unpack (NoDup (map e_seq mem_example))). vm_compute. exact I.
  - exists m. split; [exact Hm|].
    split_and!; (rewrite Hget by (by repeat split)); vm_compute; reflexivity.
Defined.
