(* ===== verification/WriteBatch.v ===== *)
(** * Write batches

    [include/leveldb/write_batch.h], [db/write_batch_internal.h] and
    [db/write_batch.cc]: the string of updates that is logged and applied as
    one, and its insertion into a memtable.  A batch is its [rep_]; writing
    into the header of a shorter string is [None]. *)

From Stdlib Require Import String.
From S2P Require Import Prelude Status Coding Comparator DbFormat Arena SkipList SkipListSpec MemTable.

(** ** Definitions *)

(** [WriteBatch::Handler]. *)
Class Handler (H : Type) := {
  h_Put : H -> bytes -> bytes -> option H;
  h_Delete : H -> bytes -> option H }.

Definition kHeader : nat := 12.

(** Conversion of an unsigned 32-bit value to [int]. *)
Definition to_int (z : Z) : Z := if z <? 2 ^ 31 then z else z - 2 ^ 32.

Definition WriteBatch_new : bytes := replicate kHeader Byte.x00.
Definition Clear (rep_ : bytes) : bytes := WriteBatch_new.
Definition ApproximateSize (rep_ : bytes) : Z := Z.of_nat (length rep_).

(** *** [WriteBatchInternal] *)

Definition Count (rep_ : bytes) : option Z := to_int <$> DecodeFixed32 true (drop 8 rep_).

(** Overwriting [length e] bytes from [i] on. *)
Definition overwrite (rep_ : bytes) (i : nat) (e : bytes) : option bytes :=
  if (i + length e <=? length rep_)%nat
  then Some (take i rep_ ++ e ++ drop (i + length e) rep_) else None.

Definition SetCount (rep_ : bytes) (n : Z) : option bytes :=
  overwrite rep_ 8 (EncodeFixed32 true (u32 n)).
Definition Sequence (rep_ : bytes) : option Z := DecodeFixed64 true rep_.
Definition SetSequence (rep_ : bytes) (seq : Z) : option bytes :=
  overwrite rep_ 0 (EncodeFixed64 true seq).
Definition Contents (rep_ : bytes) : bytes := rep_.
Definition ByteSize (rep_ : bytes) : Z := Z.of_nat (length rep_).
Definition SetContents (rep_ contents : bytes) : bytes := contents.

Definition Append (dst src : bytes) : option bytes :=
  nd ← Count dst;
  ns ← Count src;
  dst ← SetCount dst (nd + ns);
  Some (dst ++ drop kHeader src).

(** *** Updates *)

Definition Put (rep_ key value : bytes) : option bytes :=
  n ← Count rep_;
  rep_ ← SetCount rep_ (n + 1);
  let rep_ := rep_ ++ [byte.of_Z (ValueType_to_Z kTypeValue)] in
  Some (PutLengthPrefixedSlice (PutLengthPrefixedSlice rep_ key) value).

Definition Delete (rep_ key : bytes) : option bytes :=
  n ← Count rep_;
  rep_ ← SetCount rep_ (n + 1);
  let rep_ := rep_ ++ [byte.of_Z (ValueType_to_Z kTypeDeletion)] in
  Some (PutLengthPrefixedSlice rep_ key).

Section iterate.
Context {H : Type} `{Handler H}.

(** The loop; every iteration consumes the tag.  The result is the number of
    updates found, or the error. *)
Fixpoint Iterate_loop (fuel : nat) (input : bytes) (found : Z) (h : H)
    : option ((Z + Status) * H) :=
  match fuel with
  | O => None
  | S fuel =>
      match input with
      | [] => Some (inl found, h)
      | tag :: input =>
          let found := found + 1 in
          if signed_char tag =? ValueType_to_Z kTypeValue then
            match ('(key, input) ← Coding.GetLengthPrefixedSlice input;
                   '(value, input) ← Coding.GetLengthPrefixedSlice input;
                   Some (key, value, input)) with
            | Some (key, value, input) =>
                h ← h_Put h key value;
                Iterate_loop fuel input found h
            | None => Some (inr (Corruption (bs "bad WriteBatch Put")), h)
            end
          else if signed_char tag =? ValueType_to_Z kTypeDeletion then
            match Coding.GetLengthPrefixedSlice input with
            | Some (key, input) =>
                h ← h_Delete h key;
                Iterate_loop fuel input found h
            | None => Some (inr (Corruption (bs "bad WriteBatch Delete")), h)
            end
          else Some (inr (Corruption (bs "unknown WriteBatch tag")), h)
      end
  end.

Definition Iterate (rep_ : bytes) (h : H) : option (Status * H) :=
  if (length rep_ <? kHeader)%nat
  then Some (Corruption (bs "malformed WriteBatch (too small)"), h)
  else
    let input := drop kHeader rep_ in
    '(r, h) ← Iterate_loop (S (length input)) input 0 h;
    match r with
    | inr s => Some (s, h)
    | inl found =>
        n ← Count rep_;
        Some (if found =? n then OK else Corruption (bs "WriteBatch has wrong count"), h)
    end.
End iterate.

(** *** Insertion into a memtable *)

Section insert.
Context (new : list Arena.range -> Z -> Z) (cmp : Comparator).

(** [sequence_] and [mem_]. *)
Definition MemTableInserter : Type := Z * Table.

#[export] Instance MemTableInserter_handler : Handler MemTableInserter := {|
  h_Put '(sequence_, mem_) key value :=
    mem_ ← MemTable.Add new cmp mem_ sequence_ kTypeValue key value;
    Some (u64 (sequence_ + 1), mem_);
  h_Delete '(sequence_, mem_) key :=
    mem_ ← MemTable.Add new cmp mem_ sequence_ kTypeDeletion key [];
    Some (u64 (sequence_ + 1), mem_) |}.

Definition InsertInto (rep_ : bytes) (memtable : Table) : option (Status * Table) :=
  seq ← Sequence rep_;
  '(s, (_, mem)) ← Iterate rep_ (seq, memtable);
  Some (s, mem).
End insert.

(** ** Batches as lists of updates *)

Inductive BatchOp := OpPut (key value : bytes) | OpDelete (key : bytes).

Definition op_bytes (op : BatchOp) : bytes :=
  match op with
  | OpPut k v => Byte.x01 :: PutLengthPrefixedSlice [] k ++ PutLengthPrefixedSlice [] v
  | OpDelete k => Byte.x00 :: PutLengthPrefixedSlice [] k
  end.

Definition op_short (op : BatchOp) : Prop :=
  match op with OpPut k v => short k /\ short v | OpDelete k => short k end.

(** The batch with a sequence number and the updates [ops]. *)
Definition batch (seq : Z) (ops : list BatchOp) : bytes :=
  EncodeFixed64 true seq ++ EncodeFixed32 true (Z.of_nat (length ops)) ++ concat (map op_bytes ops).

Definition apply_op (rep_ : bytes) (op : BatchOp) : option bytes :=
  match op with OpPut k v => Put rep_ k v | OpDelete k => Delete rep_ k end.

Fixpoint build (rep_ : bytes) (ops : list BatchOp) : option bytes :=
  match ops with
  | [] => Some rep_
  | op :: ops => rep_ ← apply_op rep_ op; build rep_ ops
  end.

Definition handle {H} `{Handler H} (h : H) (op : BatchOp) : option H :=
  match op with OpPut k v => h_Put h k v | OpDelete k => h_Delete h k end.

Fixpoint handle_all {H} `{Handler H} (h : H) (ops : list BatchOp) : option H :=
  match ops with
  | [] => Some h
  | op :: ops => h ← handle h op; handle_all h ops
  end.

Definition count_ok (n : nat) : Prop := Z.of_nat n < 2 ^ 31.

Lemma length_fixed32 (v : Z) : length (EncodeFixed32 true v) = 4%nat.
Proof. apply length_le_split. Qed.

Lemma length_fixed64 (v : Z) : length (EncodeFixed64 true v) = 8%nat.
Proof. apply length_le_split. Qed.

Lemma batch_drop8 (seq : Z) (ops : list BatchOp) :
  drop 8 (batch seq ops) = EncodeFixed32 true (Z.of_nat (length ops)) ++ concat (map op_bytes ops).
Proof. unfold batch. rewrite <- (length_fixed64 seq) at 1. apply drop_app_length. Qed.

Lemma batch_drop12 (seq : Z) (ops : list BatchOp) :
  drop kHeader (batch seq ops) = concat (map op_bytes ops).
Proof.
  change kHeader with (8 + 4)%nat. rewrite <- drop_drop, batch_drop8.
  rewrite <- (length_fixed32 (Z.of_nat (length ops))) at 1. apply drop_app_length.
Qed.

Lemma batch_take8 (seq : Z) (ops : list BatchOp) : take 8 (batch seq ops) = EncodeFixed64 true seq.
Proof. unfold batch. rewrite <- (length_fixed64 seq) at 1. apply take_app_length. Qed.

Lemma length_batch (seq : Z) (ops : list BatchOp) :
  length (batch seq ops) = (12 + length (concat (map op_bytes ops)))%nat.
Proof. unfold batch. rewrite !length_app, length_fixed32, length_fixed64. lia. Qed.

Lemma Count_batch (seq : Z) (ops : list BatchOp) :
  count_ok (length ops) -> Count (batch seq ops) = Some (Z.of_nat (length ops)).
Proof.
  intros Hc. unfold count_ok in Hc. unfold Count. rewrite batch_drop8, fixed32_round by lia.
  simpl. unfold to_int. by rewrite (proj2 (Z.ltb_lt _ _)) by lia.
Qed.

Lemma SetCount_batch (seq : Z) (ops : list BatchOp) (n : nat) :
  count_ok n ->
  SetCount (batch seq ops) (Z.of_nat n)
  = Some (EncodeFixed64 true seq ++ EncodeFixed32 true (Z.of_nat n) ++ concat (map op_bytes ops)).
Proof.
  intros Hn. unfold count_ok in Hn. unfold SetCount, overwrite. rewrite length_fixed32, length_batch.
  rewrite (proj2 (Nat.leb_le _ _)) by lia. change (8 + 4)%nat with kHeader.
  rewrite batch_drop12, batch_take8. unfold u32. rewrite Z.mod_small by lia. done.
Qed.

Lemma apply_op_batch (seq : Z) (ops : list BatchOp) (op : BatchOp) :
  count_ok (length ops + 1) -> apply_op (batch seq ops) op = Some (batch seq (ops ++ [op])).
Proof.
  intros Hc. unfold count_ok in Hc.
  assert (forall tl, (n ← Count (batch seq ops); rep ← SetCount (batch seq ops) (n + 1); Some (rep ++ tl))
    = Some (EncodeFixed64 true seq ++ EncodeFixed32 true (Z.of_nat (length (ops ++ [op])))
            ++ concat (map op_bytes ops) ++ tl)) as Hset.
  { intros tl. rewrite Count_batch by (unfold count_ok; lia). cbn [mbind option_bind].
    replace (Z.of_nat (length ops) + 1) with (Z.of_nat (length (ops ++ [op]))) by (rewrite length_app; simpl; lia).
    rewrite SetCount_batch by (unfold count_ok; rewrite length_app; simpl; lia).
    cbn [mbind option_bind]. by rewrite <- !app_assoc. }
  unfold batch at 2. rewrite map_app, concat_app. destruct op as [k v|k];
    cbn [apply_op op_bytes map concat]; rewrite app_nil_r, <- Hset.
  - unfold Put. destruct (Count _) as [n|]; [|done]. cbn [mbind option_bind].
    destruct (SetCount _ _) as [r|]; [|done]. cbn [mbind option_bind]. f_equal.
    unfold PutLengthPrefixedSlice, PutVarint32. simpl. by rewrite <- !app_assoc.
  - unfold Delete. destruct (Count _) as [n|]; [|done]. cbn [mbind option_bind].
    destruct (SetCount _ _) as [r|]; [|done]. cbn [mbind option_bind]. f_equal.
    unfold PutLengthPrefixedSlice, PutVarint32. simpl. by rewrite <- !app_assoc.
Qed.

Lemma build_batch (seq : Z) (ops more : list BatchOp) :
  count_ok (length ops + length more) -> build (batch seq ops) more = Some (batch seq (ops ++ more)).
Proof.
  revert ops. induction more as [|op more IH]; intros ops Hc; [by rewrite app_nil_r|].
  unfold count_ok in *. simpl in Hc. cbn [build].
  rewrite apply_op_batch by (unfold count_ok; lia). cbn [mbind option_bind].
  rewrite IH, <- app_assoc by (rewrite length_app; simpl; lia). done.
Qed.

Lemma Sequence_batch (seq : Z) (ops : list BatchOp) :
  0 <= seq < 2 ^ 64 -> Sequence (batch seq ops) = Some seq.
Proof. intros Hs. unfold Sequence, batch. by apply fixed64_round. Qed.

Lemma SetSequence_batch (seq seq' : Z) (ops : list BatchOp) :
  SetSequence (batch seq ops) seq' = Some (batch seq' ops).
Proof.
  unfold SetSequence, overwrite. rewrite length_fixed64, length_batch.
  rewrite (proj2 (Nat.leb_le _ _)) by lia. change (0 + 8)%nat with 8%nat. by rewrite batch_drop8.
Qed.

Lemma Append_batch (seq seq' : Z) (ops ops' : list BatchOp) :
  count_ok (length ops + length ops') ->
  Append (batch seq ops) (batch seq' ops') = Some (batch seq (ops ++ ops')).
Proof.
  intros Hc. unfold count_ok in Hc. unfold Append.
  rewrite !Count_batch by (unfold count_ok; lia). cbn [mbind option_bind].
  rewrite <- Nat2Z.inj_add, SetCount_batch by done. cbn [mbind option_bind].
  rewrite batch_drop12. unfold batch. rewrite map_app, concat_app, length_app. by rewrite <- !app_assoc.
Qed.

(** ** Iteration *)

Section handler.
Context {H : Type} `{Handler H}.

Lemma Iterate_loop_ops (ops : list BatchOp) (fuel : nat) (found : Z) (h : H) :
  Forall op_short ops -> (length (concat (map op_bytes ops)) < fuel)%nat ->
  Iterate_loop fuel (concat (map op_bytes ops)) found h
  = h ← handle_all h ops; Some (inl (found + Z.of_nat (length ops)), h).
Proof.
  intros Hs. revert fuel found h. induction Hs as [|op ops Hop Hs IH]; intros fuel found h Hf.
  { destruct fuel; [simpl in Hf; lia|]. simpl. by rewrite Z.add_0_r. }
  destruct fuel as [|fuel]; [lia|]. cbn [map concat] in *. rewrite length_app in Hf.
  assert (forall h', handle_all h' (op :: ops) = h'' ← handle h' op; handle_all h'' ops) as Hh by done.
  rewrite Hh. replace (found + Z.of_nat (length (op :: ops))) with ((found + 1) + Z.of_nat (length ops))
    by (simpl length; lia).
  destruct op as [k v|k]; cbn [op_bytes app handle length] in *; cbn [Iterate_loop].
  - destruct Hop as [Hk Hv]. change (signed_char Byte.x01 =? ValueType_to_Z kTypeValue) with true.
    rewrite <- app_assoc, slice_round by done. cbn [mbind option_bind].
    rewrite slice_round by done. cbn [mbind option_bind].
    destruct (h_Put h k v) as [h'|]; [|done]. cbn [mbind option_bind]. apply IH. lia.
  - change (signed_char Byte.x00 =? ValueType_to_Z kTypeValue) with false.
    change (signed_char Byte.x00 =? ValueType_to_Z kTypeDeletion) with true.
    rewrite slice_round by done. cbn [mbind option_bind].
    destruct (h_Delete h k) as [h'|]; [|done]. cbn [mbind option_bind]. apply IH. lia.
Qed.

Lemma Iterate_batch (seq : Z) (ops : list BatchOp) (h : H) :
  Forall op_short ops -> count_ok (length ops) ->
  Iterate (batch seq ops) h = h ← handle_all h ops; Some (OK, h).
Proof.
  intros Hs Hc. unfold Iterate. rewrite length_batch, (proj2 (Nat.ltb_ge _ _)) by (unfold kHeader; lia).
  rewrite batch_drop12, Iterate_loop_ops by (done || lia).
  destruct (handle_all h ops) as [h'|]; [|done]. cbn [mbind option_bind].
  rewrite Count_batch by done. cbn [mbind option_bind]. by rewrite Z.add_0_l, Z.eqb_refl.
Qed.

(** Every string is read to its end or to an error: the loop does not run out
    of fuel. *)
Lemma Iterate_loop_total (fuel : nat) (input : bytes) (found : Z) (h : H) :
  (forall h k v, is_Some (h_Put h k v)) -> (forall h k, is_Some (h_Delete h k)) ->
  (length input < fuel)%nat -> is_Some (Iterate_loop fuel input found h).
Proof.
  intros HP HD. revert input found h. induction fuel as [|fuel IH]; intros input found h Hf; [lia|].
  cbn [Iterate_loop]. destruct input as [|tag input]; [by eexists|]. simpl in Hf.
  case_match.
  - destruct (Coding.GetLengthPrefixedSlice input) as [[k in1]|] eqn:E1; [|by eexists].
    cbn [mbind option_bind]. destruct (Coding.GetLengthPrefixedSlice in1) as [[v in2]|] eqn:E2; [|by eexists].
    cbn [mbind option_bind]. destruct (HP h k v) as [h' ->]. cbn [mbind option_bind]. apply IH.
    apply GetLengthPrefixedSlice_consumes in E1, E2. lia.
  - case_match; [|by eexists].
    destruct (Coding.GetLengthPrefixedSlice input) as [[k in1]|] eqn:E1; [|by eexists].
    destruct (HD h k) as [h' ->]. cbn [mbind option_bind]. apply IH. apply GetLengthPrefixedSlice_consumes in E1. lia.
Qed.
End handler.

(** ** Insertion into a memtable *)

(** The entries a batch adds: consecutive sequence numbers from [seq] on. *)
Fixpoint batch_entries (seq : Z) (ops : list BatchOp) : list Entry :=
  match ops with
  | [] => []
  | OpPut k v :: ops => MkEntry seq kTypeValue k v :: batch_entries (seq + 1) ops
  | OpDelete k :: ops => MkEntry seq kTypeDeletion k [] :: batch_entries (seq + 1) ops
  end.

Lemma length_batch_entries (seq : Z) (ops : list BatchOp) :
  length (batch_entries seq ops) = length ops.
Proof. revert seq. induction ops as [|[] ops IH]; intros seq; simpl; f_equal; apply IH. Qed.

Lemma batch_entries_app (seq : Z) (ops ops' : list BatchOp) :
  batch_entries seq (ops ++ ops')
  = batch_entries seq ops ++ batch_entries (seq + Z.of_nat (length ops)) ops'.
Proof.
  revert seq. induction ops as [|[] ops IH]; intros seq; cbn [app batch_entries length].
  - by rewrite Z.add_0_r.
  - rewrite IH. by replace (seq + 1 + Z.of_nat (length ops)) with (seq + Z.of_nat (S (length ops))) by lia.
  - rewrite IH. by replace (seq + 1 + Z.of_nat (length ops)) with (seq + Z.of_nat (S (length ops))) by lia.
Qed.

Lemma batch_entries_seqs (seq : Z) (ops : list BatchOp) :
  map e_seq (batch_entries seq ops) = seqZ seq (Z.of_nat (length ops)).
Proof.
  revert seq. induction ops as [|[] ops IH]; intros seq; [done| |]; cbn [batch_entries map length e_seq];
    rewrite IH, Nat2Z.inj_succ, (seqZ_cons seq) by lia; f_equal; f_equal; lia.
Qed.

Section insert_spec.
Context (new : list Arena.range -> Z -> Z) (U : Comparator).

Lemma handle_all_Adds (ops : list BatchOp) (seq : Z) (m : Table) :
  0 <= seq -> seq + Z.of_nat (length ops) < 2 ^ 64 ->
  @handle_all _ (MemTableInserter_handler new U) (seq, m) ops
  = m' ← Adds new U m (batch_entries seq ops); Some (seq + Z.of_nat (length ops), m').
Proof.
  revert seq m. induction ops as [|op ops IH]; intros seq m H0 Hs.
  { simpl. by rewrite Z.add_0_r. }
  cbn [length] in *. cbn [handle_all].
  assert (u64 (seq + 1) = seq + 1) as Hu by (unfold u64; apply Z.mod_small; lia).
  replace (seq + Z.of_nat (S (length ops))) with (seq + 1 + Z.of_nat (length ops)) by lia.
  destruct op as [k v|k]; cbn [handle h_Put h_Delete MemTableInserter_handler batch_entries Adds e_seq
    e_type e_key e_value].
  - destruct (Add new U m seq kTypeValue k v) as [m1|]; [|done]. cbn [mbind option_bind].
    rewrite Hu, IH by lia. done.
  - destruct (Add new U m seq kTypeDeletion k []) as [m1|]; [|done]. cbn [mbind option_bind].
    rewrite Hu, IH by lia. done.
Qed.

Lemma InsertInto_batch (seq : Z) (ops : list BatchOp) (m : Table) :
  Forall op_short ops -> count_ok (length ops) -> 0 <= seq -> seq + Z.of_nat (length ops) < 2 ^ 64 ->
  InsertInto new U (batch seq ops) m
  = m' ← Adds new U m (batch_entries seq ops); Some (OK, m').
Proof.
  intros Hops Hc H0 Hs. unfold InsertInto. rewrite Sequence_batch by lia. cbn [mbind option_bind].
  rewrite (Iterate_batch seq ops (seq, m)), handle_all_Adds by done.
  destruct (Adds new U m (batch_entries seq ops)) as [m'|]; done.
Qed.
End insert_spec.

(** The updates whose keys and values a table can hold. *)
Definition op_ok (ok : bytes -> Prop) (op : BatchOp) : Prop :=
  match op with
  | OpPut k v => ok k /\ Z.of_nat (length k) + 8 < 2 ^ 32 /\ short v
  | OpDelete k => ok k /\ Z.of_nat (length k) + 8 < 2 ^ 32
  end.

Lemma op_ok_short (ok : bytes -> Prop) (op : BatchOp) : op_ok ok op -> op_short op.
Proof. destruct op; unfold op_ok, op_short, short; [intros (? & ? & ?)|intros (? & ?)]; lia. Qed.

Lemma batch_entries_ok (ok : bytes -> Prop) (seq : Z) (ops : list BatchOp) :
  Forall (op_ok ok) ops -> 0 <= seq -> seq + Z.of_nat (length ops) <= kMaxSequenceNumber + 1 ->
  Forall (entry_ok (ok := ok)) (batch_entries seq ops).
Proof.
  intros Hops. revert seq. induction Hops as [|op ops Hop Hops IH]; intros seq H0 Hs; [constructor|].
  cbn [length] in Hs. destruct op as [k v|k]; cbn [batch_entries]; constructor; try (apply IH; lia).
  - destruct Hop as (Hk & Hl & Hv). split; simpl; [unfold seq_ok; lia|done| |done].
    unfold short, e_ikey. rewrite length_ikey. simpl. lia.
  - destruct Hop as (Hk & Hl). split; simpl; [unfold seq_ok; lia|done| |unfold short; simpl; lia].
    unfold short, e_ikey. rewrite length_ikey. simpl. lia.
Qed.

(** ** Properties *)

(** C36. A batch made of any list of puts and deletions counts them and hands
    them to a handler in the order they were made; appending a second batch
    appends its updates. *)
Theorem WriteBatch_roundtrip (H : Type) (HH : Handler H) (ops ops' : list BatchOp) (h : H) :
  Forall op_short (ops ++ ops') -> Z.of_nat (length (ops ++ ops')) < 2 ^ 31 ->
  exists b b' bb, build WriteBatch_new ops = Some b /\ build WriteBatch_new ops' = Some b' /\
    Append b b' = Some bb /\ Count bb = Some (Z.of_nat (length (ops ++ ops'))) /\
    Iterate b h = (h ← handle_all h ops; Some (OK, h)) /\
    Iterate bb h = (h ← handle_all h (ops ++ ops'); Some (OK, h)).
Proof.
  intros Hs Hc. rewrite length_app in Hc. pose proof Hs as Hs'. apply Forall_app in Hs' as [Hs1 Hs2].
  exists (batch 0 ops), (batch 0 ops'), (batch 0 (ops ++ ops')).
  assert (forall l, (length l <= length ops + length ops')%nat -> build WriteBatch_new l = Some (batch 0 l)) as Hb.
  { intros l Hl. apply (build_batch 0 [] l). unfold count_ok. simpl. lia. }
  assert (count_ok (length (ops ++ ops'))) as Hcc by (unfold count_ok; rewrite length_app; lia).
  split_and!; [apply Hb; lia|apply Hb; lia|apply Append_batch; unfold count_ok; lia| | |].
  - by apply Count_batch.
  - apply Iterate_batch; [done|unfold count_ok; lia].
  - by apply Iterate_batch.
Qed.

(** The handler of the witness collects what it is given. *)
#[local] Instance collector : Handler (list BatchOp) := {|
  h_Put h k v := Some (h ++ [OpPut k v]); h_Delete h k := Some (h ++ [OpDelete k]) |}.

Lemma WriteBatch_roundtrip_witness :
  exists b b' bb, build WriteBatch_new [OpPut (bs "a") (bs "1")] = Some b /\
    build WriteBatch_new [OpDelete (bs "a"); OpPut (bs "b") (bs "2")] = Some b' /\
    Append b b' = Some bb /\ Count bb = Some 3 /\
    Iterate bb [] = Some (OK, [OpPut (bs "a") (bs "1"); OpDelete (bs "a"); OpPut (bs "b") (bs "2")]).
Proof.
  destruct (WriteBatch_roundtrip _ collector [OpPut (bs "a") (bs "1")]
    [OpDelete (bs "a"); OpPut (bs "b") (bs "2")] []) as (b & b' & bb & H1 & H2 & H3 & H4 & _ & H6).
  - repeat constructor; done.
  - done.
  - exists b, b', bb. split_and!; [exact H1|exact H2|exact H3|exact H4|exact H6].
Defined.

(** Reading a batch terminates for every string of bytes, and an entry cut
    short, an unknown tag or a wrong count is reported as a corruption. *)
Theorem Iterate_total (H : Type) (HH : Handler H) (rep_ : bytes) (h : H) :
  (forall h k v, is_Some (h_Put h k v)) -> (forall h k, is_Some (h_Delete h k)) ->
  exists s h', Iterate rep_ h = Some (s, h') /\ (s = OK \/ code s = kCorruption).
Proof.
  intros HP HD. unfold Iterate. case_match eqn:E; [eexists _, _; split; [done|]; by right|].
  apply Nat.ltb_ge in E. unfold kHeader in *. destruct (Iterate_loop_total (S (length (drop 12 rep_)))
    (drop 12 rep_) 0 h HP HD) as [[r h'] Hr]; [lia|]. rewrite Hr. cbn [mbind option_bind].
  assert (is_Some (Count rep_)) as [n Hn].
  { unfold Count, DecodeFixed32. rewrite (proj2 (Nat.leb_le _ _)) by (rewrite length_drop; lia). by eexists. }
  destruct r as [found|s].
  - rewrite Hn. cbn [mbind option_bind]. eexists _, _. split; [done|]. case_match; [by left|by right].
  - eexists _, _. split; [done|]. right. clear -Hr. revert Hr.
    generalize (S (length (drop 12 rep_))). generalize (drop 12 rep_). generalize 0.
    intros found input fuel. revert input found h. induction fuel as [|fuel IH]; intros input found h; [done|].
    cbn [Iterate_loop]. destruct input as [|tag input]; [done|]. repeat case_match; intros Hr;
      simplify_eq; try done; apply bind_Some in Hr as (h1 & _ & Hr); by eapply IH.
Qed.

Lemma Iterate_total_witness :
  exists s h', @Iterate _ collector (batch 7 [OpPut (bs "a") (bs "1")] ++ [Byte.x05]) [] = Some (s, h') /\
    (s = OK \/ code s = kCorruption).
Proof. apply (Iterate_total _ collector); intros; eexists; reflexivity. Defined.
