(* ===== verification/DbIter.v ===== *)
(** * Database iterators

    [db/db_iter.cc]: the iterator over user keys that [DB::NewIterator] returns.
    It runs over internal entries, in the order of internal keys, and shows
    for every user key the newest entry that the snapshot sees, if that is not
    a deletion.

    [FindNextUserEntry] is always called with [skip] pointing to [saved_key_],
    so the key to skip is [saved_key_] itself.  The capacity of a string is not
    modelled: both branches of [ClearSavedValue] leave it empty.
    [bytes_counter_] is counted down and read nowhere. *)

From Stdlib Require Import String.
From S2P Require Import Prelude Status Coding Comparator DbFormat Random Iterator MemTable.

Module DBI.

(** ** Definitions *)

Definition kReadBytesPeriod : Z := 1048576.

Inductive Direction := kForward | kReverse.

Record DBIter (S : Type) := MkDBIter {
  iter_ : S;
  status_ : Status;
  saved_key_ : bytes;
  saved_value_ : bytes;
  direction_ : Direction;
  valid_ : bool;
  rnd_ : Z;
  bytes_counter_ : Z }.
Arguments MkDBIter {S}.
Arguments iter_ {S}.
Arguments status_ {S}.
Arguments saved_key_ {S}.
Arguments saved_value_ {S}.
Arguments direction_ {S}.
Arguments valid_ {S}.
Arguments rnd_ {S}.
Arguments bytes_counter_ {S}.

Section dbiter.
Context {S : Type} {I : Iterator S} (user_comparator_ : Comparator) (sequence_ : Z).
Implicit Types d : DBIter S.

Definition set_iter d (it : S) : DBIter S :=
  MkDBIter it (status_ d) (saved_key_ d) (saved_value_ d) (direction_ d) (valid_ d) (rnd_ d) (bytes_counter_ d).

Definition set_saved_key d (k : bytes) : DBIter S :=
  MkDBIter (iter_ d) (status_ d) k (saved_value_ d) (direction_ d) (valid_ d) (rnd_ d) (bytes_counter_ d).

Definition set_saved_value d (v : bytes) : DBIter S :=
  MkDBIter (iter_ d) (status_ d) (saved_key_ d) v (direction_ d) (valid_ d) (rnd_ d) (bytes_counter_ d).

Definition set_direction d (dir : Direction) : DBIter S :=
  MkDBIter (iter_ d) (status_ d) (saved_key_ d) (saved_value_ d) dir (valid_ d) (rnd_ d) (bytes_counter_ d).

Definition set_valid d (b : bool) : DBIter S :=
  MkDBIter (iter_ d) (status_ d) (saved_key_ d) (saved_value_ d) (direction_ d) b (rnd_ d) (bytes_counter_ d).

Definition RandomPeriod (rnd : Z) : Z * Z := Rnd.Uniform (2 * kReadBytesPeriod) rnd.

Definition NewDBIterator (internal_iter : S) (seed : Z) : DBIter S :=
  let '(period, rnd) := RandomPeriod (Rnd.Random_new seed) in
  MkDBIter internal_iter OK [] [] kForward false rnd period.

Definition DB_Valid d : bool := valid_ d.

Definition DB_key d : option bytes :=
  match direction_ d with
  | kForward => k ← it_key (iter_ d); ExtractUserKey k
  | kReverse => Some (saved_key_ d)
  end.

Definition DB_value d : option bytes :=
  match direction_ d with kForward => it_value (iter_ d) | kReverse => Some (saved_value_ d) end.

Definition DB_status d : Status := if ok (status_ d) then it_status (iter_ d) else status_ d.

Definition ClearSavedValue d : DBIter S := set_saved_value d [].

Definition ParseKey d : option (option ParsedInternalKey * DBIter S) :=
  k ← it_key (iter_ d);
  v ← it_value (iter_ d);
  let n := Z.of_nat (length k) + Z.of_nat (length v) in
  let parsed := ParseInternalKey k in
  let s := match parsed with Some _ => status_ d | None => Corruption (bs "corrupted internal key in DBIter") end in
  Some (parsed, MkDBIter (iter_ d) s (saved_key_ d) (saved_value_ d) (direction_ d) (valid_ d) (rnd_ d)
                  (bytes_counter_ d - n)).

(** The [do] loop of [FindNextUserEntry]. *)
Fixpoint FindNextUserEntry (fuel : nat) (skipping : bool) d : option (DBIter S) :=
  match fuel with
  | O => None
  | Datatypes.S fuel' =>
      let next (skipping : bool) d :=
        it ← it_Next (iter_ d);
        if it_Valid it then FindNextUserEntry fuel' skipping (set_iter d it)
        else Some (set_valid (set_saved_key (set_iter d it) []) false) in
      '(parsed, d) ← ParseKey d;
      match parsed with
      | None => next skipping d
      | Some ikey =>
          if sequence ikey <=? sequence_ then
            match type ikey with
            | kTypeDeletion => next true (set_saved_key d (p_user_key ikey))
            | kTypeValue =>
                hidden ← (if skipping then
                            r ← @Compare user_comparator_ (p_user_key ikey) (saved_key_ d);
                            Some (r <=? 0)
                          else Some false);
                if (hidden : bool) then next skipping d else Some (set_valid (set_saved_key d []) true)
            end
          else next skipping d
      end
  end.

(** The loop of [Prev] that leaves the entries of [saved_key_]; [false] when it
    runs off the front. *)
Fixpoint leave_key (fuel : nat) d : option (bool * DBIter S) :=
  match fuel with
  | O => None
  | Datatypes.S fuel' =>
      it ← it_Prev (iter_ d);
      let d := set_iter d it in
      if it_Valid it then
        k ← it_key it;
        u ← ExtractUserKey k;
        r ← @Compare user_comparator_ u (saved_key_ d);
        if r <? 0 then Some (true, d) else leave_key fuel' d
      else Some (false, d)
  end.

(** The loop of [FindPrevUserEntry], with [value_type]. *)
Fixpoint FindPrev_loop (fuel : nat) (value_type : ValueType) d : option (ValueType * DBIter S) :=
  match fuel with
  | O => None
  | Datatypes.S fuel' =>
      let prev (value_type : ValueType) d :=
        it ← it_Prev (iter_ d);
        if it_Valid it then FindPrev_loop fuel' value_type (set_iter d it)
        else Some (value_type, set_iter d it) in
      '(parsed, d) ← ParseKey d;
      match parsed with
      | None => prev value_type d
      | Some ikey =>
          if sequence ikey <=? sequence_ then
            before ← (match value_type with
                      | kTypeDeletion => Some false
                      | kTypeValue => r ← @Compare user_comparator_ (p_user_key ikey) (saved_key_ d); Some (r <? 0)
                      end);
            if (before : bool) then Some (value_type, d)
            else
              match type ikey with
              | kTypeDeletion => prev kTypeDeletion (ClearSavedValue (set_saved_key d []))
              | kTypeValue =>
                  raw_value ← it_value (iter_ d);
                  k ← it_key (iter_ d);
                  u ← ExtractUserKey k;
                  prev kTypeValue (set_saved_value (set_saved_key d u) raw_value)
              end
          else prev value_type d
      end
  end.

Definition FindPrevUserEntry (fuel : nat) d : option (DBIter S) :=
  '(value_type, d) ← (if it_Valid (iter_ d) then FindPrev_loop fuel kTypeDeletion d else Some (kTypeDeletion, d));
  match value_type with
  | kTypeDeletion => Some (set_direction (ClearSavedValue (set_saved_key (set_valid d false) [])) kForward)
  | kTypeValue => Some (set_valid d true)
  end.

Definition DB_Next (fuel : nat) d : option (DBIter S) :=
  match direction_ d with
  | kReverse =>
      let d := set_direction d kForward in
      it ← (if it_Valid (iter_ d) then it_Next (iter_ d) else it_SeekToFirst (iter_ d));
      let d := set_iter d it in
      if it_Valid it then FindNextUserEntry fuel true d else Some (set_saved_key (set_valid d false) [])
  | kForward =>
      k ← it_key (iter_ d);
      u ← ExtractUserKey k;
      FindNextUserEntry fuel true (set_saved_key d u)
  end.

Definition DB_Prev (fuel : nat) d : option (DBIter S) :=
  match direction_ d with
  | kForward =>
      k ← it_key (iter_ d);
      u ← ExtractUserKey k;
      '(found, d) ← leave_key fuel (set_saved_key d u);
      if (found : bool) then FindPrevUserEntry fuel (set_direction d kReverse)
      else Some (ClearSavedValue (set_saved_key (set_valid d false) []))
  | kReverse => FindPrevUserEntry fuel d
  end.

Definition DB_Seek (fuel : nat) d (target : bytes) : option (DBIter S) :=
  let d := ClearSavedValue (set_direction d kForward) in
  let d := set_saved_key d (AppendInternalKey [] (MkParsed target sequence_ kValueTypeForSeek)) in
  it ← it_Seek (iter_ d) (saved_key_ d);
  let d := set_iter d it in
  if it_Valid it then FindNextUserEntry fuel false d else Some (set_valid d false).

Definition DB_SeekToFirst (fuel : nat) d : option (DBIter S) :=
  let d := ClearSavedValue (set_direction d kForward) in
  it ← it_SeekToFirst (iter_ d);
  let d := set_iter d it in
  if it_Valid it then FindNextUserEntry fuel false d else Some (set_valid d false).

Definition DB_SeekToLast (fuel : nat) d : option (DBIter S) :=
  let d := ClearSavedValue (set_direction d kReverse) in
  it ← it_SeekToLast (iter_ d);
  FindPrevUserEntry fuel (set_iter d it).

(** The class [DBIter]; no loop makes more than [fuel] rounds. *)
Definition DB_iterator (fuel : nat) : Iterator (DBIter S) := {|
  it_Valid := DB_Valid;
  it_SeekToFirst := DB_SeekToFirst fuel;
  it_SeekToLast := DB_SeekToLast fuel;
  it_Seek := DB_Seek fuel;
  it_Next := DB_Next fuel;
  it_Prev := DB_Prev fuel;
  it_key := DB_key;
  it_value := DB_value;
  it_status := DB_status |}.
End dbiter.
End DBI.
