(* ===== verification/DbIterSpec.v ===== *)
(** * A database iterator shows the newest entries

    Over any iterator through internal entries, the iterator of [DbIter.v] runs
    through the user keys whose newest entry at the snapshot is a value, in
    both directions and after every seek. *)

From Stdlib Require Import String.
From S2P Require Import Prelude Status Coding Comparator DbFormat Random Arena SkipList SkipListSpec Iterator MemTable DbIter.
Import DBI.

(** ** What a snapshot shows *)

Lemma sorted_of_lookup {B} (R : B -> B -> Prop) (l : list B) :
  (forall i j a b, (i < j)%nat -> l !! i = Some a -> l !! j = Some b -> R a b) -> StronglySorted R l.
Proof.
  induction l as [|x l IH]; intros H; constructor.
  - apply IH. intros i j a b Hij Ha Hb. apply (H (S i) (S j)); [lia|done|done].
  - apply Forall_lookup. intros i b Hb. apply (H 0%nat (S i)); [lia|done|done].
Qed.

(** Where newer entries of a key come first, the newest is the first the
    snapshot sees. *)
Lemma newest_first (u : bytes) (s : Z) (l : list Entry) :
  (forall x y a b, (x < y)%nat -> l !! x = Some a -> l !! y = Some b -> e_key a = e_key b -> e_seq b <= e_seq a) ->
  newest u s l = snd <$> list_find (visible u s) l.
Proof.
  induction l as [|e l IH]; intros H; [done|]. simpl.
  rewrite IH by (intros x y a b Hxy Ha Hb; apply (H (S x) (S y)); [lia|done|done]).
  destruct (decide (visible u s e)) as [[Hk Hs]|Hv]; [|by destruct (list_find (visible u s) l) as [[]|]].
  destruct (list_find (visible u s) l) as [[i b]|] eqn:E; [|done]. simpl. apply list_find_Some in E as (Hb & [Hkb _] & _).
  rewrite (proj2 (Z.ltb_ge _ _)); [done|]. by apply (H 0%nat (S i)); [lia| | |congruence].
Qed.

(** An entry is shown if it is a value that the snapshot sees and no entry in
    front of it, [seen], is one of the same key that the snapshot sees. *)
Definition shown_after (snap : Z) (seen : list Entry) (e : Entry) : bool :=
  (e_seq e <=? snap) && bool_decide (e_type e = kTypeValue) &&
  bool_decide (Forall (fun e' => ~ visible (e_key e) snap e') seen).

Definition shown_at (snap : Z) (es : list Entry) (i : nat) : Prop :=
  match es !! i with Some e => shown_after snap (take i es) e = true | None => False end.

#[export] Instance shown_at_dec (snap : Z) (es : list Entry) (i : nat) : Decision (shown_at snap es i).
Proof. unfold shown_at. destruct (es !! i); apply _. Defined.

(** The positions shown, and the user's entries there. *)
Definition shown (snap : Z) (es : list Entry) : list nat := filter (shown_at snap es) (seq 0 (length es)).

Definition user_entry (es : list Entry) (i : nat) : bytes * bytes :=
  match es !! i with Some e => (e_key e, e_value e) | None => ([], []) end.

Definition user_view (snap : Z) (es : list Entry) : list (bytes * bytes) := user_entry es <$> shown snap es.

(** How many positions are shown in front of [j]. *)
Definition rank (snap : Z) (es : list Entry) (j : nat) : nat := length (filter (shown_at snap es) (seq 0 j)).

Section view.
Context (snap : Z) (es : list Entry).

Lemma shown_at_lt (i : nat) : shown_at snap es i -> (i < length es)%nat.
Proof. unfold shown_at. destruct (es !! i) eqn:E; [|done]. intros _. by eapply lookup_lt_Some. Qed.

Lemma shown_at_spec (i : nat) (e : Entry) :
  es !! i = Some e ->
  shown_at snap es i <-> e_seq e <= snap /\ e_type e = kTypeValue /\
    forall j e', (j < i)%nat -> es !! j = Some e' -> e_key e' = e_key e -> ~ e_seq e' <= snap.
Proof.
  intros He. unfold shown_at, shown_after. rewrite He, !andb_true_iff, Z.leb_le, !bool_decide_eq_true, Forall_lookup.
  split.
  - intros [[? ?] Hall]. split_and!; [done|done|]. intros j e' Hj He' Hk Hs.
    apply (Hall j e'); [by rewrite lookup_take_lt|by split].
  - intros (? & ? & Hall). split_and!; [done|done|]. intros j e' He' [Hk Hs].
    pose proof (lookup_lt_Some _ _ _ He') as Hl. rewrite length_take in Hl.
    rewrite lookup_take_lt in He' by lia. by apply (Hall j e'); [lia|..].
Qed.

Lemma rank_app (j k : nat) :
  (j <= k)%nat -> filter (shown_at snap es) (seq 0 k)
    = filter (shown_at snap es) (seq 0 j) ++ filter (shown_at snap es) (seq j (k - j)).
Proof. intros Hj. rewrite <- list.filter_app. f_equal. rewrite <- seq_app. f_equal. lia. Qed.

Lemma filter_no_entry (P : nat -> Prop) `{!forall x, Decision (P x)} (l : list nat) :
  (forall x, x ∈ l -> ~ P x) -> filter P l = [].
Proof.
  induction l as [|a l IH]; intros Hl; [done|]. rewrite list.filter_cons_False by (apply Hl; set_solver).
  apply IH. intros x Hx. apply Hl. set_solver.
Qed.

Lemma rank_same (j k : nat) :
  (j <= k)%nat -> (forall x, (j <= x < k)%nat -> ~ shown_at snap es x) -> rank snap es k = rank snap es j.
Proof.
  intros Hj Hn. unfold rank. rewrite (rank_app j k Hj), length_app, (filter_no_entry _ (seq j (k - j))); [simpl; lia|].
  intros x Hx. apply elem_of_seq in Hx. apply Hn. lia.
Qed.

Lemma rank_step (j : nat) : shown_at snap es j -> rank snap es (S j) = S (rank snap es j).
Proof.
  intros Hj. unfold rank. rewrite (rank_app j (S j)) by lia. rewrite length_app, Nat.sub_succ_l, Nat.sub_diag by lia.
  cbn [seq]. rewrite list.filter_cons_True by done. simpl. lia.
Qed.

Lemma rank_end : rank snap es (length es) = length (shown snap es).
Proof. done. Qed.

Lemma shown_rank (j : nat) : shown_at snap es j -> shown snap es !! rank snap es j = Some j.
Proof.
  intros Hj. pose proof (shown_at_lt j Hj) as Hl. unfold shown, rank. rewrite (rank_app j (length es)) by lia.
  rewrite lookup_app_r, Nat.sub_diag by lia. replace (length es - j)%nat with (S (length es - j - 1)) by lia.
  cbn [seq]. by rewrite list.filter_cons_True.
Qed.

Lemma shown_lookup (p i : nat) : shown snap es !! p = Some i -> shown_at snap es i /\ p = rank snap es i.
Proof.
  intros Hp. pose proof (list_elem_of_lookup_2 _ _ _ Hp) as Hin. unfold shown in Hin.
  apply list_elem_of_filter in Hin as [Hs _]. split; [done|].
  eapply NoDup_lookup; [|exact Hp|by apply shown_rank]. apply NoDup_filter, NoDup_seq.
Qed.

Lemma rank_mono (j k : nat) : (j <= k)%nat -> (rank snap es j <= rank snap es k)%nat.
Proof. intros Hj. unfold rank. rewrite (rank_app j k Hj), length_app. lia. Qed.

Lemma user_rank_le (j : nat) : (j <= length es)%nat -> (rank snap es j <= length (shown snap es))%nat.
Proof. intros Hj. rewrite <- rank_end. by apply rank_mono. Qed.
End view.

(** ** The iterator *)

Section spec.
Context {S : Type} {I : Iterator S} {U : Comparator} {ok iok : bytes -> Prop} {iat : S -> option nat -> Prop}.
Context {HU : ComparatorSpec U ok} (snap : Z) (es : list Entry).
Context {HI : IteratorSpec I iok (@cmp_lt (InternalKeyComparator U)) (map e_entry es) iat}.
Context (Hes : Forall (entry_ok (ok := ok)) es) (Hsnap : seq_ok snap).
Context (Hsorted : StronglySorted (fun a b => @cmp_lt (InternalKeyComparator U) (e_ikey a) (e_ikey b)) es).
Implicit Types d : DBIter S.

Abbreviation sees e := (e_seq e <= snap).
Abbreviation view_pos := (pos_of (length (shown snap es))).

Lemma entry_key_ok (i : nat) (e : Entry) : es !! i = Some e -> ok (e_key e).
Proof. intros He. apply (eo_key _ (Forall_lookup_1 _ _ _ _ Hes He)). Qed.

Lemma entry_order (i j : nat) (a b : Entry) :
  (i < j)%nat -> es !! i = Some a -> es !! j = Some b ->
  cmp_lt (e_key a) (e_key b) \/ (e_key a = e_key b /\ e_seq b <= e_seq a).
Proof.
  intros Hij Ha Hb. pose proof (sorted_lookup _ _ _ _ _ _ Hsorted Hij Ha Hb) as Hlt.
  destruct (Forall_lookup_1 _ _ _ _ Hes Ha) as [Hsa Hka _ _]. destruct (Forall_lookup_1 _ _ _ _ Hes Hb) as [Hsb Hkb _ _].
  unfold e_ikey in Hlt. rewrite icmp_lt in Hlt by (done || by apply PackSequenceAndType_range).
  destruct Hlt as [|[-> Hlt]]; [by left|right]. split; [done|].
  rewrite !PackSequenceAndType_value in Hlt by done. destruct (e_type a), (e_type b); simpl in Hlt; lia.
Qed.

(** Keys do not fall. *)
Lemma key_not_below (i j : nat) (a b : Entry) :
  (i <= j)%nat -> es !! i = Some a -> es !! j = Some b -> ~ cmp_lt (e_key b) (e_key a).
Proof.
  intros Hij Ha Hb Hlt. pose proof (entry_key_ok _ _ Ha) as Hka. pose proof (entry_key_ok _ _ Hb) as Hkb.
  destruct (decide (i = j)) as [->|].
  { replace b with a in Hlt by congruence. by apply (cmp_lt_irrefl _ Hka). }
  destruct (entry_order i j a b ltac:(lia) Ha Hb) as [H|[H _]].
  - by apply (cmp_lt_asym _ _ Hka Hkb H).
  - rewrite H in Hlt. by apply (cmp_lt_irrefl _ Hkb).
Qed.
(** An entry is hidden from the position of an entry of its key that the
    snapshot sees. *)
Lemma hidden_by (i j : nat) (a b : Entry) :
  (i < j)%nat -> es !! i = Some a -> es !! j = Some b -> sees a -> e_key a = e_key b -> ~ shown_at snap es j.
Proof. intros Hij Ha Hb Hs Hk. rewrite (shown_at_spec snap es j b Hb). intros (_ & _ & Hn). by apply (Hn i a). Qed.

(** The state [d] of an iterator at position [p] of the view.  Going forward
    the internal iterator is at the entry shown.  Going back it is in front
    of the key's entries: from [j] to the entry shown the snapshot sees
    nothing. *)
Definition db_at d (p : option nat) : Prop :=
  status_ d = OK /\ valid_ d = bool_decide (is_Some p) /\
  match p with
  | None => exists q, iat (iter_ d) q
  | Some r => exists i e, shown snap es !! r = Some i /\ es !! i = Some e /\
      match direction_ d with
      | kForward => iat (iter_ d) (Some i)
      | kReverse => saved_key_ d = e_key e /\ saved_value_ d = e_value e /\
          exists j, (j <= i)%nat /\ iat (iter_ d) (pos_before j) /\
            (forall x a, (x < j)%nat -> es !! x = Some a -> cmp_lt (e_key a) (e_key e)) /\
            (forall x a, (j <= x < i)%nat -> es !! x = Some a -> ~ sees a)
      end
  end.

Lemma ParseKey_at d (j : nat) (e : Entry) :
  iat (iter_ d) (Some j) -> es !! j = Some e ->
  exists c, ParseKey d = Some (Some (MkParsed (e_key e) (e_seq e) (e_type e)),
    MkDBIter (iter_ d) (status_ d) (saved_key_ d) (saved_value_ d) (direction_ d) (valid_ d) (rnd_ d) c) /\
  it_key (iter_ d) = Some (e_ikey e) /\ it_value (iter_ d) = Some (e_value e).
Proof.
  intros Hat He. destruct (it_entry_at _ _ Hat) as (k & v & Hkv & Hk & Hv).
  rewrite list_lookup_fmap, He in Hkv. injection Hkv as <- <-. unfold ParseKey. rewrite Hk, Hv.
  cbn [mbind option_bind]. pose proof (ParseInternalKey_ikey (e_key e) (e_seq e) (e_type e)
    (eo_seq _ (Forall_lookup_1 _ _ _ _ Hes He))) as Hp. fold (e_ikey e) in Hp. rewrite Hp.
  eexists. split; [reflexivity|done].
Qed.

(** *** Forwards *)

(** The state of a scan at entry [j] for the first entry shown from [b] on:
    [skipping] hides the entries of key [k]. *)
Record scan (j b : nat) (skipping : bool) (k : bytes) : Prop := MkScan {
  sc_hidden : forall x e, (j <= x)%nat -> es !! x = Some e -> sees e -> skipping = true -> e_key e = k ->
    ~ ((b <= x)%nat /\ shown_at snap es x);
  sc_open : forall x e, (j <= x)%nat -> es !! x = Some e -> sees e -> ~ (skipping = true /\ e_key e = k) ->
    (b <= x)%nat /\ forall j' e', (j' < j)%nat -> es !! j' = Some e' -> sees e' -> e_key e' <> e_key e;
  sc_key : skipping = true -> ok k /\
    forall x e, (j <= x)%nat -> es !! x = Some e -> sees e -> ~ cmp_lt (e_key e) k;
  sc_none : forall x, (b <= x < j)%nat -> ~ shown_at snap es x }.

(** The scan goes on past an entry that is not shown. *)
Lemma scan_past (j b : nat) (sk sk' : bool) (k k' : bytes) (e : Entry) :
  scan j b sk k -> es !! j = Some e -> ~ ((b <= j)%nat /\ shown_at snap es j) ->
  (~ sees e /\ sk' = sk /\ k' = k \/ sk' = true /\ k' = e_key e /\ sees e /\ (sk = true -> ~ cmp_lt (e_key e) k)) ->
  scan (Datatypes.S j) b sk' k'.
Proof.
  intros [Hh Ho Hk Hn] He Hnot Hc.
  assert (forall x, (b <= x < Datatypes.S j)%nat -> ~ shown_at snap es x) as Hn'.
  { intros x Hx Hs. destruct (decide (x = j)) as [->|]; [apply Hnot; split; [lia|done]|by apply (Hn x); [lia|]]. }
  destruct Hc as [(Hinv & -> & ->)|(-> & -> & Hse & Hlow)].
  - split; [|intros x e0 Hx Hx' Hs Hsk|intros Hs; destruct (Hk Hs) as [? Hk']|done].
    + intros x e0 ?. apply Hh. lia.
    + destruct (Ho x e0 ltac:(lia) Hx' Hs Hsk) as [? Ho']. split; [done|]. intros j' e' Hj' He' Hs'.
      destruct (decide (j' = j)) as [->|]; [by replace e' with e in Hs' by congruence|by apply (Ho' j'); [lia|..]].
    + split; [done|]. intros x e0 ?. apply Hk'. lia.
  - split; [| | |done].
    + intros x e0 Hx Hx' Hs _ Hkx [_ Hsh]. by apply (hidden_by j x e e0).
    + intros x e0 Hx Hx' Hs Hne. assert (e_key e0 <> e_key e) as Hne' by tauto.
      assert (~ (sk = true /\ e_key e0 = k)) as Hsk.
      { intros [Hsk Hk0]. specialize (Hlow Hsk). rewrite <- Hk0 in Hlow.
        destruct (entry_order j x e e0 ltac:(lia) He Hx') as [|[? _]]; [done|congruence]. }
      destruct (Ho x e0 ltac:(lia) Hx' Hs Hsk) as [? Ho']. split; [done|]. intros j' e' Hj' He' Hs'.
      destruct (decide (j' = j)) as [->|]; [replace e' with e by congruence; congruence|by apply (Ho' j'); [lia|..]].
    + intros _. split; [by eapply entry_key_ok|]. intros x e0 Hx Hx' _. eapply key_not_below; [|exact He|exact Hx']. lia.
Qed.
(** The scan stops at a value that is not hidden. *)
Lemma scan_found (j b : nat) (skipping : bool) (k : bytes) (e : Entry) d :
  scan j b skipping k -> es !! j = Some e -> sees e -> e_type e = kTypeValue -> ~ (skipping = true /\ e_key e = k) ->
  iat (iter_ d) (Some j) -> status_ d = OK -> direction_ d = kForward ->
  exists d', Some (set_valid (set_saved_key d []) true) = Some d' /\ db_at d' (view_pos (rank snap es b)).
Proof.
  intros Hsc He Hse Ht Hk Hat Hst Hd. destruct (sc_open _ _ _ _ Hsc j e ltac:(lia) He Hse Hk) as [Hb Hn].
  assert (shown_at snap es j) as Hj.
  { apply (shown_at_spec snap es j e He). split_and!; [done|done|]. intros j' e' Hj' He' Hk' Hs'. by apply (Hn j' e'). }
  rewrite <- (rank_same snap es b j Hb (sc_none _ _ _ _ Hsc)). pose proof (shown_rank snap es j Hj) as Hr.
  unfold pos_of. rewrite (proj2 (Nat.ltb_lt _ _)) by (by eapply lookup_lt_Some).
  eexists. split; [done|]. split_and!; [done|done|]. exists j, e. simpl. by rewrite Hd.
Qed.

(** A scan returns the first position shown from [b] on. *)
Lemma FindNextUserEntry_ok (fuel j b : nat) (skipping : bool) d :
  (length es - j < fuel)%nat -> iat (iter_ d) (Some j) -> status_ d = OK -> direction_ d = kForward ->
  (b <= length es)%nat -> scan j b skipping (saved_key_ d) ->
  exists d', FindNextUserEntry U snap fuel skipping d = Some d' /\ db_at d' (view_pos (rank snap es b)).
Proof.
  revert j skipping d. induction fuel as [|fuel IH]; intros j skipping d Hf Hat Hst Hd Hb Hsc; [lia|].
  destruct (it_entry_at _ _ Hat) as (k0 & v0 & Hkv & _). rewrite list_lookup_fmap in Hkv.
  destruct (es !! j) as [e|] eqn:He; [clear Hkv|done]. pose proof (lookup_lt_Some _ _ _ He) as Hj.
  destruct (ParseKey_at d j e Hat He) as (c & Hp & _). cbn [FindNextUserEntry]. rewrite Hp. cbn [mbind option_bind].
  set (d0 := MkDBIter _ _ _ _ _ _ _ c).
  assert (forall sk d1, iter_ d1 = iter_ d -> status_ d1 = OK -> direction_ d1 = kForward ->
    scan (Datatypes.S j) b sk (saved_key_ d1) ->
    exists d', (it ← it_Next (iter_ d1);
        if it_Valid it then FindNextUserEntry U snap fuel sk (set_iter d1 it)
        else Some (set_valid (set_saved_key (set_iter d1 it) []) false)) = Some d' /\
      db_at d' (view_pos (rank snap es b))) as Hnext.
  { intros sk d1 Hi Hs1 Hd1 Hsc1. rewrite Hi. destruct (it_next_at _ _ Hat) as (it & -> & Hit). cbn [mbind option_bind].
    rewrite (it_valid_at _ _ Hit), length_map in *. unfold pos_of in Hit |- *. rewrite Nat.add_1_r in *.
    destruct (Nat.ltb_spec (Datatypes.S j) (length es)); simpl.
    - apply (IH (Datatypes.S j)); simpl; try done. lia.
    - eexists. split; [done|]. rewrite <- (rank_same snap es b (length es)), rank_end, Nat.ltb_irrefl.
      + split_and!; [done|done|]. simpl. eauto.
      + done.
      + intros x Hx. apply (sc_none _ _ _ _ Hsc1). lia. }
  cbn [sequence type p_user_key]. destruct (Z.leb_spec (e_seq e) snap) as [Hse|Hse].
  2:{ apply Hnext; try done. eapply (scan_past j b); [exact Hsc|exact He| |by left; split; [lia|]].
      intros [_ Hsh]. apply (shown_at_spec snap es j e He) in Hsh. lia. }
  destruct (e_type e) eqn:Et.
  - apply Hnext; try done. simpl. eapply (scan_past j b); [exact Hsc|exact He| |right; split_and!; [done|done|done|]].
    + intros [_ Hsh]. apply (shown_at_spec snap es j e He) in Hsh as (_ & Ht & _). congruence.
    + intros Hsk. by apply (proj2 (sc_key _ _ _ _ Hsc Hsk) j).
  - destruct skipping eqn:Esk.
    2:{ cbn [mbind option_bind]. eapply (scan_found j b false); try done. by intros [? _]. }
    destruct (sc_key _ _ _ _ Hsc eq_refl) as [Hok Hlow]. cbn [saved_key_ d0].
    destruct (cmp_cases _ _ (entry_key_ok j e He) Hok) as [(r & _ & _ & Hlt)|[(-> & Hk)|(r & -> & Hr & Hlt)]];
      cbn [mbind option_bind].
    + by destruct (Hlow j e ltac:(lia) He Hse).
    + apply (Hnext true d0); try done. simpl. rewrite <- Hk. eapply (scan_past j b); [exact Hsc|exact He| |by right; eauto].
      by apply (sc_hidden _ _ _ _ Hsc j e).
    + rewrite (proj2 (Z.leb_gt _ _)) by done. eapply (scan_found j b true); try done. intros [_ Hk].
      rewrite Hk in Hlt. by apply (cmp_lt_irrefl _ Hok).
Qed.
(** *** Backwards *)

(** The state of a backward scan for the last entry shown in front of [J],
    which has passed the entries from [j] on: the value saved is that of the
    only entry there that may be shown. *)
Definition back (j J : nat) (value_type : ValueType) (k v : bytes) : Prop :=
  match value_type with
  | kTypeDeletion => forall x, (j <= x < J)%nat -> ~ shown_at snap es x
  | kTypeValue => exists i e, (j <= i < J)%nat /\ es !! i = Some e /\ sees e /\ e_type e = kTypeValue /\
      k = e_key e /\ v = e_value e /\
      (forall x a, (j <= x < i)%nat -> es !! x = Some a -> ~ sees a) /\
      (forall x, (i < x < J)%nat -> ~ shown_at snap es x)
  end.

Lemma back_unseen (j J : nat) (vt : ValueType) (k v : bytes) (e : Entry) :
  back (Datatypes.S j) J vt k v -> es !! j = Some e -> ~ sees e -> back j J vt k v.
Proof.
  intros Hb He Hs. destruct vt; simpl in *.
  - intros x Hx. destruct (decide (x = j)) as [->|]; [|apply Hb; lia].
    rewrite (shown_at_spec snap es j e He). tauto.
  - destruct Hb as (i & a & Hi & Ha & ? & ? & ? & ? & Hu & Hn). exists i, a. split; [lia|].
    split_and!; try done. intros x b Hx Hxb. destruct (decide (x = j)) as [->|]; [by replace b with e by congruence|]. apply (Hu x); [lia|done].
Qed.

(** The entry at [j] takes the place of what was saved, if that is of the same
    key or nothing. *)
Lemma back_taken (j J : nat) (vt : ValueType) (k v : bytes) (e : Entry) :
  back (Datatypes.S j) J vt k v -> es !! j = Some e -> (j < J)%nat -> sees e ->
  (vt = kTypeValue -> ~ cmp_lt (e_key e) k) ->
  (e_type e = kTypeDeletion -> back j J kTypeDeletion [] []) /\
  (e_type e = kTypeValue -> back j J kTypeValue (e_key e) (e_value e)).
Proof.
  intros Hb He Hj Hs Hk.
  assert (forall x, (j < x < J)%nat -> ~ shown_at snap es x) as Hn.
  { intros x Hx. destruct vt; simpl in Hb; [apply Hb; lia|].
    destruct Hb as (i & a & Hi & Ha & Hsa & _ & -> & _ & Hu & Hn).
    destruct (decide (x = i)) as [->|].
    - apply (hidden_by j i e a); try done; [lia|].
      destruct (entry_order j i e a ltac:(lia) He Ha) as [|[? _]]; [by destruct (Hk eq_refl)|done].
    - destruct (decide (x < i)%nat); [|apply Hn; lia]. intros Hx'. pose proof (shown_at_lt _ _ _ Hx') as Hl.
      destruct (lookup_lt_is_Some_2 _ _ Hl) as [b Hbx]. apply (Hu x b); [lia|done|].
      by apply (shown_at_spec snap es x b Hbx). }
  split; intros Ht; simpl.
  - intros x Hx. destruct (decide (x = j)) as [->|]; [|apply Hn; lia].
    rewrite (shown_at_spec snap es j e He). intros (_ & ? & _). congruence.
  - exists j, e. split; [lia|]. split_and!; try done. intros x a ?. lia.
Qed.

(** The test that ends the loop. *)
Lemma before_saved (vt : ValueType) (u k : bytes) :
  ok u -> (vt = kTypeValue -> ok k) ->
  exists b, match vt with
            | kTypeDeletion => Some false
            | kTypeValue => r ← @Compare U u k; Some (r <? 0)
            end = Some b /\
    (b = true -> vt = kTypeValue /\ cmp_lt u k) /\ (b = false -> vt = kTypeValue -> ~ cmp_lt u k).
Proof.
  intros Hu Hk. destruct vt; [by exists false|]. specialize (Hk eq_refl).
  destruct (cmp_cases _ _ Hu Hk) as [(r & -> & Hr & Hlt)|[(-> & ->)|(r & -> & Hr & Hlt)]]; cbn [mbind option_bind].
  - exists true. by rewrite (proj2 (Z.ltb_lt _ _)).
  - exists false. split_and!; [done|done|]. intros _ _. by apply cmp_lt_irrefl.
  - exists false. rewrite (proj2 (Z.ltb_ge _ _)) by lia. split_and!; [done|done|]. intros _ _. by apply cmp_lt_asym.
Qed.

Lemma FindPrev_loop_ok (fuel j J : nat) (vt : ValueType) d :
  (j < fuel)%nat -> (j < J)%nat -> iat (iter_ d) (Some j) -> status_ d = OK ->
  back (Datatypes.S j) J vt (saved_key_ d) (saved_value_ d) ->
  exists vt' d' j', FindPrev_loop U snap fuel vt d = Some (vt', d') /\ status_ d' = OK /\ direction_ d' = direction_ d /\
    iat (iter_ d') (pos_before j') /\ back j' J vt' (saved_key_ d') (saved_value_ d') /\
    forall x a, (x < j')%nat -> es !! x = Some a -> vt' = kTypeValue /\ cmp_lt (e_key a) (saved_key_ d').
Proof.
  revert j vt d. induction fuel as [|fuel IH]; intros j vt d Hf Hj Hat Hst Hb; [lia|].
  destruct (it_entry_at _ _ Hat) as (k0 & v0 & Hkv & _). rewrite list_lookup_fmap in Hkv.
  destruct (es !! j) as [e|] eqn:He; [clear Hkv|done].
  destruct (ParseKey_at d j e Hat He) as (c & Hp & Hk & Hv). cbn [FindPrev_loop]. rewrite Hp. cbn [mbind option_bind].
  set (d0 := MkDBIter _ _ _ _ _ _ _ c).
  assert (forall vt1 d1, iter_ d1 = iter_ d -> status_ d1 = OK -> direction_ d1 = direction_ d ->
    back j J vt1 (saved_key_ d1) (saved_value_ d1) ->
    exists vt' d' j', (it ← it_Prev (iter_ d1);
        if it_Valid it then FindPrev_loop U snap fuel vt1 (set_iter d1 it)
        else Some (vt1, set_iter d1 it)) = Some (vt', d') /\ status_ d' = OK /\ direction_ d' = direction_ d /\
      iat (iter_ d') (pos_before j') /\ back j' J vt' (saved_key_ d') (saved_value_ d') /\
      forall x a, (x < j')%nat -> es !! x = Some a -> vt' = kTypeValue /\ cmp_lt (e_key a) (saved_key_ d')) as Hprev.
  { intros vt1 d1 Hi Hs1 Hd1 Hb1. rewrite Hi. destruct (it_prev_at _ _ Hat) as (it & -> & Hit). cbn [mbind option_bind].
    rewrite (it_valid_at _ _ Hit). destruct j as [|j]; simpl.
    - exists vt1, (set_iter d1 it), 0%nat. split_and!; try done. intros x a ?. lia.
    - destruct (IH j vt1 (set_iter d1 it)) as (vt' & d' & j' & ? & ? & Hd' & ?); simpl; try done; [lia|lia|].
      exists vt', d', j'. rewrite Hd'. simpl. rewrite Hd1. tauto. }
  cbn [sequence type p_user_key]. destruct (Z.leb_spec (e_seq e) snap) as [Hse|Hse].
  2:{ apply (Hprev vt d0); try done. apply (back_unseen j J vt _ _ e); [done|done|lia]. }
  assert (ok (e_key e)) as Hoe by (by eapply entry_key_ok).
  assert (vt = kTypeValue -> ok (saved_key_ d)) as Hos.
  { intros ->. destruct Hb as (i & a & _ & Ha & _ & _ & -> & _). by eapply entry_key_ok. }
  destruct (before_saved vt (e_key e) (saved_key_ d) Hoe Hos) as (b & Hbe & Ht & Hf0). cbn [saved_key_ d0]. rewrite Hbe.
  destruct b; [destruct (Ht eq_refl) as [-> Hlt]|specialize (Hf0 eq_refl)].
  - cbn [mbind option_bind]. exists kTypeValue, d0, (Datatypes.S j). split_and!; try done. intros x a Hx Ha.
    split; [done|]. simpl. destruct (decide (x = j)) as [->|]; [congruence|].
    destruct (entry_order x j a e ltac:(lia) Ha He) as [Hlt'|[-> _]]; [|done].
    eapply cmp_trans; [by eapply entry_key_ok|exact Hoe|by apply Hos|done|done].
  - cbn [mbind option_bind]. destruct (back_taken j J vt _ _ e Hb He Hj Hse Hf0) as [Hdel Hval].
    destruct (e_type e).
    + apply Hprev; try done. by apply Hdel.
    + cbn [iter_ d0]. rewrite Hv, Hk. cbn [mbind option_bind]. unfold e_ikey. rewrite ExtractUserKey_ikey.
      cbn [mbind option_bind]. apply Hprev; try done. by apply Hval.
Qed.
Lemma FindPrevUserEntry_ok (fuel J : nat) d :
  (length es < fuel)%nat -> (J <= length es)%nat -> iat (iter_ d) (pos_before J) -> status_ d = OK ->
  direction_ d = kReverse ->
  exists d', FindPrevUserEntry U snap fuel d = Some d' /\ db_at d' (pos_before (rank snap es J)).
Proof.
  intros Hf HJ Hat Hst Hd. unfold FindPrevUserEntry. rewrite (it_valid_at _ _ Hat).
  destruct J as [|J]; simpl in Hat |- *.
  { eexists. split; [done|]. split_and!; [done|done|]. simpl. eauto. }
  destruct (FindPrev_loop_ok fuel J (Datatypes.S J) kTypeDeletion d) as (vt & d' & j & -> & Hs' & Hd' & Hat' & Hb & Hlow);
    try done; [lia|lia|intros x ?; lia|]. cbn [mbind option_bind]. destruct vt.
  - assert (j = 0%nat) as ->.
    { destruct j as [|j]; [done|]. destruct (it_entry_at _ _ Hat') as (k & v & Hkv & _). rewrite list_lookup_fmap in Hkv.
      destruct (es !! j) as [e|] eqn:He; [|done]. by destruct (Hlow j e ltac:(lia) He). }
    rewrite (rank_same snap es 0); [|lia|intros x Hx; apply Hb; lia].
    eexists. split; [done|]. split_and!; [done|done|]. simpl. eauto.
  - destruct Hb as (i & e & Hi & He & Hse & Ht & Hk & Hv & Hu & Hn).
    assert (shown_at snap es i) as Hsh.
    { apply (shown_at_spec snap es i e He). split_and!; [done|done|]. intros x a Hx Ha Hka.
      destruct (decide (x < j)%nat); [|apply (Hu x a); [lia|done]]. destruct (Hlow x a ltac:(lia) Ha) as [_ Hlt].
      rewrite Hk, Hka in Hlt. by destruct (cmp_lt_irrefl _ (entry_key_ok i e He) Hlt). }
    rewrite (rank_same snap es (Datatypes.S i)), rank_step by (done || lia || (intros x Hx; apply Hn; lia)).
    eexists. split; [done|]. split_and!; [done|done|]. exists i, e. split; [by apply shown_rank|]. split; [done|].
    simpl. rewrite Hd', Hd. split_and!; [done|done|]. exists j. split_and!; [lia|done| |done].
    intros x a Hx Ha. rewrite <- Hk. by apply (Hlow x a).
Qed.

(** *** The operations *)

(** A scan that skips nothing starts at an entry that nothing in front hides. *)
Lemma scan_start (j : nat) (k : bytes) :
  (forall x y a b, (x < j <= y)%nat -> es !! x = Some a -> es !! y = Some b -> sees a -> e_key a <> e_key b) ->
  scan j j false k.
Proof.
  intros Hn. split; [done| |done|intros x ?; lia]. intros x e Hx He Hs _. split; [done|].
  intros j' e' Hj' He' Hs'. by apply (Hn j' x e' e).
Qed.

(** A scan past the entry shown at [i], from an entry [j] of its key or with
    nothing to see in between. *)
Lemma scan_after (i j : nat) (e : Entry) :
  shown_at snap es i -> es !! i = Some e -> (j <= i)%nat ->
  (forall x a, (x < j)%nat -> es !! x = Some a -> cmp_lt (e_key a) (e_key e) \/ ~ sees a) ->
  (forall x a, (j <= x < i)%nat -> es !! x = Some a -> ~ sees a) ->
  scan j (Datatypes.S i) true (e_key e).
Proof.
  intros Hsh He Hj Hlow Hu. pose proof (entry_key_ok _ _ He) as Hok. pose proof (proj1 (shown_at_spec snap es i e He) Hsh) as Hshn.
  assert (forall x a, (j <= x)%nat -> es !! x = Some a -> sees a -> (i <= x)%nat) as Hge.
  { intros x a Hx Ha Hs. destruct (decide (x < i)%nat); [|lia]. by destruct (Hu x a ltac:(lia) Ha). }
  split; [| | |intros x ?; lia].
  - intros x a Hx Ha Hs _ Hk [Hix Hshx]. by apply (hidden_by i x e a); [lia|done|done|apply Hshn|..].
  - intros x a Hx Ha Hs Hk. specialize (Hge x a Hx Ha Hs). assert (x <> i) by (intros ->; apply Hk; split; [done|congruence]).
    split; [lia|]. intros j' a' Hj' Ha' Hs' Hka'. assert (e_key a <> e_key e) as Hne by tauto.
    destruct (Hlow j' a' Hj' Ha') as [Hlt|]; [|done]. rewrite Hka' in Hlt.
    by apply (key_not_below i x e a); [lia|..].
  - intros _. split; [done|]. intros x a Hx Ha Hs. specialize (Hge x a Hx Ha Hs). by apply (key_not_below i x e a).
Qed.

Lemma DB_Next_ok (fuel r : nat) d :
  (length es < fuel)%nat -> db_at d (Some r) ->
  exists d', DB_Next U snap fuel d = Some d' /\ db_at d' (view_pos (r + 1)).
Proof.
  intros Hf (Hst & _ & i & e & Hr & He & Hd). destruct (shown_lookup _ _ _ _ Hr) as [Hsh ->].
  pose proof (shown_at_lt _ _ _ Hsh) as Hil. rewrite Nat.add_1_r, <- rank_step by done. unfold DB_Next.
  destruct (direction_ d) eqn:Edir.
  - destruct (ParseKey_at d i e Hd He) as (_ & _ & Hk & _). rewrite Hk. cbn [mbind option_bind]. unfold e_ikey.
    rewrite ExtractUserKey_ikey. cbn [mbind option_bind]. apply (FindNextUserEntry_ok fuel i); try done; [lia|].
    simpl. apply (scan_after i i); try done; [|intros x ?; lia]. intros x a Hx Ha.
    destruct (entry_order x i a e Hx Ha He) as [|[Hk' _]]; [by left|right].
    by apply (proj1 (shown_at_spec snap es i e He) Hsh) with (j := x).
  - destruct Hd as (Hk & _ & j & Hj & Hat & Hlow & Hu).
    assert (exists it, (if it_Valid (iter_ d) then it_Next (iter_ d) else it_SeekToFirst (iter_ d)) = Some it /\
      iat it (Some j)) as (it & Hit & Hat').
    { rewrite (it_valid_at _ _ Hat). destruct j as [|j]; simpl in Hat |- *.
      - destruct (it_first_at _ _ Hat) as (it & ? & Hi0). rewrite length_map in Hi0. exists it. split; [done|].
        unfold pos_of in Hi0. by rewrite (proj2 (Nat.ltb_lt _ _)) in Hi0 by lia.
      - destruct (it_next_at _ _ Hat) as (it & ? & Hi0). rewrite length_map, Nat.add_1_r in Hi0. exists it. split; [done|].
        unfold pos_of in Hi0. by rewrite (proj2 (Nat.ltb_lt _ _)) in Hi0 by lia. }
    cbn [iter_ set_direction]. rewrite Hit. cbn [mbind option_bind]. rewrite (it_valid_at _ _ Hat').
    rewrite bool_decide_true by done. apply (FindNextUserEntry_ok fuel j); try done; [lia|].
    simpl. rewrite Hk. apply (scan_after i j); try done. intros x a Hx Ha. left. by apply (Hlow x).
Qed.
(** The loop at the start of [Prev] finds where the entries of the key begin. *)
Lemma leave_key_ok (fuel x : nat) (e : Entry) d :
  (x < fuel)%nat -> es !! x = Some e -> saved_key_ d = e_key e -> iat (iter_ d) (Some x) ->
  exists it g, leave_key U fuel d = Some (negb (g =? 0)%nat, set_iter d it) /\ (g <= x)%nat /\ iat it (pos_before g) /\
    (forall y a, (g <= y < x)%nat -> es !! y = Some a -> e_key a = e_key e) /\
    (forall y a, (y < g)%nat -> es !! y = Some a -> cmp_lt (e_key a) (e_key e)).
Proof.
  revert x e d. induction fuel as [|fuel IH]; intros x e d Hf He Hk Hat; [lia|].
  cbn [leave_key]. destruct (it_prev_at _ _ Hat) as (it & -> & Hit). cbn [mbind option_bind].
  rewrite (it_valid_at _ _ Hit). destruct x as [|x]; simpl.
  { exists it, 0%nat. split_and!; try done; intros y a ?; lia. }
  destruct (lookup_lt_is_Some_2 es x) as [a Ha]; [pose proof (lookup_lt_Some _ _ _ He); lia|].
  destruct (ParseKey_at (set_iter d it) x a Hit Ha) as (_ & _ & Hka & _). cbn [iter_ set_iter] in Hka. rewrite Hka.
  cbn [mbind option_bind]. unfold e_ikey. rewrite ExtractUserKey_ikey. cbn [mbind option_bind]. rewrite Hk.
  pose proof (entry_key_ok _ _ Ha) as Hoa. pose proof (entry_key_ok _ _ He) as Hoe.
  destruct (cmp_cases _ _ Hoa Hoe) as [(r & -> & Hr & Hlt)|[(-> & Heq)|(r & _ & _ & Hlt)]]; cbn [mbind option_bind].
  - rewrite (proj2 (Z.ltb_lt _ _)) by done. exists it, (Datatypes.S x). split_and!; try done; [intros y b ?; lia|].
    intros y b Hy Hb. destruct (decide (y = x)) as [->|]; [by replace b with a by congruence|].
    destruct (entry_order y x b a ltac:(lia) Hb Ha) as [Hlt'|[-> _]]; [|done].
    eapply cmp_trans; [by eapply entry_key_ok|exact Hoa|exact Hoe|done|done].
  - simpl. destruct (IH x a (set_iter d it) ltac:(lia) Ha) as (it' & g & -> & Hg & Hat' & Hsame & Hlow); simpl; [congruence|done|].
    exists it', g. rewrite Heq in *. split_and!; try done; [lia|]. intros y b Hy Hb.
    destruct (decide (y = x)) as [->|]; [congruence|]. apply (Hsame y b); [lia|done].
  - by destruct (key_not_below x (Datatypes.S x) a e ltac:(lia) Ha He).
Qed.

Lemma DB_Prev_ok (fuel r : nat) d :
  (length es < fuel)%nat -> db_at d (Some r) ->
  exists d', DB_Prev U snap fuel d = Some d' /\ db_at d' (pos_before r).
Proof.
  intros Hf (Hst & _ & i & e & Hr & He & Hd). destruct (shown_lookup _ _ _ _ Hr) as [Hsh ->].
  pose proof (shown_at_lt _ _ _ Hsh) as Hil. unfold DB_Prev. destruct (direction_ d) eqn:Edir.
  - destruct (ParseKey_at d i e Hd He) as (_ & _ & Hk & _). rewrite Hk. cbn [mbind option_bind]. unfold e_ikey.
    rewrite ExtractUserKey_ikey. cbn [mbind option_bind].
    destruct (leave_key_ok fuel i e (set_saved_key d (e_key e))) as (it & g & -> & Hg & Hat & Hsame & Hlow); try done; [lia|].
    rewrite (rank_same snap es g i Hg). 2:{ intros x Hx Hshx. destruct (lookup_lt_is_Some_2 es x) as [a Ha]; [lia|].
      apply (proj1 (shown_at_spec snap es i e He) Hsh) with (j := x) (e' := a); [lia|done|by apply (Hsame x)|].
      by apply (shown_at_spec snap es x a Ha). }
    cbn [mbind option_bind]. destruct g as [|g]; simpl.
    + eexists. split; [done|]. split_and!; [done|done|]. simpl. eauto.
    + apply FindPrevUserEntry_ok; try done. lia.
  - destruct Hd as (_ & _ & j & Hj & Hat & _ & Hu). rewrite (rank_same snap es j i Hj).
    + apply FindPrevUserEntry_ok; try done. lia.
    + intros x Hx Hshx. destruct (lookup_lt_is_Some_2 es x) as [a Ha]; [lia|]. apply (Hu x a Hx Ha).
      by apply (shown_at_spec snap es x a Ha).
Qed.

(** After a seek the internal iterator is at entry [j], or at none. *)
Lemma DB_seek_done (fuel j : nat) d (it : S) :
  (length es < fuel)%nat -> (j <= length es)%nat -> iat it (pos_of (length es) j) ->
  status_ d = OK -> direction_ d = kForward -> scan j j false (saved_key_ d) ->
  exists d', (let d := set_iter d it in
      if it_Valid it then FindNextUserEntry U snap fuel false d else Some (set_valid d false)) = Some d' /\
    db_at d' (view_pos (rank snap es j)).
Proof.
  intros Hf Hj Hat Hst Hd Hsc. cbv zeta. rewrite (it_valid_at _ _ Hat). unfold pos_of in Hat |- *.
  destruct (Nat.ltb_spec j (length es)); simpl.
  - apply (FindNextUserEntry_ok fuel j); try done. lia.
  - replace j with (length es) by lia. rewrite rank_end, Nat.ltb_irrefl.
    eexists. split; [done|]. split_and!; [done|done|]. simpl. eauto.
Qed.

(** The entries in front of a seek's position are of smaller keys or newer
    than the snapshot. *)
Lemma seek_scan (j : nat) (target k : bytes) :
  ok target ->
  Forall (fun e => @cmp_lt (InternalKeyComparator U) e.1 (ikey target (PackSequenceAndType snap kValueTypeForSeek)))
    (take j (map e_entry es)) ->
  Forall (fun e => ~ @cmp_lt (InternalKeyComparator U) e.1 (ikey target (PackSequenceAndType snap kValueTypeForSeek)))
    (drop j (map e_entry es)) ->
  (forall x a, (x < j)%nat -> es !! x = Some a -> sees a -> cmp_lt (e_key a) target) /\
  (forall x a, (j <= x)%nat -> es !! x = Some a -> ~ cmp_lt (e_key a) target).
Proof.
  intros Hok Hlt Hge. split; intros x a Hx Ha.
  - intros Hs. destruct (Forall_lookup_1 _ _ _ _ Hes Ha) as [Hsa Hka _ _].
    rewrite Forall_lookup in Hlt. specialize (Hlt x (e_entry a)). rewrite lookup_take_lt, list_lookup_fmap, Ha in Hlt by done.
    specialize (Hlt eq_refl). unfold e_entry, e_ikey in Hlt. simpl in Hlt.
    rewrite icmp_lt in Hlt by (done || by apply PackSequenceAndType_range). destruct Hlt as [|[_ Hlt]]; [done|].
    rewrite !PackSequenceAndType_value in Hlt by done. destruct (e_type a); simpl in Hlt; lia.
  - intros Hbelow. destruct (Forall_lookup_1 _ _ _ _ Hes Ha) as [Hsa Hka _ _].
    rewrite Forall_lookup in Hge. specialize (Hge (x - j)%nat (e_entry a)). rewrite lookup_drop, list_lookup_fmap in Hge.
    replace (j + (x - j))%nat with x in Hge by lia. rewrite Ha in Hge. apply (Hge eq_refl).
    unfold e_entry, e_ikey. simpl. rewrite icmp_lt by (done || by apply PackSequenceAndType_range). by left.
Qed.

Lemma view_lookup (p : nat) (kv : bytes * bytes) :
  user_view snap es !! p = Some kv ->
  exists i e, shown snap es !! p = Some i /\ es !! i = Some e /\ kv = (e_key e, e_value e) /\ sees e.
Proof.
  unfold user_view. rewrite list_lookup_fmap. destruct (shown snap es !! p) as [i|] eqn:Hp; [|done]. intros [= <-].
  destruct (shown_lookup _ _ _ _ Hp) as [Hs _]. destruct (lookup_lt_is_Some_2 es i (shown_at_lt _ _ _ Hs)) as [e He].
  exists i, e. unfold user_entry. rewrite He. split_and!; try done. by apply (shown_at_spec snap es i e He).
Qed.

(** Positions of the view and of the entries go together. *)
Lemma shown_before (p i j : nat) :
  shown snap es !! p = Some i -> (i < j <-> p < rank snap es j)%nat.
Proof.
  intros Hp. destruct (shown_lookup _ _ _ _ Hp) as [Hs ->]. split; intros H.
  - pose proof (rank_mono snap es (Datatypes.S i) j H) as Hm. rewrite rank_step in Hm by done. lia.
  - destruct (decide (i < j)%nat); [done|]. pose proof (rank_mono snap es j i ltac:(lia)). lia.
Qed.

Lemma DB_Seek_ok (fuel : nat) d (p : option nat) (target : bytes) :
  (length es < fuel)%nat -> db_at d p -> ok target -> iok (ikey target (PackSequenceAndType snap kValueTypeForSeek)) ->
  exists d' i, DB_Seek U snap fuel d target = Some d' /\ (i <= length (shown snap es))%nat /\ db_at d' (view_pos i) /\
    Forall (fun e => cmp_lt e.1 target) (take i (user_view snap es)) /\
    Forall (fun e => ~ cmp_lt e.1 target) (drop i (user_view snap es)).
Proof.
  intros Hf (Hst & _ & Hp) Hok Hiok. assert (exists q, iat (iter_ d) q) as [q Hq].
  { destruct p as [r|]; [|done]. destruct Hp as (i & e & _ & _ & Hd). destruct (direction_ d); [eauto|naive_solver]. }
  destruct (it_seek_at _ _ _ Hq Hiok) as (it & j & Hseek & Hj & Hat & Hlt & Hge). rewrite length_map in *.
  destruct (seek_scan j target [] Hok Hlt Hge) as [Hbelow Habove].
  unfold DB_Seek. cbn [iter_ saved_key_ set_saved_key ClearSavedValue set_saved_value set_direction].
  change (AppendInternalKey [] (MkParsed target snap kValueTypeForSeek)) with (ikey target (PackSequenceAndType snap kValueTypeForSeek)).
  rewrite Hseek. cbn [mbind option_bind].
  destruct (DB_seek_done fuel j (set_saved_key (ClearSavedValue (set_direction d kForward))
    (ikey target (PackSequenceAndType snap kValueTypeForSeek))) it) as (d' & Hd' & Hat'); try done.
  { apply scan_start. intros x y a b [Hx Hy] Ha Hb Hs Hk. apply (Habove y b Hy Hb). rewrite <- Hk. by apply (Hbelow x a). }
  exists d', (rank snap es j). split_and!; [done|by apply user_rank_le|done| |]; apply Forall_lookup; intros x kv Hx.
  - pose proof (lookup_lt_Some _ _ _ Hx) as Hl. rewrite length_take in Hl. rewrite lookup_take_lt in Hx by lia.
    apply view_lookup in Hx as (i & e & Hi & He & -> & Hs). simpl. apply (Hbelow i e); [|done|done].
    apply (shown_before x i j Hi). lia.
  - rewrite lookup_drop in Hx. apply view_lookup in Hx as (i & e & Hi & He & -> & Hs). simpl. apply (Habove i e); [|done].
    pose proof (shown_before _ i j Hi). lia.
Qed.

Lemma view_sorted : StronglySorted (fun a b : bytes * bytes => @cmp_lt U a.1 b.1) (user_view snap es).
Proof.
  apply sorted_of_lookup. intros x y a b Hxy Ha Hb.
  apply view_lookup in Ha as (i & e & Hi & He & -> & Hs). apply view_lookup in Hb as (i' & e' & Hi' & He' & -> & Hs').
  simpl. assert (i < i')%nat as Hlt.
  { apply (shown_before x i i' Hi). destruct (shown_lookup _ _ _ _ Hi') as [_ <-]. done. }
  destruct (entry_order i i' e e' Hlt He He') as [|[Hk _]]; [done|].
  destruct (shown_lookup _ _ _ _ Hi') as [Hsh _]. by destruct (hidden_by i i' e e').
Qed.

(** The view has the values of the newest entries. *)
Lemma view_newest (u v : bytes) : (u, v) ∈ user_view snap es <-> mem_get u snap es = MemValue v.
Proof.
  unfold mem_get. rewrite newest_first.
  2:{ intros x y a b Hxy Ha Hb Hk. destruct (entry_order x y a b Hxy Ha Hb) as [Hlt|[_ ?]]; [|done].
      rewrite Hk in Hlt. by destruct (cmp_lt_irrefl _ (entry_key_ok y b Hb)). }
  split.
  - intros [p Hp]%list_elem_of_lookup. apply view_lookup in Hp as (i & e & Hi & He & [= -> ->] & Hs).
    destruct (shown_lookup _ _ _ _ Hi) as [Hsh _]. apply (shown_at_spec snap es i e He) in Hsh as (_ & Ht & Hn).
    rewrite (proj2 (list_find_Some (visible (e_key e) snap) es i e)); [simpl; by rewrite Ht|].
    split_and!; [done|by split|]. intros j a Ha Hj [Hk Hsa]. by apply (Hn j a).
  - destruct (list_find (visible u snap) es) as [[i e]|] eqn:E; [|done]. simpl. destruct (e_type e) eqn:Ht; [done|].
    intros [= <-]. apply list_find_Some in E as (He & [<- Hs] & Hn).
    assert (shown_at snap es i) as Hsh.
    { apply (shown_at_spec snap es i e He). split_and!; [done|done|]. intros j a Hj Ha Hk Hsa. by apply (Hn j a Ha Hj). }
    apply list_elem_of_lookup. exists (rank snap es i). unfold user_view, user_entry.
    rewrite list_lookup_fmap, shown_rank by done. simpl. by rewrite He.
Qed.

Lemma DBIter_ok (fuel : nat) :
  (length es < fuel)%nat ->
  IteratorSpec (DB_iterator U snap fuel)
    (fun t => ok t /\ iok (ikey t (PackSequenceAndType snap kValueTypeForSeek))) (@cmp_lt U) (user_view snap es) db_at.
Proof.
  intros Hf. assert (length (user_view snap es) = length (shown snap es)) as Hlen by apply length_fmap.
  assert (forall d p, db_at d p -> exists q, iat (iter_ d) q) as Hiat.
  { intros d p (_ & _ & Hp). destruct p as [r|]; [|done]. destruct Hp as (i & e & _ & _ & Hd). destruct (direction_ d); [eauto|naive_solver]. }
  split; rewrite ?Hlen.
  - by intros d p (_ & Hv & _).
  - intros d r (_ & _ & i & e & Hr & He & Hd). exists (e_key e), (e_value e).
    split; [unfold user_view, user_entry; by rewrite list_lookup_fmap, Hr; simpl; rewrite He|].
    simpl. unfold DB_key, DB_value. destruct (direction_ d).
    + destruct (ParseKey_at d i e Hd He) as (_ & _ & -> & ->). cbn [mbind option_bind]. unfold e_ikey.
      by rewrite ExtractUserKey_ikey.
    + by destruct Hd as (-> & -> & _).
  - intros d p Hd. destruct (Hiat d p Hd) as [q Hq]. destruct (it_first_at _ _ Hq) as (it & Hit & Hat). rewrite length_map in Hat.
    simpl. unfold DB_SeekToFirst. cbn [iter_ ClearSavedValue set_saved_value set_direction]. rewrite Hit. cbn [mbind option_bind].
    apply (DB_seek_done fuel 0 (ClearSavedValue (set_direction d kForward)) it); try done; [lia|by destruct Hd|].
    apply scan_start. intros x y a b ?. lia.
  - intros d p Hd. destruct (Hiat d p Hd) as [q Hq]. destruct (it_last_at _ _ Hq) as (it & Hit & Hat). rewrite length_map in Hat.
    simpl. unfold DB_SeekToLast. cbn [iter_ ClearSavedValue set_saved_value set_direction]. rewrite Hit. cbn [mbind option_bind].
    rewrite <- rank_end. apply FindPrevUserEntry_ok; try done. by destruct Hd.
  - intros d r Hd. by apply DB_Next_ok.
  - intros d r Hd. by apply DB_Prev_ok.
  - intros d p t Hd [Hok Hiok]. by apply (DB_Seek_ok fuel d p t).
  - intros d p Hd. destruct (Hiat d p Hd) as [q Hq]. destruct Hd as [Hst _]. simpl. unfold DB_status. rewrite Hst.
    change (Status.ok OK) with true. by apply (it_status_at _ q).
Qed.
End spec.

(** ** Memtables *)

Lemma mem_rep_sorted (U : Comparator) (ok : bytes -> Prop) (m : Table) (es : list Entry) :
  mem_rep (U := U) (ok := ok) m es ->
  StronglySorted (fun a b => @cmp_lt (InternalKeyComparator U) (e_ikey a) (e_ikey b)) es.
Proof.
  intros [Hes [ns Hsl]]. apply sorted_of_lookup. intros i j a b Hij Ha Hb.
  pose proof (sorted_lookup _ _ i j (enc a) (enc b) (so_sorted _ _ _ Hsl) Hij) as Hlt.
  rewrite !list_lookup_fmap, Ha, Hb in Hlt. specialize (Hlt eq_refl eq_refl). unfold mem_lt in Hlt.
  rewrite !(key_of_enc (ok := ok)) in Hlt; [done|..]; by eapply Forall_lookup_1.
Qed.

(** ** Properties *)

(** C5. Over an iterator through internal entries in order, a database iterator
    at a snapshot runs through the user keys whose newest entry up to the
    snapshot is a value, each once and in order, with that value: forwards,
    backwards, with the direction changing anywhere, and after every seek; it
    reports no error, and every operation returns. *)
Theorem DBIter_refines (S : Type) (I : Iterator S) (U : Comparator) (ok iok : bytes -> Prop)
    (iat : S -> option nat -> Prop) (es : list Entry) (it : S) (snap seed : Z) (fuel : nat) :
  ComparatorSpec U ok -> IteratorSpec I iok (@cmp_lt (InternalKeyComparator U)) (map e_entry es) iat ->
  iat it None -> Forall (entry_ok (ok := ok)) es -> seq_ok snap -> (length es < fuel)%nat ->
  StronglySorted (fun a b => @cmp_lt (InternalKeyComparator U) (e_ikey a) (e_ikey b)) es ->
  exists view at_,
    StronglySorted (fun a b : bytes * bytes => @cmp_lt U a.1 b.1) view /\
    (forall u v, (u, v) ∈ view <-> mem_get u snap es = MemValue v) /\
    at_ (NewDBIterator it seed) None /\
    IteratorSpec (DB_iterator U snap fuel)
      (fun t => ok t /\ iok (ikey t (PackSequenceAndType snap kValueTypeForSeek))) (@cmp_lt U) view at_.
Proof.
  intros HU HI Hit Hes Hsnap Hfuel Hsorted. exists (user_view snap es), (db_at (iat := iat) snap es). split_and!.
  - by eapply view_sorted.
  - intros u v. by eapply view_newest.
  - split_and!; [done|done|]. simpl. eauto.
  - by apply DBIter_ok.
Qed.

(** A memtable in which one key was deleted and written again. *)
Lemma DBIter_refines_witness :
  exists m view at_,
    (m ← MemTable_new Arena.new_after;
     Adds Arena.new_after Bytewise.BytewiseComparator m mem_example) = Some m /\
    (forall u v, (u, v) ∈ view <-> (u, v) = ([Byte.x62], [Byte.x32])) /\
    at_ (NewDBIterator (NewIterator m) 301) None /\
    IteratorSpec (@DB_iterator _ (MemTableIterator_iterator Bytewise.BytewiseComparator) Bytewise.BytewiseComparator 3 5)
      (fun t => True /\ seek_ok (ok := fun _ => True) (ikey t (PackSequenceAndType 3 kValueTypeForSeek)))
      (@cmp_lt Bytewise.BytewiseComparator) view at_.
Proof.
  destruct (MemTable_new_ok Arena.new_after Arena.new_after_ok (HU := Bytewise.BytewiseComparator_spec))
    as (m0 & H0 & Hm0).
  destruct (Adds_ok Arena.new_after Arena.new_after_ok (HU := Bytewise.BytewiseComparator_spec) mem_example m0 [] Hm0)
    as (m & es & Hm & Hrep & Hp).
  { repeat constructor; done. }
  { apply (bool_decide_unpack (NoDup (map e_seq mem_example))). vm_compute. exact I. }
  pose proof Hrep as [Hes [ns Hsl]]. assert (length es < 5)%nat as Hlen by (rewrite Hp; simpl; lia).
  destruct (DBIter_refines _ _ _ _ _ _ es (NewIterator m) 3 301 5 Bytewise.BytewiseComparator_spec
    (MemTableIterator_ok Arena.new_after Arena.new_after_ok (HU := Bytewise.BytewiseComparator_spec) m es ns Hes Hsl)
    ltac:(by split) Hes ltac:(done) Hlen (mem_rep_sorted _ _ _ _ Hrep)) as (view & at_ & _ & Hview & Hat & Hspec).
  exists m, view, at_. split; [rewrite H0; exact Hm|]. split; [|split; [exact Hat|exact Hspec]].
  intros u v. rewrite Hview. unfold mem_get.
  rewrite (newest_perm u 3 mem_example es) by
    (done || (apply (bool_decide_unpack (NoDup (map e_seq mem_example))); vm_compute; exact I)).
  clear. unfold mem_example, newest, visible. simpl. repeat case_decide; naive_solver lia.
Defined.
