(* ===== verification/DbWrite.v ===== *)
(** * Writing to the database

    [db/db_impl.cc]: [Put], [Delete] and [Write] with the queue of writers and
    group commit, [MakeRoomForWrite] with the switch to a new memtable and
    log, the flush of the old memtable, and [Get].

    The tables below the memtables are behind the class [Levels].  A writer
    waiting in the queue is known by a number, the address of its [Writer];
    [done_] has the status of those a leader has finished.  [open_log] is the
    environment's [NewWritableFile] on the name of a log.

    A call of [Write] gives up the mutex while it waits for room, and while it
    writes to the log and the memtable.  It is cut there: [MakeRoomForWrite]
    is one round of its loop, and [Write_begin], [Write_apply] and
    [Write_finish] are the parts of the rest. *)

From Stdlib Require Import String.
From S2P Require Import Prelude Status Coding Crc32cTables Crc32c Comparator Files Log DbFormat VersionEdit Arena SkipList Iterator MemTable WriteBatch.

(** ** Definitions *)

(** What the writing and reading side of the database needs of the tables:
    [WriteLevel0Table], [VersionControl::LogAndApply], [DeleteObsoleteFiles],
    [Version::Get] and [CompactionSize]. *)
Class Levels (L : Type) := {
  WriteLevel0Table : L -> Table -> VersionEdit -> option (Status * VersionEdit * L);
  LogAndApply : L -> VersionEdit -> bool -> option (Status * VersionEdit * L);
  DeleteObsoleteFiles : L -> L;
  Version_Get : L -> LookupKey -> option (Status * option bytes * L);
  CompactionSize : L -> Z;
  NeedsCompaction : L -> bool }.

Module DB.

Definition SlowdownWritesTrigger : Z := 15.
Definition StopWritesTrigger : Z := 30.

Record Writer := MkWriter { w_id : Z; w_batch : option bytes; w_sync : bool }.

Record DBImpl (F L : Type) := MkDB {
  mem_ : Table;
  imm_ : option Table;
  log_ : Log.Writer F;
  logfile_number_ : Z;
  writers_ : list Writer;
  done_ : gmap Z Status;
  tmp_batch_ : bytes;
  bg_compaction_scheduled_ : bool;
  shutting_down_ : bool;
  bg_error_ : Status;
  v_next_file_number_ : Z;
  v_last_sequence_ : Z;
  levels_ : L }.
Arguments MkDB {F L}.
Arguments mem_ {F L}.
Arguments imm_ {F L}.
Arguments log_ {F L}.
Arguments logfile_number_ {F L}.
Arguments writers_ {F L}.
Arguments done_ {F L}.
Arguments tmp_batch_ {F L}.
Arguments bg_compaction_scheduled_ {F L}.
Arguments shutting_down_ {F L}.
Arguments bg_error_ {F L}.
Arguments v_next_file_number_ {F L}.
Arguments v_last_sequence_ {F L}.
Arguments levels_ {F L}.

Section db.
Context {P : CrcPort} {F L : Type} {W : WritableFile F} {LV : Levels L}.
Context (addr : bytes -> Z) (new : list Arena.range -> Z -> Z) (U : Comparator).
Context (open_log : Z -> F + Status) (write_buffer_size : Z) (disable_recovery_log : bool).
Implicit Types db : DBImpl F L.

Definition set_mem db (m : Table) : DBImpl F L :=
  MkDB m (imm_ db) (log_ db) (logfile_number_ db) (writers_ db) (done_ db) (tmp_batch_ db)
    (bg_compaction_scheduled_ db) (shutting_down_ db) (bg_error_ db) (v_next_file_number_ db) (v_last_sequence_ db) (levels_ db).

Definition set_imm db (m : option Table) : DBImpl F L :=
  MkDB (mem_ db) m (log_ db) (logfile_number_ db) (writers_ db) (done_ db) (tmp_batch_ db)
    (bg_compaction_scheduled_ db) (shutting_down_ db) (bg_error_ db) (v_next_file_number_ db) (v_last_sequence_ db) (levels_ db).

Definition set_log db (l : Log.Writer F) (n : Z) : DBImpl F L :=
  MkDB (mem_ db) (imm_ db) l n (writers_ db) (done_ db) (tmp_batch_ db)
    (bg_compaction_scheduled_ db) (shutting_down_ db) (bg_error_ db) (v_next_file_number_ db) (v_last_sequence_ db) (levels_ db).

Definition set_writers db (ws : list Writer) (done : gmap Z Status) : DBImpl F L :=
  MkDB (mem_ db) (imm_ db) (log_ db) (logfile_number_ db) ws done (tmp_batch_ db)
    (bg_compaction_scheduled_ db) (shutting_down_ db) (bg_error_ db) (v_next_file_number_ db) (v_last_sequence_ db) (levels_ db).

Definition set_tmp_batch db (b : bytes) : DBImpl F L :=
  MkDB (mem_ db) (imm_ db) (log_ db) (logfile_number_ db) (writers_ db) (done_ db) b
    (bg_compaction_scheduled_ db) (shutting_down_ db) (bg_error_ db) (v_next_file_number_ db) (v_last_sequence_ db) (levels_ db).

Definition set_scheduled db (b : bool) : DBImpl F L :=
  MkDB (mem_ db) (imm_ db) (log_ db) (logfile_number_ db) (writers_ db) (done_ db) (tmp_batch_ db)
    b (shutting_down_ db) (bg_error_ db) (v_next_file_number_ db) (v_last_sequence_ db) (levels_ db).

Definition set_bg_error db (s : Status) : DBImpl F L :=
  MkDB (mem_ db) (imm_ db) (log_ db) (logfile_number_ db) (writers_ db) (done_ db) (tmp_batch_ db)
    (bg_compaction_scheduled_ db) (shutting_down_ db) s (v_next_file_number_ db) (v_last_sequence_ db) (levels_ db).

Definition set_next_file db (n : Z) : DBImpl F L :=
  MkDB (mem_ db) (imm_ db) (log_ db) (logfile_number_ db) (writers_ db) (done_ db) (tmp_batch_ db)
    (bg_compaction_scheduled_ db) (shutting_down_ db) (bg_error_ db) n (v_last_sequence_ db) (levels_ db).

Definition SetLastSequence db (s : Z) : DBImpl F L :=
  MkDB (mem_ db) (imm_ db) (log_ db) (logfile_number_ db) (writers_ db) (done_ db) (tmp_batch_ db)
    (bg_compaction_scheduled_ db) (shutting_down_ db) (bg_error_ db) (v_next_file_number_ db) s (levels_ db).

Definition set_levels db (l : L) : DBImpl F L :=
  MkDB (mem_ db) (imm_ db) (log_ db) (logfile_number_ db) (writers_ db) (done_ db) (tmp_batch_ db)
    (bg_compaction_scheduled_ db) (shutting_down_ db) (bg_error_ db) (v_next_file_number_ db) (v_last_sequence_ db) l.

(** *** Background work *)

Definition RecordBackgroundError db (s : Status) : DBImpl F L := if ok (bg_error_ db) then set_bg_error db s else db.

Definition MaybeScheduleCompaction db : DBImpl F L :=
  if bg_compaction_scheduled_ db then db
  else if shutting_down_ db then db
  else if negb (ok (bg_error_ db)) then db
  else if negb (bool_decide (is_Some (imm_ db))) && negb (NeedsCompaction (levels_ db)) then db
  else set_scheduled db true.

Definition CompactMemTable db : option (DBImpl F L) :=
  imm ← imm_ db;
  '(s, edit, lv) ← WriteLevel0Table (levels_ db) imm VersionEdit_new;
  let db := set_levels db lv in
  let s := if ok s && shutting_down_ db then IOError (bs "Deleting DB during memtable compaction") else s in
  '(s, db) ← (if ok s then
                let edit := SetLogNumber (logfile_number_ db) (SetPrevLogNumber 0 edit) in
                '(s, _, lv) ← LogAndApply (levels_ db) edit false;
                Some (s, set_levels db lv)
              else Some (s, db));
  Some (if ok s then set_levels (set_imm db None) (DeleteObsoleteFiles (levels_ db))
        else RecordBackgroundError db s).

(** *** Room in the memtable *)

(** The ways a round of the loop of [MakeRoomForWrite] ends: [break], the
    pause of 1 ms, after which [allow_delay] is false, waiting for [bg_cv_],
    and, after the switch, the next round with [force] false. *)
Inductive Round := Break (s : Status) (db : DBImpl F L) | Pause | Wait | Again (db : DBImpl F L).

(** A log that cannot be opened gives its number back ([ReuseFileNumber]). *)
Definition MakeRoomForWrite db (force allow_delay : bool) : option Round :=
  if negb (ok (bg_error_ db)) then Some (Break (bg_error_ db) db)
  else if allow_delay && (SlowdownWritesTrigger <=? CompactionSize (levels_ db)) then Some Pause
  else if negb force && (ApproximateMemoryUsage (mem_ db) <=? write_buffer_size) then Some (Break OK db)
  else if bool_decide (is_Some (imm_ db)) then Some Wait
  else if StopWritesTrigger <=? CompactionSize (levels_ db) then Some Wait
  else
    let switch db :=
      m ← MemTable_new new;
      Some (Again (MaybeScheduleCompaction (set_mem (set_imm db (Some (mem_ db))) m))) in
    if disable_recovery_log then switch db
    else
      let new_log_number := v_next_file_number_ db in
      match open_log new_log_number with
      | inr s => Some (Break s db)
      | inl lfile =>
          switch (set_log (set_next_file db (u64 (new_log_number + 1))) (Writer_new addr lfile) new_log_number)
      end.

(** *** Group commit *)

(** The loop of [BuildBatchGroup]; [result] is null while the batch to write is
    that of the first writer, then it is [tmp_batch_]. *)
Fixpoint group_loop (first : Writer) (max_size : Z) (ws : list Writer) (tmp : bytes) (result : option bytes)
    (size last_writer : Z) : option (option bytes * Z) :=
  match ws with
  | [] => Some (result, last_writer)
  | w :: ws =>
      if w_sync w && negb (w_sync first) then Some (result, last_writer)
      else
        match w_batch w with
        | None => group_loop first max_size ws tmp result size (w_id w)
        | Some b =>
            let size := u64 (size + ByteSize b) in
            if max_size <? size then Some (result, last_writer)
            else
              result ← (match result with
                        | Some r => Some r
                        | None => b0 ← w_batch first; WriteBatch.Append tmp b0
                        end);
              result ← WriteBatch.Append result b;
              group_loop first max_size ws tmp (Some result) size (w_id w)
        end
  end.

(** The batch to write, whether it is [tmp_batch_], and the last writer. *)
Definition BuildBatchGroup db : option (bytes * bool * Z) :=
  match writers_ db with
  | [] => None
  | first :: ws =>
      b ← w_batch first;
      let size := ByteSize b in
      let max_size := if size <=? Z.shiftl 128 10 then size + Z.shiftl 128 10 else Z.shiftl 1 20 in
      '(result, last_writer) ← group_loop first max_size ws (tmp_batch_ db) None size (w_id first);
      Some (match result with Some r => (r, true, last_writer) | None => (b, false, last_writer) end)
  end.

(** The local variables of the leader; [updates] is null when there is nothing
    to write. *)
Record Group := MkGroup {
  leader : Z;
  last_writer : Z;
  status : Status;
  updates : option bytes;
  in_tmp : bool;
  last_sequence : Z }.

(** [Write] up to the wait: the writer is put in the queue. *)
Definition Write_enqueue db (w : Writer) : DBImpl F L := set_writers db (writers_ db ++ [w]) (done_ db).

(** [Write] after [MakeRoomForWrite] returned [s], up to the unlock. *)
Definition Write_begin db (s : Status) : option (Group * DBImpl F L) :=
  w ← head (writers_ db);
  let nothing := MkGroup (w_id w) (w_id w) s None false (v_last_sequence_ db) in
  match w_batch w with
  | Some _ =>
      if ok s then
        '(updates, in_tmp, last) ← BuildBatchGroup db;
        updates ← SetSequence updates (u64 (v_last_sequence_ db + 1));
        n ← Count updates;
        Some (MkGroup (w_id w) last s (Some updates) in_tmp (u64 (v_last_sequence_ db + n)),
              if (in_tmp : bool) then set_tmp_batch db updates else db)
      else Some (nothing, db)
  | None => Some (nothing, db)
  end.

(** The part without the mutex. *)
Definition Write_apply db (g : Group) : option (Group * DBImpl F L) :=
  match updates g with
  | None => Some (g, db)
  | Some u =>
      '(s, l) ← AddRecord addr (log_ db) (Contents u);
      let db := set_log db l (logfile_number_ db) in
      '(s, db) ← (if ok s then '(s, m) ← InsertInto new U u (mem_ db); Some (s, set_mem db m) else Some (s, db));
      Some (MkGroup (leader g) (last_writer g) s (updates g) (in_tmp g) (last_sequence g), db)
  end.

(** The loop that takes the writers of the group from the queue. *)
Fixpoint pop_writers (g : Group) (ws : list Writer) (done : gmap Z Status) : option (list Writer * gmap Z Status) :=
  match ws with
  | [] => None
  | ready :: ws =>
      let done := if w_id ready =? leader g then done else <[w_id ready := status g]> done in
      if w_id ready =? last_writer g then Some (ws, done) else pop_writers g ws done
  end.

(** [Write] from the lock on; the leader returns the status. *)
Definition Write_finish db (g : Group) : option (Status * DBImpl F L) :=
  let db := match updates g with
            | Some _ =>
                let db := if in_tmp g then set_tmp_batch db (WriteBatch.Clear (tmp_batch_ db)) else db in
                SetLastSequence db (last_sequence g)
            | None => db
            end in
  '(ws, done) ← pop_writers g (writers_ db) (done_ db);
  Some (status g, set_writers db ws done).

(** [DB::Put] and [DB::Delete]: the batch that is written. *)
Definition Put_batch (key value : bytes) : option bytes := WriteBatch.Put WriteBatch_new key value.
Definition Delete_batch (key : bytes) : option bytes := WriteBatch.Delete WriteBatch_new key.

(** *** Reading *)

(** [DBImpl::Get] at a snapshot; none is [LastSequence]. *)
Definition Get db (snapshot : option Z) (key : bytes) : option (Status * option bytes * DBImpl F L) :=
  let lkey := LookupKey_new key (default (v_last_sequence_ db) snapshot) in
  let below :=
    '(s, v, lv) ← Version_Get (levels_ db) lkey;
    Some (s, v, set_levels db lv) in
  let in_imm :=
    match imm_ db with
    | None => below
    | Some imm =>
        r ← MemTable.Get U imm lkey;
        match r with
        | MemValue v => Some (OK, Some v, db)
        | MemStatus s => Some (s, None, db)
        | MemMiss => below
        end
    end in
  r ← MemTable.Get U (mem_ db) lkey;
  match r with
  | MemValue v => Some (OK, Some v, db)
  | MemStatus s => Some (s, None, db)
  | MemMiss => in_imm
  end.
End db.
End DB.
