(* ===== verification/DbWriteSpec.v ===== *)
(** * The database is a map

    Writers are committed in the order in which they queued up, in groups, and
    a reader sees the effect of the writers committed so far: all updates of
    each, and nothing of a group that is being written. *)

From Stdlib Require Import String.
From S2P Require Import Prelude Status Coding Crc32cTables Crc32c Comparator Files Log LogSpec DbFormat VersionEdit Arena SkipList SkipListSpec Iterator MemTable WriteBatch DbWrite.
Import DB.

(** ** The specification *)

Definition apply_kv (m : gmap bytes bytes) (op : BatchOp) : gmap bytes bytes :=
  match op with OpPut k v => <[k := v]> m | OpDelete k => delete k m end.

(** The map that updates leave. *)
Definition kv_of (ops : list BatchOp) : gmap bytes bytes := foldl apply_kv ∅ ops.

(** What [DB::Get] returns for what a lookup found. *)
Definition kv_answer (v : option bytes) : Status * option bytes :=
  match v with Some v => (OK, Some v) | None => (NotFound [], None) end.

Definition mem_answer (r : MemGet) : Status * option bytes :=
  match r with MemValue v => (OK, Some v) | MemStatus s => (s, None) | MemMiss => (NotFound [], None) end.

Lemma ok_OK (s : Status) : Status.ok s = true -> s = OK.
Proof. by destruct s as [[|]]. Qed.

Lemma u64_fit (x : Z) : 0 <= x < 2 ^ 64 -> u64 x = x.
Proof. apply Z.mod_small. Qed.

(** ** Newest entries *)

Lemma newest_app (u : bytes) (s : Z) (l1 l2 : list Entry) :
  (forall a b, a ∈ l1 -> b ∈ l2 -> e_seq a < e_seq b) ->
  newest u s (l1 ++ l2) = match newest u s l2 with Some e => Some e | None => newest u s l1 end.
Proof.
  induction l1 as [|a l1 IH]; intros Hlt; simpl; [by destruct (newest u s l2)|].
  rewrite IH by set_solver. destruct (newest u s l2) as [b|] eqn:E; [|done].
  apply newest_some in E as (Hb & _). rewrite (proj2 (Z.ltb_lt _ _)) by (apply Hlt; set_solver).
  by destruct (decide (visible u s a)).
Qed.

Lemma newest_invisible (u : bytes) (s : Z) (l1 l2 : list Entry) :
  Forall (fun e => s < e_seq e) l2 -> newest u s (l1 ++ l2) = newest u s l1.
Proof.
  intros H2. induction l1 as [|a l1 IH]; simpl; [|by rewrite IH].
  apply newest_none. eapply Forall_impl; [exact H2|]. intros e He [_ Hs]. simpl in He. lia.
Qed.

Lemma batch_entries_range (seq : Z) (ops : list BatchOp) (e : Entry) :
  e ∈ batch_entries seq ops -> seq <= e_seq e < seq + Z.of_nat (length ops).
Proof.
  intros He. assert (e_seq e ∈ map e_seq (batch_entries seq ops)) as Hin by (by apply list_elem_of_fmap_2).
  rewrite batch_entries_seqs in Hin. apply elem_of_seqZ in Hin. lia.
Qed.

(** Sequence numbers grow along the updates. *)
Lemma batch_entries_split (n : Z) (C : list BatchOp) (l1 l2 : list Entry) (a b : Entry) :
  batch_entries n C = l1 ++ l2 -> a ∈ l1 -> b ∈ l2 -> e_seq a < e_seq b.
Proof.
  intros Hl Ha Hb. apply list_elem_of_lookup in Ha as [i Hi]. apply list_elem_of_lookup in Hb as [j Hj].
  assert (seqZ n (Z.of_nat (length C)) !! i = Some (e_seq a) /\
    seqZ n (Z.of_nat (length C)) !! (length l1 + j)%nat = Some (e_seq b)) as [H1 H2].
  { rewrite <- batch_entries_seqs, !list_lookup_fmap, Hl, lookup_app_l, Hi by (by eapply lookup_lt_Some).
    by rewrite lookup_app_r, Nat.add_sub', Hj by lia. }
  apply lookup_seqZ in H1, H2. pose proof (lookup_lt_Some _ _ _ Hi). lia.
Qed.

(** The newest entry of a key, of updates numbered in order, has the last value
    written. *)
Lemma kv_newest (ops : list BatchOp) (u : bytes) (s : Z) :
  Z.of_nat (length ops) <= s ->
  mem_answer (mem_get u s (batch_entries 1 ops)) = kv_answer (kv_of ops !! u).
Proof.
  intros Hs. unfold mem_get. induction ops as [|op ops IH] using rev_ind; [done|].
  rewrite length_app in Hs. simpl in Hs. specialize (IH ltac:(lia)).
  unfold kv_of in *. rewrite foldl_snoc, batch_entries_app, newest_app.
  2:{ intros a b Ha%batch_entries_range Hb%batch_entries_range. lia. }
  destruct op as [k v|k]; simpl; case_decide as Hv; unfold visible in Hv; simpl in Hv.
  - destruct Hv as [-> _]. by rewrite lookup_insert_eq.
  - rewrite IH, lookup_insert_ne; [done|]. intros ->. apply Hv. split; [done|lia].
  - destruct Hv as [-> _]. by rewrite lookup_delete_eq.
  - rewrite IH, lookup_delete_ne; [done|]. intros ->. apply Hv. split; [done|lia].
Qed.

(** ** Groups *)

Section groups.
Context (ok : bytes -> Prop).

(** Writer [w] has a well-formed batch with the updates [ops], or none. *)
Definition writer_ok (w : Writer) (ops : list BatchOp) : Prop :=
  match w_batch w with
  | None => ops = []
  | Some b => exists s, b = batch s ops /\ Forall (op_ok ok) ops /\ Z.of_nat (length b) < 2 ^ 31
  end.

Lemma ops_le_bytes (ops : list BatchOp) : (length ops <= length (concat (map op_bytes ops)))%nat.
Proof.
  induction ops as [|op ops IH]; simpl; [lia|]. rewrite length_app.
  assert (0 < length (op_bytes op))%nat by (destruct op; simpl; lia). lia.
Qed.

Lemma writer_ok_batch (w : Writer) (ops : list BatchOp) (b : bytes) :
  writer_ok w ops -> w_batch w = Some b ->
  exists s, b = batch s ops /\ Forall (op_ok ok) ops /\ Z.of_nat (length ops) + 12 <= ByteSize b < 2 ^ 31.
Proof.
  unfold writer_ok. intros Hw Hb. rewrite Hb in Hw. destruct Hw as (s & -> & Hops & Hl). exists s.
  split_and!; [done|done| |done]. unfold ByteSize. rewrite length_batch. pose proof (ops_le_bytes ops). lia.
Qed.

Lemma WriteBatch_new_batch : WriteBatch_new = batch 0 [].
Proof. reflexivity. Qed.

(** The loop takes the batches of the first [k] writers behind the first. *)
Lemma group_loop_ok (first : Writer) (ops0 : list BatchOp) (max_size : Z) (ws : list Writer) (opss : list (list BatchOp)) :
  Forall2 writer_ok ws opss -> writer_ok first ops0 -> is_Some (w_batch first) -> max_size < 2 ^ 31 ->
  forall result opsr size last,
  match result with None => opsr = ops0 | Some r => r = batch 0 opsr end ->
  0 <= size < 2 ^ 31 -> Z.of_nat (length opsr) <= size ->
  exists k result' last', group_loop first max_size ws WriteBatch_new result size last = Some (result', last') /\
    (k <= length ws)%nat /\ Some last' = (last :: map w_id ws) !! k /\ count_ok (length (opsr ++ concat (take k opss))) /\
    match result' with
    | None => ops0 = opsr ++ concat (take k opss)
    | Some r => r = batch 0 (opsr ++ concat (take k opss))
    end.
Proof.
  intros Hws Hfirst [b0 Hb0] Hmax. induction Hws as [|w ops ws opss Hw Hws IH]; intros result opsr size last Hr Hs Hl.
  { exists 0%nat, result, last. unfold count_ok. simpl. rewrite app_nil_r. destruct result; auto with lia. }
  assert (exists k result' last', Some (result, last) = Some (result', last') /\
    (k <= length (w :: ws))%nat /\ Some last' = (last :: map w_id (w :: ws)) !! k /\
    count_ok (length (opsr ++ concat (take k (ops :: opss)))) /\
    match result' with None => ops0 = opsr ++ concat (take k (ops :: opss))
    | Some r => r = batch 0 (opsr ++ concat (take k (ops :: opss))) end) as Hstop.
  { exists 0%nat, result, last. unfold count_ok. simpl. rewrite app_nil_r. destruct result; auto with lia. }
  cbn [group_loop]. destruct (w_sync w && negb (w_sync first)); [done|].
  destruct (w_batch w) as [b|] eqn:Hb.
  - destruct (writer_ok_batch w ops b Hw Hb) as (s & Hbs & _ & Hlen).
    assert (u64 (size + ByteSize b) = size + ByteSize b) as -> by (unfold u64; apply Z.mod_small; lia).
    destruct (Z.ltb_spec max_size (size + ByteSize b)); [done|].
    destruct (writer_ok_batch first ops0 b0 Hfirst Hb0) as (s0 & Hb0s & _ & Hlen0).
    assert (match result with Some r => Some r | None => b0 ← w_batch first; WriteBatch.Append WriteBatch_new b0 end
      = Some (batch 0 opsr)) as ->.
    { destruct result as [r|]; [by rewrite Hr|]. rewrite Hb0. cbn [mbind option_bind].
      rewrite WriteBatch_new_batch, Hb0s, Append_batch by (unfold count_ok; simpl; lia). by rewrite Hr. }
    cbn [mbind option_bind]. rewrite Hbs, Append_batch by (unfold count_ok; lia). cbn [mbind option_bind].
    rewrite <- Hbs. destruct (IH (Some (batch 0 (opsr ++ ops))) (opsr ++ ops) (size + ByteSize b) (w_id w)) as
      (k & result' & last' & -> & Hk & Hlast & Hc & Hres); [done|lia|rewrite length_app; lia|].
    exists (S k), result', last'. simpl. rewrite app_assoc. auto with lia.
  - unfold writer_ok in Hw. rewrite Hb in Hw. subst ops.
    destruct (IH result opsr size (w_id w) Hr Hs Hl) as (k & result' & last' & -> & Hk & Hlast & Hc & Hres).
    exists (S k), result', last'. simpl. auto with lia.
Qed.

(** The leader's batch has the updates of the first [k + 1] writers. *)
Lemma BuildBatchGroup_ok {F L : Type} (db : DBImpl F L) (opss : list (list BatchOp)) (w : Writer) (ws : list Writer) :
  writers_ db = w :: ws -> is_Some (w_batch w) -> Forall2 writer_ok (writers_ db) opss -> tmp_batch_ db = WriteBatch_new ->
  exists k s in_tmp last, BuildBatchGroup db = Some (batch s (concat (take (S k) opss)), in_tmp, last) /\
    (S k <= length (writers_ db))%nat /\ Some last = map w_id (writers_ db) !! k /\
    count_ok (length (concat (take (S k) opss))).
Proof.
  intros Hq [b Hb] Hws Htmp. unfold BuildBatchGroup. rewrite Hq, Htmp in *. inversion Hws as [|? ops0 ? opss' Hw Hws']; subst.
  destruct (writer_ok_batch w ops0 b Hw Hb) as (s & Hbs & _ & Hlen). rewrite Hb. cbn [mbind option_bind].
  set (max_size := if ByteSize b <=? Z.shiftl 128 10 then ByteSize b + Z.shiftl 128 10 else Z.shiftl 1 20).
  assert (max_size < 2 ^ 31) as Hmax.
  { unfold max_size. change (Z.shiftl 128 10) with 131072. change (Z.shiftl 1 20) with 1048576.
    destruct (Z.leb_spec (ByteSize b) 131072); lia. }
  destruct (group_loop_ok w ops0 max_size ws opss' Hws' Hw ltac:(eauto) Hmax None ops0 (ByteSize b) (w_id w))
    as (k & result & last & -> & Hk & Hlast & Hc & Hres); [done|lia|lia|]. cbn [mbind option_bind].
  destruct result as [r|]; [exists k, 0, true, last|exists k, s, false, last]; simpl; (split; [|auto with lia]).
  - by rewrite Hres.
  - by rewrite <- Hres, Hbs.
Qed.
End groups.

(** The leader takes the writers of its group, and each gets its status. *)
Lemma pop_writers_ok (g : Group) (ws : list Writer) (dn : gmap Z Status) (k : nat) :
  NoDup (map w_id ws) -> map w_id ws !! k = Some (last_writer g) ->
  exists done', pop_writers g ws dn = Some (drop (S k) ws, done') /\
    (forall w, w ∈ take (S k) ws -> w_id w <> leader g -> done' !! w_id w = Some (status g)) /\
    (forall i, i ∉ map w_id (take (S k) ws) -> done' !! i = dn !! i).
Proof.
  revert dn k. induction ws as [|w ws IH]; intros dn k Hnd Hk; [done|].
  cbn [pop_writers]. set (done1 := if w_id w =? leader g then dn else <[w_id w := status g]> dn). simpl in Hnd. apply NoDup_cons in Hnd as [Hw Hnd].
  assert ((w_id w <> leader g -> done1 !! w_id w = Some (status g)) /\ (forall i, i <> w_id w -> done1 !! i = dn !! i)) as [H1 H2].
  { unfold done1. destruct (Z.eqb_spec (w_id w) (leader g)); [done|]. split; [intros _; apply lookup_insert_eq|].
    intros i Hi. by apply lookup_insert_ne. }
  destruct k as [|k]; simpl in Hk.
  - injection Hk as <-. rewrite Z.eqb_refl. exists done1. split; [done|]. simpl. split.
    + intros x Hx. assert (x = w) as -> by set_solver. done.
    + intros i Hi. apply H2. set_solver.
  - assert (w_id w <> last_writer g) as Hne.
    { intros Heq. apply Hw. rewrite Heq. by eapply list_elem_of_lookup_2. }
    rewrite (proj2 (Z.eqb_neq _ _) Hne). destruct (IH done1 k Hnd Hk) as (done' & -> & Hin & Hout).
    exists done'. split; [done|]. cbn [take map]. split.
    + intros x [->|Hx]%elem_of_cons Hl; [|by apply Hin]. rewrite Hout; [by apply H1|].
      intros Hx. apply Hw. rewrite <- (take_drop (S k) ws), map_app. set_solver.
    + intros i Hi. rewrite Hout by set_solver. apply H2. set_solver.
Qed.

(** ** The tables below *)

(** Tables in the order they were written: later ones have newer entries. *)
Definition ordered (ess : list (list Entry)) : Prop :=
  forall i j es es' a b, (i < j)%nat -> ess !! i = Some es -> ess !! j = Some es' -> a ∈ es -> b ∈ es' -> e_seq a < e_seq b.

(** What the tables promise: [holds l ess] if the tables written so far have
    the entries [ess], and [pending l e ps] if edit [e] announces tables with
    the entries [ps].  A lookup that is not older than any entry finds the
    newest of its key. *)
Class LevelsSpec {L : Type} (LV : Levels L) (U : Comparator) (kok : bytes -> Prop) (holds : L -> list (list Entry) -> Prop)
    (pending : L -> VersionEdit -> list (list Entry) -> Prop) := {
  lv_new : forall l ess, holds l ess -> pending l VersionEdit_new [];
  lv_write : forall l m e ess ps es, holds l ess -> pending l e ps -> mem_rep (U := U) (ok := kok) m es ->
    exists s e' l', WriteLevel0Table l m e = Some (s, e', l') /\ holds l' ess /\
      (Status.ok s = true -> pending l' e' (ps ++ [es]));
  lv_apply : forall l e ess ps n, holds l ess -> pending l e ps ->
    exists s e' l', LogAndApply l (SetLogNumber n (SetPrevLogNumber 0 e)) false = Some (s, e', l') /\
      (holds l' (ess ++ ps) \/ Status.ok s = false /\ holds l' ess);
  lv_obsolete : forall l ess, holds l ess -> holds (DeleteObsoleteFiles l) ess;
  lv_get : forall l ess u s, holds l ess -> lookup_ok (ok := kok) u s -> ordered ess -> NoDup (map e_seq (concat ess)) ->
    Forall (fun e => e_seq e <= s) (concat ess) ->
    exists st v l', Version_Get l (LookupKey_new u s) = Some (st, v, l') /\
      (st, v) = mem_answer (mem_get u s (concat ess)) /\ holds l' ess }.

(** ** Runs of the database *)

Inductive Phase := Idle | Making (force allow_delay : bool) | Grouped (g : Group) | Applied (g : Group).

(** A database with what the thread of the first writer is doing, all calls of
    [Write] so far and those that have returned, with their statuses. *)
Record Sys (F L : Type) := MkSys {
  sdb : DBImpl F L;
  phase : Phase;
  calls : list (Writer * list BatchOp);
  returned : list (Writer * list BatchOp * Status) }.
Arguments MkSys {F L}.
Arguments sdb {F L}.
Arguments phase {F L}.
Arguments calls {F L}.
Arguments returned {F L}.

(** The updates of the writers that returned OK. *)
Definition committed (out : list (Writer * list BatchOp * Status)) : list BatchOp :=
  concat (map (fun x => if Status.ok x.2 then x.1.2 else []) out).

Section runs.
Context {P : CrcPort} {F L : Type} {W : WritableFile F} {LV : Levels L}.
Context (addr : bytes -> Z) (new : list Arena.range -> Z -> Z) (U : Comparator) (kok : bytes -> Prop).
Context (open_log : Z -> F + Status) (write_buffer_size : Z) (disable_recovery_log : bool).

(** The steps of the threads: a writer queues up; the first in the queue makes
    room, forms its group, writes it, and takes the group from the queue; the
    background thread flushes the old memtable. *)
Inductive step : Sys F L -> Sys F L -> Prop :=
  | step_enqueue db ph ins out w ops :
      w_id w ∉ map (fun x => w_id x.1) ins -> writer_ok kok w ops ->
      Z.of_nat (length (concat (map snd (ins ++ [(w, ops)])))) <= kMaxSequenceNumber ->
      step (MkSys db ph ins out) (MkSys (Write_enqueue db w) ph (ins ++ [(w, ops)]) out)
  | step_lead db ins out w ws :
      writers_ db = w :: ws -> let force := bool_decide (w_batch w = None) in
      step (MkSys db Idle ins out) (MkSys db (Making force (negb force)) ins out)
  | step_pause db force allow_delay ins out :
      MakeRoomForWrite addr new open_log write_buffer_size disable_recovery_log db force allow_delay = Some Pause ->
      step (MkSys db (Making force allow_delay) ins out) (MkSys db (Making force false) ins out)
  | step_switch db db' force allow_delay ins out :
      MakeRoomForWrite addr new open_log write_buffer_size disable_recovery_log db force allow_delay = Some (Again db') ->
      step (MkSys db (Making force allow_delay) ins out) (MkSys db' (Making false allow_delay) ins out)
  | step_group db db' db'' force allow_delay ins out s g :
      MakeRoomForWrite addr new open_log write_buffer_size disable_recovery_log db force allow_delay = Some (Break s db') ->
      Write_begin db' s = Some (g, db'') ->
      step (MkSys db (Making force allow_delay) ins out) (MkSys db'' (Grouped g) ins out)
  | step_apply db db' g g' ins out :
      Write_apply addr new U db g = Some (g', db') -> step (MkSys db (Grouped g) ins out) (MkSys db' (Applied g') ins out)
  | step_finish db db' g s ins out popped sts :
      Write_finish db g = Some (s, db') ->
      map fst popped = take (length (writers_ db) - length (writers_ db')) (writers_ db) ->
      popped = take (length popped) (drop (length out) ins) ->
      Forall2 (fun x st => if w_id x.1 =? leader g then st = s else done_ db' !! w_id x.1 = Some st) popped sts ->
      step (MkSys db (Applied g) ins out) (MkSys db' Idle ins (out ++ zip popped sts))
  | step_flush db db' ph ins out :
      Status.ok (bg_error_ db) = true -> CompactMemTable db = Some db' ->
      step (MkSys db ph ins out) (MkSys db' ph ins out).

Definition DB_new (m : Table) (f : F) (number : Z) (l : L) : Sys F L :=
  MkSys (MkDB m None (Writer_new addr f) number [] ∅ WriteBatch_new false false OK (number + 1) 0 l) Idle [] [].
End runs.

(** ** The invariant *)

Section inv.
Context {P : CrcPort} {HP : CrcPortSpec P} {F L : Type} {W : WritableFile F} {LV : Levels L}.
Context {contents : F -> bytes} {file_ok : F -> Prop} {HW : WritableFileSpec F contents file_ok}.
Context (addr : bytes -> Z) (new : list Arena.range -> Z -> Z).
Context (Hnew : forall bs n, 0 < n -> 0 < new bs n /\ new bs n mod 8 = 0 /\
  Forall (Arena.disjoint_range (new bs n, n)) bs).
Context {U : Comparator} {kok : bytes -> Prop} {HU : ComparatorSpec U kok}.
Context {holds : L -> list (list Entry) -> Prop} {pending : L -> VersionEdit -> list (list Entry) -> Prop}.
Context {HL : LevelsSpec LV U kok holds pending}.
Context (open_log : Z -> F + Status) (write_buffer_size : Z) (disable_recovery_log : bool).
Context (Hopen : forall n f, open_log n = inl f -> file_ok f /\ contents f = []).
Implicit Types (db : DBImpl F L) (C : list BatchOp).

Abbreviation mrep := (mem_rep (U := U) (ok := kok)).
Abbreviation last_of C := (Z.of_nat (length C)).

(** The entries of the updates committed, [C], are in the tables, [el], in the
    old memtable, [ei], and in the memtable, [em], which also has those of a
    group that is not finished, [pend]. *)
Definition mem_state db C (el ei em pend : list Entry) : Prop :=
  batch_entries 1 C = el ++ ei ++ em /\ v_last_sequence_ db = last_of C /\
  (exists em', mrep (mem_ db) em' /\ em' ≡ₚ em ++ pend) /\
  match imm_ db with None => ei = [] | Some m => exists ei', mrep m ei' /\ ei' ≡ₚ ei end /\
  exists ess, holds (levels_ db) ess /\ ordered ess /\
    (concat ess ≡ₚ el \/ is_Some (imm_ db) /\ Status.ok (bg_error_ db) = false /\ concat ess ≡ₚ el ++ ei).

(** The entries of the unfinished group are newer than all others. *)
Definition pend_ok C (pend : list Entry) : Prop := exists ops, pend = batch_entries (last_of C + 1) ops.

Lemma state_seqs C (el ei em pend : list Entry) :
  batch_entries 1 C = el ++ ei ++ em -> pend_ok C pend -> NoDup (map e_seq (el ++ ei ++ em ++ pend)).
Proof.
  intros HC [ops ->]. rewrite !app_assoc, <- (app_assoc el), <- HC.
  replace (last_of C + 1) with (1 + last_of C) by lia. rewrite <- batch_entries_app, batch_entries_seqs. apply NoDup_seqZ.
Qed.

Lemma state_order C (el ei em : list Entry) :
  batch_entries 1 C = el ++ ei ++ em ->
  (forall a b, a ∈ el ++ ei -> b ∈ em -> e_seq a < e_seq b) /\ (forall a b, a ∈ el -> b ∈ ei -> e_seq a < e_seq b).
Proof.
  intros HC. split; intros a b Ha Hb.
  - by apply (batch_entries_split 1 C (el ++ ei) em); [rewrite <- app_assoc|..].
  - apply (batch_entries_split 1 C el (ei ++ em)); set_solver.
Qed.

(** *** Lookups *)

(** Looking first in newer entries. *)
Lemma mem_get_app (u : bytes) (s : Z) (l1 l2 : list Entry) :
  (forall a b, a ∈ l1 -> b ∈ l2 -> e_seq a < e_seq b) ->
  mem_get u s (l1 ++ l2) = match mem_get u s l2 with MemMiss => mem_get u s l1 | r => r end.
Proof.
  intros H. unfold mem_get. rewrite newest_app by done. destruct (newest u s l2) as [e|]; [|done]. by destruct (e_type e).
Qed.

Lemma mem_get_perm (u : bytes) (s : Z) (es es' : list Entry) :
  es ≡ₚ es' -> NoDup (map e_seq es) -> mem_get u s es' = mem_get u s es.
Proof. intros Hp Hnd. unfold mem_get. by rewrite (newest_perm u s es es'). Qed.
Lemma memtable_lookup (m : Table) (es es' : list Entry) (u : bytes) (s : Z) :
  mrep m es' -> es' ≡ₚ es -> NoDup (map e_seq es) -> lookup_ok (ok := kok) u s ->
  MemTable.Get U m (LookupKey_new u s) = Some (mem_get u s es).
Proof.
  intros Hm Hp Hnd Hl. rewrite (Get_ok new Hnew m es' u s Hm); [|by rewrite Hp|done].
  f_equal. symmetry. apply mem_get_perm; [done|by rewrite Hp].
Qed.

Lemma mem_get_invisible (u : bytes) (s : Z) (l1 l2 : list Entry) :
  Forall (fun e => s < e_seq e) l2 -> mem_get u s (l1 ++ l2) = mem_get u s l1.
Proof. intros H. unfold mem_get. by rewrite newest_invisible. Qed.

Lemma pend_newer C (pend : list Entry) : pend_ok C pend -> Forall (fun e => last_of C < e_seq e) pend.
Proof. intros [ops ->]. apply Forall_forall. intros e He%batch_entries_range. lia. Qed.

(** The tables answer for what is not in the memtables. *)
Lemma below_ok db C (el ei em pend : list Entry) (u : bytes) :
  mem_state db C el ei em pend -> lookup_ok (ok := kok) u (last_of C) -> mem_get u (last_of C) ei = MemMiss ->
  exists st v l, Version_Get (levels_ db) (LookupKey_new u (last_of C)) = Some (st, v, l) /\
    (st, v) = mem_answer (mem_get u (last_of C) el).
Proof.
  intros (HC & _ & _ & _ & ess & Hwf & Hord & Hst) Hl Hmiss.
  pose proof (state_seqs C el ei em [] HC ltac:(by exists [])) as Hnd. rewrite app_nil_r in Hnd.
  assert (NoDup (map e_seq (el ++ ei))) as Hnd' by (rewrite app_assoc, map_app in Hnd; by apply NoDup_app in Hnd as [? _]).
  assert (Forall (fun e => e_seq e <= last_of C) (el ++ ei)) as Hle.
  { apply Forall_forall. intros e He. assert (e ∈ batch_entries 1 C) as Hb by (rewrite HC; set_solver).
    apply batch_entries_range in Hb. lia. }
  assert (exists es, concat ess ≡ₚ es /\ NoDup (map e_seq es) /\ Forall (fun e => e_seq e <= last_of C) es /\
    mem_get u (last_of C) es = mem_get u (last_of C) el) as (es & Hp & Hnde & Hlee & Heq).
  { destruct Hst as [Hst|(_ & _ & Hst)].
    - exists el. split_and!; [done| | |done]; [rewrite map_app in Hnd'; by apply NoDup_app in Hnd' as [? _]|].
      by apply Forall_app in Hle as [? _].
    - exists (el ++ ei). split_and!; [done|done|done|].
      rewrite mem_get_app by apply (state_order C el ei em HC). by rewrite Hmiss. }
  destruct (lv_get (levels_ db) ess u (last_of C) Hwf Hl Hord) as (st & v & l & HG & Hsv & _); [by rewrite Hp|by rewrite Hp|].
  exists st, v, l. split; [done|]. rewrite Hsv, <- Heq. f_equal. symmetry. apply mem_get_perm; [done|by rewrite Hp].
Qed.

(** [Get] reads the map of the updates committed. *)
Lemma Get_kv db C (el ei em pend : list Entry) (u : bytes) :
  mem_state db C el ei em pend -> pend_ok C pend -> lookup_ok (ok := kok) u (last_of C) ->
  exists st v db', Get U db None u = Some (st, v, db') /\ (st, v) = kv_answer (kv_of C !! u).
Proof.
  intros Hst Hpend Hl. pose proof Hst as (HC & Hlast & (em' & Hm & Hpm) & Hi & _).
  pose proof (state_seqs C el ei em pend HC Hpend) as Hnd.
  assert (NoDup (map e_seq ei) /\ NoDup (map e_seq (em ++ pend))) as [Hnde Hndm].
  { rewrite !map_app in Hnd. apply NoDup_app in Hnd as (_ & _ & Hnd). rewrite <- map_app in Hnd.
    by apply NoDup_app in Hnd as (? & _ & ?). }
  destruct (state_order C el ei em HC) as [Ho1 Ho2].
  rewrite <- (kv_newest C u (last_of C)), HC, app_assoc, mem_get_app, mem_get_app by (done || lia).
  unfold Get. cbn [default]. rewrite Hlast, (memtable_lookup (mem_ db) (em ++ pend) em' u) by done. cbn [mbind option_bind].
  rewrite mem_get_invisible by (by apply pend_newer).
  assert (mem_get u (last_of C) ei = MemMiss -> exists st v db',
    ('(s, v, lv) ← Version_Get (levels_ db) (LookupKey_new u (last_of C)); Some (s, v, set_levels db lv)) = Some (st, v, db') /\
    (st, v) = mem_answer (mem_get u (last_of C) el)) as Hbelow.
  { intros Hmiss. destruct (below_ok db C el ei em pend u Hst Hl Hmiss) as (st & v & l & -> & Hsv).
    cbn [mbind option_bind]. eauto. }
  destruct (mem_get u (last_of C) em) as [|v|st] eqn:Eem; [|eauto|eauto].
  destruct (imm_ db) as [m|].
  - destruct Hi as (ei' & Hmi & Hpi). rewrite (memtable_lookup m ei ei' u) by done. cbn [mbind option_bind].
    destruct (mem_get u (last_of C) ei) as [|v|st] eqn:Eei; [|eauto|eauto]. by apply Hbelow.
  - subst ei. by apply Hbelow.
Qed.
(** *** The log *)

(** A group with its first sequence number. *)
Definition logged_ok (g : Z * list BatchOp) : Prop :=
  Forall (op_ok kok) g.2 /\ count_ok (length g.2) /\ 0 < g.1 /\ g.1 + Z.of_nat (length g.2) <= kMaxSequenceNumber + 1.

(** The groups that log [lg] has. *)
Definition log_state (lg : Log.Writer F) (gs : list (Z * list BatchOp)) : Prop :=
  Forall logged_ok gs /\ exists f0, file_ok f0 /\ contents f0 = [] /\
    add_all addr (Writer_new addr f0) (map (fun g => batch g.1 g.2) gs) = Some lg.

Definition group_entries (gs : list (Z * list BatchOp)) : list Entry := concat (map (fun g => batch_entries g.1 g.2) gs).

Lemma add_all_app (w : Log.Writer F) (rs1 rs2 : list bytes) :
  add_all addr w (rs1 ++ rs2) = w ← add_all addr w rs1; add_all addr w rs2.
Proof.
  revert w. induction rs1 as [|r rs1 IH]; intros w; [done|]. cbn [add_all app].
  destruct (AddRecord addr w r) as [[s w']|]; [|done]. cbn [mbind option_bind]. destruct (Status.ok s); [apply IH|done].
Qed.

Lemma add_all_total (f0 : F) (rs : list bytes) :
  file_ok f0 -> contents f0 = [] -> exists w, add_all addr (Writer_new addr f0) rs = Some w.
Proof.
  intros Hf Hc. assert (LogSpec.writes (contents := contents) (file_ok := file_ok) addr (Writer_new addr f0) [] 0) as Hw
    by (rewrite <- Hc; by apply Writer_new_writes).
  destruct (add_all_ok addr rs _ _ _ Hw) as (pss & _ & _ & Hall). destruct (Hall (length rs)) as (w & Hadd & _).
  rewrite firstn_all in Hadd. eauto.
Qed.

Lemma log_add (lg : Log.Writer F) (gs : list (Z * list BatchOp)) (seq : Z) (ops : list BatchOp) :
  log_state lg gs -> logged_ok (seq, ops) ->
  exists s lg', AddRecord addr lg (batch seq ops) = Some (s, lg') /\ Status.ok s = true /\ log_state lg' (gs ++ [(seq, ops)]).
Proof.
  intros (Hgs & f0 & Hf & Hc & Hadd) Hg. destruct (add_all_total f0 (map (fun g => batch g.1 g.2) (gs ++ [(seq, ops)])) Hf Hc) as [w Hw].
  pose proof Hw as Hw'. rewrite map_app, add_all_app, Hadd in Hw'. cbn [mbind option_bind map add_all fst snd] in Hw'.
  destruct (AddRecord addr lg (batch seq ops)) as [[s lg']|]; [|done]. cbn [mbind option_bind] in Hw'.
  destruct (Status.ok s) eqn:Es; [|done]. injection Hw' as ->. exists s, w. split_and!; [done|done|].
  split; [|by exists f0]. apply Forall_app. split; [done|]. by constructor.
Qed.

(** *** The invariant *)

(** A group of the first [k + 1] writers of the queue, after sequence number
    [n]. *)
Definition group_ok (queue : list (Writer * list BatchOp)) (n : Z) (g : Group) (k : nat) : Prop :=
  let ids := map (fun x => w_id x.1) queue in let ops := concat (take (S k) (map snd queue)) in
  ids !! 0%nat = Some (leader g) /\ ids !! k = Some (last_writer g) /\
  match updates g with
  | Some u => status g = OK /\ u = batch (n + 1) ops /\ last_sequence g = n + Z.of_nat (length ops) /\ count_ok (length ops)
  | None => k = 0%nat /\ in_tmp g = false /\ (Status.ok (status g) = true -> ops = [])
  end.

Definition phase_ok (ph : Phase) (queue : list (Writer * list BatchOp)) (n : Z) (tmp : bytes) (pend : list Entry) : Prop :=
  match ph with
  | Idle => tmp = WriteBatch_new /\ pend = []
  | Making _ _ => tmp = WriteBatch_new /\ pend = [] /\ queue <> []
  | Grouped g => (in_tmp g = false -> tmp = WriteBatch_new) /\ pend = [] /\ exists k, group_ok queue n g k
  | Applied g => (in_tmp g = false -> tmp = WriteBatch_new) /\ exists k, group_ok queue n g k /\
      pend = match updates g with Some _ => batch_entries (n + 1) (concat (take (S k) (map snd queue))) | None => [] end
  end.

Definition Inv (s : Sys F L) : Prop :=
  exists queue el ei em pend gs pre,
    let C := committed (returned s) in
    calls s = map fst (returned s) ++ queue /\ map fst queue = writers_ (sdb s) /\
    NoDup (map (fun x => w_id x.1) (calls s)) /\ Forall (fun x => writer_ok kok x.1 x.2) (calls s) /\
    Z.of_nat (length (concat (map snd (calls s)))) <= kMaxSequenceNumber /\
    mem_state (sdb s) C el ei em pend /\
    log_state (log_ (sdb s)) gs /\ group_entries gs = pre ++ em ++ pend /\ (disable_recovery_log = false -> pre = []) /\
    phase_ok (phase s) queue (last_of C) (tmp_batch_ (sdb s)) pend.

Lemma committed_le (out : list (Writer * list BatchOp * Status)) (queue : list (Writer * list BatchOp)) :
  (length (committed out) + length (concat (map snd queue)) <= length (concat (map snd (map fst out ++ queue))))%nat.
Proof.
  rewrite map_app, concat_app, length_app. apply Nat.add_le_mono_r. unfold committed.
  induction out as [|[[w ops] st] out IH]; simpl; [lia|]. rewrite !length_app. destruct (Status.ok st); simpl; lia.
Qed.

Lemma phase_pend (ph : Phase) (queue : list (Writer * list BatchOp)) C (tmp : bytes) (pend : list Entry) :
  phase_ok ph queue (last_of C) tmp pend -> pend_ok C pend.
Proof.
  destruct ph as [|f a|g|g]; simpl; [intros [_ ->]|intros (_ & -> & _)|intros (_ & -> & _)|intros (_ & k & _ & ->)];
    [by exists []|by exists []|by exists []|]. destruct (updates g); [by eexists|by exists []].
Qed.
(** *** Every step keeps it *)

Lemma group_ok_app (queue more : list (Writer * list BatchOp)) (n : Z) (g : Group) (k : nat) :
  group_ok queue n g k -> group_ok (queue ++ more) n g k /\
    take (S k) (map snd (queue ++ more)) = take (S k) (map snd queue).
Proof.
  intros (H0 & Hk & Hu). pose proof (lookup_lt_Some _ _ _ Hk) as Hl. rewrite length_map in Hl.
  assert (take (S k) (map snd (queue ++ more)) = take (S k) (map snd queue)) as Ht.
  { rewrite map_app, take_app_le; [done|rewrite length_map; lia]. }
  split; [|done]. unfold group_ok. rewrite Ht, map_app.
  rewrite !lookup_app_l by (rewrite length_map; lia). done.
Qed.

Lemma phase_ok_app (ph : Phase) (queue more : list (Writer * list BatchOp)) (n : Z) (tmp : bytes) (pend : list Entry) :
  phase_ok ph queue n tmp pend -> phase_ok ph (queue ++ more) n tmp pend.
Proof.
  destruct ph as [|f a|g|g]; simpl; [done| | |].
  - intros (? & ? & Hq). split_and!; [done|done|]. by destruct queue.
  - intros (? & ? & k & Hg). split_and!; [done|done|]. exists k. by apply group_ok_app.
  - intros (? & k & Hg & Hp). split; [done|]. exists k. destruct (group_ok_app queue more n g k Hg) as [? ->]. done.
Qed.

Lemma Inv_enqueue db (ph : Phase) ins out (w : Writer) (ops : list BatchOp) :
  Inv (MkSys db ph ins out) -> w_id w ∉ map (fun x => w_id x.1) ins -> writer_ok kok w ops ->
  Z.of_nat (length (concat (map snd (ins ++ [(w, ops)])))) <= kMaxSequenceNumber ->
  Inv (MkSys (Write_enqueue db w) ph (ins ++ [(w, ops)]) out).
Proof.
  intros (queue & el & ei & em & pend & gs & pre & Hin & Hq & Hnd & Hok & _ & Hm & Hlog & Hgs & Hpre & Hph) Hw Hwo Hmax.
  exists (queue ++ [(w, ops)]), el, ei, em, pend, gs, pre. simpl in *. split_and!; try done.
  - by rewrite Hin, app_assoc.
  - by rewrite map_app, Hq.
  - rewrite map_app. apply NoDup_app. split_and!; [done| |apply NoDup_singleton]. set_solver.
  - apply Forall_app. split; [done|]. by constructor.
  - by apply phase_ok_app.
Qed.

Lemma MaybeSchedule_cases db : MaybeScheduleCompaction db = db \/ MaybeScheduleCompaction db = set_scheduled db true.
Proof. unfold MaybeScheduleCompaction. repeat case_match; auto. Qed.

Abbreviation room := (MakeRoomForWrite addr new open_log write_buffer_size disable_recovery_log).

Lemma room_break db db' (force allow_delay : bool) (st : Status) :
  room db force allow_delay = Some (Break st db') -> db' = db.
Proof.
  unfold MakeRoomForWrite. intros H. repeat (case_match; simplify_eq; try done);
    destruct (MemTable_new new); simplify_eq.
Qed.

(** The switch to a new memtable. *)
Lemma room_again db db' (force allow_delay : bool) :
  room db force allow_delay = Some (Again db') ->
  imm_ db = None /\ exists m lg n nf b, MemTable_new new = Some m /\
    (disable_recovery_log = true /\ lg = log_ db \/
     disable_recovery_log = false /\ exists i f, open_log i = inl f /\ lg = Writer_new addr f) /\
    db' = MkDB m (Some (mem_ db)) lg n (writers_ db) (done_ db) (tmp_batch_ db) b
      (shutting_down_ db) (bg_error_ db) nf (v_last_sequence_ db) (levels_ db).
Proof.
  unfold MakeRoomForWrite. intros H.
  do 3 (case_match; [done|]). destruct (imm_ db) as [m|] eqn:Ei; [by rewrite bool_decide_true in H|].
  rewrite bool_decide_false in H by (by intros [? ?]). case_match; [done|]. split; [done|].
  destruct disable_recovery_log eqn:Ed.
  - destruct (MemTable_new new) as [m|]; [|done]. injection H as <-. exists m, (log_ db).
    destruct (MaybeSchedule_cases (set_mem (set_imm db (Some (mem_ db))) m)) as [->| ->];
      (do 3 eexists; split_and!; [done|by left|reflexivity]).
  - destruct (open_log (v_next_file_number_ db)) as [f|st] eqn:Ef; [|done].
    destruct (MemTable_new new) as [m|]; [|done]. injection H as <-. exists m, (Writer_new addr f).
    match goal with |- context [MaybeScheduleCompaction ?d] => destruct (MaybeSchedule_cases d) as [->| ->] end;
      (do 3 eexists; split_and!; [done|right; eauto|reflexivity]).
Qed.

Lemma Inv_switch db db' (force allow_delay : bool) ins out :
  Inv (MkSys db (Making force allow_delay) ins out) -> room db force allow_delay = Some (Again db') ->
  Inv (MkSys db' (Making false allow_delay) ins out).
Proof.
  intros (queue & el & ei & em & pend & gs & pre & Hin & Hq & Hnd & Hok & Hmax & Hm & Hlog & Hgs & Hpre & Hph) Hr.
  apply room_again in Hr as (Himm & m & lg & n & nf & b & Hnewm & Hlg & ->). simpl in *. destruct Hph as (Htmp & -> & Hne).
  destruct Hm as (HC & Hlast & (em' & Hem & Hpm) & Hi & ess & Hwf & Hord & Hst). rewrite Himm in Hi. subst ei.
  destruct (MemTable_new_ok new Hnew (U := U) (ok := kok)) as (m' & Hm' & Hrep). rewrite Hnewm in Hm'. injection Hm' as <-.
  rewrite app_nil_r in Hpm, Hgs.
  exists queue, el, em, [], [], (if disable_recovery_log then gs else []), (if disable_recovery_log then pre ++ em else []).
  simpl. split_and!; try done.
  - unfold mem_state. simpl. rewrite app_nil_r. split_and!; try done; [by exists []|by exists em'|].
    exists ess. split_and!; [done|done|]. left. destruct Hst as [|([? ?] & _)]; [done|congruence].
  - destruct Hlg as [[-> ->]|(-> & i & f & Hf & ->)]; [done|]. destruct (Hopen i f Hf). split; [constructor|by exists f].
  - destruct disable_recovery_log; [by rewrite Hgs, app_nil_r|done].
  - intros Hd. by rewrite Hd.
Qed.
Lemma queue_ok (ins queue : list (Writer * list BatchOp)) (pre : list (Writer * list BatchOp)) :
  ins = pre ++ queue -> Forall (fun x => writer_ok kok x.1 x.2) ins ->
  Forall2 (writer_ok kok) (map fst queue) (map snd queue).
Proof.
  intros -> [_ Hq]%Forall_app. induction Hq; simpl; [constructor|]. by constructor.
Qed.

Lemma Inv_group db (force allow_delay : bool) ins out (st : Status) :
  Inv (MkSys db (Making force allow_delay) ins out) ->
  exists g db', Write_begin db st = Some (g, db') /\ Inv (MkSys db' (Grouped g) ins out).
Proof.
  intros (queue & el & ei & em & pend & gs & pre & Hin & Hq & Hnd & Hok & Hmax & Hm & Hlog & Hgs & Hpre & Hph).
  simpl in *. destruct Hph as (Htmp & -> & Hne). destruct queue as [|[w ops] queue]; [done|]. simpl in Hq.
  pose proof (queue_ok _ _ _ Hin Hok) as Hq2. simpl in Hq2. pose proof Hq2 as [Hw _]%Forall2_cons_1.
  rewrite Hq in Hq2. pose proof Hm as (_ & Hlast & _).
  pose proof (committed_le out ((w, ops) :: queue)) as Hle. rewrite <- Hin in Hle.
  assert (0 <= last_of (committed out) <= kMaxSequenceNumber) as Hrange by lia.
  change kMaxSequenceNumber with (2 ^ 56 - 1) in Hrange, Hmax.
  unfold Write_begin. rewrite <- Hq. cbn [head mbind option_bind].
  assert (forall g0, g0 = MkGroup (w_id w) (w_id w) st None false (v_last_sequence_ db) ->
    (Status.ok st = true -> ops = []) -> exists g db', Some (g0, db) = Some (g, db') /\ Inv (MkSys db' (Grouped g) ins out)) as Hnothing.
  { intros g0 -> Hops. do 2 eexists. split; [done|]. exists ((w, ops) :: queue), el, ei, em, [], gs, pre. simpl. rewrite Hq.
    split_and!; try done. exists 0%nat. unfold group_ok. simpl. split_and!; try done. intros Hs. by rewrite (Hops Hs). }
  destruct (w_batch w) as [b|] eqn:Hwb.
  2:{ eapply Hnothing; [done|]. intros _. unfold writer_ok in Hw. by rewrite Hwb in Hw. }
  destruct (Status.ok st) eqn:Est; [|by eapply Hnothing].
  destruct (BuildBatchGroup_ok kok db (ops :: map snd queue) w (map fst queue) (eq_sym Hq) ltac:(rewrite Hwb; eauto)) as
    (k & s0 & it & last & Hbuild & Hk & Hlw & Hcount); [done|done|].
  rewrite Hbuild. cbn [mbind option_bind]. rewrite Hlast, SetSequence_batch. cbn [mbind option_bind].
  rewrite Count_batch by done. cbn [mbind option_bind].
  set (gops := concat (take (S k) (ops :: map snd queue))) in *.
  assert (Z.of_nat (length gops) <= Z.of_nat (length (concat (ops :: map snd queue)))) as Hgl.
  { unfold gops. rewrite <- (take_drop (S k) (ops :: map snd queue)) at 2. rewrite concat_app, length_app. lia. }
  cbn [map snd] in Hle.
  rewrite !u64_fit by lia. do 2 eexists. split; [done|].
  exists ((w, ops) :: queue), el, ei, em, [], gs, pre. rewrite <- Hq in Hlw.
  assert (group_ok ((w, ops) :: queue) (last_of (committed out))
    (MkGroup (w_id w) last st (Some (batch (last_of (committed out) + 1) gops)) it (last_of (committed out) + Z.of_nat (length gops))) k) as Hg.
  { assert (map (fun x : Writer * list BatchOp => w_id x.1) ((w, ops) :: queue) = map w_id (w :: map fst queue)) as Hids
      by (simpl; by rewrite map_map).
    unfold group_ok. rewrite Hids, <- Hlw. cbn [updates status leader last_sequence map snd]. split_and!; try done. by apply ok_OK. }
  destruct it; simpl; split_and!; try done; eauto.
Qed.
Lemma group_ops_ok (ins queue pre : list (Writer * list BatchOp)) (k : nat) :
  ins = pre ++ queue -> Forall (fun x => writer_ok kok x.1 x.2) ins ->
  Forall (op_ok kok) (concat (take k (map snd queue))).
Proof.
  intros -> [_ Hq]%Forall_app. revert k. induction Hq as [|[w ops] queue Hw Hq IH]; intros [|k]; simpl; try constructor.
  apply Forall_app. split; [|by apply IH]. unfold writer_ok in Hw. simpl in Hw.
  destruct (w_batch w); [by destruct Hw as (? & _ & ? & _)|by subst ops].
Qed.

Lemma Inv_apply db (g : Group) ins out :
  Inv (MkSys db (Grouped g) ins out) ->
  exists g' db', Write_apply addr new U db g = Some (g', db') /\ Inv (MkSys db' (Applied g') ins out).
Proof.
  intros (queue & el & ei & em & pend & gs & pre & Hin & Hq & Hnd & Hok & Hmax & Hm & Hlog & Hgs & Hpre & Hph).
  simpl in *. destruct Hph as (Htmp & -> & k & Hg). unfold Write_apply. pose proof Hg as (Hl0 & Hlk & Hu).
  destruct (updates g) as [u|] eqn:Eu.
  2:{ do 2 eexists. split; [done|]. exists queue, el, ei, em, [], gs, pre. simpl. split_and!; try done. exists k. by rewrite Eu. }
  destruct Hu as (Hs & -> & Hseq & Hcount). set (ops := concat (take (S k) (map snd queue))) in *.
  pose proof (group_ops_ok _ _ _ (S k) Hin Hok) as Hops. fold ops in Hops.
  pose proof (committed_le out queue) as Hle. rewrite <- Hin in Hle. change kMaxSequenceNumber with (2 ^ 56 - 1) in Hmax.
  assert (length ops <= length (concat (map snd queue)))%nat as Hgl.
  { unfold ops. rewrite <- (take_drop (S k) (map snd queue)) at 2. rewrite concat_app, length_app. lia. }
  destruct (log_add (log_ db) gs (last_of (committed out) + 1) ops Hlog) as (s1 & lg & Hadd & Hs1 & Hlog').
  { unfold logged_ok. change kMaxSequenceNumber with (2 ^ 56 - 1). simpl. split_and!; try done; lia. }
  unfold Contents. rewrite Hadd. cbn [mbind option_bind]. rewrite Hs1.
  destruct Hm as (HC & Hlast & (em' & Hem & Hpm) & Hrest). cbn [mem_ set_log].
  rewrite InsertInto_batch; [|by eapply Forall_impl; [exact Hops|apply op_ok_short]|done|lia|lia].
  destruct (Adds_ok new Hnew (batch_entries (last_of (committed out) + 1) ops) (mem_ db) em' Hem) as (m & all & Hm & Hrep & Hall).
  { apply batch_entries_ok; [done|lia|]. change kMaxSequenceNumber with (2 ^ 56 - 1). lia. }
  { rewrite Hpm, app_nil_r. pose proof (state_seqs _ el ei em (batch_entries (last_of (committed out) + 1) ops) HC ltac:(by eexists)) as Hn.
    rewrite app_assoc, map_app in Hn. by apply NoDup_app in Hn as (_ & _ & ?). }
  rewrite Hm. cbn [mbind option_bind]. do 2 eexists. split; [done|].
  exists queue, el, ei, em, (batch_entries (last_of (committed out) + 1) ops), (gs ++ [(last_of (committed out) + 1, ops)]), pre.
  simpl. split_and!; try done.
  - unfold mem_state. simpl. split_and!; try done; [|apply Hrest..]. exists all. split; [done|]. by rewrite Hall, Hpm, app_nil_r.
  - unfold group_entries. rewrite map_app, concat_app. fold (group_entries gs). rewrite Hgs. simpl.
    by rewrite !app_nil_r, !app_assoc.
  - exists k. split; [|done]. unfold group_ok. simpl. split_and!; try done.
Qed.
(** The writers of a group get its status. *)
Lemma group_returns (queue : list (Writer * list BatchOp)) (g : Group) (done' : gmap Z Status) (k : nat) sts :
  (forall w, w ∈ take (S k) (map fst queue) -> w_id w <> leader g -> done' !! w_id w = Some (status g)) ->
  Forall2 (fun x st => if w_id x.1 =? leader g then st = status g else done' !! w_id x.1 = Some st) (take (S k) queue) sts ->
  sts = replicate (length (take (S k) queue)) (status g).
Proof.
  intros Hdone H. rewrite <- fmap_take in Hdone. revert Hdone.
  induction H as [|x st l sts Hx H IH]; intros Hdone; [done|]. simpl. f_equal.
  - destruct (Z.eqb_spec (w_id x.1) (leader g)) as [|Hne]; [done|].
    specialize (Hdone x.1 ltac:(simpl; set_solver) Hne). congruence.
  - apply IH. intros w Hw. apply Hdone. simpl. set_solver.
Qed.

Lemma committed_group (out : list (Writer * list BatchOp * Status)) (l : list (Writer * list BatchOp)) (st : Status) :
  committed (out ++ zip l (replicate (length l) st)) = committed out ++ (if Status.ok st then concat (map snd l) else []).
Proof.
  unfold committed. rewrite map_app, concat_app. f_equal. induction l as [|[w ops] l IH]; simpl; [by destruct (Status.ok st)|].
  rewrite IH. by destruct (Status.ok st).
Qed.

(** The database at the end of [Write], before the writers leave the queue. *)
Definition finished db (g : Group) : DBImpl F L :=
  match updates g with
  | Some _ => SetLastSequence (if in_tmp g then set_tmp_batch db (WriteBatch.Clear (tmp_batch_ db)) else db) (last_sequence g)
  | None => db
  end.

(** With the group finished its entries are committed. *)
Lemma finish_state db (g : Group) (queue : list (Writer * list BatchOp)) C (el ei em : list Entry) (k : nat) ws dn :
  let ops := concat (take (S k) (map snd queue)) in
  let pend := match updates g with Some _ => batch_entries (last_of C + 1) ops | None => [] end in
  mem_state db C el ei em pend -> group_ok queue (last_of C) g k ->
  mem_state (set_writers (finished db g) ws dn) (C ++ (if Status.ok (status g) then ops else [])) el ei (em ++ pend) [].
Proof.
  cbv zeta. intros (HC & Hlast & (em' & Hem & Hpm) & Hrest) (_ & _ & Hu). unfold mem_state, finished.
  destruct (updates g) as [u|].
  - destruct Hu as (-> & -> & Hseq & _). change (Status.ok OK) with true. cbv iota.
    split_and!; [| |exists em'; rewrite app_nil_r; by destruct (in_tmp g)|by destruct (in_tmp g); apply Hrest..].
    + rewrite batch_entries_app, HC, <- !app_assoc, (Z.add_comm (last_of C)). done.
    + rewrite length_app, Nat2Z.inj_add. by destruct (in_tmp g).
  - destruct Hu as (-> & _ & Hops). assert ((if Status.ok (status g) then concat (take 1 (map snd queue)) else []) = []) as ->.
    { destruct (Status.ok (status g)); [by apply Hops|done]. }
    rewrite !app_nil_r in *. split_and!; try done; [by exists em'|apply Hrest..].
Qed.

Lemma Write_finish_ok db (g : Group) (queue : list (Writer * list BatchOp)) (n : Z) (k : nat) :
  map fst queue = writers_ db -> NoDup (map (fun x => w_id x.1) queue) -> group_ok queue n g k ->
  exists dn, Write_finish db g = Some (status g, set_writers (finished db g) (drop (S k) (map fst queue)) dn) /\
    forall w, w ∈ take (S k) (map fst queue) -> w_id w <> leader g -> dn !! w_id w = Some (status g).
Proof.
  intros Hq Hnd (_ & Hlk & _). assert (writers_ (finished db g) = map fst queue) as Hq1
    by (rewrite Hq; unfold finished; by destruct (updates g), (in_tmp g)).
  destruct (pop_writers_ok g (writers_ (finished db g)) (done_ (finished db g)) k) as (dn & Hpw & Hdn & _).
  { by rewrite Hq1, map_map. }
  { by rewrite Hq1, map_map. }
  exists dn. rewrite Hq1 in Hpw, Hdn. split; [|done].
  assert (Write_finish db g = '(ws, dn) ← pop_writers g (writers_ (finished db g)) (done_ (finished db g));
    Some (status g, set_writers (finished db g) ws dn)) as -> by (unfold Write_finish, finished; by destruct (updates g)).
  by rewrite Hq1, Hpw.
Qed.

Lemma Inv_finish db db' (g : Group) (st : Status) ins out popped sts :
  Inv (MkSys db (Applied g) ins out) -> Write_finish db g = Some (st, db') ->
  map fst popped = take (length (writers_ db) - length (writers_ db')) (writers_ db) ->
  popped = take (length popped) (drop (length out) ins) ->
  Forall2 (fun x st' => if w_id x.1 =? leader g then st' = st else done_ db' !! w_id x.1 = Some st') popped sts ->
  Inv (MkSys db' Idle ins (out ++ zip popped sts)).
Proof.
  intros (queue & el & ei & em & pend & gs & pre & Hin & Hq & Hnd & Hok & Hmax & Hm & Hlog & Hgs & Hpre & Hph) Hf Hpop Hpop2 Hsts.
  simpl in *. destruct Hph as (Htmp & k & Hg & Hpend). pose proof Hg as (_ & Hlk & Hu).
  destruct (Write_finish_ok db g queue (last_of (committed out)) k Hq) as (dn & Hf' & Hdn); [|exact Hg|].
  { rewrite Hin, map_app in Hnd. by apply NoDup_app in Hnd as (_ & _ & ?). }
  rewrite Hf' in Hf. injection Hf as <- <-. simpl in Hpop, Hsts.
  pose proof (lookup_lt_Some _ _ _ Hlk) as Hkl. rewrite length_map in Hkl.
  assert (popped = take (S k) queue) as ->.
  { rewrite Hin, drop_app_length' in Hpop2 by (by rewrite length_map). rewrite Hpop2. f_equal.
    rewrite <- (length_map fst), Hpop, length_take, length_drop, <- Hq, length_map. lia. }
  rewrite (group_returns queue g dn k sts Hdn Hsts).
  exists (drop (S k) queue), el, ei, (em ++ pend), [], gs, pre. simpl.
  rewrite committed_group, fmap_take. split_and!; try done.
  - rewrite map_app, fst_zip by (rewrite length_replicate; lia). by rewrite <- app_assoc, take_drop.
  - by rewrite fmap_drop.
  - rewrite Hpend in Hm |- *. by apply (finish_state db g queue _ el ei em k).
  - unfold finished. by destruct (updates g), (in_tmp g).
  - by rewrite app_nil_r.
  - unfold finished. destruct (updates g); [|by apply Htmp; apply Hu]. by destruct (in_tmp g); [|apply Htmp].
Qed.

Lemma ordered_snoc (ess : list (list Entry)) (es el : list Entry) :
  ordered ess -> concat ess ≡ₚ el -> (forall a b, a ∈ el -> b ∈ es -> e_seq a < e_seq b) -> ordered (ess ++ [es]).
Proof.
  intros Hord Hp Hlt i j es1 es2 a b Hij H1 H2 Ha Hb. pose proof (lookup_lt_Some _ _ _ H2) as Hj. rewrite length_app in Hj. simpl in Hj.
  rewrite lookup_app_l in H1 by lia. destruct (decide (j < length ess)%nat).
  - rewrite lookup_app_l in H2 by done. by apply (Hord i j es1 es2).
  - rewrite lookup_app_r in H2 by lia. replace (j - length ess)%nat with 0%nat in H2 by lia. simpl in H2. injection H2 as <-.
    apply Hlt; [|done]. rewrite <- Hp. by apply (elem_of_concat _ es1); [|eapply list_elem_of_lookup_2].
Qed.

Lemma Inv_flush db db' (ph : Phase) ins out :
  Inv (MkSys db ph ins out) -> Status.ok (bg_error_ db) = true -> CompactMemTable db = Some db' ->
  Inv (MkSys db' ph ins out).
Proof.
  intros (queue & el & ei & em & pend & gs & pre & Hin & Hq & Hnd & Hok & Hmax & Hm & Hlog & Hgs & Hpre & Hph) He Hc.
  simpl in *. destruct Hm as (HC & Hlast & Hem & Hi & ess & Hh & Hord & Hst). unfold CompactMemTable in Hc.
  destruct (imm_ db) as [m|] eqn:Eimm; [|done]. destruct Hi as (ei' & Hmi & Hpi). cbn [mbind option_bind] in Hc.
  destruct Hst as [Hst|(_ & Hbad & _)]; [|congruence].
  destruct (lv_write (levels_ db) m VersionEdit_new ess [] ei' Hh (lv_new _ _ Hh) Hmi) as (s1 & e1 & l1 & Hw & Hh1 & Hp1). rewrite Hw in Hc. cbn [mbind option_bind] in Hc.
  assert (ordered (ess ++ [ei']) /\ concat (ess ++ [ei']) ≡ₚ el ++ ei) as [Hord' Hst'].
  { split; [|rewrite concat_app; simpl; by rewrite app_nil_r, Hst, Hpi]. eapply ordered_snoc; [done|exact Hst|].
    intros a b Ha Hb. rewrite Hpi in Hb. by apply (proj2 (state_order _ _ _ _ HC)). }
  assert (forall st l, Status.ok st = false -> (holds l ess \/ holds l (ess ++ [ei'])) ->
    Inv (MkSys (RecordBackgroundError (set_levels db l) st) ph ins out)) as Hfail.
  { intros st l Hbad Hsl. exists queue, el, ei, em, pend, gs, pre. unfold RecordBackgroundError. cbn [bg_error_ set_levels].
    rewrite He. simpl. split_and!; try done. unfold mem_state. simpl. rewrite Eimm. split_and!; try done; [eauto|].
    destruct Hsl; [exists ess|exists (ess ++ [ei'])]; auto 10. }
  set (s2 := if Status.ok s1 && shutting_down_ (set_levels db l1) then _ else s1) in Hc.
  destruct (Status.ok s2) eqn:Es2.
  2:{ cbn [mbind option_bind] in Hc. rewrite Es2 in Hc. injection Hc as <-. apply Hfail; [done|by left]. }
  assert (Status.ok s1 = true) as Hs1ok.
  { unfold s2 in Es2. destruct (Status.ok s1) eqn:E; [done|]. simpl in Es2. congruence. }
  destruct (lv_apply l1 e1 ess [ei'] (logfile_number_ (set_levels db l1)) Hh1 (Hp1 Hs1ok)) as (s3 & e3 & l3 & Ha & Hs3).
  cbn [levels_ set_levels] in Hc. cbn [logfile_number_ set_levels] in Ha, Hc. rewrite Ha in Hc. cbn [mbind option_bind] in Hc.
  destruct (Status.ok s3) eqn:Es3; injection Hc as <-.
  - destruct Hs3 as [Hs3|[? _]]; [|congruence]. pose proof (lv_obsolete l3 _ Hs3) as Hh4.
    exists queue, (el ++ ei), [], em, pend, gs, pre. simpl. split_and!; try done.
    unfold mem_state. simpl. split_and!; try done; [by rewrite <- app_assoc|]. exists (ess ++ [ei']). auto.
  - change (set_levels (set_levels db l1) l3) with (set_levels db l3). apply Hfail; [done|]. destruct Hs3 as [|[_ ?]]; auto.
Qed.

Lemma Inv_step (s s' : Sys F L) :
  Inv s -> step addr new U kok open_log write_buffer_size disable_recovery_log s s' -> Inv s'.
Proof.
  intros Hi Hs. destruct Hs.
  - by apply Inv_enqueue.
  - destruct Hi as (queue & el & ei & em & pend & gs & pre & Hin & Hq & Hi). exists queue, el, ei, em, pend, gs, pre.
    simpl in *. split_and!; try done; try apply Hi. intros ->. simpl in Hq. congruence.
  - by destruct Hi as (queue & el & ei & em & pend & gs & pre & Hi); exists queue, el, ei, em, pend, gs, pre.
  - by eapply Inv_switch.
  - apply room_break in H as ->. destruct (Inv_group _ _ _ _ _ s Hi) as (? & ? & ? & ?). by simplify_eq.
  - destruct (Inv_apply _ _ _ _ Hi) as (? & ? & ? & ?). by simplify_eq.
  - by eapply Inv_finish.
  - by eapply Inv_flush.
Qed.
Lemma Inv_new (m : Table) (f : F) (number : Z) (l : L) :
  MemTable_new new = Some m -> file_ok f -> contents f = [] -> holds l [] -> Inv (DB_new addr m f number l).
Proof.
  intros Hm Hf Hc Hl. destruct (MemTable_new_ok new Hnew (U := U) (ok := kok)) as (m' & Hm' & Hrep).
  rewrite Hm in Hm'. injection Hm' as <-. exists [], [], [], [], [], [], []. simpl. split_and!; try done.
  - apply NoDup_nil_2.
  - unfold mem_state. simpl. split_and!; try done; [by exists []|]. exists []. split_and!; [done|done|by left].
  - split; [constructor|by exists f].
Qed.

Lemma room_total db (force allow_delay : bool) : is_Some (room db force allow_delay).
Proof.
  destruct (MemTable_new_ok new Hnew (U := U) (ok := kok)) as (m & Hm & _). unfold MakeRoomForWrite.
  repeat case_match; try rewrite Hm; eauto.
Qed.

(** No thread is stuck: only waiting for the background thread is left. *)
Lemma Inv_progress (s : Sys F L) :
  Inv s ->
  match phase s with
  | Idle => writers_ (sdb s) = [] \/ exists s', step addr new U kok open_log write_buffer_size disable_recovery_log s s'
  | Making force allow_delay => room (sdb s) force allow_delay = Some Wait \/
      exists s', step addr new U kok open_log write_buffer_size disable_recovery_log s s'
  | _ => exists s', step addr new U kok open_log write_buffer_size disable_recovery_log s s'
  end.
Proof.
  intros Hi. destruct s as [db ph ins out]. simpl. destruct ph as [|force allow_delay|g|g].
  - destruct (writers_ db) as [|w ws] eqn:Eq; [by left|right]. eexists. by eapply step_lead.
  - destruct (room_total db force allow_delay) as [[st db'| | |db'] Hr]; [right|right|by left|right].
    + pose proof (room_break _ _ _ _ _ Hr) as ->. destruct (Inv_group _ _ _ _ _ st Hi) as (g & db' & Hb & _).
      eexists. by eapply step_group.
    + eexists. by eapply step_pause.
    + eexists. by eapply step_switch.
  - destruct (Inv_apply _ _ _ _ Hi) as (g' & db' & Ha & _). eexists. by eapply step_apply.
  - destruct Hi as (queue & el & ei & em & pend & gs & pre & Hin & Hq & Hnd & _ & _ & _ & _ & _ & _ & _ & k & Hg & _).
    simpl in *. destruct (Write_finish_ok db g queue (last_of (committed out)) k Hq) as (dn & Hf & Hdn); [|exact Hg|].
    { rewrite Hin, map_app in Hnd. by apply NoDup_app in Hnd as (_ & _ & ?). }
    pose proof Hg as (_ & Hlk & _). pose proof (lookup_lt_Some _ _ _ Hlk) as Hkl. rewrite length_map in Hkl.
    eexists. eapply (step_finish _ _ _ _ _ _ _ db _ g _ ins out (take (S k) queue) (replicate (S k) (status g))); [exact Hf|..].
    + simpl. rewrite <- Hq, length_drop, length_map, fmap_take. f_equal. lia.
    + rewrite Hin, drop_app_length' by (by rewrite length_map). by rewrite length_take, Nat.min_l by lia.
    + cbn [done_ set_writers]. apply Forall2_same_length_lookup. split; [rewrite length_take, length_replicate; lia|].
      intros i x st Hx Hst. apply lookup_replicate in Hst as [-> _]. destruct (Z.eqb_spec (w_id x.1) (leader g)); [done|].
      apply Hdn; [|done]. rewrite <- fmap_take. apply list_elem_of_fmap_2. by eapply list_elem_of_lookup_2.
Qed.
End inv.
