(* ===== verification/DbRecover.v ===== *)
(** * Recovering the database

    [db/db_impl.cc]: [RecoverLogFile], which replays a log into memtables and
    writes these to tables, and the part of [Recover] that chooses the logs
    and replays them in order.

    The environment comes in through [open_seq], [NewSequentialFile] on the
    name of a log, and [reopen], the size of a log and the file that
    [NewAppendableFile] gives, if both calls are OK. *)

From Stdlib Require Import String.
From stdpp Require Import sorting.
From S2P Require Import Prelude Status Coding Crc32cTables Crc32c Comparator FileName Files Log DbFormat VersionEdit Arena SkipList Iterator MemTable WriteBatch DbWrite.

#[global] Instance FileType_eq_dec : EqDecision FileType.
Proof. solve_decision. Defined.

Module Recovery.

Section recover.
Context {P : CrcPort} {F G L : Type} {W : WritableFile F} {R : SequentialFile G} {LV : Levels L}.
Context (addr : bytes -> Z) (new : list Arena.range -> Z -> Z) (U : Comparator).
Context (open_seq : Z -> G + Status) (reopen : Z -> option (Z * F)).
Context (write_buffer_size : Z) (disable_recovery_log paranoid_checks reuse_logs : bool).

Definition MaybeIgnoreError (s : Status) : Status := if ok s || paranoid_checks then s else OK.

(** [LogReporter::Corruption]; [reporter.status] is null unless checks are
    paranoid. *)
Definition Reporter_Corruption (status s : Status) : Status := if paranoid_checks && ok status then s else status.

(** The calls of the reporter that a read added. *)
Definition report_all (status : Status) (rs : list (Z * Status)) : Status :=
  foldl (fun status r => Reporter_Corruption status r.2) status rs.

(** What replaying logs changes: the arguments [save_manifest], [edit] and
    [max_sequence], and the tables. *)
Record Replay := MkReplay {
  rp_save_manifest : bool;
  rp_edit : VersionEdit;
  rp_max_sequence : Z;
  rp_levels : L }.

(** [WriteLevel0Table(mem, edit)] with [save_manifest] set. *)
Definition Replay_write (rp : Replay) (mem : Table) : option (Status * Replay) :=
  '(s, e, l) ← WriteLevel0Table (rp_levels rp) mem (rp_edit rp);
  Some (s, MkReplay true e (rp_max_sequence rp) l).

(** The body of the loop on a record that is a batch: a memtable is made if
    there is none, the batch is put in it, and it is written if it is large. *)
Definition Replay_batch (rp : Replay) (mem : option Table) (compactions : Z) (batch : bytes)
    : option (Status * Replay * option Table * Z) :=
  mem ← match mem with None => MemTable_new new | Some m => Some m end;
  '(status, mem) ← InsertInto new U batch mem;
  let status := MaybeIgnoreError status in
  if negb (ok status) then Some (status, rp, Some mem, compactions)
  else
    seq ← Sequence batch;
    n ← Count batch;
    let last_seq := u64 (seq + n - 1) in
    let rp := MkReplay (rp_save_manifest rp) (rp_edit rp)
                (if rp_max_sequence rp <? last_seq then last_seq else rp_max_sequence rp) (rp_levels rp) in
    if write_buffer_size <? ApproximateMemoryUsage mem then
      '(status, rp) ← Replay_write rp mem;
      Some (status, rp, None, compactions + 1)
    else Some (status, rp, Some mem, compactions).

(** The [while] loop; [fuel] bounds the physical records of one record. *)
Fixpoint Replay_loop (k fuel : nat) (rd : Reader G) (status : Status) (rp : Replay) (mem : option Table) (compactions : Z)
    : option (Status * Replay * option Table * Z) :=
  match k with
  | O => None
  | S k' =>
      '(r, rd') ← ReadRecord addr fuel rd;
      let status := report_all status (drop (length (reports rd)) (reports rd')) in
      match r with
      | None => Some (status, rp, mem, compactions)
      | Some record =>
          if negb (ok status) then Some (status, rp, mem, compactions)
          else if Z.of_nat (length record) <? 12 then
            Replay_loop k' fuel rd' (Reporter_Corruption status (Corruption (bs "log record too small"))) rp mem compactions
          else
            '(status, rp, mem, compactions) ← Replay_batch rp mem compactions (SetContents [] record);
            if negb (ok status) then Some (status, rp, mem, compactions)
            else Replay_loop k' fuel rd' status rp mem compactions
      end
  end.

(** [RecoverLogFile]; the last component of the result is the log that is
    reused and the memtable that goes with it. *)
Definition RecoverLogFile (k fuel : nat) (log_number : Z) (last_log : bool) (rp : Replay)
    : option (Status * Replay * option (Log.Writer F * Z * Table)) :=
  match open_seq log_number with
  | inr s => Some (MaybeIgnoreError s, rp, None)
  | inl file =>
      '(status, rp, mem, compactions) ← Replay_loop k fuel (Reader_new file true true 0) OK rp None 0;
      '(mem, reused) ←
        (if ok status && reuse_logs && last_log && (compactions =? 0) && negb disable_recovery_log then
           match reopen log_number with
           | Some (lfile_size, logfile) =>
               mem_ ← match mem with Some m => Some m | None => MemTable_new new end;
               Some (None, Some (Writer_append addr logfile lfile_size, log_number, mem_))
           | None => Some (mem, None)
           end
         else Some (mem, None));
      match mem with
      | Some m =>
          if ok status then '(status, rp) ← Replay_write rp m; Some (status, rp, reused)
          else Some (status, rp, reused)
      | None => Some (status, rp, reused)
      end
  end.

(** The loop of [Recover] over the files of the directory: the logs to replay,
    or the number of a table that is not alive. *)
Fixpoint Recover_scan (alive : Z -> bool) (min_log prev_log : Z) (filenames : list bytes) : list Z + Z :=
  match filenames with
  | [] => inl []
  | f :: fs =>
      match ParseFileName f with
      | None => Recover_scan alive min_log prev_log fs
      | Some (number, type) =>
          if bool_decide (type = kTableFile) && negb (alive number) then inr number
          else
            match Recover_scan alive min_log prev_log fs with
            | inr n => inr n
            | inl logs =>
                inl (if bool_decide (type = kLogFile) && ((min_log <=? number) || (number =? prev_log))
                     then number :: logs else logs)
            end
      end
  end.

(** The loop of [Recover] over the sorted logs; [next] is the file number
    counter that [MarkFileNumberUsed] moves. *)
Fixpoint Recover_logs (k fuel : nat) (logs : list Z) (rp : Replay) (next : Z)
    : option (Status * Replay * option (Log.Writer F * Z * Table) * Z) :=
  match logs with
  | [] => Some (OK, rp, None, next)
  | n :: logs =>
      '(s, rp, reused) ← RecoverLogFile k fuel n (bool_decide (logs = [])) rp;
      if negb (ok s) then Some (s, rp, reused, next)
      else
        let next := if next <=? n then u64 (n + 1) else next in
        match logs with
        | [] => Some (OK, rp, reused, next)
        | _ => Recover_logs k fuel logs rp next
        end
  end.

(** [Recover] after the descriptor is read: the names in the directory, and
    the last sequence number of the descriptor. *)
Definition Recover_tail (k fuel : nat) (dbname : bytes) (alive : Z -> bool) (min_log prev_log last_sequence : Z)
    (filenames : list bytes) (rp : Replay) (next : Z)
    : option (Status * Replay * option (Log.Writer F * Z * Table) * Z * Z) :=
  match Recover_scan alive min_log prev_log filenames with
  | inr number =>
      Some (Corruption2 (bs "missing some files; e.g.") (TableFileName dbname number), rp, None, next, last_sequence)
  | inl logs =>
      '(s, rp, reused, next) ← Recover_logs k fuel (merge_sort Z.le logs) rp next;
      if negb (ok s) then Some (s, rp, reused, next, last_sequence)
      else Some (OK, rp, reused, next,
             if last_sequence <? rp_max_sequence rp then rp_max_sequence rp else last_sequence)
  end.
End recover.
End Recovery.
