(* ===== verification/DbRecoverSpec.v ===== *)
(** * Recovery gives the logged updates back

    Replaying the first bytes of a log makes tables, or a memtable, of the
    entries of an initial segment of the updates that were logged. *)

From Stdlib Require Import String.
From S2P Require Import Prelude Status Coding Crc32cTables Crc32c Comparator FileName Files Log LogSpec DbFormat VersionEdit Arena SkipList SkipListSpec Iterator MemTable WriteBatch DbWrite DbWriteSpec DbRecover.
Import Recovery.

(** ** Replaying *)

Lemma take_batch_entries (k : nat) (seq : Z) (ops : list BatchOp) :
  take k (batch_entries seq ops) = batch_entries seq (take k ops).
Proof.
  revert seq ops. induction k as [|k IH]; intros seq [|[key v|key] ops]; simpl; try done; by rewrite IH.
Qed.

(** The update an entry comes from. *)
Definition op_of (e : Entry) : BatchOp := match e_type e with kTypeValue => OpPut (e_key e) (e_value e) | kTypeDeletion => OpDelete (e_key e) end.

Lemma op_of_entries (seq : Z) (ops : list BatchOp) : map op_of (batch_entries seq ops) = ops.
Proof. revert seq. induction ops as [|[k v|k] ops IH]; intros seq; simpl; [done|by rewrite IH..]. Qed.

Lemma op_of_groups (gs : list (Z * list BatchOp)) : map op_of (group_entries gs) = concat (map snd gs).
Proof.
  induction gs as [|g gs IH]; [done|]. unfold group_entries. simpl. rewrite map_app, op_of_entries. by f_equal.
Qed.

(** Entries that are numbered in order are so for the first groups. *)
Lemma group_entries_take (gs : list (Z * list BatchOp)) (seq : Z) (ops : list BatchOp) (k : nat) :
  group_entries gs = batch_entries seq ops ->
  group_entries (take k gs) = batch_entries seq (concat (map snd (take k gs))) /\
  concat (map snd (take k gs)) = take (length (concat (map snd (take k gs)))) ops.
Proof.
  intros Hgs. assert (ops = concat (map snd gs)) as -> by (by rewrite <- op_of_groups, Hgs, op_of_entries).
  rewrite <- (take_drop k gs) in Hgs. unfold group_entries in Hgs. rewrite map_app, concat_app in Hgs. fold (group_entries (take k gs)) in Hgs.
  assert (concat (map snd gs) = concat (map snd (take k gs)) ++ concat (map snd (drop k gs))) as Hsplit
    by (by rewrite <- concat_app, <- map_app, take_drop).
  rewrite take_drop in Hgs. rewrite Hsplit, batch_entries_app in Hgs. split; [|by rewrite Hsplit, take_app_length].
  apply app_inj_1 in Hgs as [? _]; [done|]. by rewrite <- (length_map op_of), op_of_groups, length_batch_entries.
Qed.

Section replay.
Context {P : CrcPort} {HP : CrcPortSpec P} {F G L : Type} {W : WritableFile F} {R : SequentialFile G} {LV : Levels L}.
Context {contents : F -> bytes} {file_ok : F -> Prop} {HW : WritableFileSpec F contents file_ok}.
Context {rest : G -> bytes} {seq_file_ok : G -> Prop} {HR : SequentialFileSpec G rest seq_file_ok}.
Context (addr addr' : bytes -> Z) (new : list Arena.range -> Z -> Z).
Context (Hnew : forall bs n, 0 < n -> 0 < new bs n /\ new bs n mod 8 = 0 /\
  Forall (Arena.disjoint_range (new bs n, n)) bs).
Context {U : Comparator} {kok : bytes -> Prop} {HU : ComparatorSpec U kok}.
Context {holds : L -> list (list Entry) -> Prop} {pending : L -> VersionEdit -> list (list Entry) -> Prop}.
Context {HL : LevelsSpec LV U kok holds pending}.
Context (write_buffer_size : Z) (paranoid_checks : bool).
Context (ess ps : list (list Entry)).

Abbreviation mrep := (mem_rep (U := U) (ok := kok)).

Definition opt_mem (mem : option Table) (em : list Entry) : Prop :=
  match mem with None => em = [] | Some m => exists em', mrep m em' /\ em' ≡ₚ em end.

(** The entries [es] have been replayed: those of the tables written, [tabs],
    then those of the memtable. *)
Definition replayed (rp : Replay (L := L)) (mem : option Table) (compactions : Z) (es : list Entry) : Prop :=
  exists tabs et em, pending (rp_levels rp) (rp_edit rp) (ps ++ tabs) /\ compactions = Z.of_nat (length tabs) /\
    ordered tabs /\ concat tabs ≡ₚ et /\ es = et ++ em /\ opt_mem mem em /\
    Forall (fun e => e_seq e <= rp_max_sequence rp) es.

Lemma Replay_write_ok (rp : Replay) (m : Table) (c seq : Z) (ops : list BatchOp) :
  holds (rp_levels rp) ess -> replayed rp (Some m) c (batch_entries seq ops) ->
  exists s rp', Replay_write rp m = Some (s, rp') /\ holds (rp_levels rp') ess /\
    (Status.ok s = true -> replayed rp' None (c + 1) (batch_entries seq ops)).
Proof.
  intros Hh (tabs & et & em & Hp & -> & Hord & Ht & Hes & (em' & Hm & Hem) & Hmax). unfold Replay_write.
  destruct (lv_write _ _ _ _ _ _ Hh Hp Hm) as (s & e & l & -> & Hl & Hpend). cbn [mbind option_bind].
  do 2 eexists. split_and!; [done|done|]. intros Hs. exists (tabs ++ [em']), (et ++ em), []. simpl.
  split_and!; [by rewrite app_assoc; apply Hpend|rewrite length_app; simpl; lia| | |by rewrite app_nil_r|done|done].
  - eapply ordered_snoc; [done|exact Ht|]. intros a b Ha Hb. rewrite Hem in Hb. by eapply batch_entries_split.
  - rewrite concat_app, Ht. simpl. by rewrite app_nil_r, Hem.
Qed.

Lemma Replay_batch_ok (rp : Replay) (mem : option Table) (c s0 : Z) (ops0 : list BatchOp) (g : Z * list BatchOp) :
  holds (rp_levels rp) ess -> replayed rp mem c (batch_entries s0 ops0) -> logged_ok (kok := kok) g ->
  batch_entries s0 ops0 ++ batch_entries g.1 g.2 = batch_entries s0 (ops0 ++ g.2) ->
  exists s rp' mem' c',
    Replay_batch new U write_buffer_size paranoid_checks rp mem c (batch g.1 g.2) = Some (s, rp', mem', c') /\
    holds (rp_levels rp') ess /\ (Status.ok s = true -> replayed rp' mem' c' (batch_entries s0 (ops0 ++ g.2))).
Proof.
  intros Hh (tabs & et & em & Hp & -> & Hord & Ht & Hes & Hm & Hmax) (Hops & Hc & Hg0 & Hg1) Happ.
  unfold Replay_batch. change kMaxSequenceNumber with (2 ^ 56 - 1) in Hg1.
  assert (exists m em', match mem with None => MemTable_new new | Some m => Some m end = Some m /\ mrep m em' /\ em' ≡ₚ em)
    as (m & em' & -> & Hrep & Hpm).
  { destruct mem as [m|]; [destruct Hm as (em' & ? & ?); by exists m, em'|]. simpl in Hm. subst em.
    destruct (MemTable_new_ok new Hnew (U := U) (ok := kok)) as (m & -> & ?). by exists m, []. }
  cbn [mbind option_bind].
  rewrite InsertInto_batch; [|by eapply Forall_impl; [exact Hops|apply op_ok_short]|done|lia|lia].
  destruct (Adds_ok new Hnew (batch_entries g.1 g.2) m em' Hrep) as (m' & all & -> & Hrep' & Hall).
  { apply batch_entries_ok; [done|lia|]. change kMaxSequenceNumber with (2 ^ 56 - 1). lia. }
  { rewrite Hpm. pose proof (batch_entries_seqs s0 (ops0 ++ g.2)) as Hseqs. rewrite <- Happ, Hes, <- app_assoc, map_app in Hseqs.
    pose proof (NoDup_seqZ s0 (Z.of_nat (length (ops0 ++ g.2)))) as Hnd. rewrite <- Hseqs in Hnd.
    by apply NoDup_app in Hnd as (_ & _ & ?). }
  cbn [mbind option_bind]. unfold MaybeIgnoreError. change (Status.ok OK) with true. cbn [orb negb].
  rewrite Sequence_batch by lia. cbn [mbind option_bind]. rewrite Count_batch by done. cbn [mbind option_bind].
  rewrite u64_fit by lia.
  set (rp1 := MkReplay _ _ _ _).
  assert (replayed rp1 (Some m') (Z.of_nat (length tabs)) (batch_entries s0 (ops0 ++ g.2))) as Hr1.
  { exists tabs, et, (em ++ batch_entries g.1 g.2). simpl. split_and!; try done.
    - by rewrite <- Happ, Hes, app_assoc.
    - exists all. split; [done|]. by rewrite Hall, Hpm.
    - rewrite <- Happ. apply Forall_app. split.
      + eapply Forall_impl; [exact Hmax|]. simpl. intros e He. case_match; lia.
      + apply Forall_forall. intros e He%batch_entries_range. case_match; lia. }
  destruct (write_buffer_size <? ApproximateMemoryUsage m').
  - destruct (Replay_write_ok rp1 m' _ _ _ Hh Hr1) as (s & rp' & -> & Hh' & Hr'). cbn [mbind option_bind]. eauto 10.
  - do 4 eexists. split; [done|]. auto.
Qed.

(** The loop over the groups of a log. *)
Lemma Replay_loop_ok (k fuel : nat) (gs : list (Z * list BatchOp)) (s0 : Z) :
  forall (rd rd' : Reader G) (rp : Replay) (mem : option Table) (c : Z) (ops0 : list BatchOp),
  read_all addr' k fuel rd = Some (map (fun g => batch g.1 g.2) gs, rd') -> reports rd' = [] ->
  Forall (logged_ok (kok := kok)) gs -> holds (rp_levels rp) ess -> replayed rp mem c (batch_entries s0 ops0) ->
  batch_entries s0 ops0 ++ group_entries gs = batch_entries s0 (ops0 ++ concat (map snd gs)) ->
  exists s rp' mem' c',
    Replay_loop addr' new U write_buffer_size paranoid_checks k fuel rd OK rp mem c = Some (s, rp', mem', c') /\
    holds (rp_levels rp') ess /\
    (Status.ok s = true -> replayed rp' mem' c' (batch_entries s0 (ops0 ++ concat (map snd gs)))).
Proof.
  revert gs. induction k as [|k IH]; intros gs rd rd' rp mem c ops0 Hread Hrep Hgs Hh Hr Happ; [done|].
  cbn [read_all] in Hread. cbn [Replay_loop]. destruct (ReadRecord addr' fuel rd) as [[r rd1]|] eqn:Er; [|done].
  cbn [mbind option_bind] in *.
  assert (reports rd1 = []) as Hrd1.
  { destruct r as [r|]; [|simplify_eq; done]. destruct (read_all addr' k fuel rd1) as [[rs rd2]|] eqn:Ea; [|done].
    cbn [mbind option_bind] in Hread. injection Hread as _ <-. apply read_all_grows in Ea. rewrite Hrep in Ea.
    by apply prefix_nil_inv in Ea. }
  rewrite Hrd1, drop_nil. unfold report_all. cbn [foldl]. change (Status.ok OK) with true. cbn [negb].
  destruct r as [r|].
  - destruct (read_all addr' k fuel rd1) as [[rs rd2]|] eqn:Ea; [|done]. cbn [mbind option_bind] in Hread.
    destruct gs as [|g gs]; [done|]. cbn [map] in Hread. injection Hread as -> -> ->. inversion_clear Hgs as [|? ? Hg Hgs'].
    rewrite (proj2 (Z.ltb_ge _ _)) by (rewrite length_batch; lia). unfold SetContents.
    assert (batch_entries s0 ops0 ++ batch_entries g.1 g.2 = batch_entries s0 (ops0 ++ g.2)) as Hg1.
    { apply (f_equal (take (length (ops0 ++ g.2)))) in Happ. rewrite take_batch_entries in Happ.
      cbn [map concat] in Happ. rewrite app_assoc, take_app_length in Happ. rewrite <- Happ. unfold group_entries. cbn [map concat].
      rewrite app_assoc, take_app_length'; [done|]. by rewrite !length_app, !length_batch_entries. }
    destruct (Replay_batch_ok rp mem c s0 ops0 g Hh Hr Hg Hg1) as (s & rp1 & mem1 & c1 & -> & Hh1 & Hr1).
    cbn [mbind option_bind]. destruct (Status.ok s) eqn:Es; cbn [negb].
    + apply ok_OK in Es as ->. destruct (IH gs rd1 rd' rp1 mem1 c1 (ops0 ++ g.2) Ea Hrep Hgs' Hh1 (Hr1 eq_refl)) as
        (s' & rp' & mem' & c' & Hl & Hh' & Hr').
      { rewrite <- Hg1, <- app_assoc. etrans; [exact Happ|]. cbn [map concat]. by rewrite app_assoc. }
      exists s', rp', mem', c'. split_and!; [done|done|]. cbn [map concat]. by rewrite app_assoc.
    + do 4 eexists. split_and!; [done|done|]. congruence.
  - destruct gs as [|g gs]; [|done]. do 4 eexists. split_and!; [done|done|]. intros _. by rewrite app_nil_r.
Qed.

(** What recovery leaves of the updates [ops], numbered from [s0]: tables in
    edit [rp_edit], or the memtable of a log that is reused. *)
Definition recovered (rp : Replay (L := L)) (reused : option (Log.Writer F * Z * Table)) (s0 : Z) (ops : list BatchOp) : Prop :=
  exists tabs em, pending (rp_levels rp) (rp_edit rp) (ps ++ tabs) /\ ordered tabs /\
    concat tabs ++ em ≡ₚ batch_entries s0 ops /\ Forall (fun e => e_seq e <= rp_max_sequence rp) (batch_entries s0 ops) /\
    match reused with None => em = [] | Some (_, _, m) => tabs = [] /\ exists em', mrep m em' /\ em' ≡ₚ em end.

Lemma replayed_recovered (rp : Replay) (c s0 : Z) (ops : list BatchOp) :
  replayed rp None c (batch_entries s0 ops) -> recovered rp None s0 ops.
Proof.
  intros (tabs & et & em & Hp & _ & Hord & Ht & Hes & Hm & Hmax). simpl in Hm. subst em. exists tabs, [].
  split_and!; try done. by rewrite Hes, Ht.
Qed.

(** A log with the groups [gs], of the updates [ops] numbered from [s0]. *)
Lemma RecoverLogFile_ok (lg : Log.Writer F) (gs : list (Z * list BatchOp)) (s0 : Z) (ops : list BatchOp)
    (open_seq : Z -> G + Status) (reopen : Z -> option (Z * F)) (disable_recovery_log reuse_logs last_log : bool)
    (file : G) (number : Z) (n k fuel : nat) (rp : Replay) :
  log_state (kok := kok) (contents := contents) (file_ok := file_ok) addr lg gs -> group_entries gs = batch_entries s0 ops ->
  open_seq number = inl file -> seq_file_ok file -> rest file = take n (contents (dest_ lg)) ->
  (length (contents (dest_ lg)) < fuel)%nat -> (length gs < k)%nat ->
  holds (rp_levels rp) ess -> pending (rp_levels rp) (rp_edit rp) ps ->
  exists s rp' reused,
    RecoverLogFile addr' new U open_seq reopen write_buffer_size disable_recovery_log paranoid_checks reuse_logs
      k fuel number last_log rp = Some (s, rp', reused) /\ holds (rp_levels rp') ess /\
    (Status.ok s = true -> exists j, (length (contents (dest_ lg)) <= n -> j = length ops)%nat /\
      recovered rp' reused s0 (take j ops)).
Proof.
  intros (Hgs & f0 & Hf0 & Hc0 & Hadd) Hent Hopen Hfile Hrest Hfuel Hk Hh Hp. unfold RecoverLogFile. rewrite Hopen.
  destruct (recovery addr addr' f0 (map (fun g => batch g.1 g.2) gs) Hf0 Hc0) as (lg' & Hadd' & Hrec).
  rewrite Hadd in Hadd'. injection Hadd' as <-.
  destruct (Hrec file n fuel true true Hfile Hrest Hfuel) as (i & rd & Hread & Hrep & Hall).
  rewrite length_map in Hread, Hall. apply (read_all_more addr' _ k) in Hread; [|lia]. rewrite <- fmap_take in Hread.
  destruct (group_entries_take gs s0 ops i Hent) as [Hg1 Hg2].
  destruct (Replay_loop_ok k fuel (take i gs) s0 _ rd rp None 0 [] Hread Hrep) as (s & rp1 & mem & c & -> & Hh1 & Hr);
    [by apply Forall_take|done| |done|].
  { exists [], [], []. rewrite app_nil_r. split_and!; try done. }
  cbn [app] in Hr. rewrite Hg2 in Hr. set (j := length (concat (map snd (take i gs)))) in Hr.
  assert (length (contents (dest_ lg)) <= n -> j = length ops)%nat as Hj.
  { intros Hn. specialize (Hall (length gs) lg ltac:(lia)). rewrite firstn_all2 in Hall by (rewrite length_map; lia).
    specialize (Hall Hadd Hn). unfold j. rewrite (take_ge gs i) by lia. by rewrite <- op_of_groups, Hent, op_of_entries. }
  cbn [mbind option_bind]. destruct (Status.ok s) eqn:Es; cbn [andb].
  2:{ destruct mem; do 3 eexists; (split_and!; [done|done|congruence]). }
  specialize (Hr eq_refl). pose proof Hr as (tabs & et & em & Hpt & Hc & Hord & Ht & Hes & Hm & Hmax).
  assert (forall m w, (exists em', mrep m em' /\ em' ≡ₚ em) -> c = 0 ->
    recovered rp1 (Some (w, number, m)) s0 (take j ops)) as Hreuse.
  { intros m w Hm' Hc0'. exists tabs, em. split_and!; try done; [by rewrite Hes, Ht|].
    destruct tabs; [done|simpl in Hc; lia]. }
  assert (forall (reused : option (Log.Writer F * Z * Table)), reused = None -> exists s' rp' reused',
    match mem with
    | Some m => '(status, rp) ← Replay_write rp1 m; Some (status, rp, reused)
    | None => Some (s, rp1, reused)
    end = Some (s', rp', reused') /\ holds (rp_levels rp') ess /\
    (Status.ok s' = true -> exists j, (length (contents (dest_ lg)) <= n -> j = length ops)%nat /\
      recovered rp' reused' s0 (take j ops))) as Hwrite.
  { intros reused ->. destruct mem as [m|].
    - destruct (Replay_write_ok rp1 m c _ _ Hh1 Hr) as (s' & rp' & -> & Hh' & Hr'). cbn [mbind option_bind].
      do 3 eexists. split_and!; [done|done|]. intros Hs'. exists j. split; [done|]. by apply (replayed_recovered _ (c + 1)), Hr'.
    - do 3 eexists. split_and!; [done|done|]. intros _. exists j. split; [done|]. by apply (replayed_recovered _ c). }
  destruct (reuse_logs && last_log && (c =? 0) && negb disable_recovery_log) eqn:Ereuse; [|by apply Hwrite].
  destruct (reopen number) as [[size lf]|]; [|by apply Hwrite]. rewrite !andb_true_iff, Z.eqb_eq in Ereuse.
  assert (exists m, match mem with Some m => Some m | None => MemTable_new new end = Some m /\ exists em', mrep m em' /\ em' ≡ₚ em)
    as (m & -> & Hm').
  { destruct mem as [m|]; [by exists m|]. simpl in Hm. subst em.
    destruct (MemTable_new_ok new Hnew (U := U) (ok := kok)) as (m & -> & ?). exists m. split; [done|by exists []]. }
  cbn [mbind option_bind]. do 3 eexists. split_and!; [done|done|]. intros _. exists j. split; [done|]. apply Hreuse; [done|apply Ereuse].
Qed.
End replay.
