(* ===== verification/DbProps.v ===== *)
(** * The database: what a run shows and what recovery restores

    The theorems on runs of the database, for any tables that keep the promises
    of [LevelsSpec].  [MemLevels] is an instance, tables that are kept in
    memory, which shows that the promises can be kept. *)

From Stdlib Require Import String.
From S2P Require Import Prelude Status Coding Crc32cTables Crc32c Comparator FileName Files MemEnv Log LogSpec DbFormat VersionEdit Arena SkipList SkipListSpec Iterator MemTable WriteBatch DbWrite DbWriteSpec DbRecover DbRecoverSpec.
Import DB Recovery.

(** ** Tables in memory *)

Module MemLevels.

(** All tables, by number, and the numbers of those in the current version. *)
Record t := Mk { tables : list Table; current : list Z }.

Section levels.
Context (new : list Arena.range -> Z -> Z).
Context (Hnew : forall bs n, 0 < n -> 0 < new bs n /\ new bs n mod 8 = 0 /\
  Forall (Arena.disjoint_range (new bs n, n)) bs).
Context (U : Comparator) {kok : bytes -> Prop} {HU : ComparatorSpec U kok}.

Fixpoint lookup (tabs : list Table) (lk : LookupKey) (ns : list Z) : option (Status * option bytes) :=
  match ns with
  | [] => Some (NotFound [], None)
  | n :: ns =>
      m ← tabs !! Z.to_nat n;
      r ← MemTable.Get U m lk;
      match r with
      | MemValue v => Some (OK, Some v)
      | MemStatus s => Some (s, None)
      | MemMiss => lookup tabs lk ns
      end
  end.

Definition levels : Levels t := {|
  WriteLevel0Table l m e :=
    Some (OK, AddFile (Z.of_nat (length (tables l))) 0 0 0 [] [] e, Mk (tables l ++ [m]) (current l));
  LogAndApply l e save := Some (OK, e, Mk (tables l) (current l ++ map number (new_files_ e)));
  DeleteObsoleteFiles l := l;
  Version_Get l lk := '(s, v) ← lookup (tables l) lk (reverse (current l)); Some (s, v, l);
  CompactionSize l := 0;
  NeedsCompaction l := false |}.

Definition has (tabs : list Table) (n : Z) (es : list Entry) : Prop :=
  exists m, tabs !! Z.to_nat n = Some m /\ mem_rep (U := U) (ok := kok) m es.

Definition holds (l : t) (ess : list (list Entry)) : Prop := Forall2 (has (tables l)) (current l) ess.

Definition pending (l : t) (e : VersionEdit) (ps : list (list Entry)) : Prop :=
  Forall2 (has (tables l)) (map number (new_files_ e)) ps.

Lemma has_more (tabs : list Table) (m : Table) (ns : list Z) (ess : list (list Entry)) :
  Forall2 (has tabs) ns ess -> Forall2 (has (tabs ++ [m])) ns ess.
Proof.
  intros H. eapply Forall2_impl; [exact H|]. intros n es (x & Hx & Hm). exists x. split; [|done].
  by apply lookup_app_l_Some.
Qed.

Lemma lookup_ok (tabs : list Table) (u : bytes) (s : Z) (ns : list Z) (ess : list (list Entry)) :
  Forall2 (has tabs) ns ess -> MemTable.lookup_ok (ok := kok) u s -> ordered ess -> NoDup (map e_seq (concat ess)) ->
  lookup tabs (LookupKey_new u s) (reverse ns) = Some (mem_answer (mem_get u s (concat ess))).
Proof.
  intros H. revert ess H. induction ns as [|n ns IH] using rev_ind; intros ess H Hl Hord Hnd.
  { apply Forall2_nil_inv_l in H as ->. done. }
  apply Forall2_app_inv_l in H as (ess0 & ess1 & H0 & H1 & ->).
  inversion H1 as [|? es ? ess1' (m & Hm & Hrep) Hnil]; subst. apply Forall2_nil_inv_l in Hnil as ->.
  rewrite concat_app in Hnd |- *. simpl in Hnd |- *. rewrite app_nil_r, map_app in *.
  apply NoDup_app in Hnd as (Hnd0 & _ & Hnd1). rewrite reverse_snoc. simpl. rewrite Hm. cbn [mbind option_bind].
  rewrite (Get_ok new Hnew m es u s Hrep Hnd1 Hl). cbn [mbind option_bind].
  rewrite mem_get_app.
  2:{ intros a b Ha Hb. apply list_elem_of_In, in_concat in Ha as (x & Hx%list_elem_of_In & Ha%list_elem_of_In).
      apply list_elem_of_lookup in Hx as [i Hi]. apply (Hord i (length ess0) x es); try done.
      - by eapply lookup_lt_Some.
      - apply lookup_app_l_Some. done.
      - by rewrite lookup_app_r, Nat.sub_diag by lia. }
  destruct (mem_get u s es); [|done|done]. apply IH; [done|done| |done].
  intros i j x y a b Hij Hx Hy. apply (Hord i j); [done|by apply lookup_app_l_Some..].
Qed.

Lemma levels_spec : LevelsSpec levels U kok holds pending.
Proof.
  split.
  - intros l ess _. constructor.
  - intros l m e ess ps es Hh Hp Hm. do 3 eexists. split; [done|]. split; [by apply has_more|].
    intros _. unfold pending. simpl. rewrite map_app. apply Forall2_app; [by apply has_more|].
    constructor; [|constructor]. exists m. split; [|done]. simpl. by rewrite Nat2Z.id, lookup_app_r, Nat.sub_diag by lia.
  - intros l e ess ps n Hh Hp. do 3 eexists. split; [done|]. left. unfold holds. simpl. by apply Forall2_app.
  - done.
  - intros l ess u s Hh Hl Hord Hnd _. cbn [Version_Get levels].
    rewrite (lookup_ok (tables l) u s (current l) ess Hh Hl Hord Hnd).
    destruct (mem_answer (mem_get u s (concat ess))) as [st v] eqn:E. cbn [mbind option_bind].
    exists st, v, l. done.
Qed.
End levels.
End MemLevels.

(** ** The theorems *)

Section runs.
Context {P : CrcPort} {HP : CrcPortSpec P} {F L : Type} {W : WritableFile F} {LV : Levels L}.
Context {contents : F -> bytes} {file_ok : F -> Prop} {HW : WritableFileSpec F contents file_ok}.
Context (addr : bytes -> Z) (new : list Arena.range -> Z -> Z).
Context (Hnew : forall bs n, 0 < n -> 0 < new bs n /\ new bs n mod 8 = 0 /\
  Forall (Arena.disjoint_range (new bs n, n)) bs).
Context {U : Comparator} {kok : bytes -> Prop} {HU : ComparatorSpec U kok}.
Context {holds : L -> list (list Entry) -> Prop} {pending : L -> VersionEdit -> list (list Entry) -> Prop}.
Context {HL : LevelsSpec LV U kok holds pending}.
Context (open_log : Z -> F + Status) (write_buffer_size : Z) (disable_recovery_log : bool).
Context (Hopen : forall n f, open_log n = inl f -> file_ok f /\ contents f = []).

Abbreviation steps := (rtc (step addr new U kok open_log write_buffer_size disable_recovery_log)).
Abbreviation inv := (Inv (contents := contents) (file_ok := file_ok) (U := U) (kok := kok) (holds := holds) addr disable_recovery_log).

Lemma Inv_steps (m : Table) (f : F) (number : Z) (l : L) (s : Sys F L) :
  MemTable_new new = Some m -> file_ok f -> contents f = [] -> holds l [] ->
  steps (DB_new addr m f number l) s -> inv s.
Proof.
  intros Hm Hf Hc Hl Hs. assert (inv (DB_new addr m f number l)) as Hi by (by eapply Inv_new).
  clear Hm Hf Hc Hl. induction Hs as [s|s1 s2 s3 H1 _ IH]; [done|]. apply IH. by eapply Inv_step.
Qed.

Lemma Inv_Get (s : Sys F L) (u : bytes) :
  inv s -> kok u -> Z.of_nat (length u) + 8 < 2 ^ 32 ->
  exists st v db', Get U (sdb s) None u = Some (st, v, db') /\ (st, v) = kv_answer (kv_of (committed (returned s)) !! u).
Proof.
  intros (queue & el & ei & em & pend & gs & pre & Hin & Hq & Hnd & Hok & Hmax & Hm & Hlog & Hgs & Hpre & Hph) Hu Hlen.
  eapply (Get_kv addr new Hnew open_log Hopen (sdb s)); [exact Hm|by eapply phase_pend|].
  pose proof (committed_le (returned s) queue) as Hle. rewrite <- Hin in Hle.
  split; [done|]. split; [|done]. split; lia.
Qed.

Lemma Inv_fifo (s : Sys F L) :
  inv s -> exists queue, calls s = map fst (returned s) ++ queue /\ map fst queue = writers_ (sdb s).
Proof. intros (queue & ? & ? & ? & ? & ? & ? & Hin & Hq & _). by exists queue. Qed.

(** The log has the updates that are in the memtable, and those of a group that
    is written and not finished. *)
Lemma Inv_log (s : Sys F L) :
  inv s -> disable_recovery_log = false ->
  exists old logged unfinished gs, committed (returned s) = old ++ logged /\
    log_state (kok := kok) (contents := contents) (file_ok := file_ok) addr (log_ (sdb s)) gs /\
    group_entries gs = batch_entries (Z.of_nat (length old) + 1) (logged ++ unfinished) /\
    match phase s with Applied _ => True | _ => unfinished = [] end /\
    (imm_ (sdb s) = None -> exists ess, holds (levels_ (sdb s)) ess /\ ordered ess /\ concat ess ≡ₚ batch_entries 1 old).
Proof.
  intros (queue & el & ei & em & pend & gs & pre & Hin & Hq & Hnd & Hok & Hmax & Hm & Hlog & Hgs & Hpre & Hph) Hd.
  set (C := committed (returned s)) in *. rewrite (Hpre Hd) in Hgs. simpl in Hgs.
  destruct (phase_pend _ _ _ _ _ Hph) as [ops Hops]. destruct Hm as (HC & _ & _ & Himm & ess & Hh & Hord & Hst).
  set (k := length (el ++ ei)). assert (take k (batch_entries 1 C) = el ++ ei /\ drop k (batch_entries 1 C) = em) as [Ht Hdr].
  { rewrite HC, app_assoc. unfold k. by rewrite take_app_length, drop_app_length. }
  assert (length (take k C) = k) as Hk.
  { rewrite length_take. apply (f_equal length) in HC. rewrite length_batch_entries, app_assoc, length_app in HC. unfold k. lia. }
  rewrite take_batch_entries in Ht. exists (take k C), (drop k C), ops, gs. split_and!.
  - by rewrite take_drop.
  - done.
  - rewrite Hgs, Hops, <- Hdr. rewrite <- (take_drop k C) at 1. rewrite batch_entries_app, drop_app_length' by
      (by rewrite length_batch_entries). rewrite batch_entries_app. f_equal; [by rewrite Z.add_comm|]. f_equal.
    rewrite <- (take_drop k C) at 1. rewrite length_app, Nat2Z.inj_add. lia.
  - assert (pend = [] -> ops = []) as Hnil.
    { intros ->. apply (f_equal length) in Hops. rewrite length_batch_entries in Hops. by destruct ops. }
    destruct (phase s); simpl in Hph; [apply Hnil, Hph..|done].
  - intros Hi. rewrite Hi in Himm, Hst. subst ei. exists ess. split_and!; [done|done|]. rewrite Ht, app_nil_r.
    destruct Hst as [|([? ?] & _)]; [done|congruence].
Qed.
End runs.



(** ** An example *)

Module Example.
#[local] Instance port : CrcPort := port_posix.
#[local] Instance files : WritableFile Mem.FileState := Mem.WritableFileImpl (replicate Mem.K Byte.x00).
#[local] Instance readers : SequentialFile Mem.SequentialFileImpl := Mem.SequentialFileImpl_file.
#[local] Instance tabs : Levels MemLevels.t := MemLevels.levels Bytewise.BytewiseComparator.

Definition addr (_ : bytes) : Z := 1.
Definition open_log (_ : Z) : Mem.FileState + Status := inl Mem.FileState_new.
Definition w : Writer := MkWriter 1 (Put_batch (bs "key") (bs "value")) false.
Definition ops : list BatchOp := [OpPut (bs "key") (bs "value")].
Definition group0 : Group := MkGroup 0 0 OK None false 0.

Abbreviation U := Bytewise.BytewiseComparator.
Abbreviation estep := (step addr Arena.new_after U (fun _ => True) open_log 4194304 false).

Section run.
Context (m : Table).

Definition db0 : DBImpl Mem.FileState MemLevels.t := sdb (DB_new addr m Mem.FileState_new 3 (MemLevels.Mk [] [])).
Definition db1 : DBImpl Mem.FileState MemLevels.t := Write_enqueue db0 w.
Definition begun : Group * DBImpl Mem.FileState MemLevels.t := default (group0, db0) (Write_begin db1 OK).
Definition applied : Group * DBImpl Mem.FileState MemLevels.t :=
  default (group0, db0) (Write_apply addr Arena.new_after U begun.2 begun.1).
Definition finished : Status * DBImpl Mem.FileState MemLevels.t := default (OK, db0) (Write_finish applied.2 applied.1).
Definition last : Sys Mem.FileState MemLevels.t := MkSys finished.2 Idle [(w, ops)] [(w, ops, OK)].

End run.

(** A single [Put], from the queue to its return. *)
Lemma run (m : Table) :
  MemTable_new Arena.new_after = Some m -> rtc estep (DB_new addr m Mem.FileState_new 3 (MemLevels.Mk [] [])) (last m).
Proof.
  intros Hm. assert (m = default m (MemTable_new Arena.new_after)) as Em by (by rewrite Hm).
  eapply rtc_l; [apply (step_enqueue _ _ _ _ _ _ _ _ _ _ _ w ops)|].
  { intros H. inversion H. }
  { exists 0. split_and!; [reflexivity| |reflexivity]. repeat constructor; done. }
  { done. }
  change (Write_enqueue (MkDB m None _ _ _ _ _ _ _ _ _ _ _) w) with (db1 m).
  eapply rtc_l; [by apply (step_lead _ _ _ _ _ _ _ (db1 m) _ _ w [])|].
  eapply rtc_l; [apply (step_group _ _ _ _ _ _ _ (db1 m) (db1 m) (begun m).2 _ _ _ _ OK (begun m).1)|].
  { rewrite Em. vm_compute. reflexivity. }
  { reflexivity. }
  eapply rtc_l; [apply (step_apply _ _ _ _ _ _ _ _ (applied m).2 _ (applied m).1)|].
  { unfold applied. destruct (Write_apply _ _ _ (begun m).2 (begun m).1) as [[g d]|] eqn:E; [done|].
    exfalso. revert E. rewrite Em. vm_compute. done. }
  eapply rtc_l; [apply (step_finish _ _ _ _ _ _ _ _ (finished m).2 _ (finished m).1 _ _ [(w, ops)] [OK])|].
  { unfold finished. destruct (Write_finish (applied m).2 (applied m).1) as [[g d]|] eqn:E; [done|].
    exfalso. revert E. rewrite Em. vm_compute. done. }
  { rewrite Em. vm_compute. reflexivity. }
  { done. }
  { constructor; [|constructor]. rewrite Em. vm_compute. reflexivity. }
  apply rtc_refl.
Qed.

Abbreviation holds := (MemLevels.holds (kok := fun _ => True) U).
Abbreviation pending := (MemLevels.pending (kok := fun _ => True) U).

Lemma tabs_spec : LevelsSpec tabs U (fun _ => True) holds pending.
Proof. exact (MemLevels.levels_spec Arena.new_after Arena.new_after_ok U (HU := Bytewise.BytewiseComparator_spec)). Qed.

Lemma open_ok (n : Z) (f : Mem.FileState) : open_log n = inl f -> Mem.file_ok f /\ Mem.contents f = [].
Proof. intros [= <-]. apply Mem.FileState_new_ok. Qed.


End Example.
