(* ===== verification/Merger.v ===== *)
(** * Merging iterators

    [table/merger.cc]: the iterator over the union of several iterators that
    compactions and scans read through.  The children are iterators of one
    type, behind the caching wrapper. *)

From S2P Require Import Prelude Status Comparator Iterator.

(** ** Definitions *)

Inductive Direction := kForward | kReverse.

#[export] Instance Direction_eq_dec : EqDecision Direction.
Proof. solve_decision. Defined.

(** [current_] is null or the index of a child. *)
Record MergingIterator (S : Type) := MkMerging {
  children_ : list (IteratorWrapper S);
  current_ : option nat;
  direction_ : Direction }.
Arguments MkMerging {S} _ _ _.
Arguments children_ {S} _.
Arguments current_ {S} _.
Arguments direction_ {S} _.

Section merger.
Context {S : Type} `{Iterator S} (comparator_ : Comparator).

Definition MergingIterator_new (children : list S) : option (MergingIterator S) :=
  ws ← mapM (fun c => Wrapper_Set Wrapper_new (Some c)) children;
  Some (MkMerging ws None kForward).

(** The loop of [FindSmallest] over the children with their indices. *)
Fixpoint FindSmallest_loop (l : list (nat * IteratorWrapper S))
    (smallest : option (nat * IteratorWrapper S)) : option (option nat) :=
  match l with
  | [] => Some (fst <$> smallest)
  | (i, child) :: l =>
      if Wrapper_Valid child then
        match smallest with
        | None => FindSmallest_loop l (Some (i, child))
        | Some (_, s) =>
            r ← Compare (Wrapper_key child) (Wrapper_key s);
            FindSmallest_loop l (if r <? 0 then Some (i, child) else smallest)
        end
      else FindSmallest_loop l smallest
  end.

(** The loop of [FindLargest], which starts at the last child. *)
Fixpoint FindLargest_loop (l : list (nat * IteratorWrapper S))
    (largest : option (nat * IteratorWrapper S)) : option (option nat) :=
  match l with
  | [] => Some (fst <$> largest)
  | (i, child) :: l =>
      if Wrapper_Valid child then
        match largest with
        | None => FindLargest_loop l (Some (i, child))
        | Some (_, s) =>
            r ← Compare (Wrapper_key child) (Wrapper_key s);
            FindLargest_loop l (if 0 <? r then Some (i, child) else largest)
        end
      else FindLargest_loop l largest
  end.

Definition FindSmallest (m : MergingIterator S) : option (MergingIterator S) :=
  c ← FindSmallest_loop (imap pair (children_ m)) None;
  Some (MkMerging (children_ m) c (direction_ m)).

Definition FindLargest (m : MergingIterator S) : option (MergingIterator S) :=
  c ← FindLargest_loop (rev (imap pair (children_ m))) None;
  Some (MkMerging (children_ m) c (direction_ m)).

Definition set_direction (m : MergingIterator S) (d : Direction) : MergingIterator S :=
  MkMerging (children_ m) (current_ m) d.

(** The same call on every child. *)
Definition on_children (f : IteratorWrapper S -> option (IteratorWrapper S))
    (m : MergingIterator S) : option (MergingIterator S) :=
  ws ← mapM f (children_ m);
  Some (MkMerging ws (current_ m) (direction_ m)).

Definition Merging_Valid (m : MergingIterator S) : bool :=
  match current_ m with Some _ => true | None => false end.

Definition Merging_SeekToFirst (m : MergingIterator S) : option (MergingIterator S) :=
  m ← on_children Wrapper_SeekToFirst m;
  m ← FindSmallest m;
  Some (set_direction m kForward).

Definition Merging_SeekToLast (m : MergingIterator S) : option (MergingIterator S) :=
  m ← on_children Wrapper_SeekToLast m;
  m ← FindLargest m;
  Some (set_direction m kReverse).

Definition Merging_Seek (m : MergingIterator S) (target : bytes) : option (MergingIterator S) :=
  m ← on_children (fun w => Wrapper_Seek w target) m;
  m ← FindSmallest m;
  Some (set_direction m kForward).

Definition current_child (m : MergingIterator S) : option (IteratorWrapper S) :=
  c ← current_ m; children_ m !! c.

Definition Merging_key (m : MergingIterator S) : option bytes := Wrapper_key <$> current_child m.
Definition Merging_value (m : MergingIterator S) : option bytes := w ← current_child m; Wrapper_value w.

(** A call on the current child. *)
Definition on_current (f : IteratorWrapper S -> option (IteratorWrapper S))
    (m : MergingIterator S) : option (MergingIterator S) :=
  c ← current_ m;
  w ← children_ m !! c;
  w ← f w;
  Some (MkMerging (<[c := w]> (children_ m)) (current_ m) (direction_ m)).

(** The loop over the children other than the current one. *)
Fixpoint on_others (f : IteratorWrapper S -> option (IteratorWrapper S)) (c : nat)
    (i : nat) (ws : list (IteratorWrapper S)) : option (list (IteratorWrapper S)) :=
  match ws with
  | [] => Some []
  | w :: ws =>
      w ← if bool_decide (i = c) then Some w else f w;
      ws ← on_others f c (i + 1) ws;
      Some (w :: ws)
  end.

Definition Merging_Next (m : MergingIterator S) : option (MergingIterator S) :=
  m ← match direction_ m with
      | kForward => Some m
      | kReverse =>
          k ← Merging_key m;
          c ← current_ m;
          ws ← on_others (fun child =>
                 child ← Wrapper_Seek child k;
                 if Wrapper_Valid child then
                   r ← Compare k (Wrapper_key child);
                   if r =? 0 then Wrapper_Next child else Some child
                 else Some child) c 0 (children_ m);
          Some (MkMerging ws (current_ m) kForward)
      end;
  m ← on_current Wrapper_Next m;
  FindSmallest m.

Definition Merging_Prev (m : MergingIterator S) : option (MergingIterator S) :=
  m ← match direction_ m with
      | kReverse => Some m
      | kForward =>
          k ← Merging_key m;
          c ← current_ m;
          ws ← on_others (fun child =>
                 child ← Wrapper_Seek child k;
                 if Wrapper_Valid child then Wrapper_Prev child
                 else Wrapper_SeekToLast child) c 0 (children_ m);
          Some (MkMerging ws (current_ m) kReverse)
      end;
  m ← on_current Wrapper_Prev m;
  FindLargest m.

(** The first status that is not a success. *)
Fixpoint Merging_status_loop (ws : list (IteratorWrapper S)) (s : Status) : Status :=
  match ws with
  | [] => s
  | w :: ws =>
      let s := match Wrapper_status w with Some s => s | None => s end in
      if Status.ok s then Merging_status_loop ws s else s
  end.

Definition Merging_status (m : MergingIterator S) : Status := Merging_status_loop (children_ m) OK.

#[export] Instance Merging_iterator : Iterator (MergingIterator S) := {|
  it_Valid := Merging_Valid;
  it_SeekToFirst := Merging_SeekToFirst;
  it_SeekToLast := Merging_SeekToLast;
  it_Seek := Merging_Seek;
  it_Next := Merging_Next;
  it_Prev := Merging_Prev;
  it_key := Merging_key;
  it_value := Merging_value;
  it_status := Merging_status |}.

(** [NewMergingIterator]: no child, the only child, or several. *)
Inductive MergedIterator :=
  | MergeNone (s : Status) | MergeOne (s : S) | MergeMany (m : MergingIterator S).

Definition NewMergingIterator (list : list S) : option MergedIterator :=
  match list with
  | [] => Some (MergeNone NewEmptyIterator)
  | [s] => Some (MergeOne s)
  | _ => MergeMany <$> MergingIterator_new list
  end.
End merger.
Arguments MergedIterator S : clear implicits.
