(* ===== verification/MergerSpec.v ===== *)
(** * The merging iterator iterates over the merge

    If the children iterate over sorted lists that have no key in common, the
    merging iterator iterates over the sorted list of all their entries, in
    both directions and across changes of direction. *)

From S2P Require Import Prelude Status Comparator Iterator SkipListSpec Merger.

(** ** Finding the smallest and the largest child *)

Section find.
Context {S : Type} {I : Iterator S} {C : Comparator} {ok : bytes -> Prop} {HC : ComparatorSpec C ok}.

Abbreviation W := (IteratorWrapper S).

(** The two loops differ in the sign they look for. *)
Fixpoint Find_loop (better : Z -> bool) (l : list (nat * W)) (best : option (nat * W))
    : option (option nat) :=
  match l with
  | [] => Some (fst <$> best)
  | (i, child) :: l =>
      if Wrapper_Valid child then
        match best with
        | None => Find_loop better l (Some (i, child))
        | Some (_, s) =>
            r ← Compare (Wrapper_key child) (Wrapper_key s);
            Find_loop better l (if better r then Some (i, child) else best)
        end
      else Find_loop better l best
  end.

Lemma FindSmallest_Find (l : list (nat * W)) (best : option (nat * W)) :
  FindSmallest_loop C l best = Find_loop (fun r => r <? 0) l best.
Proof.
  revert best. induction l as [|[i w] l IH]; intros best; [done|]. cbn [FindSmallest_loop Find_loop].
  destruct (Wrapper_Valid w); [|apply IH]. destruct best as [[j s]|]; [|apply IH].
  destruct (Compare _ _); [apply IH|done].
Qed.

Lemma FindLargest_Find (l : list (nat * W)) (best : option (nat * W)) :
  FindLargest_loop C l best = Find_loop (fun r => 0 <? r) l best.
Proof.
  revert best. induction l as [|[i w] l IH]; intros best; [done|]. cbn [FindLargest_loop Find_loop].
  destruct (Wrapper_Valid w); [|apply IH]. destruct best as [[j s]|]; [|apply IH].
  destruct (Compare _ _); [apply IH|done].
Qed.

(** [kc] is strictly better than the key of [w]. *)
Definition beaten (better : Z -> bool) (kc : bytes) (w : W) : Prop :=
  ok (Wrapper_key w) /\
  (exists r, Compare (Wrapper_key w) kc = Some r /\ better r = false) /\
  (exists r, Compare kc (Wrapper_key w) = Some r /\ better r = true).

Lemma Find_loop_best (better : Z -> bool) (c : nat) (wc : W) (l : list (nat * W)) (best : option (nat * W)) :
  better 0 = false -> Wrapper_Valid wc = true -> ok (Wrapper_key wc) ->
  Forall (fun '(i, w) => (i = c /\ w = wc) \/ Wrapper_Valid w = false \/ beaten better (Wrapper_key wc) w) l ->
  match best with
  | None => (c, wc) ∈ l
  | Some (i, s) => (i = c /\ s = wc) \/ ((c, wc) ∈ l /\ beaten better (Wrapper_key wc) s)
  end ->
  Find_loop better l best = Some (Some c).
Proof.
  intros H0 Hv Hok Hl. revert best. induction Hl as [|[i w] l Hw Hl IH]; intros best Hb.
  { destruct best as [[i s]|]; [|set_solver]. destruct Hb as [[-> _]|[Hb _]]; [done|set_solver]. }
  cbn [Find_loop]. destruct Hw as [[-> ->]|[Hw|Hw]].
  - rewrite Hv. destruct best as [[j s]|]; [|apply IH; by left].
    destruct Hb as [[-> ->]|[_ (_ & _ & r & -> & Hr)]].
    + rewrite (proj2 (cmp_eq _ _ Hok Hok) eq_refl). cbn [mbind option_bind]. rewrite H0. apply IH. by left.
    + cbn [mbind option_bind]. rewrite Hr. apply IH. by left.
  - rewrite Hw. apply IH. destruct best as [[j s]|].
    + destruct Hb as [Hb|[Hin Hb]]; [by left|right]. split; [|done].
      apply elem_of_cons in Hin as [[= -> ->]|Hin]; [congruence|done].
    + apply elem_of_cons in Hb as [[= -> ->]|Hin]; [congruence|done].
  - destruct (Wrapper_Valid w) eqn:Evw.
    2:{ apply IH. destruct best as [[j s]|].
        - destruct Hb as [Hb|[Hin Hb]]; [by left|right]. split; [|done].
          apply elem_of_cons in Hin as [[= -> ->]|Hin]; [congruence|done].
        - apply elem_of_cons in Hb as [[= -> ->]|Hin]; [congruence|done]. }
    pose proof Hw as (Hokw & (r1 & Hr1 & Hf1) & (r2 & Hr2 & Hf2)).
    assert ((c, wc) ∈ (i, w) :: l -> (c, wc) ∈ l) as Hmem.
    { intros [[= -> ->]|Hin]%elem_of_cons; [|done].
      rewrite (proj2 (cmp_eq _ _ Hok Hok) eq_refl) in Hr2. congruence. }
    destruct best as [[j s]|]; [|apply IH; right; split; [by apply Hmem|done]].
    destruct Hb as [[-> ->]|[Hin Hb]].
    + rewrite Hr1. cbn [mbind option_bind]. rewrite Hf1. apply IH. by left.
    + destruct (cmp_total (Wrapper_key w) (Wrapper_key s) Hokw (proj1 Hb)) as [r ->].
      cbn [mbind option_bind]. apply IH. destruct (better r); right; split; auto.
Qed.

Lemma Find_loop_none (better : Z -> bool) (l : list (nat * W)) :
  Forall (fun '(i, w) => Wrapper_Valid w = false) l -> Find_loop better l None = Some None.
Proof. induction 1 as [|[i w] l Hw _ IH]; [done|]. cbn [Find_loop]. by rewrite Hw. Qed.
End find.

(** ** Ranks *)

(** An entry of the merge, with the child it comes from. *)
Abbreviation tagged := (nat * (bytes * bytes))%type.

Section ranks.
Context (all : list tagged).

Definition of_child (d : nat) (l : list tagged) : list (bytes * bytes) :=
  map snd (filter (fun t => t.1 = d) l).

(** The entries of a child, and how many of them are among the first [j]. *)
Definition ents (d : nat) : list (bytes * bytes) := of_child d all.
Definition rank (d j : nat) : nat := length (of_child d (take j all)).

Lemma of_child_app (d : nat) (l l' : list tagged) : of_child d (l ++ l') = of_child d l ++ of_child d l'.
Proof. unfold of_child. by rewrite filter_app, map_app. Qed.

Lemma ents_split (d j : nat) : ents d = of_child d (take j all) ++ of_child d (drop j all).
Proof. unfold ents. by rewrite <- of_child_app, take_drop. Qed.

Lemma rank_le (d j : nat) : (rank d j <= length (ents d))%nat.
Proof. rewrite (ents_split d j), length_app. unfold rank. lia. Qed.

Lemma take_rank (d j : nat) : take (rank d j) (ents d) = of_child d (take j all).
Proof. rewrite (ents_split d j). apply take_app_length. Qed.

Lemma drop_rank (d j : nat) : drop (rank d j) (ents d) = of_child d (drop j all).
Proof. rewrite (ents_split d j). apply drop_app_length. Qed.

Lemma rank_0 (d : nat) : rank d 0 = 0%nat.
Proof. done. Qed.

Lemma rank_all (d j : nat) : (length all <= j)%nat -> rank d j = length (ents d).
Proof. intros Hj. unfold rank. by rewrite take_ge. Qed.

Lemma rank_S (d j : nat) (t : tagged) :
  all !! j = Some t -> rank d (S j) = (rank d j + if decide (t.1 = d) then 1 else 0)%nat.
Proof.
  intros Ht. unfold rank. rewrite (take_S_r _ _ _ Ht), of_child_app, length_app. f_equal.
  unfold of_child. rewrite filter_cons. by case_decide.
Qed.

Lemma rank_entry (c j : nat) (e : bytes * bytes) :
  all !! j = Some (c, e) -> ents c !! rank c j = Some e.
Proof.
  intros Hj. rewrite (ents_split c j), lookup_app_r by (unfold rank; lia).
  unfold rank. rewrite Nat.sub_diag, (drop_S _ _ _ Hj). unfold of_child. by rewrite filter_cons_True.
Qed.

(** The entry at the rank of a child comes from the merge at or behind [j]. *)
Lemma rank_lookup (d j : nat) (e : bytes * bytes) :
  ents d !! rank d j = Some e -> exists i, (j <= i)%nat /\ all !! i = Some (d, e).
Proof.
  rewrite (ents_split d j), lookup_app_r by (unfold rank; lia). unfold rank.
  rewrite Nat.sub_diag. intros Hin%list_elem_of_lookup_2. unfold of_child in Hin.
  apply list_elem_of_fmap in Hin as ([d' e'] & -> & [Hd Hin]%list_elem_of_filter). simpl in *. subst d'.
  apply list_elem_of_lookup in Hin as [i Hi]. rewrite lookup_drop in Hi. exists (j + i)%nat. split; [lia|done].
Qed.

(** The entry before the rank comes from the merge before [j]. *)
Lemma rank_before (d j r : nat) (e : bytes * bytes) :
  (r < rank d j)%nat -> ents d !! r = Some e -> exists i, (i < j)%nat /\ all !! i = Some (d, e).
Proof.
  intros Hr. rewrite (ents_split d j), lookup_app_l by done. intros Hin%list_elem_of_lookup_2.
  apply list_elem_of_fmap in Hin as ([d' e'] & -> & [Hd Hin]%list_elem_of_filter). simpl in *. subst d'.
  apply elem_of_take in Hin as (i & Hi & Hlt). exists i. auto.
Qed.
End ranks.

(** A list splits at one place only into the elements before a target and the
    others. *)
Lemma split_unique {B} (P : B -> Prop) (l : list B) (i i' : nat) :
  (i <= length l)%nat -> (i' <= length l)%nat ->
  Forall P (take i l) -> Forall (fun x => ~ P x) (drop i l) ->
  Forall P (take i' l) -> Forall (fun x => ~ P x) (drop i' l) -> i = i'.
Proof.
  assert (forall i i', (i < i')%nat -> (i' <= length l)%nat ->
    Forall (fun x => ~ P x) (drop i l) -> Forall P (take i' l) -> False) as Hne.
  { intros a b Hab Hb Hd Ht. destruct (lookup_lt_is_Some_2 l a ltac:(lia)) as [x Hx].
    apply (Forall_lookup_1 _ _ 0 x) in Hd; [|by rewrite lookup_drop, Nat.add_0_r].
    apply (Forall_lookup_1 _ _ a x) in Ht; [done|]. by rewrite lookup_take_lt. }
  intros Hi Hi' Ht Hd Ht' Hd'. destruct (Nat.lt_trichotomy i i') as [Hlt|[?|Hlt]]; [|done|].
  - by destruct (Hne i i').
  - by destruct (Hne i' i).
Qed.

(** ** The merge *)

Section spec.
Context {S : Type} {I : Iterator S} {C : Comparator} {ok : bytes -> Prop} {HC : ComparatorSpec C ok}.
Context (n : nat) (all : list tagged) (okt : bytes -> Prop).
Context (Hsorted : StronglySorted (fun a b : tagged => cmp_lt a.2.1 b.2.1) all).
Context (Hok : Forall (fun t : tagged => (t.1 < n)%nat /\ ok t.2.1 /\ okt t.2.1) all).
Context (ats : nat -> S -> option nat -> Prop).
Context (Hch : forall d, (d < n)%nat -> IteratorSpec I okt cmp_lt (ents all d) (ats d)).

Implicit Types m : MergingIterator S.

(** The wrapper of child [d] is at [p]. *)
Definition kid (d : nat) (w : IteratorWrapper S) (p : option nat) : Prop :=
  wrapped (ents := ents all d) (at_ := ats d) w p.

Definition kids (ws : list (IteratorWrapper S)) (ps : nat -> option nat) : Prop :=
  length ws = n /\ forall d w, ws !! d = Some w -> kid d w (ps d).

(** Where child [d] is when the merge is about to go on at [j], and when it
    comes back from [j]. *)
Definition fpos (j d : nat) : option nat := pos_of (length (ents all d)) (rank all d j).
Definition bpos (j d : nat) : option nat := pos_before (rank all d j).

Lemma all_facts (j : nat) (t : tagged) : all !! j = Some t -> (t.1 < n)%nat /\ ok t.2.1 /\ okt t.2.1.
Proof. intros Hj. by apply (Forall_lookup_1 _ _ _ _ Hok Hj). Qed.

Lemma kid_key (d : nat) (w : IteratorWrapper S) (i : nat) :
  (d < n)%nat -> kid d w (Some i) -> exists v, ents all d !! i = Some (Wrapper_key w, v) /\ Wrapper_value w = Some v.
Proof. intros Hd Hw. pose proof (Hch d Hd). by apply wrapped_entry. Qed.

Lemma kid_valid (d : nat) (w : IteratorWrapper S) (p : option nat) :
  (d < n)%nat -> kid d w p -> Wrapper_Valid w = bool_decide (is_Some p).
Proof. intros Hd Hw. pose proof (Hch d Hd). by apply wrapped_valid in Hw. Qed.

Lemma fpos_current (j c : nat) (e : bytes * bytes) :
  all !! j = Some (c, e) -> fpos j c = Some (rank all c j).
Proof.
  intros Hj. apply rank_entry, lookup_lt_Some in Hj. unfold fpos, pos_of.
  by rewrite (proj2 (Nat.ltb_lt _ _)).
Qed.

Lemma fpos_some (j d i : nat) : fpos j d = Some i -> i = rank all d j.
Proof. unfold fpos, pos_of. case_match; [|done]. by intros [= ->]. Qed.

(** A strictly smaller key beats the other. *)
Lemma beaten_smaller (k : bytes) (w : IteratorWrapper S) :
  ok k -> ok (Wrapper_key w) -> cmp_lt k (Wrapper_key w) -> beaten (ok := ok) (fun r => r <? 0) k w.
Proof.
  intros Hk Hw (r & Hr & Hneg). split; [done|].
  destruct (cmp_flip _ _ _ Hk Hw Hr) as (r' & Hr' & Hs). split.
  - exists r'. split; [done|]. apply Z.ltb_ge. lia.
  - exists r. split; [done|]. by apply Z.ltb_lt.
Qed.

Lemma beaten_larger (k : bytes) (w : IteratorWrapper S) :
  ok k -> ok (Wrapper_key w) -> cmp_lt (Wrapper_key w) k -> beaten (ok := ok) (fun r => 0 <? r) k w.
Proof.
  intros Hk Hw (r & Hr & Hneg). split; [done|].
  destruct (cmp_flip _ _ _ Hw Hk Hr) as (r' & Hr' & Hs). split.
  - exists r. split; [done|]. apply Z.ltb_ge. lia.
  - exists r'. split; [done|]. apply Z.ltb_lt. lia.
Qed.

Lemma kids_lt (ws : list (IteratorWrapper S)) (ps : nat -> option nat) (d : nat) (w : IteratorWrapper S) :
  kids ws ps -> ws !! d = Some w -> (d < n)%nat /\ kid d w (ps d).
Proof. intros [Hlen Hk] Hd. split; [|by apply Hk]. apply lookup_lt_Some in Hd. lia. Qed.

Lemma kids_get (ws : list (IteratorWrapper S)) (ps : nat -> option nat) (d : nat) :
  kids ws ps -> (d < n)%nat -> exists w, ws !! d = Some w /\ kid d w (ps d).
Proof.
  intros [Hlen Hk] Hd. destruct (lookup_lt_is_Some_2 ws d ltac:(lia)) as [w Hw]. eauto.
Qed.

Lemma elem_of_children (ws : list (IteratorWrapper S)) (i : nat) (w : IteratorWrapper S) :
  (i, w) ∈ imap pair ws <-> ws !! i = Some w.
Proof.
  rewrite elem_of_lookup_imap. split.
  - by intros (j & y & [= -> ->] & ?).
  - intros Hw. by exists i, w.
Qed.

Lemma FindSmallest_ok (ws : list (IteratorWrapper S)) (j : nat) :
  kids ws (fpos j) -> FindSmallest_loop C (imap pair ws) None = Some (fst <$> all !! j).
Proof.
  intros Hk. rewrite FindSmallest_Find. destruct (all !! j) as [[c e]|] eqn:Ej; simpl.
  - destruct (all_facts j _ Ej) as (Hc & Hoke & _). simpl in *.
    destruct (kids_get ws _ c Hk Hc) as (wc & Hwc & Hkc).
    rewrite (fpos_current j c e Ej) in Hkc. destruct (kid_key c wc _ Hc Hkc) as (v & Hv & _).
    rewrite (rank_entry all c j e Ej) in Hv. injection Hv as ->. simpl in Hoke.
    apply (Find_loop_best (ok := ok) _ c wc); [done|by rewrite (kid_valid c wc _ Hc Hkc)|done| |by apply elem_of_children].
    apply Forall_forall. intros [d w] Hw%elem_of_children. destruct (kids_lt ws _ d w Hk Hw) as [Hd Hkw].
    destruct (decide (d = c)) as [->|Hdc]; [left; split; congruence|right].
    rewrite (kid_valid d w _ Hd Hkw). destruct (fpos j d) as [r|] eqn:Er; [right|by left].
    destruct (kid_key d w r Hd Hkw) as (v' & Hv' & _). rewrite (fpos_some j d r Er) in Hv'.
    apply rank_lookup in Hv' as (i & Hi & Hall). destruct (all_facts i _ Hall) as (_ & Hokw & _).
    assert (i <> j) by congruence. simpl in Hokw. apply beaten_smaller; [done|done|].
    apply (sorted_lookup _ _ j i (c, (Wrapper_key wc, v)) (d, (Wrapper_key w, v')) Hsorted); [lia|done|done].
  - apply Find_loop_none. apply Forall_forall. intros [d w] Hw%elem_of_children.
    destruct (kids_lt ws _ d w Hk Hw) as [Hd Hkw]. rewrite (kid_valid d w _ Hd Hkw).
    unfold fpos, pos_of. apply lookup_ge_None in Ej. rewrite rank_all by done. by rewrite Nat.ltb_irrefl.
Qed.

Lemma FindLargest_ok (ws : list (IteratorWrapper S)) (j : nat) :
  (j <= length all)%nat -> kids ws (bpos j) ->
  FindLargest_loop C (rev (imap pair ws)) None = Some (match j with O => None | Datatypes.S i => fst <$> all !! i end).
Proof.
  intros Hj Hk. rewrite FindLargest_Find.
  assert (forall x, x ∈ rev (imap pair ws) <-> x ∈ imap pair ws) as Hrev by (intros; by rewrite !list_elem_of_In, <- in_rev).
  destruct j as [|j].
  - apply Find_loop_none. apply Forall_forall. intros [d w] Hw%Hrev%elem_of_children.
    destruct (kids_lt ws _ d w Hk Hw) as [Hd Hkw]. by rewrite (kid_valid d w _ Hd Hkw).
  - destruct (lookup_lt_is_Some_2 all j ltac:(lia)) as [[c e] Ej]. rewrite Ej. simpl.
    destruct (all_facts j _ Ej) as (Hc & Hoke & _). simpl in *.
    destruct (kids_get ws _ c Hk Hc) as (wc & Hwc & Hkc).
    assert (bpos (Datatypes.S j) c = Some (rank all c j)) as Hb.
    { unfold bpos. rewrite (rank_S all c j _ Ej). simpl. rewrite decide_True by done. by rewrite Nat.add_1_r. }
    rewrite Hb in Hkc. destruct (kid_key c wc _ Hc Hkc) as (v & Hv & _).
    rewrite (rank_entry all c j e Ej) in Hv. injection Hv as ->. simpl in Hoke.
    apply (Find_loop_best (ok := ok) _ c wc); [done|by rewrite (kid_valid c wc _ Hc Hkc)|done| |
      by apply Hrev, elem_of_children].
    apply Forall_forall. intros [d w] Hw%Hrev%elem_of_children. destruct (kids_lt ws _ d w Hk Hw) as [Hd Hkw].
    destruct (decide (d = c)) as [->|Hdc]; [left; split; congruence|right].
    rewrite (kid_valid d w _ Hd Hkw). destruct (bpos (Datatypes.S j) d) as [r|] eqn:Er; [right|by left].
    destruct (kid_key d w r Hd Hkw) as (v' & Hv' & _). unfold bpos in Er.
    rewrite (rank_S all d j _ Ej) in Er. simpl in Er. rewrite decide_False in Er by done.
    rewrite Nat.add_0_r in Er. destruct (rank all d j) as [|r'] eqn:Erk; [done|]. injection Er as ->.
    apply (rank_before all d j) in Hv' as (i & Hi & Hall); [|lia].
    destruct (all_facts i _ Hall) as (_ & Hokw & _). simpl in Hokw. apply beaten_larger; [done|done|].
    apply (sorted_lookup _ _ i j (d, (Wrapper_key w, v')) (c, (Wrapper_key wc, v)) Hsorted); done.
Qed.

(** ** Moving the children *)

Lemma mapM_kids (f : IteratorWrapper S -> option (IteratorWrapper S)) (ws : list (IteratorWrapper S))
    (ps qs : nat -> option nat) :
  kids ws ps -> (forall d w, (d < n)%nat -> kid d w (ps d) -> exists w', f w = Some w' /\ kid d w' (qs d)) ->
  exists ws', mapM f ws = Some ws' /\ kids ws' qs.
Proof.
  intros [Hlen Hk] Hf.
  assert (exists ws', mapM f ws = Some ws' /\ length ws' = length ws /\
    forall d w, ws' !! d = Some w -> kid d w (qs d)) as (ws' & Hm & Hl & Hq).
  2:{ exists ws'. split; [done|]. split; [congruence|done]. }
  assert (forall d w, ws !! d = Some w -> exists w', f w = Some w' /\ kid d w' (qs d)) as Hf'.
  { intros d w Hw. apply Hf; [|by apply Hk]. apply lookup_lt_Some in Hw. lia. }
  clear Hf Hk Hlen. revert qs Hf'. generalize kid. intros kd qs Hf.
  revert kd qs Hf. induction ws as [|w ws IH]; intros kd qs Hf; [by exists []|].
  destruct (Hf 0%nat w eq_refl) as (w' & Hw' & Hk'). cbn [mapM]. rewrite Hw'. cbn [mbind option_bind].
  destruct (IH (fun d => kd (Datatypes.S d)) (fun d => qs (Datatypes.S d))) as (ws' & Hm & Hl & Hq).
  { intros d x Hx. by apply (Hf (Datatypes.S d) x). }
  rewrite Hm. exists (w' :: ws'). split_and!; [done|simpl; congruence|].
  intros [|d] x Hx; simpl in Hx; [by simplify_eq|]. by apply Hq.
Qed.

Lemma on_others_kids (f : IteratorWrapper S -> option (IteratorWrapper S)) (c : nat)
    (ws : list (IteratorWrapper S)) (ps qs : nat -> option nat) :
  kids ws ps -> qs c = ps c ->
  (forall d w, (d < n)%nat -> d <> c -> kid d w (ps d) -> exists w', f w = Some w' /\ kid d w' (qs d)) ->
  exists ws', on_others f c 0 ws = Some ws' /\ kids ws' qs.
Proof.
  intros [Hlen Hk] Hc Hf.
  assert (forall i vs, (forall d w, vs !! d = Some w -> ws !! (i + d)%nat = Some w) ->
    exists ws', on_others f c i vs = Some ws' /\ length ws' = length vs /\
    forall d w, ws' !! d = Some w -> kid (i + d) w (qs (i + d)%nat)) as Hg.
  { intros i vs. revert i. induction vs as [|w vs IH]; intros i Hvs; [by exists []|].
    pose proof (Hvs 0%nat w eq_refl) as Hw. rewrite Nat.add_0_r in Hw.
    destruct (IH (i + 1)%nat) as (ws' & Hm & Hl & Hq).
    { intros d x Hx. replace (i + 1 + d)%nat with (i + Datatypes.S d)%nat by lia. by apply Hvs. }
    assert (exists w', (if bool_decide (i = c) then Some w else f w) = Some w' /\ kid i w' (qs i)) as (w' & Hw' & Hk').
    { case_bool_decide as Hic.
      - subst i. exists w. split; [done|]. rewrite Hc. by apply Hk.
      - apply Hf; [|done|by apply Hk]. apply lookup_lt_Some in Hw. lia. }
    cbn [on_others]. rewrite Hw'. cbn [mbind option_bind]. rewrite Hm. exists (w' :: ws').
    split_and!; [done|simpl; congruence|]. intros [|d] x Hx; simpl in Hx.
    - simplify_eq. by rewrite Nat.add_0_r.
    - replace (i + Datatypes.S d)%nat with (i + 1 + d)%nat by lia. by apply Hq. }
  destruct (Hg 0%nat ws) as (ws' & Hm & Hl & Hq); [done|]. exists ws'. split; [done|].
  split; [congruence|]. intros d w. apply (Hq d w).
Qed.

Lemma on_current_kids (f : IteratorWrapper S -> option (IteratorWrapper S)) (c : nat) m
    (ps : nat -> option nat) (q : option nat) :
  kids (children_ m) ps -> current_ m = Some c -> (c < n)%nat ->
  (forall w, kid c w (ps c) -> exists w', f w = Some w' /\ kid c w' q) ->
  exists ws', on_current f m = Some (MkMerging ws' (Some c) (direction_ m)) /\
    kids ws' (fun d => if decide (d = c) then q else ps d).
Proof.
  intros Hk Hc Hcn Hf. destruct (kids_get _ _ c Hk Hcn) as (w & Hw & Hkw).
  destruct (Hf w Hkw) as (w' & Hw' & Hkw'). unfold on_current. rewrite Hc. cbn [mbind option_bind].
  rewrite Hw. cbn [mbind option_bind]. rewrite Hw'. cbn [mbind option_bind].
  eexists. split; [done|]. destruct Hk as [Hlen Hk]. split; [by rewrite length_insert|].
  intros d x Hx. case_decide as Hd.
  - subst d. rewrite list_lookup_insert_eq in Hx by lia. by simplify_eq.
  - rewrite list_lookup_insert_ne in Hx by done. by apply Hk.
Qed.

Lemma kids_ext (ws : list (IteratorWrapper S)) (ps qs : nat -> option nat) :
  (forall d, (d < n)%nat -> ps d = qs d) -> kids ws ps -> kids ws qs.
Proof.
  intros He [Hlen Hk]. split; [done|]. intros d w Hw. rewrite <- He; [by apply Hk|].
  apply lookup_lt_Some in Hw. lia.
Qed.

(** *** The calls on one child *)

Lemma kid_first (d : nat) (w : IteratorWrapper S) (p : option nat) :
  (d < n)%nat -> kid d w p -> exists w', Wrapper_SeekToFirst w = Some w' /\ kid d w' (fpos 0 d).
Proof.
  intros Hd Hw. pose proof (Hch d Hd) as HI. eapply on_iter_wrapped; [exact Hw|].
  intros s Hs. by apply (it_first_at s p).
Qed.

Lemma kid_last (d j : nat) (w : IteratorWrapper S) (p : option nat) :
  (d < n)%nat -> (length all <= j)%nat -> kid d w p ->
  exists w', Wrapper_SeekToLast w = Some w' /\ kid d w' (bpos j d).
Proof.
  intros Hd Hj Hw. pose proof (Hch d Hd) as HI. eapply on_iter_wrapped; [exact Hw|].
  intros s Hs. unfold bpos. rewrite rank_all by done. by apply (it_last_at s p).
Qed.

Lemma kid_next (d i : nat) (w : IteratorWrapper S) :
  (d < n)%nat -> kid d w (Some i) ->
  exists w', Wrapper_Next w = Some w' /\ kid d w' (pos_of (length (ents all d)) (i + 1)).
Proof.
  intros Hd Hw. pose proof (Hch d Hd) as HI. eapply on_iter_wrapped; [exact Hw|].
  intros s Hs. by apply (it_next_at s i).
Qed.

Lemma kid_prev (d i : nat) (w : IteratorWrapper S) :
  (d < n)%nat -> kid d w (Some i) -> exists w', Wrapper_Prev w = Some w' /\ kid d w' (pos_before i).
Proof.
  intros Hd Hw. pose proof (Hch d Hd) as HI. eapply on_iter_wrapped; [exact Hw|].
  intros s Hs. by apply (it_prev_at s i).
Qed.

(** A child seeks to its part of the split of the merge. *)
Lemma kid_seek (d j : nat) (w : IteratorWrapper S) (p : option nat) (target : bytes) :
  (d < n)%nat -> okt target -> kid d w p ->
  Forall (fun t : tagged => cmp_lt t.2.1 target) (take j all) ->
  Forall (fun t : tagged => ~ cmp_lt t.2.1 target) (drop j all) ->
  exists w', Wrapper_Seek w target = Some w' /\ kid d w' (fpos j d).
Proof.
  intros Hd Ht Hw Hlt Hge. pose proof (Hch d Hd) as HI. unfold Wrapper_Seek.
  eapply on_iter_wrapped; [exact Hw|]. intros s Hs.
  destruct (it_seek_at s p target Hs Ht) as (s' & i & Hseek & Hi & Hat & Hlt' & Hge').
  exists s'. split; [done|]. unfold fpos. replace (rank all d j) with i; [done|].
  assert (forall P l, Forall (fun t : tagged => P t.2) l -> Forall P (of_child d l)) as Hof.
  { intros P l Hl. unfold of_child. apply Forall_map, Forall_forall. intros t [_ Hin]%list_elem_of_filter.
    rewrite Forall_forall in Hl. by apply Hl. }
  eapply (split_unique (fun e : bytes * bytes => cmp_lt e.1 target) (ents all d)); try done.
  - apply rank_le.
  - rewrite take_rank. by apply Hof.
  - rewrite drop_rank. by apply (Hof (fun e => ~ cmp_lt e.1 target)).
Qed.

(** The split of the merge at one of its own keys. *)
Lemma split_at_key (j : nat) (t : tagged) :
  all !! j = Some t ->
  Forall (fun t' : tagged => cmp_lt t'.2.1 t.2.1) (take j all) /\
  Forall (fun t' : tagged => ~ cmp_lt t'.2.1 t.2.1) (drop j all).
Proof.
  intros Hj. destruct (all_facts j t Hj) as (_ & Hokt & _). split; apply Forall_forall.
  - intros t' (i & Hi & Hlt)%elem_of_take. by apply (sorted_lookup _ _ i j t' t Hsorted).
  - intros t' Hin Hlt. apply list_elem_of_lookup in Hin as [i Hi]. rewrite lookup_drop in Hi.
    destruct (all_facts _ _ Hi) as (_ & Hok' & _). destruct i as [|i].
    + rewrite Nat.add_0_r, Hj in Hi. injection Hi as <-. by apply (cmp_lt_irrefl t.2.1).
    + apply (cmp_lt_asym _ _ Hok' Hokt Hlt).
      apply (sorted_lookup _ _ j (j + Datatypes.S i) t t' Hsorted); [lia|done|done].
Qed.

(** ** The iterator *)

(** Where the children are when the merge is at [j], by direction. *)
Definition rpos (j c d : nat) : option nat := if decide (d = c) then Some (rank all d j) else bpos j d.

Definition merging_at m (p : option nat) : Prop :=
  match p with
  | None => current_ m = None /\ exists ps, kids (children_ m) ps
  | Some j => exists t, all !! j = Some t /\ current_ m = Some t.1 /\
      kids (children_ m) (match direction_ m with kForward => fpos j | kReverse => rpos j t.1 end)
  end.

Lemma merging_kids m (p : option nat) : merging_at m p -> exists ps, kids (children_ m) ps.
Proof. destruct p as [j|]; [intros (t & _ & _ & Hk); by eexists|by intros [_ Hk]]. Qed.

(** [FindSmallest] and [FindLargest] complete a move. *)
Lemma finish_forward m (j : nat) :
  (j <= length all)%nat -> kids (children_ m) (fpos j) -> direction_ m = kForward ->
  exists m', FindSmallest C m = Some m' /\ direction_ m' = kForward /\ merging_at m' (pos_of (length all) j).
Proof.
  intros Hj Hk Hd. unfold FindSmallest. rewrite (FindSmallest_ok _ _ Hk). cbn [mbind option_bind].
  eexists. split; [done|]. split; [done|]. unfold pos_of.
  destruct (Nat.ltb_spec j (length all)) as [Hlt|Hge].
  - destruct (lookup_lt_is_Some_2 all j Hlt) as [t Ht]. exists t. rewrite Ht. simpl. rewrite Hd. done.
  - rewrite (proj2 (lookup_ge_None all j) Hge). split; [done|]. by eexists.
Qed.

Lemma finish_reverse m (j : nat) :
  (j <= length all)%nat -> kids (children_ m) (bpos j) -> direction_ m = kReverse ->
  exists m', FindLargest C m = Some m' /\ direction_ m' = kReverse /\ merging_at m' (pos_before j).
Proof.
  intros Hj Hk Hd. unfold FindLargest. rewrite (FindLargest_ok _ _ Hj Hk). cbn [mbind option_bind].
  eexists. split; [done|]. split; [done|]. destruct j as [|j]; [split; [done|by eexists]|].
  destruct (lookup_lt_is_Some_2 all j ltac:(lia)) as [t Ht]. exists t. rewrite Ht. simpl. rewrite Hd.
  split_and!; [done|done|]. eapply kids_ext; [|exact Hk]. intros d Hdn. unfold rpos, bpos.
  rewrite (rank_S all d j t Ht). repeat case_decide; try congruence.
  - by rewrite Nat.add_1_r.
  - by rewrite Nat.add_0_r.
Qed.

(** Changing direction. *)
Lemma to_forward m (j : nat) (t : tagged) :
  all !! j = Some t -> current_ m = Some t.1 ->
  kids (children_ m) (match direction_ m with kForward => fpos j | kReverse => rpos j t.1 end) ->
  exists ws, match direction_ m with
      | kForward => Some m
      | kReverse =>
          k ← Merging_key m;
          c ← current_ m;
          ws ← on_others (fun child =>
                 child ← Wrapper_Seek child k;
                 if Wrapper_Valid child then
                   r ← Compare k (Wrapper_key child);
                   if r =? 0 then Wrapper_Next child else Some child
                 else Some child) c 0 (children_ m);
          Some (MkMerging ws (current_ m) kForward)
      end = Some (MkMerging ws (Some t.1) kForward) /\ kids ws (fpos j).
Proof.
  intros Ht Hc Hk. destruct m as [ws c dir]. simpl in *. subst c. destruct dir; [by eexists|].
  destruct t as [c e]. destruct (all_facts j _ Ht) as (Hcn & Hoke & Hokte). simpl in *.
  destruct (split_at_key j _ Ht) as [Hlt Hge]. simpl in Hlt, Hge.
  assert (fpos j c = rpos j c c) as Hcc.
  { unfold rpos. rewrite decide_True by done. by apply (fpos_current j c e). }
  destruct (kids_get ws _ c Hk Hcn) as (wc & Hwc & Hkc).
  rewrite <- Hcc, (fpos_current j c e Ht) in Hkc.
  destruct (kid_key c wc _ Hcn Hkc) as (v & Hv & _). rewrite (rank_entry all c j e Ht) in Hv. injection Hv as ->.
  unfold Merging_key, current_child. simpl. rewrite Hwc. simpl in *. rename v into ve.
  destruct (on_others_kids (fun child => child ← Wrapper_Seek child (Wrapper_key wc);
      if Wrapper_Valid child then r ← Compare (Wrapper_key wc) (Wrapper_key child);
        if r =? 0 then Wrapper_Next child else Some child else Some child) c ws (rpos j c) (fpos j))
    as (ws' & -> & Hk'); [done|done| |by eexists].
  intros d w Hd Hdc Hw. destruct (kid_seek d j w _ _ Hd Hokte Hw Hlt Hge) as (w' & -> & Hk'). simpl.
  rewrite (kid_valid d w' _ Hd Hk'). destruct (fpos j d) as [r|] eqn:Er; simpl; [|by eexists].
  destruct (kid_key d w' r Hd Hk') as (v' & Hv' & _). rewrite (fpos_some j d r Er) in Hv'.
  apply rank_lookup in Hv' as (i & Hi & Hall). destruct (all_facts i _ Hall) as (_ & Hok' & _). simpl in Hok'.
  assert (i <> j) by congruence.
  assert (cmp_lt (Wrapper_key wc) (Wrapper_key w')) as (q & Hq & Hneg).
  { apply (sorted_lookup _ _ j i (c, (Wrapper_key wc, ve)) (d, (Wrapper_key w', v')) Hsorted); [lia|done|done]. }
  rewrite Hq. simpl. destruct (Z.eqb_spec q 0); [lia|]. by eexists.
Qed.

Lemma to_reverse m (j : nat) (t : tagged) :
  all !! j = Some t -> current_ m = Some t.1 ->
  kids (children_ m) (match direction_ m with kForward => fpos j | kReverse => rpos j t.1 end) ->
  exists ws, match direction_ m with
      | kReverse => Some m
      | kForward =>
          k ← Merging_key m;
          c ← current_ m;
          ws ← on_others (fun child =>
                 child ← Wrapper_Seek child k;
                 if Wrapper_Valid child then Wrapper_Prev child
                 else Wrapper_SeekToLast child) c 0 (children_ m);
          Some (MkMerging ws (current_ m) kReverse)
      end = Some (MkMerging ws (Some t.1) kReverse) /\ kids ws (rpos j t.1).
Proof.
  intros Ht Hc Hk. destruct m as [ws c dir]. simpl in *. subst c. destruct dir; [|by eexists].
  destruct t as [c e]. destruct (all_facts j _ Ht) as (Hcn & Hoke & Hokte). simpl in *.
  destruct (split_at_key j _ Ht) as [Hlt Hge]. simpl in Hlt, Hge.
  assert (rpos j c c = fpos j c) as Hcc.
  { unfold rpos. rewrite decide_True by done. by rewrite (fpos_current j c e). }
  destruct (kids_get ws _ c Hk Hcn) as (wc & Hwc & Hkc). rewrite (fpos_current j c e Ht) in Hkc.
  destruct (kid_key c wc _ Hcn Hkc) as (v & Hv & _). rewrite (rank_entry all c j e Ht) in Hv. injection Hv as ->.
  unfold Merging_key, current_child. simpl. rewrite Hwc. simpl in *.
  destruct (on_others_kids (fun child => child ← Wrapper_Seek child (Wrapper_key wc);
      if Wrapper_Valid child then Wrapper_Prev child else Wrapper_SeekToLast child) c ws (fpos j) (rpos j c))
    as (ws' & -> & Hk'); [done|done| |by eexists].
  intros d w Hd Hdc Hw. destruct (kid_seek d j w _ _ Hd Hokte Hw Hlt Hge) as (w' & -> & Hk'). simpl.
  rewrite (kid_valid d w' _ Hd Hk'). unfold rpos. rewrite decide_False by done.
  destruct (fpos j d) as [r|] eqn:Er; simpl.
  - rewrite (fpos_some j d r Er) in Hk'. by apply kid_prev.
  - unfold fpos, pos_of in Er. destruct (Nat.ltb_spec (rank all d j) (length (ents all d))); [done|].
    pose proof (rank_le all d j). destruct (kid_last d (length all) w' None Hd) as (w2 & H2 & Hk2); [lia|done|].
    exists w2. split; [done|]. unfold bpos in *. rewrite rank_all in Hk2 by lia.
    by replace (rank all d j) with (length (ents all d)) by lia.
Qed.

Context (Hokt : forall k, okt k -> ok k).

Lemma seek_split (target : bytes) :
  ok target -> exists j, (j <= length all)%nat /\
    Forall (fun t : tagged => cmp_lt t.2.1 target) (take j all) /\
    Forall (fun t : tagged => ~ cmp_lt t.2.1 target) (drop j all).
Proof.
  intros Ht. clear Hch. induction Hsorted as [|t l Hs IH Hx]; [by exists 0%nat|].
  apply Forall_cons in Hok as [(_ & Hokt' & _) Hok']. destruct (IH Hs Hok') as (j & Hj & Hlt & Hge).
  destruct (cmp_cases t.2.1 target Hokt' Ht) as [(r & _ & _ & Hl)|Hnot].
  - exists (Datatypes.S j). simpl. split_and!; [lia|by constructor|done].
  - exists 0%nat. simpl. split_and!; [lia|done|].
    assert (~ cmp_lt t.2.1 target) as Hn.
    { destruct Hnot as [(_ & ->)|(r & _ & _ & Hl)]; [by apply cmp_lt_irrefl|by apply (cmp_lt_asym target t.2.1)]. }
    constructor; [done|]. rewrite Forall_forall in Hx, Hok' |- *. intros t' Hin Hlt'. apply Hn.
    destruct (Hok' t' Hin) as (_ & Hok2 & _). apply (cmp_trans t.2.1 t'.2.1 target); auto.
Qed.

Lemma merging_first m (p : option nat) :
  merging_at m p -> exists m', Merging_SeekToFirst C m = Some m' /\ merging_at m' (pos_of (length all) 0).
Proof.
  intros Hm. destruct (merging_kids m p Hm) as [ps Hk].
  destruct (mapM_kids Wrapper_SeekToFirst _ ps (fpos 0) Hk) as (ws & Hws & Hk').
  { intros d w Hd Hw. by eapply kid_first. }
  unfold Merging_SeekToFirst, on_children. rewrite Hws. cbn [mbind option_bind].
  unfold FindSmallest. cbn [children_]. rewrite (FindSmallest_ok ws 0 Hk'). cbn [mbind option_bind].
  eexists. split; [done|]. destruct (finish_forward (MkMerging ws None kForward) 0) as (m' & Hf & _ & Hat);
    [lia|done|done|]. unfold FindSmallest in Hf. cbn [children_] in Hf.
  rewrite (FindSmallest_ok ws 0 Hk') in Hf. by injection Hf as <-.
Qed.

Lemma merging_last m (p : option nat) :
  merging_at m p -> exists m', Merging_SeekToLast C m = Some m' /\ merging_at m' (pos_before (length all)).
Proof.
  intros Hm. destruct (merging_kids m p Hm) as [ps Hk].
  destruct (mapM_kids Wrapper_SeekToLast _ ps (bpos (length all)) Hk) as (ws & Hws & Hk').
  { intros d w Hd Hw. by eapply kid_last. }
  unfold Merging_SeekToLast, on_children. rewrite Hws. cbn [mbind option_bind].
  unfold FindLargest. cbn [children_]. rewrite (FindLargest_ok ws (length all) (le_n _) Hk').
  cbn [mbind option_bind]. eexists. split; [done|].
  destruct (finish_reverse (MkMerging ws None kReverse) (length all)) as (m' & Hf & _ & Hat);
    [lia|done|done|]. unfold FindLargest in Hf. cbn [children_] in Hf.
  rewrite (FindLargest_ok ws (length all) (le_n _) Hk') in Hf. by injection Hf as <-.
Qed.

Lemma merging_seek m (p : option nat) (target : bytes) :
  merging_at m p -> okt target ->
  exists m' j, Merging_Seek C m target = Some m' /\ (j <= length all)%nat /\
    merging_at m' (pos_of (length all) j) /\
    Forall (fun t : tagged => cmp_lt t.2.1 target) (take j all) /\
    Forall (fun t : tagged => ~ cmp_lt t.2.1 target) (drop j all).
Proof.
  intros Hm Ht. destruct (merging_kids m p Hm) as [ps Hk].
  destruct (seek_split target (Hokt _ Ht)) as (j & Hj & Hlt & Hge).
  destruct (mapM_kids (fun w => Wrapper_Seek w target) _ ps (fpos j) Hk) as (ws & Hws & Hk').
  { intros d w Hd Hw. by eapply kid_seek. }
  unfold Merging_Seek, on_children. rewrite Hws. cbn [mbind option_bind].
  unfold FindSmallest. cbn [children_]. rewrite (FindSmallest_ok ws j Hk'). cbn [mbind option_bind].
  eexists _, j. split; [done|]. split_and!; try done.
  destruct (finish_forward (MkMerging ws None kForward) j) as (m' & Hf & _ & Hat);
    [done|done|done|]. unfold FindSmallest in Hf. cbn [children_] in Hf.
  rewrite (FindSmallest_ok ws j Hk') in Hf. by injection Hf as <-.
Qed.

Lemma merging_next m (j : nat) :
  merging_at m (Some j) -> exists m', Merging_Next C m = Some m' /\ merging_at m' (pos_of (length all) (j + 1)).
Proof.
  intros (t & Ht & Hc & Hk). destruct (to_forward m j t Ht Hc Hk) as (ws & Hf & Hk').
  unfold Merging_Next. rewrite Hf. cbn [mbind option_bind]. destruct (all_facts j t Ht) as (Hcn & _).
  destruct (on_current_kids Wrapper_Next t.1 (MkMerging ws (Some t.1) kForward) (fpos j)
    (pos_of (length (ents all t.1)) (rank all t.1 j + 1)) Hk' eq_refl Hcn) as (ws2 & Hn & Hk2).
  { intros w Hw. destruct t as [c e]. cbn [fst] in *. rewrite (fpos_current j c e Ht) in Hw. by apply kid_next. }
  rewrite Hn. cbn [mbind option_bind]. apply lookup_lt_Some in Ht as Hlt.
  destruct (finish_forward (MkMerging ws2 (Some t.1) kForward) (j + 1)) as (m' & ? & _ & ?); [lia| |done|eauto].
  eapply kids_ext; [|exact Hk2]. intros d Hd. replace (j + 1)%nat with (Datatypes.S j) by lia.
  unfold fpos. rewrite (rank_S all d j t Ht). repeat case_decide; subst; try congruence.
  by rewrite Nat.add_0_r.
Qed.

Lemma merging_prev m (j : nat) :
  merging_at m (Some j) -> exists m', Merging_Prev C m = Some m' /\ merging_at m' (pos_before j).
Proof.
  intros (t & Ht & Hc & Hk). destruct (to_reverse m j t Ht Hc Hk) as (ws & Hf & Hk').
  unfold Merging_Prev. rewrite Hf. cbn [mbind option_bind]. destruct (all_facts j t Ht) as (Hcn & _).
  destruct (on_current_kids Wrapper_Prev t.1 (MkMerging ws (Some t.1) kReverse) (rpos j t.1)
    (bpos j t.1) Hk' eq_refl Hcn) as (ws2 & Hn & Hk2).
  { intros w Hw. unfold rpos in Hw. rewrite decide_True in Hw by done. by apply kid_prev. }
  rewrite Hn. cbn [mbind option_bind]. apply lookup_lt_Some in Ht as Hlt.
  destruct (finish_reverse (MkMerging ws2 (Some t.1) kReverse) j) as (m' & ? & _ & ?); [lia| |done|eauto].
  eapply kids_ext; [|exact Hk2]. intros d Hd. unfold rpos. by repeat case_decide; subst.
Qed.

Lemma merging_status m (p : option nat) : merging_at m p -> Merging_status m = OK.
Proof.
  intros Hm. destruct (merging_kids m p Hm) as [ps [Hlen Hk]]. unfold Merging_status.
  assert (forall i vs, (forall d w, vs !! d = Some w -> children_ m !! (i + d)%nat = Some w) ->
    Merging_status_loop vs OK = OK) as Hg.
  { intros i vs. revert i. induction vs as [|w vs IH]; intros i Hvs; [done|]. cbn [Merging_status_loop].
    pose proof (Hvs 0%nat w eq_refl) as Hw. rewrite Nat.add_0_r in Hw.
    assert (i < n)%nat as Hi by (apply lookup_lt_Some in Hw; lia). pose proof (Hch i Hi) as HI.
    destruct (Hk i w Hw) as (s & Hs & Hat & _). unfold Wrapper_status. rewrite Hs. simpl.
    rewrite (it_status_at s _ Hat). simpl. apply (IH (i + 1)%nat).
    intros d x Hx. replace (i + 1 + d)%nat with (i + Datatypes.S d)%nat by lia. by apply Hvs. }
  by apply (Hg 0%nat).
Qed.

Lemma Merging_spec :
  IteratorSpec (Merging_iterator C) okt cmp_lt (map snd all) merging_at.
Proof.
  split.
  - intros m [j|]; [intros (t & _ & Hc & _)|intros [Hc _]]; simpl; unfold Merging_Valid; by rewrite Hc.
  - intros m j (t & Ht & Hc & Hk). destruct t as [c e]. destruct (all_facts j _ Ht) as (Hcn & _). simpl in *.
    destruct (kids_get _ _ c Hk Hcn) as (w & Hw & Hkw).
    assert (kid c w (Some (rank all c j))) as Hkw'.
    { destruct (direction_ m); [by rewrite (fpos_current j c e Ht) in Hkw|].
      unfold rpos in Hkw. by rewrite decide_True in Hkw. }
    destruct (kid_key c w _ Hcn Hkw') as (v & Hv & Hval). rewrite (rank_entry all c j e Ht) in Hv.
    injection Hv as ->. exists (Wrapper_key w), v. rewrite list_lookup_fmap, Ht.
    unfold Merging_key, Merging_value, current_child. rewrite Hc. simpl. rewrite Hw. done.
  - intros m p Hm. rewrite length_map. by apply merging_first in Hm.
  - intros m p Hm. rewrite length_map. by apply merging_last in Hm.
  - intros m j Hm. rewrite length_map. by apply merging_next.
  - intros m j Hm. by apply merging_prev.
  - intros m p target Hm Ht. destruct (merging_seek m p target Hm Ht) as (m' & j & Hs & Hj & Hat & Hlt & Hge).
    exists m', j. rewrite length_map. split_and!; try done.
    + rewrite <- fmap_take. by apply Forall_fmap.
    + rewrite <- fmap_drop. by apply Forall_fmap.
  - intros m p Hm. by apply merging_status in Hm.
Qed.
End spec.

(** ** Sorted merges exist *)

Section merge_exists.
Context {C : Comparator} {ok : bytes -> Prop} {HC : ComparatorSpec C ok}.

Definition tag_lt (a b : tagged) : Prop := cmp_lt a.2.1 b.2.1.
Definition tag_ok (t : tagged) : Prop := ok t.2.1.

#[export] Instance tag_order : KeyOrder (fun a b : tagged => Compare a.2.1 b.2.1) tag_ok tag_lt.
Proof.
  split; unfold tag_ok, tag_lt.
  - intros a b Ha Hb. destruct (cmp_cases _ _ Ha Hb) as [(r & Hr & Hneg & Hlt)|[(Hr & Heq)|(r & Hr & Hpos & Hlt)]].
    + exists r. split; [done|]. split; [done|]. split; [lia|].
      intros Hba. by destruct (cmp_lt_asym _ _ Ha Hb Hlt).
    + exists 0. rewrite Heq. split; [by rewrite <- Heq at 1|].
      split; split; try lia; intros H; by destruct (cmp_lt_irrefl _ Hb H).
    + exists r. split; [done|]. split; [|done]. split; [lia|].
      intros Hab. by destruct (cmp_lt_asym _ _ Ha Hb Hab).
  - intros a Ha. by apply cmp_lt_irrefl.
  - intros a b c Ha Hb Hc. by apply cmp_trans.
  - intros a b c Ha Hb Hc Hac. destruct (cmp_cases _ _ Ha Hb) as [(r & _ & _ & Hlt)|[(_ & Heq)|(r & _ & _ & Hlt)]].
    + by left.
    + right. by rewrite <- Heq.
    + right. by apply (cmp_trans _ a.2.1).
Qed.

Lemma sort_exists (l : list tagged) :
  Forall tag_ok l -> NoDup (map (fun t : tagged => t.2.1) l) -> exists all, all ≡ₚ l /\ StronglySorted tag_lt all.
Proof.
  induction l as [|t l IH]; intros Hok Hnd; [exists []; by repeat constructor|].
  apply Forall_cons in Hok as [Ht Hok]. simpl in Hnd. apply NoDup_cons in Hnd as [Hnin Hnd].
  destruct (IH Hok Hnd) as (all & Hp & Hs).
  assert (Forall tag_ok all) as Hoka by (by rewrite Hp).
  destruct (sorted_split all t Hs Hoka Ht) as (ka & kb & -> & Ha & Hb).
  exists (ka ++ t :: kb). split; [by rewrite <- Permutation_middle, Hp|].
  apply sorted_insert; [done|done|]. apply Forall_forall. intros b Hin.
  apply Forall_app in Hoka as [_ Hokb]. rewrite Forall_forall in Hb, Hokb.
  destruct (cmp_cases t.2.1 b.2.1 Ht (Hokb b Hin)) as [(r & _ & _ & Hlt)|[(_ & Heq)|(r & _ & _ & Hlt)]].
  - done.
  - destruct Hnin. rewrite Heq. apply (list_elem_of_fmap_2 (fun t : tagged => t.2.1)).
    rewrite <- Hp. set_solver.
  - by destruct (Hb b Hin).
Qed.

(** Sorted lists with the same elements are the same. *)
Lemma sorted_perm_eq (l l' : list tagged) :
  Forall tag_ok l -> StronglySorted tag_lt l -> StronglySorted tag_lt l' -> l ≡ₚ l' -> l = l'.
Proof.
  intros Hok Hs. revert l' Hok. induction Hs as [|a l Hs IH Ha]; intros l' Hok Hs' Hp.
  { by apply Permutation_nil in Hp. }
  destruct Hs' as [|b l' Hs' Hb]; [by apply Permutation_sym, Permutation_nil in Hp|].
  apply Forall_cons in Hok as [Hoka Hok]. assert (a = b) as ->.
  { assert (a ∈ b :: l') as Hin by (rewrite <- Hp; set_solver).
    assert (b ∈ a :: l) as Hin' by (rewrite Hp; set_solver).
    apply elem_of_cons in Hin as [->|Hin]; [done|]. apply elem_of_cons in Hin' as [->|Hin']; [done|].
    rewrite Forall_forall in Ha, Hb, Hok. exfalso.
    apply (cmp_lt_asym a.2.1 b.2.1 Hoka (Hok b Hin') (Ha b Hin') (Hb a Hin)). }
  f_equal. apply IH; [done|done|]. by eapply Permutation_cons_inv.
Qed.

(** The entries of the children, tagged from [i] on. *)
Fixpoint tag_from (i : nat) (es : list (list (bytes * bytes))) : list tagged :=
  match es with
  | [] => []
  | l :: es => map (pair i) l ++ tag_from (i + 1) es
  end.

Lemma tag_from_snd (i : nat) (es : list (list (bytes * bytes))) : map snd (tag_from i es) = concat es.
Proof.
  revert i. induction es as [|l es IH]; intros i; [done|]. cbn [tag_from concat].
  rewrite map_app, map_map, IH. simpl. by rewrite map_id.
Qed.

Lemma tag_from_range (i : nat) (es : list (list (bytes * bytes))) :
  Forall (fun t : tagged => (i <= t.1 < i + length es)%nat) (tag_from i es).
Proof.
  revert i. induction es as [|l es IH]; intros i; [constructor|]. cbn [tag_from length]. apply Forall_app. split.
  - apply Forall_map, Forall_true. intros e. simpl. lia.
  - eapply Forall_impl; [apply IH|]. intros t Ht. simpl in Ht. lia.
Qed.

Lemma tag_from_child (i d : nat) (es : list (list (bytes * bytes))) :
  of_child (i + d) (tag_from i es) = default [] (es !! d).
Proof.
  revert i d. induction es as [|l es IH]; intros i d; [done|]. cbn [tag_from]. rewrite of_child_app.
  destruct d as [|d].
  - rewrite Nat.add_0_r. assert (of_child i (map (pair i) l) = l) as ->.
    { unfold of_child. rewrite filter_all by (apply Forall_map, Forall_true; done).
      rewrite map_map. simpl. apply map_id. }
    assert (of_child i (tag_from (i + 1) es) = []) as ->; [|by rewrite app_nil_r].
    unfold of_child. rewrite filter_none; [done|]. eapply Forall_impl; [apply tag_from_range|].
    intros t Ht. simpl in Ht. lia.
  - assert (of_child (i + S d) (map (pair i) l) = []) as ->.
    { unfold of_child. rewrite filter_none; [done|]. apply Forall_map, Forall_true. intros e. simpl. lia. }
    simpl. rewrite <- (IH (i + 1)%nat). f_equal. lia.
Qed.

Lemma sorted_of_child (d : nat) (all : list tagged) :
  StronglySorted tag_lt all -> StronglySorted (fun a b : bytes * bytes => cmp_lt a.1 b.1) (of_child d all).
Proof.
  intros Hs. induction Hs as [|t l Hs IH Ht]; [constructor|]. unfold of_child. rewrite filter_cons.
  case_decide; [|done]. simpl. constructor; [done|]. apply Forall_map, Forall_forall.
  intros t' [_ Hin]%list_elem_of_filter. rewrite Forall_forall in Ht. by apply Ht.
Qed.

(** The children's lists are the parts of a sorted merge. *)
Lemma merge_exists (es : list (list (bytes * bytes))) :
  Forall (StronglySorted (fun a b : bytes * bytes => cmp_lt a.1 b.1)) es ->
  Forall (fun e : bytes * bytes => ok e.1) (concat es) -> NoDup (map fst (concat es)) ->
  exists all, StronglySorted tag_lt all /\ map snd all ≡ₚ concat es /\
    Forall (fun t : tagged => (t.1 < length es)%nat) all /\
    forall d, ents all d = default [] (es !! d).
Proof.
  intros Hes Hok Hnd. rewrite <- (tag_from_snd 0 es) in Hok, Hnd. rewrite Forall_map in Hok. rewrite map_map in Hnd.
  destruct (sort_exists (tag_from 0 es) Hok Hnd) as (all & Hp & Hs). exists all. split_and!; [done| | |].
  - rewrite Hp. by rewrite tag_from_snd.
  - rewrite Hp. eapply Forall_impl; [apply tag_from_range|]. intros t Ht. simpl in Ht. lia.
  - intros d. rewrite <- (tag_from_child 0 d es). simpl.
    assert (filter (fun t : tagged => t.1 = d) all = map (pair d) (of_child d (tag_from 0 es))) as Hf.
    2:{ unfold ents. unfold of_child at 1. rewrite Hf, map_map. simpl. by rewrite map_id. }
    assert (Forall tag_ok all) as Hoka by (by rewrite Hp).
    apply sorted_perm_eq.
    + apply Forall_forall. intros t [_ Hin]%list_elem_of_filter. rewrite Forall_forall in Hoka. by apply Hoka.
    + clear -Hs. induction Hs as [|t l Hs IH Ht]; [constructor|]. rewrite filter_cons. case_decide; [|done].
      constructor; [done|]. apply Forall_forall. intros t' [_ Hin]%list_elem_of_filter.
      rewrite Forall_forall in Ht. by apply Ht.
    + pose proof (tag_from_child 0 d es) as Hc. simpl in Hc. rewrite Hc. clear Hc. destruct (es !! d) as [l|] eqn:El; [|constructor]. simpl.
      apply (Forall_lookup_1 _ _ _ _ Hes) in El. clear -El.
      induction El as [|e l El IH He]; [constructor|]. simpl. constructor; [done|]. by apply Forall_map.
    + rewrite Hp. unfold of_child. rewrite map_map. apply reflexive_eq. clear.
      induction (tag_from 0 es) as [|t l IH]; [done|]. rewrite filter_cons. case_decide as Hd; [|done].
      simpl. rewrite <- IH. f_equal. destruct t. simpl in *. congruence.
Qed.
End merge_exists.

Lemma mapM_Set {S : Type} {I : Iterator S} {okt : bytes -> Prop} {lt : bytes -> bytes -> Prop}
    (es : list (list (bytes * bytes))) (ats : nat -> S -> option nat -> Prop) (cs : list S) :
  (forall d c, cs !! d = Some c -> IteratorSpec I okt lt (default [] (es !! d)) (ats d)) ->
  (forall d c, cs !! d = Some c -> ats d c None) ->
  exists ws, mapM (fun c => Wrapper_Set Wrapper_new (Some c)) cs = Some ws /\ length ws = length cs /\
    forall d w, ws !! d = Some w -> wrapped (ents := default [] (es !! d)) (at_ := ats d) w None.
Proof.
  revert es ats. induction cs as [|c cs IH]; intros es ats HI Hc; [by exists []|].
  pose proof (HI 0%nat c eq_refl) as HI0.
  destruct (Set_wrapped Wrapper_new c None (Hc 0%nat c eq_refl)) as (w & Hw & Hk).
  destruct (IH (tail es) (fun d => ats (Datatypes.S d))) as (ws & Hws & Hl & Hall).
  - intros d x Hx. specialize (HI (Datatypes.S d) x Hx). by destruct es.
  - intros d x Hx. by apply (Hc (Datatypes.S d)).
  - cbn [mapM]. rewrite Hw. cbn [mbind option_bind]. rewrite Hws. exists (w :: ws).
    split_and!; [done|simpl; congruence|]. intros [|d] x Hx; simpl in Hx; [by simplify_eq|].
    specialize (Hall d x Hx). by destruct es.
Qed.

(** ** Properties *)

(** C37. If the children iterate over sorted lists that have no key in common,
    the merging iterator iterates over the one sorted list of all their
    entries: forwards, backwards, with the direction changing at any entry,
    and with seeks in between. *)
Theorem MergingIterator_merges (S : Type) (I : Iterator S) (C : Comparator) (ok okt : bytes -> Prop)
    (es : list (list (bytes * bytes))) (ats : nat -> S -> option nat -> Prop) (cs : list S) :
  ComparatorSpec C ok -> (forall k, okt k -> ok k) -> length cs = length es ->
  (forall d c, cs !! d = Some c ->
     IteratorSpec I okt cmp_lt (default [] (es !! d)) (ats d) /\ ats d c None) ->
  Forall (StronglySorted (fun a b : bytes * bytes => cmp_lt a.1 b.1)) es ->
  Forall (fun e : bytes * bytes => okt e.1) (concat es) -> NoDup (map fst (concat es)) ->
  exists merged m at_, merged ≡ₚ concat es /\
    StronglySorted (fun a b : bytes * bytes => cmp_lt a.1 b.1) merged /\
    MergingIterator_new cs = Some m /\ at_ m None /\
    IteratorSpec (Merging_iterator C) okt cmp_lt merged at_.
Proof.
  intros HC Hokt Hlen Hcs Hes Hk Hnd.
  assert (Forall (fun e : bytes * bytes => ok e.1) (concat es)) as Hko.
  { eapply Forall_impl; [exact Hk|]. intros e. apply Hokt. }
  destruct (merge_exists es Hes Hko Hnd) as (all & Hs & Hp & Htag & Hents).
  destruct (mapM_Set (I := I) (okt := okt) (lt := cmp_lt) es ats cs) as (ws & Hws & Hl & Hw).
  { intros d c Hc. by destruct (Hcs d c Hc). }
  { intros d c Hc. by destruct (Hcs d c Hc). }
  exists (map snd all), (MkMerging ws None kForward), (merging_at (length es) all ats).
  split_and!; [done| | | |].
  - clear -Hs. induction Hs as [|t l Hs IH Ht]; [constructor|]. simpl. constructor; [done|]. by apply Forall_map.
  - unfold MergingIterator_new. by rewrite Hws.
  - split; [done|]. exists (fun _ => None). split; [simpl; lia|]. intros d w Hd. unfold kid.
    rewrite Hents. by apply Hw.
  - apply Merging_spec; try done.
    + apply Forall_forall. intros t Hin. rewrite Forall_forall in Htag.
      rewrite <- Hp in Hk. rewrite Forall_map, Forall_forall in Hk.
      split_and!; [by apply Htag|by apply Hokt, Hk|by apply Hk].
    + intros d Hd. rewrite Hents. destruct (lookup_lt_is_Some_2 cs d ltac:(lia)) as [c Hc].
      by destruct (Hcs d c Hc).
Qed.

(** The iterators of the witness: a list of entries and a position. *)
Definition vec_seek (l : list (bytes * bytes)) (k : bytes) : nat :=
  length (filter (fun e => compare e.1 k < 0) l).

#[local] Instance vec_iterator : Iterator (list (bytes * bytes) * option nat) := {|
  it_Valid s := bool_decide (is_Some s.2);
  it_SeekToFirst s := Some (s.1, pos_of (length s.1) 0);
  it_SeekToLast s := Some (s.1, pos_before (length s.1));
  it_Seek s k := Some (s.1, pos_of (length s.1) (vec_seek s.1 k));
  it_Next s := i ← s.2; Some (s.1, pos_of (length s.1) (i + 1));
  it_Prev s := i ← s.2; Some (s.1, pos_before i);
  it_key s := i ← s.2; e ← s.1 !! i; Some e.1;
  it_value s := i ← s.2; e ← s.1 !! i; Some e.2;
  it_status _ := OK |}.

Definition vec_at (l : list (bytes * bytes)) (s : list (bytes * bytes) * option nat) (p : option nat) : Prop :=
  s = (l, p) /\ match p with Some i => (i < length l)%nat | None => True end.

Lemma bytewise_lt (a b : bytes) : @cmp_lt Bytewise.BytewiseComparator a b <-> compare a b < 0.
Proof. unfold cmp_lt. simpl. split; [by intros (r & [= <-] & ?)|eauto]. Qed.

Lemma pos_of_at (l : list (bytes * bytes)) (i : nat) : vec_at l (l, pos_of (length l) i) (pos_of (length l) i).
Proof. split; [done|]. unfold pos_of. by destruct (Nat.ltb_spec i (length l)). Qed.

Lemma pos_before_at (l : list (bytes * bytes)) (i : nat) :
  (i <= length l)%nat -> vec_at l (l, pos_before i) (pos_before i).
Proof. intros Hi. split; [done|]. destruct i; simpl; [done|lia]. Qed.

(** The number of smaller keys, by whether the first one is smaller. *)
Lemma vec_seek_cons (e : bytes * bytes) (l : list (bytes * bytes)) (t : bytes) :
  Forall (fun e' : bytes * bytes => @cmp_lt Bytewise.BytewiseComparator e.1 e'.1) l ->
  (compare e.1 t < 0 /\ vec_seek (e :: l) t = Datatypes.S (vec_seek l t)) \/
  (~ compare e.1 t < 0 /\ Forall (fun e' : bytes * bytes => ~ compare e'.1 t < 0) l /\
   vec_seek (e :: l) t = 0%nat).
Proof.
  intros He. unfold vec_seek. rewrite filter_cons. case_decide as Hd; [by left|right].
  assert (Forall (fun e' : bytes * bytes => ~ compare e'.1 t < 0) l) as Hn.
  { eapply Forall_impl; [exact He|]. intros e' Hlt Hd'. apply Hd, bytewise_lt.
    apply bytewise_lt in Hd'. pose proof Bytewise.BytewiseComparator_spec as HB.
    by apply (cmp_trans (C := Bytewise.BytewiseComparator) e.1 e'.1 t). }
  split_and!; [done|done|]. by rewrite filter_none.
Qed.

Lemma vec_spec (l : list (bytes * bytes)) :
  StronglySorted (fun a b : bytes * bytes => @cmp_lt Bytewise.BytewiseComparator a.1 b.1) l ->
  IteratorSpec vec_iterator (fun _ => True) (@cmp_lt Bytewise.BytewiseComparator) l (vec_at l).
Proof.
  intros Hs. split.
  - by intros s p [-> _].
  - intros s i [-> Hi]. destruct (lookup_lt_is_Some_2 l i Hi) as [[k v] He]. exists k, v. simpl. by rewrite He.
  - intros s p [-> _]. eexists. split; [done|]. apply pos_of_at.
  - intros s p [-> _]. eexists. split; [done|]. by apply pos_before_at.
  - intros s i [-> _]. eexists. split; [done|]. apply pos_of_at.
  - intros s i [-> Hi]. eexists. split; [done|]. apply pos_before_at. simpl in *. lia.
  - intros s p t [-> _] _. exists (l, pos_of (length l) (vec_seek l t)), (vec_seek l t).
    split_and!; [done|apply length_filter|apply pos_of_at| |].
    + induction Hs as [|e l Hs IH He]; [constructor|]. destruct (vec_seek_cons e l t He) as [[Hd ->]|(Hd & Hn & ->)].
      * constructor; [by apply bytewise_lt|done].
      * constructor.
    + induction Hs as [|e l Hs IH He]; [constructor|]. destruct (vec_seek_cons e l t He) as [[Hd ->]|(Hd & Hn & ->)].
      * done.
      * simpl. constructor; [by rewrite bytewise_lt|]. eapply Forall_impl; [exact Hn|].
        intros e' ?. by rewrite bytewise_lt.
  - done.
Qed.

Lemma MergingIterator_merges_witness :
  let a := ([Byte.x61], [Byte.x01]) in let b := ([Byte.x62], [Byte.x02]) in let c := ([Byte.x63], []) in
  exists merged m at_, merged ≡ₚ [a; c; b] /\
    StronglySorted (fun a b : bytes * bytes => @cmp_lt Bytewise.BytewiseComparator a.1 b.1) merged /\
    MergingIterator_new [([a; c], None); ([b], None)] = Some m /\ at_ m None /\
    IteratorSpec (Merging_iterator Bytewise.BytewiseComparator) (fun _ => True)
      (@cmp_lt Bytewise.BytewiseComparator) merged at_.
Proof.
  intros a b c.
  assert (Forall (StronglySorted (fun a b : bytes * bytes => @cmp_lt Bytewise.BytewiseComparator a.1 b.1))
    [[a; c]; [b]]) as Hs.
  { repeat constructor. simpl. by apply bytewise_lt. }
  apply (MergingIterator_merges _ vec_iterator Bytewise.BytewiseComparator (fun _ => True) (fun _ => True)
    [[a; c]; [b]] (fun d => vec_at (default [] ([[a; c]; [b]] !! d))) [([a; c], None); ([b], None)]).
  - apply Bytewise.BytewiseComparator_spec.
  - done.
  - done.
  - intros d s Hd. split.
    + apply vec_spec. destruct ([[a; c]; [b]] !! d) eqn:E; [|constructor]. by apply (Forall_lookup_1 _ _ _ _ Hs E).
    + destruct d as [|[|d]]; simpl in Hd; simplify_eq; by split.
  - exact Hs.
  - by repeat constructor.
  - apply (bool_decide_unpack (NoDup (map fst (concat [[a; c]; [b]])))). vm_compute. exact Logic.I.
Defined.
