(* ===== verification/Block.v ===== *)
(** * Blocks of a table

    [table/block_builder.cc] and [table/block.cc]: the builder, which leaves
    out the prefix a key shares with the one before it and starts over at
    restart points, and the reader with its iterator.  Offsets into the block
    are [uint32_t] as in the code, the pointers of the iterator are offsets.
    [None] is an access outside the block or a loop out of fuel. *)

From Stdlib Require Import String.
From S2P Require Import Prelude Status Coding Comparator Iterator.

(** [n] bytes from offset [p]. *)
Definition sub (data : bytes) (p n : Z) : option bytes :=
  if (0 <=? p) && (0 <=? n) && (p + n <=? Z.of_nat (length data))
  then Some (take (Z.to_nat n) (drop (Z.to_nat p) data)) else None.

Lemma sub_app (l m r : bytes) (p n : Z) :
  p = Z.of_nat (length l) -> n = Z.of_nat (length m) -> sub (l ++ m ++ r) p n = Some m.
Proof.
  intros -> ->. unfold sub. rewrite !length_app.
  rewrite !(proj2 (Z.leb_le _ _)) by lia. simpl. by rewrite !Nat2Z.id, drop_app_length, take_app_length.
Qed.

(** ** The builder *)

Module BB.

Record BlockBuilder := MkBuilder {
  buffer_ : bytes;
  restarts_ : list Z;
  counter_ : Z;
  finished_ : bool;
  last_key_ : bytes }.

Definition BlockBuilder_new : BlockBuilder := MkBuilder [] [0] 0 false [].
Definition Reset (b : BlockBuilder) : BlockBuilder := MkBuilder [] [0] 0 false [].
Definition empty (b : BlockBuilder) : bool := match buffer_ b with [] => true | _ => false end.

Definition CurrentSizeEstimate (b : BlockBuilder) : Z :=
  Z.of_nat (length (buffer_ b)) + Z.of_nat (length (restarts_ b)) * 4 + 4.

Definition Finish (b : BlockBuilder) : bytes * BlockBuilder :=
  let buffer := foldl PutFixed32 (buffer_ b) (restarts_ b) in
  let buffer := PutFixed32 buffer (u32 (Z.of_nat (length (restarts_ b)))) in
  (buffer, MkBuilder buffer (restarts_ b) (counter_ b) true (last_key_ b)).

(** The loop over the common prefix. *)
Fixpoint shared_loop (last_key_piece key : bytes) : nat :=
  match last_key_piece, key with
  | x :: l, y :: k => if bool_decide (x = y) then S (shared_loop l k) else O
  | _, _ => O
  end.

Definition Add (block_restart_interval : Z) (b : BlockBuilder) (key value : bytes) : BlockBuilder :=
  let '(shared, restarts, counter) :=
    if counter_ b <? block_restart_interval
    then (shared_loop (last_key_ b) key, restarts_ b, counter_ b)
    else (O, restarts_ b ++ [u32 (Z.of_nat (length (buffer_ b)))], 0) in
  let non_shared := (length key - shared)%nat in
  let buffer := PutVarint32 (buffer_ b) (u32 (Z.of_nat shared)) in
  let buffer := PutVarint32 buffer (u32 (Z.of_nat non_shared)) in
  let buffer := PutVarint32 buffer (u32 (Z.of_nat (length value))) in
  let buffer := buffer ++ drop shared key in
  let buffer := buffer ++ value in
  MkBuilder buffer restarts (counter + 1) (finished_ b) (take shared (last_key_ b) ++ drop shared key).

(** Successive additions. *)
Definition Adds (block_restart_interval : Z) (b : BlockBuilder) (es : list (bytes * bytes)) : BlockBuilder :=
  foldl (fun b e => Add block_restart_interval b e.1 e.2) b es.

End BB.

(** ** The reader *)

(** [size_] is 0 for a block whose contents are malformed. *)
Record Block := MkBlock { blk_data_ : bytes; size_ : Z; restart_offset_ : Z }.

Definition NumRestarts (data : bytes) (size : Z) : option Z :=
  DecodeFixed32 true (drop (Z.to_nat (size - 4)) data).

(** [restart_offset_] is not initialised where the size is set to 0; nothing
    reads it then. *)
Definition Block_new (contents : bytes) : option Block :=
  let size := Z.of_nat (length contents) in
  if size <? 4 then Some (MkBlock contents 0 0)
  else
    let max_restarts_allowed := (size - 4) / 4 in
    n ← NumRestarts contents size;
    if max_restarts_allowed <? n then Some (MkBlock contents 0 0)
    else Some (MkBlock contents size (u32 (size - u32 (1 + n) * 4))).

(** [DecodeEntry] on the bytes between [p] and [limit]: the three lengths and
    the bytes from the key delta on. *)
Definition DecodeEntry (w : bytes) : option (Z * Z * Z * bytes) :=
  match w with
  | b0 :: b1 :: b2 :: w' =>
      let shared := byte.unsigned b0 in
      let non_shared := byte.unsigned b1 in
      let value_length := byte.unsigned b2 in
      '(shared, non_shared, value_length, p) ←
        (if Z.lor (Z.lor shared non_shared) value_length <? 128
         then Some (shared, non_shared, value_length, w')
         else
           '(shared, p) ← GetVarint32Ptr w;
           '(non_shared, p) ← GetVarint32Ptr p;
           '(value_length, p) ← GetVarint32Ptr p;
           Some (shared, non_shared, value_length, p));
      if u32 (Z.of_nat (length p)) <? u32 (non_shared + value_length) then None
      else Some (shared, non_shared, value_length, p)
  | _ => None
  end.

(** ** The iterator *)

(** [value_] is an offset into the block and a length, [None] the empty slice. *)
Record Iter := MkIter {
  data_ : bytes;
  restarts_ : Z;
  num_restarts_ : Z;
  current_ : Z;
  restart_index_ : Z;
  ikey_ : bytes;
  value_ : option (Z * Z);
  status_ : Status }.

Section iter.
Context {C : Comparator}.

Definition Iter_new (data : bytes) (restarts num_restarts : Z) : Iter :=
  MkIter data restarts num_restarts restarts num_restarts [] None OK.

Definition NextEntryOffset (it : Iter) : option Z :=
  '(p, n) ← value_ it; Some (u32 (p + n)).

Definition GetRestartPoint (it : Iter) (index : Z) : option Z :=
  DecodeFixed32 true (drop (Z.to_nat (restarts_ it + index * 4)) (data_ it)).

Definition SeekToRestartPoint (it : Iter) (index : Z) : option Iter :=
  offset ← GetRestartPoint it index;
  Some (MkIter (data_ it) (restarts_ it) (num_restarts_ it) (current_ it) index [] (Some (offset, 0))
          (status_ it)).

Definition Iter_Valid (it : Iter) : bool := current_ it <? restarts_ it.

Definition set_restart_index (it : Iter) (i : Z) : Iter :=
  MkIter (data_ it) (restarts_ it) (num_restarts_ it) (current_ it) i (ikey_ it) (value_ it) (status_ it).

(** The iterator past the end. *)
Definition set_end (it : Iter) : Iter :=
  MkIter (data_ it) (restarts_ it) (num_restarts_ it) (restarts_ it) (num_restarts_ it) (ikey_ it)
    (value_ it) (status_ it).

Definition CorruptionError (it : Iter) : Iter :=
  MkIter (data_ it) (restarts_ it) (num_restarts_ it) (restarts_ it) (num_restarts_ it) [] None
    (Corruption (bs "bad entry in block")).

(** The loop that moves the restart index up to the current entry. *)
Fixpoint restart_loop (fuel : nat) (it : Iter) : option Iter :=
  match fuel with
  | O => None
  | S fuel' =>
      if u32 (restart_index_ it + 1) <? num_restarts_ it then
        r ← GetRestartPoint it (u32 (restart_index_ it + 1));
        if r <? current_ it then restart_loop fuel' (set_restart_index it (u32 (restart_index_ it + 1)))
        else Some it
      else Some it
  end.

Definition ParseNextKey (it : Iter) : option (Iter * bool) :=
  current ← NextEntryOffset it;
  if restarts_ it <=? current then Some (set_end it, false)
  else
    match DecodeEntry (take (Z.to_nat (restarts_ it - current)) (drop (Z.to_nat current) (data_ it))) with
    | None => Some (CorruptionError it, false)
    | Some (shared, non_shared, value_length, rest) =>
        if Z.of_nat (length (ikey_ it)) <? shared then Some (CorruptionError it, false)
        else
          let p := restarts_ it - Z.of_nat (length rest) in
          delta ← sub (data_ it) p non_shared;
          it ← restart_loop (S (Z.to_nat (num_restarts_ it)))
                 (MkIter (data_ it) (restarts_ it) (num_restarts_ it) current (restart_index_ it)
                    (take (Z.to_nat shared) (ikey_ it) ++ delta) (Some (p + non_shared, value_length))
                    (status_ it));
          Some (it, true)
    end.

(** Enough rounds for every loop over the entries: an entry has three bytes. *)
Definition parse_fuel (it : Iter) : nat := S (length (data_ it)).

Definition Iter_Next (it : Iter) : option Iter := '(it, _) ← ParseNextKey it; Some it.

(** [while (ParseNextKey() && NextEntryOffset() < limit);] of [Prev] and
    [SeekToLast]. *)
Fixpoint parse_until (fuel : nat) (limit : Z) (it : Iter) : option Iter :=
  match fuel with
  | O => None
  | S fuel' =>
      '(it, more) ← ParseNextKey it;
      if more : bool then
        next ← NextEntryOffset it;
        if next <? limit then parse_until fuel' limit it else Some it
      else Some it
  end.

(** The scan for a restart point before [original]; [inr] when there is none. *)
Fixpoint prev_restart (fuel : nat) (original : Z) (it : Iter) : option (Iter + Iter) :=
  match fuel with
  | O => None
  | S fuel' =>
      r ← GetRestartPoint it (restart_index_ it);
      if original <=? r then
        if restart_index_ it =? 0 then Some (inr (set_end it))
        else prev_restart fuel' original (set_restart_index it (restart_index_ it - 1))
      else Some (inl it)
  end.

Definition Iter_Prev (it : Iter) : option Iter :=
  let original := current_ it in
  r ← prev_restart (S (Z.to_nat (restart_index_ it))) original it;
  match r with
  | inr it => Some it
  | inl it =>
      it ← SeekToRestartPoint it (restart_index_ it);
      parse_until (parse_fuel it) original it
  end.

(** The binary search over the restart points; [None] inside when it met a
    malformed entry. *)
Fixpoint seek_restart (fuel : nat) (it : Iter) (target : bytes) (left_ right_ : Z) : option (option Z) :=
  match fuel with
  | O => None
  | S fuel' =>
      if left_ <? right_ then
        let mid := u32 (left_ + right_ + 1) / 2 in
        region_offset ← GetRestartPoint it mid;
        match DecodeEntry (take (Z.to_nat (restarts_ it - region_offset)) (drop (Z.to_nat region_offset) (data_ it))) with
        | None => Some None
        | Some (shared, non_shared, _, rest) =>
            if negb (shared =? 0) then Some None
            else
              mid_key ← sub (data_ it) (restarts_ it - Z.of_nat (length rest)) non_shared;
              r ← Compare mid_key target;
              if r <? 0 then seek_restart fuel' it target mid right_
              else seek_restart fuel' it target left_ (mid - 1)
        end
      else Some (Some left_)
  end.

(** The linear search for the first key that is not below the target. *)
Fixpoint seek_loop (fuel : nat) (target : bytes) (it : Iter) : option Iter :=
  match fuel with
  | O => None
  | S fuel' =>
      '(it, more) ← ParseNextKey it;
      if negb more then Some it
      else
        r ← Compare (ikey_ it) target;
        if 0 <=? r then Some it else seek_loop fuel' target it
  end.

Definition Iter_Seek (it : Iter) (target : bytes) : option Iter :=
  l ← seek_restart (S (Z.to_nat (num_restarts_ it))) it target 0 (u32 (num_restarts_ it - 1));
  match l with
  | None => Some (CorruptionError it)
  | Some left_ =>
      it ← SeekToRestartPoint it left_;
      seek_loop (parse_fuel it) target it
  end.

Definition Iter_SeekToFirst (it : Iter) : option Iter :=
  it ← SeekToRestartPoint it 0; '(it, _) ← ParseNextKey it; Some it.

Definition Iter_SeekToLast (it : Iter) : option Iter :=
  it ← SeekToRestartPoint it (u32 (num_restarts_ it - 1));
  parse_until (parse_fuel it) (restarts_ it) it.

#[export] Instance BlockIter : Iterator Iter := {|
  it_Valid := Iter_Valid;
  it_SeekToFirst := Iter_SeekToFirst;
  it_SeekToLast := Iter_SeekToLast;
  it_Seek := Iter_Seek;
  it_Next := Iter_Next;
  it_Prev := Iter_Prev;
  it_key it := Some (ikey_ it);
  it_value it := match value_ it with Some (p, n) => sub (data_ it) p n | None => Some [] end;
  it_status := status_ |}.

(** [Block::NewIterator] gives an empty iterator with a status or an [Iter]. *)
Inductive BlockIterator := BEmpty (s : Status) | BIter (it : Iter).

Definition Block_NewIterator (b : Block) : option BlockIterator :=
  if size_ b <? 4 then Some (BEmpty (NewErrorIterator (Corruption (bs "bad block contents"))))
  else
    num_restarts ← NumRestarts (blk_data_ b) (size_ b);
    if num_restarts =? 0 then Some (BEmpty NewEmptyIterator)
    else Some (BIter (Iter_new (blk_data_ b) (restart_offset_ b) num_restarts)).

(** Virtual calls on what [NewIterator] returned. *)
Definition bi_map (f : Status -> option Status) (g : Iter -> option Iter) (b : BlockIterator)
    : option BlockIterator :=
  match b with BEmpty s => BEmpty <$> f s | BIter it => BIter <$> g it end.

#[export] Instance BlockIterator_iterator : Iterator BlockIterator := {|
  it_Valid b := match b with BEmpty s => it_Valid s | BIter it => it_Valid it end;
  it_SeekToFirst := bi_map it_SeekToFirst it_SeekToFirst;
  it_SeekToLast := bi_map it_SeekToLast it_SeekToLast;
  it_Seek b k := bi_map (fun s => it_Seek s k) (fun it => it_Seek it k) b;
  it_Next := bi_map it_Next it_Next;
  it_Prev := bi_map it_Prev it_Prev;
  it_key b := match b with BEmpty s => it_key s | BIter it => it_key it end;
  it_value b := match b with BEmpty s => it_value s | BIter it => it_value it end;
  it_status b := match b with BEmpty s => it_status s | BIter it => it_status it end |}.

End iter.
