(* ===== verification/BlockSpec.v ===== *)
(** * Correctness of blocks

    What the builder of [Block.v] writes, an iterator over the block reads:
    the layout of a block, the state of an iterator at an entry, and the
    theorem that every operation of the iterator moves as over the list of
    the entries added. *)

From Stdlib Require Import String.
From S2P Require Import Prelude Status Coding Comparator Iterator Block.

(** ** Decoding one entry *)

(** The three lengths without the fast path. *)
Definition DecodeLengths (w : bytes) : option (Z * Z * Z * bytes) :=
  '(shared, p) ← GetVarint32Ptr w;
  '(non_shared, p) ← GetVarint32Ptr p;
  '(value_length, p) ← GetVarint32Ptr p;
  Some (shared, non_shared, value_length, p).

Lemma lor_below (a b k : Z) :
  0 <= a -> 0 <= b -> 0 <= k -> Z.lor a b < 2 ^ k <-> a < 2 ^ k /\ b < 2 ^ k.
Proof.
  intros Ha Hb Hk.
  assert (forall x, 0 <= x -> x < 2 ^ k <-> Z.shiftr x k = 0) as Hx.
  { intros x Hx. rewrite Z.shiftr_div_pow2 by lia. assert (0 < 2 ^ k) by (apply Z.pow_pos_nonneg; lia). split.
    - intros ?. by apply Z.div_small.
    - intros H0. apply Z.div_small_iff in H0; lia. }
  rewrite !Hx by (try apply Z.lor_nonneg; lia). rewrite Z.shiftr_lor. apply Z.lor_eq_0_iff.
Qed.

Lemma GetVarint32Ptr_byte (b : Byte.byte) (p : bytes) :
  byte.unsigned b < 128 -> GetVarint32Ptr (b :: p) = Some (byte.unsigned b, p).
Proof.
  intros Hb. pose proof (byte_range b). unfold GetVarint32Ptr.
  by rewrite land_128, (proj2 (Z.ltb_lt _ _)) by lia.
Qed.

(** The fast path for three one-byte lengths reads what the general one reads. *)
Lemma DecodeEntry_slow (w : bytes) :
  DecodeEntry w =
  if (length w <? 3)%nat then None
  else '(shared, non_shared, value_length, p) ← DecodeLengths w;
       if u32 (Z.of_nat (length p)) <? u32 (non_shared + value_length) then None
       else Some (shared, non_shared, value_length, p).
Proof.
  destruct w as [|b0 [|b1 [|b2 w]]]; [done..|]. cbn [DecodeEntry length Nat.ltb Nat.leb].
  pose proof (byte_range b0). pose proof (byte_range b1). pose proof (byte_range b2).
  destruct (Z.ltb_spec (Z.lor (Z.lor (byte.unsigned b0) (byte.unsigned b1)) (byte.unsigned b2)) 128) as [Hlt|];
    [|done].
  change 128 with (2 ^ 7) in Hlt. rewrite !lor_below in Hlt by (try apply Z.lor_nonneg; lia).
  change (2 ^ 7) with 128 in Hlt. unfold DecodeLengths.
  rewrite (GetVarint32Ptr_byte b0) by lia. cbn [mbind option_bind].
  rewrite (GetVarint32Ptr_byte b1) by lia. cbn [mbind option_bind].
  by rewrite (GetVarint32Ptr_byte b2) by lia.
Qed.

(** An entry with [s] bytes of its key left out. *)
Abbreviation Item := (nat * (bytes * bytes))%type.

Definition item_bytes (e : Item) : bytes :=
  let '(s, (k, v)) := e in
  EncodeVarint32 (Z.of_nat s) ++ EncodeVarint32 (Z.of_nat (length k - s)) ++
  EncodeVarint32 (Z.of_nat (length v)) ++ drop s k ++ v.

Lemma EncodeVarint32_nonempty (v : Z) : (1 <= length (EncodeVarint32 v))%nat.
Proof. unfold EncodeVarint32. repeat case_match; simpl; lia. Qed.

Lemma item_bytes_length (s : nat) (k v : bytes) :
  (3 + length (drop s k) + length v <= length (item_bytes (s, (k, v))))%nat.
Proof.
  simpl. rewrite !length_app. pose proof EncodeVarint32_nonempty as H.
  pose proof (H (Z.of_nat s)). pose proof (H (Z.of_nat (length k - s))). pose proof (H (Z.of_nat (length v))). lia.
Qed.

Lemma DecodeEntry_item (s : nat) (k v rest : bytes) :
  (s <= length k)%nat -> Z.of_nat s < 2 ^ 32 ->
  Z.of_nat (length (item_bytes (s, (k, v)) ++ rest)) < 2 ^ 32 ->
  DecodeEntry (item_bytes (s, (k, v)) ++ rest)
  = Some (Z.of_nat s, Z.of_nat (length k - s), Z.of_nat (length v), drop s k ++ v ++ rest).
Proof.
  intros Hs Hs32 Hlen. pose proof (item_bytes_length s k v) as Hm. rewrite length_app in Hlen.
  rewrite length_drop in Hm. rewrite DecodeEntry_slow.
  rewrite (proj2 (Nat.ltb_ge _ _)) by (rewrite length_app; lia).
  unfold DecodeLengths, item_bytes. rewrite <- !app_assoc.
  pose proof varint32_round as Hv. unfold GetVarint32 in Hv.
  rewrite Hv by lia. simpl. rewrite Hv by lia. simpl. rewrite Hv by lia. simpl.
  rewrite !length_app, length_drop. unfold u32. rewrite !Z.mod_small by lia.
  by rewrite (proj2 (Z.ltb_ge _ _)) by lia.
Qed.

(** ** The layout of a block *)

Definition body (items : list Item) : bytes := concat (item_bytes <$> items).
Definition off (items : list Item) (i : nat) : nat := length (body (take i items)).

Lemma body_app (l1 l2 : list Item) : body (l1 ++ l2) = body l1 ++ body l2.
Proof. unfold body. by rewrite fmap_app, concat_app. Qed.

Lemma body_length (items : list Item) : (length items <= length (body items))%nat.
Proof.
  induction items as [|[s [k v]] l IH]; [simpl; lia|].
  change (body ((s, (k, v)) :: l)) with (item_bytes (s, (k, v)) ++ body l). rewrite length_app.
  pose proof (item_bytes_length s k v). simpl in *. lia.
Qed.

Lemma off_S (items : list Item) (i : nat) (e : Item) :
  items !! i = Some e -> off items (S i) = (off items i + length (item_bytes e))%nat.
Proof.
  intros He. unfold off. rewrite (take_S_r _ _ e He), body_app, length_app. f_equal.
  unfold body. simpl. by rewrite app_nil_r.
Qed.

Lemma off_all (items : list Item) : off items (length items) = length (body items).
Proof. unfold off. by rewrite firstn_all. Qed.

Lemma off_drop (items : list Item) (i : nat) : drop (off items i) (body items) = body (drop i items).
Proof.
  unfold off. rewrite <- (take_drop i items) at 2. rewrite body_app. by rewrite drop_app_length.
Qed.

Lemma off_mono (items : list Item) (i j : nat) : (i <= j)%nat -> (off items i <= off items j)%nat.
Proof.
  intros Hij. unfold off. replace (take i items) with (take i (take j items)) by (rewrite take_take; f_equal; lia).
  rewrite <- (take_drop i (take j items)) at 2. rewrite body_app, length_app. lia.
Qed.

Lemma off_le (items : list Item) (i : nat) : (off items i <= length (body items))%nat.
Proof.
  destruct (decide (i <= length items)%nat) as [Hi|Hi].
  - rewrite <- off_all. by apply off_mono.
  - unfold off. rewrite take_ge by lia. done.
Qed.

Lemma off_lt (items : list Item) (i j : nat) :
  (i < j)%nat -> (i < length items)%nat -> (off items i < off items j)%nat.
Proof.
  intros Hij Hi. destruct (lookup_lt_is_Some_2 items i Hi) as [[s [k v]] He].
  pose proof (item_bytes_length s k v). pose proof (off_S items i _ He).
  pose proof (off_mono items (S i) j ltac:(lia)). lia.
Qed.

(** Each entry leaves out a prefix it shares with the key before it. *)
Fixpoint chained (prev : bytes) (items : list Item) : Prop :=
  match items with
  | [] => True
  | (s, (k, _)) :: l =>
      (s <= length prev)%nat /\ (s <= length k)%nat /\ take s prev = take s k /\ chained k l
  end.

Lemma chained_at (items : list Item) (prev : bytes) (i s : nat) (k v : bytes) :
  chained prev items -> items !! i = Some (s, (k, v)) ->
  (s <= length k)%nat /\
  match items !! S i with Some e => (e.1 <= length k)%nat /\ take e.1 k = take e.1 e.2.1 | None => True end.
Proof.
  revert prev i. induction items as [|[s0 [k0 v0]] l IH]; intros prev i; [done|].
  intros (? & ? & ? & Hc) Hi. destruct i as [|i].
  - simpl in Hi. injection Hi as -> -> ->. split; [done|]. simpl.
    destruct l as [|[s1 [k1 v1]] l]; simpl; [done|]. by destruct Hc as (? & ? & ? & ?).
  - apply (IH k0 i Hc Hi).
Qed.

(** A key is not longer than what has been written up to its entry. *)
Lemma chained_length (items : list Item) (prev : bytes) (i s : nat) (k v : bytes) :
  chained prev items -> items !! i = Some (s, (k, v)) ->
  (length k <= length prev + off items (S i))%nat.
Proof.
  revert prev i. induction items as [|[s0 [k0 v0]] l IH]; intros prev i; [done|].
  intros (Hs & Hk & _ & Hc) Hi. pose proof (item_bytes_length s0 k0 v0) as Hl. rewrite length_drop in Hl.
  unfold off. rewrite firstn_cons.
  change (body ((s0, (k0, v0)) :: ?l)) with (item_bytes (s0, (k0, v0)) ++ body l). rewrite length_app.
  destruct i as [|i].
  - simpl in Hi. injection Hi as -> -> ->. lia.
  - pose proof (IH k0 i Hc Hi) as H. unfold off in H. lia.
Qed.

Lemma chained_app (l1 l2 : list Item) (prev : bytes) :
  chained prev (l1 ++ l2) <->
  chained prev l1 /\ chained (default prev (fst ∘ snd <$> last l1)) l2.
Proof.
  revert prev. induction l1 as [|[s [k v]] l1 IH]; intros prev; simpl; [tauto|].
  rewrite IH. destruct l1 as [|x l1]; simpl; [tauto|].
  assert (exists y, last (x :: l1) = Some y) as [y Hy] by (apply last_is_Some; done).
  simpl in Hy. rewrite Hy. simpl. tauto.
Qed.

(** A restart point: an entry with its whole key, or the empty block. *)
Definition restart_ok (items : list Item) (j : nat) : Prop :=
  (exists e, items !! j = Some (O, e)) \/ (j = O /\ items = []).

Definition restart_bytes (items : list Item) (rs : list nat) : bytes :=
  concat ((fun j => EncodeFixed32 true (Z.of_nat (off items j))) <$> rs).

Record block_rep (data : bytes) (items : list Item) (rs : list nat) : Prop := MkBlockRep {
  br_data : data = body items ++ restart_bytes items rs ++ EncodeFixed32 true (Z.of_nat (length rs));
  br_size : Z.of_nat (length data) < 2 ^ 32;
  br_chain : chained [] items;
  br_first : head rs = Some O;
  br_restart : Forall (restart_ok items) rs;
  br_sorted : StronglySorted lt rs }.

(** ** The state of an iterator over a block *)

Section iter_spec.
Context {C : Comparator} {ok : bytes -> Prop} {HC : ComparatorSpec C ok}.
Context (data : bytes) (items : list Item) (rs : list nat) (Hrep : block_rep data items rs).

Record iter_on (it : Iter) : Prop := MkIterOn {
  on_data : data_ it = data;
  on_restarts : restarts_ it = Z.of_nat (length (body items));
  on_num : num_restarts_ it = Z.of_nat (length rs);
  on_status : status_ it = OK }.

Definition indexed (it : Iter) : Prop := 0 <= restart_index_ it < Z.of_nat (length rs).

(** The iterator is about to parse entry [j]. *)
Record ready (it : Iter) (j : nat) : Prop := MkReady {
  rdy_on : iter_on it;
  rdy_index : indexed it;
  rdy_le : (j <= length items)%nat;
  rdy_next : NextEntryOffset it = Some (Z.of_nat (off items j));
  rdy_key : match items !! j with
            | Some e => (e.1 <= length (ikey_ it))%nat /\ take e.1 (ikey_ it) = take e.1 e.2.1
            | None => True end }.

(** The iterator is at entry [i]. *)
Record at_item (it : Iter) (i : nat) : Prop := MkAt {
  ai_on : iter_on it;
  ai_index : indexed it;
  ai_item : exists s v, items !! i = Some (s, (ikey_ it, v)) /\
    value_ it = Some (Z.of_nat (off items (S i) - length v), Z.of_nat (length v));
  ai_current : current_ it = Z.of_nat (off items i) }.

Definition block_at (it : Iter) (p : option nat) : Prop :=
  match p with
  | Some i => at_item it i
  | None => iter_on it /\ current_ it = restarts_ it
  end.

Lemma restart_bytes_length : length (restart_bytes items rs) = (4 * length rs)%nat.
Proof. apply fixed32s_length. Qed.

Lemma data_length : Z.of_nat (length (body items)) + 4 * Z.of_nat (length rs) + 4 < 2 ^ 32.
Proof.
  pose proof (br_size _ _ _ Hrep) as H. rewrite (br_data _ _ _ Hrep), !length_app, restart_bytes_length in H.
  simpl in H. lia.
Qed.

Lemma rs_nonempty : (0 < length rs)%nat.
Proof. pose proof (br_first _ _ _ Hrep) as H. destruct rs; [done|]. simpl. lia. Qed.

Lemma GetRestartPoint_at (it : Iter) (a j : nat) :
  iter_on it -> rs !! a = Some j -> GetRestartPoint it (Z.of_nat a) = Some (Z.of_nat (off items j)).
Proof.
  intros Hon Ha. unfold GetRestartPoint. rewrite (on_data it Hon), (on_restarts it Hon), (br_data _ _ _ Hrep).
  replace (Z.to_nat (Z.of_nat (length (body items)) + Z.of_nat a * 4)) with (length (body items) + 4 * a)%nat by lia.
  apply (fixed32s_read (fun j => Z.of_nat (off items j))); [done|].
  pose proof data_length. pose proof (off_le items j). lia.
Qed.

Lemma restart_loop_ok (fuel : nat) (it : Iter) :
  iter_on it -> indexed it -> (Z.of_nat (length rs) - restart_index_ it <= Z.of_nat fuel) ->
  exists i, restart_loop fuel it = Some (set_restart_index it i) /\ 0 <= i < Z.of_nat (length rs).
Proof.
  revert it. induction fuel as [|fuel IH]; intros it Hon Hi Hf; unfold indexed in Hi; [lia|].
  pose proof data_length as Hd. cbn [restart_loop]. rewrite (on_num it Hon). unfold u32.
  rewrite Z.mod_small by lia.
  destruct (Z.ltb_spec (restart_index_ it + 1) (Z.of_nat (length rs))) as [Hlt|Hge].
  - destruct (lookup_lt_is_Some_2 rs (Z.to_nat (restart_index_ it + 1)) ltac:(lia)) as [j Hj].
    pose proof (GetRestartPoint_at it _ _ Hon Hj) as Hr. rewrite Z2Nat.id in Hr by lia. rewrite Hr. simpl.
    destruct (_ <? _).
    + destruct (IH (set_restart_index it (restart_index_ it + 1))) as (i & Hl & Hib);
        [by destruct Hon|unfold indexed; simpl; lia|simpl; lia|].
      exists i. rewrite Hl. done.
    + exists (restart_index_ it). by destruct it.
  - exists (restart_index_ it). by destruct it.
Qed.

(** What lies before the restart array, from entry [i] on. *)
Lemma window (i : nat) :
  take (Z.to_nat (Z.of_nat (length (body items)) - Z.of_nat (off items i)))
    (drop (Z.to_nat (Z.of_nat (off items i))) data) = body (drop i items).
Proof.
  pose proof (off_le items i). rewrite (br_data _ _ _ Hrep), Nat2Z.id.
  rewrite drop_app_le by lia. rewrite <- off_drop.
  rewrite take_app_length'; [done|]. rewrite length_drop. lia.
Qed.

Lemma sub_data (l m r : bytes) (p n : Z) :
  data = l ++ m ++ r -> p = Z.of_nat (length l) -> n = Z.of_nat (length m) -> sub data p n = Some m.
Proof.
  intros ->. apply sub_app.
Qed.

(** The entry [i] in the data. *)
Lemma data_item (i s : nat) (k v : bytes) :
  items !! i = Some (s, (k, v)) ->
  exists l r, data = l ++ drop s k ++ v ++ r /\
    length l = (off items (S i) - length v - length (drop s k))%nat /\
    (length (drop s k) + length v <= off items (S i))%nat.
Proof.
  intros Hi. rewrite (br_data _ _ _ Hrep).
  pose proof (off_S items i _ Hi) as Ho. pose proof (item_bytes_length s k v).
  rewrite <- (take_drop_middle items i _ Hi), body_app.
  change (body ((s, (k, v)) :: ?l)) with (item_bytes (s, (k, v)) ++ body l).
  eexists (body (take i items) ++ EncodeVarint32 (Z.of_nat s) ++ EncodeVarint32 (Z.of_nat (length k - s)) ++
  EncodeVarint32 (Z.of_nat (length v))), _. split; [simpl; rewrite <- !app_assoc; reflexivity|].
  unfold item_bytes in Ho. rewrite (take_drop_middle items i _ Hi). rewrite !length_app in *.
  fold (off items i). lia.
Qed.

Lemma ParseNextKey_item (it : Iter) (j : nat) :
  ready it j -> (j < length items)%nat ->
  exists it', ParseNextKey it = Some (it', true) /\ at_item it' j.
Proof.
  intros [Hon Hix _ Hnx Hkey] Hlt. pose proof data_length as Hd. unfold ParseNextKey. rewrite Hnx. cbn [mbind option_bind].
  destruct (lookup_lt_is_Some_2 items j Hlt) as [[s [k v]] Hj]. rewrite Hj in Hkey. simpl in Hkey. destruct Hkey as [Hsk Htk].
  pose proof (off_lt items j (length items) ltac:(lia) Hlt) as Hol. rewrite off_all in Hol.
  rewrite (on_restarts it Hon), (on_data it Hon), (proj2 (Z.leb_gt _ _)) by lia.
  rewrite window. rewrite (drop_S _ _ _ Hj).
  change (body ((s, (k, v)) :: ?l)) with (item_bytes (s, (k, v)) ++ body l).
  destruct (chained_at items [] j s k v (br_chain _ _ _ Hrep) Hj) as [Hs _].
  destruct (data_item j s k v Hj) as (l & r & Hdata & Hll & Hlb).
  pose proof (off_S items j _ Hj) as HoS. pose proof (off_le items (S j)) as HleS.
  assert (length (body (drop (S j) items)) = length (body items) - off items (S j))%nat as Hrest
    by (rewrite <- off_drop, length_drop; done).
  pose proof (item_bytes_length s k v) as Hil. rewrite length_drop in Hil, Hll, Hlb.
  pose proof (chained_length items [] j s k v (br_chain _ _ _ Hrep) Hj) as Hkl. simpl in Hkl.
  rewrite DecodeEntry_item; [|done|lia|rewrite length_app; lia].
  rewrite (proj2 (Z.ltb_ge _ _)) by lia.
  rewrite !length_app, length_drop, Hrest.
  rewrite (sub_data l (drop s k) (v ++ r)); [|done|lia|rewrite length_drop; lia]. cbn [mbind option_bind].
  rewrite !Nat2Z.id, Htk, take_drop.
  match goal with |- context [restart_loop _ ?i] => set (it1 := i) end.
  destruct (restart_loop_ok (S (Z.to_nat (num_restarts_ it))) it1) as (i & -> & Hi);
    [by destruct Hon|done|simpl; rewrite (on_num it Hon); destruct Hix; lia|].
  simpl. eexists. split; [done|]. split; [by destruct Hon|done| |done].
  exists s, v. split; [done|]. simpl. do 2 f_equal. lia.
Qed.
Lemma ParseNextKey_end (it : Iter) :
  ready it (length items) -> exists it', ParseNextKey it = Some (it', false) /\ block_at it' None.
Proof.
  intros [Hon _ _ Hnx _]. unfold ParseNextKey. rewrite Hnx, off_all. cbn [mbind option_bind].
  rewrite (on_restarts it Hon), Z.leb_refl. eexists. split; [done|]. split; [by destruct Hon|done].
Qed.

(** One round of a loop over the entries. *)
Lemma ParseNextKey_ready (it : Iter) (j : nat) :
  ready it j -> exists it', ParseNextKey it = Some (it', bool_decide (j < length items)%nat) /\
    block_at it' (pos_of (length items) j).
Proof.
  intros Hr. pose proof (rdy_le it j Hr). unfold pos_of. destruct (Nat.ltb_spec j (length items)) as [Hlt|Hge].
  - rewrite bool_decide_true by done. by apply ParseNextKey_item.
  - rewrite bool_decide_false by lia. apply ParseNextKey_end. by replace (length items) with j by lia.
Qed.

Lemma at_item_ready (it : Iter) (i : nat) : at_item it i -> ready it (S i).
Proof.
  intros [Hon Hix (s & v & Hi & Hv) _]. pose proof data_length as Hd. pose proof (off_le items (S i)) as Hle.
  pose proof (lookup_lt_Some _ _ _ Hi) as Hlt. pose proof (item_bytes_length s (ikey_ it) v) as Hil.
  pose proof (off_S items i _ Hi) as HoS. split; [done|done|lia| |].
  - unfold NextEntryOffset. rewrite Hv. simpl. f_equal. unfold u32. rewrite Z.mod_small; lia.
  - by apply (chained_at items [] i s (ikey_ it) v (br_chain _ _ _ Hrep)).
Qed.

Lemma SeekToRestartPoint_ready (it : Iter) (a j : nat) :
  iter_on it -> rs !! a = Some j ->
  exists it', SeekToRestartPoint it (Z.of_nat a) = Some it' /\ ready it' j.
Proof.
  intros Hon Ha. unfold SeekToRestartPoint. rewrite (GetRestartPoint_at it a j Hon Ha). simpl.
  pose proof (proj1 (Forall_forall _ _) (br_restart _ _ _ Hrep) j (list_elem_of_lookup_2 _ _ _ Ha)) as Hj.
  pose proof (off_le items j) as Hle. pose proof data_length as Hd. pose proof (lookup_lt_Some _ _ _ Ha).
  eexists. split; [done|]. split; simpl; [by destruct Hon|unfold indexed; simpl; lia| | |].
  - destruct Hj as [[e He]|[-> ->]]; [apply lookup_lt_Some in He; lia|simpl; lia].
  - unfold NextEntryOffset. simpl. f_equal. unfold u32. rewrite Z.mod_small; lia.
  - destruct Hj as [[e He]|[-> ->]]; [by rewrite He|done].
Qed.

Lemma items_length_fuel (it : Iter) : iter_on it -> (length items < parse_fuel it)%nat.
Proof.
  intros Hon. unfold parse_fuel. rewrite (on_data it Hon), (br_data _ _ _ Hrep), length_app.
  pose proof (body_length items). lia.
Qed.

Lemma parse_until_ok (fuel : nat) (it : Iter) (j m : nat) :
  ready it j -> (j < m <= length items)%nat -> (m - j <= fuel)%nat ->
  exists it', parse_until fuel (Z.of_nat (off items m)) it = Some it' /\ at_item it' (m - 1).
Proof.
  revert it j. induction fuel as [|fuel IH]; intros it j Hr Hjm Hf; [lia|]. cbn [parse_until].
  destruct (ParseNextKey_item it j Hr ltac:(lia)) as (it1 & -> & Hat). cbn [mbind option_bind].
  pose proof (at_item_ready it1 j Hat) as Hr1. rewrite (rdy_next _ _ Hr1). cbn [mbind option_bind].
  destruct (decide (S j = m)) as [<-|Hne].
  - rewrite Z.ltb_irrefl. exists it1. split; [done|]. by replace (S j - 1)%nat with j by lia.
  - pose proof (off_lt items (S j) m ltac:(lia) ltac:(lia)). rewrite (proj2 (Z.ltb_lt _ _)) by lia.
    apply (IH it1 (S j) Hr1); lia.
Qed.

Lemma set_index_on (it : Iter) (i : Z) : iter_on it -> iter_on (set_restart_index it i).
Proof. by intros []. Qed.

(** The scan back ends at a restart point before entry [i], if there is an
    entry before it. *)
Lemma prev_restart_ok (fuel : nat) (it : Iter) (a i : nat) :
  iter_on it -> restart_index_ it = Z.of_nat a -> (a < length rs)%nat -> (a < fuel)%nat ->
  (i < length items)%nat ->
  if decide (i = O)
  then exists it', prev_restart fuel (Z.of_nat (off items i)) it = Some (inr it') /\ block_at it' None
  else exists a' j, prev_restart fuel (Z.of_nat (off items i)) it = Some (inl (set_restart_index it (Z.of_nat a'))) /\
    rs !! a' = Some j /\ (j < i)%nat.
Proof.
  revert it a. induction fuel as [|fuel IH]; intros it a Hon Ha Hlt Hf Hi; [lia|]. cbn [prev_restart].
  destruct (lookup_lt_is_Some_2 rs a Hlt) as [j Hj]. rewrite Ha, (GetRestartPoint_at it a j Hon Hj).
  cbn [mbind option_bind]. destruct (Z.leb_spec (Z.of_nat (off items i)) (Z.of_nat (off items j))) as [Hle|Hgt].
  - destruct a as [|a].
    + pose proof (br_first _ _ _ Hrep) as H0. rewrite head_lookup, Hj in H0. injection H0 as ->.
      destruct (decide (i = O)) as [->|Hne].
      * eexists. split; [done|]. split; [by destruct Hon|done].
      * pose proof (off_lt items 0 i ltac:(lia) ltac:(lia)). lia.
    + rewrite (proj2 (Z.eqb_neq _ _)) by lia. replace (Z.of_nat (S a) - 1) with (Z.of_nat a) by lia.
      apply (IH (set_restart_index it (Z.of_nat a)) a); [by apply set_index_on|done|lia|lia|done].
  - destruct (decide (i = O)) as [->|Hne]; [unfold off in Hgt; simpl in Hgt; lia|].
    exists a, j. rewrite <- Ha. split; [by destruct it|]. split; [done|].
    destruct (decide (j < i)%nat); [done|]. pose proof (off_mono items i j ltac:(lia)). lia.
Qed.

Lemma Iter_Prev_ok (it : Iter) (i : nat) :
  at_item it i -> exists it', Iter_Prev it = Some it' /\ block_at it' (pos_before i).
Proof.
  intros [Hon Hix (s & v & Hi & _) Hcur]. unfold Iter_Prev. rewrite Hcur. unfold indexed in Hix.
  pose proof (lookup_lt_Some _ _ _ Hi) as Hlt.
  pose proof (prev_restart_ok (S (Z.to_nat (restart_index_ it))) it (Z.to_nat (restart_index_ it)) i
    Hon ltac:(lia) ltac:(lia) ltac:(lia) Hlt) as Hp.
  destruct (decide (i = O)) as [->|Hne].
  - destruct Hp as (it' & -> & Hat). by exists it'.
  - destruct Hp as (a & j & -> & Ha & Hj). cbn [mbind option_bind restart_index_ set_restart_index].
    destruct (SeekToRestartPoint_ready (set_restart_index it (Z.of_nat a)) a j) as (it1 & -> & Hr1);
      [by apply set_index_on|done|]. cbn [mbind option_bind].
    pose proof (items_length_fuel it1 (rdy_on _ _ Hr1)).
    destruct (parse_until_ok (parse_fuel it1) it1 j i Hr1) as (it' & -> & Hat); [lia|lia|].
    exists it'. split; [done|]. destruct i as [|i]; [done|]. simpl. by replace i with (S i - 1)%nat by lia.
Qed.

Lemma Iter_SeekToFirst_ok (it : Iter) :
  iter_on it -> exists it', Iter_SeekToFirst it = Some it' /\ block_at it' (pos_of (length items) 0).
Proof.
  intros Hon. unfold Iter_SeekToFirst. pose proof (br_first _ _ _ Hrep) as H0. rewrite head_lookup in H0.
  destruct (SeekToRestartPoint_ready it 0 0 Hon H0) as (it1 & Hs & Hr). change (Z.of_nat 0) with 0 in Hs. rewrite Hs.
  cbn [mbind option_bind]. destruct (ParseNextKey_ready it1 0 Hr) as (it2 & -> & Hat). by exists it2.
Qed.

Lemma Iter_SeekToLast_ok (it : Iter) :
  iter_on it -> exists it', Iter_SeekToLast it = Some it' /\ block_at it' (pos_before (length items)).
Proof.
  intros Hon. unfold Iter_SeekToLast. pose proof rs_nonempty as Hn. pose proof data_length as Hd.
  rewrite (on_num it Hon). unfold u32. rewrite Z.mod_small by lia.
  replace (Z.of_nat (length rs) - 1) with (Z.of_nat (length rs - 1)) by lia.
  destruct (lookup_lt_is_Some_2 rs (length rs - 1) ltac:(lia)) as [j Hj].
  destruct (SeekToRestartPoint_ready it _ j Hon Hj) as (it1 & -> & Hr). cbn [mbind option_bind].
  rewrite (on_restarts it1 (rdy_on _ _ Hr)), <- off_all.
  pose proof (proj1 (Forall_forall _ _) (br_restart _ _ _ Hrep) j (list_elem_of_lookup_2 _ _ _ Hj)) as Hjok.
  pose proof (items_length_fuel it1 (rdy_on _ _ Hr)) as Hf. destruct Hjok as [[e He]|[-> Hnil]].
  - apply lookup_lt_Some in He.
    destruct (parse_until_ok (parse_fuel it1) it1 j (length items) Hr) as (it' & -> & Hat); [lia|lia|].
    exists it'. split; [done|]. destruct (length items) as [|n]; [lia|]. simpl in *. by replace n with (n - 0)%nat by lia.
  - rewrite Hnil in *. simpl in *. destruct (parse_fuel it1) as [|f]; [lia|]. cbn [parse_until].
    destruct (ParseNextKey_end it1) as (it' & -> & Hat); [by rewrite Hnil|]. by exists it'.
Qed.

Lemma Iter_value_ok (it : Iter) (i : nat) :
  at_item it i -> exists s v, items !! i = Some (s, (ikey_ it, v)) /\ it_value it = Some v.
Proof.
  intros [Hon _ (s & v & Hi & Hv) _]. exists s, v. split; [done|]. simpl. rewrite Hv, (on_data it Hon).
  destruct (data_item i s (ikey_ it) v Hi) as (l & r & Hd & Hl & Hb).
  apply (sub_data (l ++ drop s (ikey_ it)) v r); [by rewrite <- app_assoc|rewrite length_app; lia|done].
Qed.
(** *** Seeking *)

Definition ents : list (bytes * bytes) := items.*2.

Section seek.
Context (Hsorted : StronglySorted (fun a b : bytes * bytes => cmp_lt a.1 b.1) ents).
Context (Hok : Forall (fun e : bytes * bytes => ok e.1) ents).
Context (target : bytes) (Htarget : ok target).

Lemma ents_lookup (i s : nat) (e : bytes * bytes) : items !! i = Some (s, e) -> ents !! i = Some e.
Proof. intros Hi. unfold ents. by rewrite list_lookup_fmap, Hi. Qed.

Lemma ents_ok (i : nat) (e : bytes * bytes) : ents !! i = Some e -> ok e.1.
Proof. intros He. exact (proj1 (Forall_lookup _ _) Hok i e He). Qed.

(** The entries up to one below the target are below it. *)
Lemma below_take (i : nat) (k v : bytes) :
  ents !! i = Some (k, v) -> cmp_lt k target -> Forall (fun e : bytes * bytes => cmp_lt e.1 target) (take (S i) ents).
Proof.
  intros Hi Hk. apply Forall_forall. intros e (j & Hj & Hlt)%elem_of_take.
  destruct (decide (j = i)) as [->|Hne]; [rewrite Hi in Hj; by injection Hj as <-|].
  pose proof (ents_ok _ _ Hi). pose proof (ents_ok _ _ Hj).
  apply (cmp_trans e.1 k target); [done|done|done| |done].
  apply (sorted_lookup _ _ j i e (k, v) Hsorted); [lia|done|done].
Qed.

Lemma above_drop (i : nat) (k v : bytes) :
  ents !! i = Some (k, v) -> ~ cmp_lt k target -> Forall (fun e : bytes * bytes => ~ cmp_lt e.1 target) (drop i ents).
Proof.
  intros Hi Hk. apply Forall_lookup. intros j e Hj. rewrite lookup_drop in Hj.
  destruct j as [|j]; [rewrite Nat.add_0_r, Hi in Hj; by injection Hj as <-|].
  pose proof (ents_ok _ _ Hi). pose proof (ents_ok _ _ Hj). intros Hlt. apply Hk.
  apply (cmp_trans k e.1 target); [done|done|done| |done].
  apply (sorted_lookup _ _ i (i + S j) (k, v) e Hsorted); [lia|done|done].
Qed.

(** A restart point to start the linear search from. *)
Definition good_left (a : nat) : Prop :=
  a = O \/ exists j k v, rs !! a = Some j /\ ents !! j = Some (k, v) /\ cmp_lt k target.

Lemma seek_restart_ok (fuel : nat) (it : Iter) (l r : nat) :
  iter_on it -> (l <= r < length rs)%nat -> (r - l < fuel)%nat -> good_left l ->
  exists a, seek_restart fuel it target (Z.of_nat l) (Z.of_nat r) = Some (Some (Z.of_nat a)) /\
    (a < length rs)%nat /\ good_left a.
Proof.
  revert l r. induction fuel as [|fuel IH]; intros l r Hon Hlr Hf Hl; [lia|]. cbn [seek_restart].
  pose proof data_length as Hd. destruct (Z.ltb_spec (Z.of_nat l) (Z.of_nat r)) as [Hlt|]; [|exists l; by auto with lia].
  set (mid := Nat.div (l + r + 1) 2).
  assert (l < mid <= r)%nat as Hmid.
  { unfold mid. pose proof (Nat.div_mod (l + r + 1) 2 ltac:(lia)).
    pose proof (Nat.mod_upper_bound (l + r + 1) 2 ltac:(lia)). lia. }
  assert (u32 (Z.of_nat l + Z.of_nat r + 1) / 2 = Z.of_nat mid) as ->.
  { unfold u32, mid. rewrite Z.mod_small, Nat2Z.inj_div by lia. f_equal. lia. }
  destruct (lookup_lt_is_Some_2 rs mid ltac:(lia)) as [j Hj].
  rewrite (GetRestartPoint_at it mid j Hon Hj). cbn [mbind option_bind].
  rewrite (on_data it Hon), (on_restarts it Hon), window.
  assert (exists e, items !! j = Some (O, e)) as [[k v] Hi].
  { pose proof (proj1 (Forall_forall _ _) (br_restart _ _ _ Hrep) j (list_elem_of_lookup_2 _ _ _ Hj)) as [?|[-> _]]; [done|].
    destruct (lookup_lt_is_Some_2 rs 0 ltac:(lia)) as [j0 Hj0].
    pose proof (sorted_lookup _ _ 0 mid j0 O (br_sorted _ _ _ Hrep) ltac:(lia) Hj0 Hj). lia. }
  rewrite (drop_S _ _ _ Hi).
  change (body ((O, (k, v)) :: ?l)) with (item_bytes (O, (k, v)) ++ body l).
  destruct (data_item j O k v Hi) as (dl & dr & Hdata & Hll & Hlb).
  pose proof (off_S items j _ Hi) as HoS. pose proof (off_le items (S j)) as HleS.
  assert (length (body (drop (S j) items)) = length (body items) - off items (S j))%nat as Hrest
    by (rewrite <- off_drop, length_drop; done).
  rewrite DecodeEntry_item; [|lia|lia|rewrite length_app; lia]. cbn [negb Z.eqb]. rewrite drop_0 in *.
  rewrite !length_app, Hrest.
  rewrite (sub_data dl k (v ++ dr)); [|done|lia|lia]. cbn [mbind option_bind].
  pose proof (ents_lookup _ _ _ Hi) as He. pose proof (ents_ok _ _ He) as Hk. simpl in Hk.
  destruct (cmp_cases k target Hk Htarget) as [(c & -> & Hc & Hlt')|[[-> _]|(c & -> & Hc & _)]]; cbn [mbind option_bind].
  - rewrite (proj2 (Z.ltb_lt _ _)) by done. apply IH; [done|lia|lia|]. right. eauto 6.
  - cbn [Z.ltb Z.compare]. replace (Z.of_nat mid - 1) with (Z.of_nat (mid - 1)) by lia. apply IH; [done|lia|lia|done].
  - rewrite (proj2 (Z.ltb_ge _ _)) by lia. replace (Z.of_nat mid - 1) with (Z.of_nat (mid - 1)) by lia.
    apply IH; [done|lia|lia|done].
Qed.

(** The first entry that is not below the target. *)
Definition seek_pos (i : nat) : Prop :=
  (i <= length ents)%nat /\ Forall (fun e : bytes * bytes => cmp_lt e.1 target) (take i ents) /\
  Forall (fun e : bytes * bytes => ~ cmp_lt e.1 target) (drop i ents).

Lemma ents_length : length ents = length items.
Proof. unfold ents. by rewrite length_fmap. Qed.

Lemma seek_loop_ok (fuel : nat) (it : Iter) (j : nat) :
  ready it j -> Forall (fun e : bytes * bytes => cmp_lt e.1 target) (take j ents) ->
  (length items - j < fuel)%nat ->
  exists it' i, seek_loop fuel target it = Some it' /\ block_at it' (pos_of (length items) i) /\ seek_pos i.
Proof.
  revert it j. induction fuel as [|fuel IH]; intros it j Hr Hb Hf; [lia|]. cbn [seek_loop].
  destruct (ParseNextKey_ready it j Hr) as (it1 & -> & Hat). cbn [mbind option_bind].
  pose proof (rdy_le it j Hr) as Hle. unfold pos_of in Hat.
  destruct (Nat.ltb_spec j (length items)) as [Hlt|Hge].
  - rewrite bool_decide_true by done. cbn [negb].
    destruct (ai_item _ _ Hat) as (s & v & Hi & _). pose proof (ents_lookup _ _ _ Hi) as He.
    pose proof (ents_ok _ _ He) as Hk. simpl in Hk.
    destruct (cmp_cases (ikey_ it1) target Hk Htarget) as [(c & -> & Hc & Hlt')|Hge]; cbn [mbind option_bind].
    + rewrite (proj2 (Z.leb_gt _ _)) by done. apply (IH it1 (S j)); [by apply at_item_ready| |lia].
      by apply (below_take j (ikey_ it1) v).
    + assert (exists c, Compare (ikey_ it1) target = Some c /\ 0 <= c /\ ~ cmp_lt (ikey_ it1) target) as (c & -> & Hc & Hn).
      { destruct Hge as [[Hc Heq]|(c & Hc & Hpos & Hlt')]; eexists; (split; [exact Hc|]); (split; [lia|]).
        - rewrite Heq. by apply cmp_lt_irrefl.
        - by apply cmp_lt_asym. }
      cbn [mbind option_bind]. rewrite (proj2 (Z.leb_le _ _)) by done. exists it1, j. split; [done|]. split.
      * unfold pos_of. by rewrite (proj2 (Nat.ltb_lt _ _)).
      * split; [rewrite ents_length; lia|]. split; [done|]. by apply (above_drop j (ikey_ it1) v).
  - rewrite bool_decide_false by lia. cbn [negb]. exists it1, j. split; [done|]. split.
    + unfold pos_of. by rewrite (proj2 (Nat.ltb_ge _ _)).
    + split; [rewrite ents_length; lia|]. split; [done|]. rewrite drop_ge by (rewrite ents_length; lia). done.
Qed.

Lemma Iter_Seek_ok (it : Iter) :
  iter_on it ->
  exists it' i, Iter_Seek it target = Some it' /\ block_at it' (pos_of (length items) i) /\ seek_pos i.
Proof.
  intros Hon. unfold Iter_Seek. pose proof rs_nonempty as Hn. pose proof data_length as Hd.
  rewrite (on_num it Hon). unfold u32. rewrite Z.mod_small by lia.
  destruct (seek_restart_ok (S (Z.to_nat (Z.of_nat (length rs)))) it 0 (length rs - 1) Hon) as (a & Hs & Ha & Hl);
    [lia|lia|by left|].
  replace (Z.of_nat (length rs) - 1) with (Z.of_nat (length rs - 1)) by lia.
  change (Z.of_nat 0) with 0 in Hs. rewrite Hs. cbn [mbind option_bind].
  destruct (lookup_lt_is_Some_2 rs a Ha) as [j Hj].
  destruct (SeekToRestartPoint_ready it a j Hon Hj) as (it1 & -> & Hr). cbn [mbind option_bind].
  apply (seek_loop_ok _ it1 j Hr); [|pose proof (items_length_fuel it1 (rdy_on _ _ Hr)); lia].
  destruct Hl as [->|(j' & k & v & Hj' & He & Hk)].
  - pose proof (br_first _ _ _ Hrep) as H0. rewrite head_lookup, Hj in H0. by injection H0 as ->.
  - rewrite Hj in Hj'. injection Hj' as <-. pose proof (below_take j k v He Hk) as HF.
    rewrite (take_S_r _ _ _ He) in HF. by apply Forall_app in HF as [? _].
Qed.
End seek.

Lemma block_at_on (it : Iter) (p : option nat) : block_at it p -> iter_on it.
Proof. destruct p; [apply ai_on|by intros []]. Qed.

(** An iterator over a block keeps the contract of iterators, for the
    entries of the block. *)
Lemma Iter_spec :
  StronglySorted (fun a b : bytes * bytes => cmp_lt a.1 b.1) ents ->
  Forall (fun e : bytes * bytes => ok e.1) ents ->
  IteratorSpec BlockIter ok cmp_lt ents block_at.
Proof.
  intros Hs Hok. pose proof ents_length as Hlen. split.
  - intros it [i|]; simpl.
    + intros Hat. unfold Iter_Valid. rewrite (ai_current _ _ Hat), (on_restarts _ (ai_on _ _ Hat)).
      destruct (ai_item _ _ Hat) as (s & v & Hi & _). apply lookup_lt_Some in Hi.
      pose proof (off_lt items i (length items) ltac:(lia) Hi) as Hlt. rewrite off_all in Hlt.
      apply Z.ltb_lt. lia.
    + intros [Hon Hc]. unfold Iter_Valid. rewrite Hc. apply Z.ltb_irrefl.
  - intros it i Hat. destruct (Iter_value_ok it i Hat) as (s & v & Hi & Hv).
    exists (ikey_ it), v. split; [by apply (ents_lookup i s)|done].
  - intros it p Hat. rewrite Hlen. apply Iter_SeekToFirst_ok. by eapply block_at_on.
  - intros it p Hat. rewrite Hlen. apply Iter_SeekToLast_ok. by eapply block_at_on.
  - intros it i Hat. rewrite Hlen, Nat.add_1_r. simpl. unfold Iter_Next.
    destruct (ParseNextKey_ready it (S i) (at_item_ready it i Hat)) as (it' & -> & Hat'). by exists it'.
  - intros it i Hat. by apply Iter_Prev_ok.
  - intros it p target Hat Ht. rewrite Hlen.
    destruct (Iter_Seek_ok Hs Hok target Ht it) as (it' & i & Hseek & Hat' & Hle & Hpos); [by eapply block_at_on|].
    exists it', i. rewrite <- Hlen in Hat' |- *. tauto.
  - intros it p Hat. exact (on_status _ (block_at_on it p Hat)).
Qed.
End iter_spec.

(** ** What the builder writes *)

Lemma shared_loop_spec (l k : bytes) :
  (BB.shared_loop l k <= length l)%nat /\ (BB.shared_loop l k <= length k)%nat /\
  take (BB.shared_loop l k) l = take (BB.shared_loop l k) k.
Proof.
  revert k. induction l as [|x l IH]; intros [|y k]; simpl; try (split; [lia|split; [lia|done]]).
  destruct (bool_decide_reflect (x = y)) as [->|]; simpl; [|split; [lia|split; [lia|done]]].
  destruct (IH k) as (? & ? & Ht). split; [lia|]. split; [lia|]. by rewrite Ht.
Qed.

Lemma off_app (l1 l2 : list Item) (j : nat) : (j <= length l1)%nat -> off (l1 ++ l2) j = off l1 j.
Proof. intros Hj. unfold off. by rewrite take_app_le. Qed.

Lemma restart_ok_le (items : list Item) (j : nat) : restart_ok items j -> (j <= length items)%nat.
Proof. intros [[e He%lookup_lt_Some]|[-> _]]; lia. Qed.

Record bb_rep (r : Z) (b : BB.BlockBuilder) (items : list Item) (rs : list nat) : Prop := MkBBRep {
  bb_buffer : BB.buffer_ b = body items;
  bb_restarts : BB.restarts_ b = (fun j => Z.of_nat (off items j)) <$> rs;
  bb_last : BB.last_key_ b = default [] (fst ∘ snd <$> last items);
  bb_chain : chained [] items;
  bb_first : head rs = Some O;
  bb_restart : Forall (restart_ok items) rs;
  bb_sorted : StronglySorted lt rs;
  bb_counter : items = [] -> BB.counter_ b < r }.

Lemma BlockBuilder_new_rep (r : Z) : 1 <= r -> bb_rep r BB.BlockBuilder_new [] [O].
Proof. intros Hr. split; try done; [by repeat constructor; right|by repeat constructor|simpl; lia]. Qed.

Lemma last_key_length (r : Z) (b : BB.BlockBuilder) (items : list Item) (rs : list nat) :
  bb_rep r b items rs -> (length (BB.last_key_ b) <= length (body items))%nat.
Proof.
  intros Hb. rewrite (bb_last _ _ _ _ Hb). destruct (last items) as [[s [k v]]|] eqn:Hl; simpl; [|lia].
  rewrite last_lookup in Hl.
  pose proof (chained_length items [] _ s k v (bb_chain _ _ _ _ Hb) Hl) as Hk. simpl in Hk.
  pose proof (off_le items (S (pred (length items)))). lia.
Qed.

(** Adding an entry: with a prefix left out, or with a new restart point. *)
Lemma Add_buffer (r : Z) (b : BB.BlockBuilder) (items : list Item) (rs : list nat) (k v : bytes) :
  bb_rep r b items rs -> Z.of_nat (length (BB.buffer_ (BB.Add r b k v))) < 2 ^ 32 ->
  exists s, (s <= length (BB.last_key_ b))%nat /\ (s <= length k)%nat /\ take s (BB.last_key_ b) = take s k /\
    BB.buffer_ (BB.Add r b k v) = body (items ++ [(s, (k, v))]) /\ BB.last_key_ (BB.Add r b k v) = k /\
    ((BB.counter_ b < r /\ BB.restarts_ (BB.Add r b k v) = BB.restarts_ b) \/
     (r <= BB.counter_ b /\ s = O /\
      BB.restarts_ (BB.Add r b k v) = BB.restarts_ b ++ [Z.of_nat (length (body items))])).
Proof.
  intros Hb. pose proof (last_key_length r b items rs Hb) as Hll.
  destruct (shared_loop_spec (BB.last_key_ b) k) as (Hs1 & Hs2 & Ht).
  assert (forall s, body (items ++ [(s, (k, v))]) = body items ++ item_bytes (s, (k, v))) as Hbody.
  { intros s. rewrite body_app. f_equal. apply app_nil_r. }
  unfold BB.Add. rewrite (bb_buffer _ _ _ _ Hb). unfold PutVarint32, u32.
  destruct (Z.ltb_spec (BB.counter_ b) r) as [Hlt|Hge]; simpl; rewrite !length_app, ?length_drop; intros Hlen.
  - exists (BB.shared_loop (BB.last_key_ b) k). rewrite Hbody. unfold item_bytes. rewrite !Z.mod_small by lia. rewrite <- !app_assoc, Ht, take_drop.
    split_and!; [done..|]. by left.
  - exists O. rewrite Hbody. unfold item_bytes. rewrite !Z.mod_small by lia. rewrite <- !app_assoc, drop_0, !take_0.
    split_and!; [lia|lia|done|done|done|]. by right.
Qed.

Lemma restart_ok_snoc (items : list Item) (s j : nat) (e : bytes * bytes) :
  restart_ok items j -> (items = [] -> s = O) -> restart_ok (items ++ [(s, e)]) j.
Proof.
  intros [[f Hf]|[-> ->]] Hs.
  - left. exists f. by apply lookup_app_l_Some.
  - left. exists e. simpl. by rewrite Hs.
Qed.

Lemma Add_rep (r : Z) (b : BB.BlockBuilder) (items : list Item) (rs : list nat) (k v : bytes) :
  bb_rep r b items rs -> Z.of_nat (length (BB.buffer_ (BB.Add r b k v))) < 2 ^ 32 ->
  exists s rs', bb_rep r (BB.Add r b k v) (items ++ [(s, (k, v))]) rs'.
Proof.
  intros Hb Hlen. destruct (Add_buffer r b items rs k v Hb Hlen) as (s & Hs1 & Hs2 & Ht & Hbuf & Hlast & Hrs).
  assert (chained [] (items ++ [(s, (k, v))])) as Hch.
  { apply chained_app. split; [apply (bb_chain _ _ _ _ Hb)|]. rewrite <- (bb_last _ _ _ _ Hb). by simpl. }
  assert (items = [] -> s = O) as Hs0.
  { intros ->. rewrite (bb_last _ _ _ _ Hb) in Hs1. simpl in Hs1. lia. }
  assert (forall j, j ∈ rs -> off (items ++ [(s, (k, v))]) j = off items j) as Hoff.
  { intros j Hj. apply off_app, restart_ok_le. by apply (proj1 (Forall_forall _ _) (bb_restart _ _ _ _ Hb)). }
  assert (Forall (restart_ok (items ++ [(s, (k, v))])) rs) as Hrok.
  { eapply Forall_impl; [apply (bb_restart _ _ _ _ Hb)|]. intros j Hj. by apply restart_ok_snoc. }
  assert ((fun j => Z.of_nat (off (items ++ [(s, (k, v))]) j)) <$> rs = BB.restarts_ b) as Hmap.
  { rewrite (bb_restarts _ _ _ _ Hb). apply Forall_fmap_ext. apply Forall_forall. intros j Hj. by rewrite Hoff. }
  destruct Hrs as [[Hc Hrs]|(Hc & -> & Hrs)].
  - exists s, rs. split; [done|by rewrite Hmap|by rewrite last_snoc|done|apply (bb_first _ _ _ _ Hb)|done
      |apply (bb_sorted _ _ _ _ Hb)|intros Hn; by destruct items].
  - assert (items <> []) as Hne by (intros Hn; pose proof (bb_counter _ _ _ _ Hb Hn); lia).
    exists O, (rs ++ [length items]). split; [done| |by rewrite last_snoc|done| | | |intros Hn; by destruct items].
    + rewrite fmap_app, Hmap, Hrs. simpl. do 3 f_equal. rewrite off_app, off_all by done. done.
    + pose proof (bb_first _ _ _ _ Hb). by destruct rs.
    + apply Forall_app. split; [done|]. apply Forall_singleton. left. exists (k, v). by rewrite lookup_app_r, Nat.sub_diag by done.
    + apply sorted_snoc; [apply (bb_sorted _ _ _ _ Hb)|]. eapply Forall_impl; [apply (bb_restart _ _ _ _ Hb)|].
      intros j [[e He%lookup_lt_Some]|[_ ?]]; [done|by destruct Hne].
Qed.

Lemma Add_grows (r : Z) (b : BB.BlockBuilder) (k v : bytes) :
  (length (BB.buffer_ b) <= length (BB.buffer_ (BB.Add r b k v)))%nat.
Proof. unfold BB.Add. destruct (_ <? _); simpl; unfold PutVarint32; rewrite !length_app; lia. Qed.

Lemma Adds_grows (r : Z) (b : BB.BlockBuilder) (es : list (bytes * bytes)) :
  (length (BB.buffer_ b) <= length (BB.buffer_ (BB.Adds r b es)))%nat.
Proof.
  revert b. induction es as [|e es IH]; intros b; simpl; [done|].
  pose proof (Add_grows r b e.1 e.2). specialize (IH (BB.Add r b e.1 e.2)). unfold BB.Adds in *. lia.
Qed.

Lemma Adds_rep (r : Z) (es : list (bytes * bytes)) (b : BB.BlockBuilder) (items : list Item) (rs : list nat) :
  bb_rep r b items rs -> Z.of_nat (length (BB.buffer_ (BB.Adds r b es))) < 2 ^ 32 ->
  exists items' rs', bb_rep r (BB.Adds r b es) items' rs' /\ items'.*2 = items.*2 ++ es.
Proof.
  revert b items rs. induction es as [|[k v] es IH]; intros b items rs Hb Hlen.
  - exists items, rs. by rewrite app_nil_r.
  - change (BB.Adds r b ((k, v) :: es)) with (BB.Adds r (BB.Add r b k v) es) in *.
    pose proof (Adds_grows r (BB.Add r b k v) es).
    destruct (Add_rep r b items rs k v Hb) as (s & rs' & Hb'); [lia|].
    destruct (IH _ _ _ Hb' Hlen) as (items' & rs'' & Hb'' & He). exists items', rs''. split; [done|].
    rewrite He, fmap_app, <- app_assoc. done.
Qed.

Lemma Finish_length (b : BB.BlockBuilder) : Z.of_nat (length (BB.Finish b).1) = BB.CurrentSizeEstimate b.
Proof.
  unfold BB.Finish, BB.CurrentSizeEstimate. simpl. rewrite foldl_PutFixed32. unfold PutFixed32. rewrite !length_app.
  rewrite (fixed32s_length id). simpl length. lia.
Qed.

(** The block has the size the builder estimated. *)
Lemma Finish_rep (r : Z) (b : BB.BlockBuilder) (items : list Item) (rs : list nat) :
  bb_rep r b items rs -> BB.CurrentSizeEstimate b < 2 ^ 32 ->
  block_rep (BB.Finish b).1 items rs /\ Z.of_nat (length (BB.Finish b).1) = BB.CurrentSizeEstimate b.
Proof.
  intros Hb. unfold BB.CurrentSizeEstimate, BB.Finish. simpl. rewrite (bb_restarts _ _ _ _ Hb), (bb_buffer _ _ _ _ Hb).
  rewrite length_fmap. intros Hlen.
  rewrite foldl_PutFixed32, <- list_fmap_compose. unfold PutFixed32, u32. rewrite Z.mod_small by lia.
  assert (concat ((EncodeFixed32 true ∘ (fun j => Z.of_nat (off items j))) <$> rs) = restart_bytes items rs) as -> by done.
  assert (Z.of_nat (length ((body items ++ restart_bytes items rs) ++ EncodeFixed32 true (Z.of_nat (length rs))))
    = Z.of_nat (length (body items)) + Z.of_nat (length rs) * 4 + 4) as Hl.
  { rewrite !length_app, restart_bytes_length. simpl length. lia. }
  split; [|done]. rewrite <- app_assoc in *. split; [done|lia|apply (bb_chain _ _ _ _ Hb)|apply (bb_first _ _ _ _ Hb)
    |apply (bb_restart _ _ _ _ Hb)|apply (bb_sorted _ _ _ _ Hb)].
Qed.

(** ** Opening a block *)

Lemma NumRestarts_rep (data : bytes) (items : list Item) (rs : list nat) :
  block_rep data items rs -> NumRestarts data (Z.of_nat (length data)) = Some (Z.of_nat (length rs)).
Proof.
  intros Hb. pose proof (data_length data items rs Hb) as Hd. unfold NumRestarts. rewrite (br_data _ _ _ Hb), app_assoc.
  rewrite drop_app_length' by (rewrite !length_app; simpl length; lia).
  rewrite <- (app_nil_r (EncodeFixed32 _ _)). apply fixed32_round. lia.
Qed.

Lemma Block_new_rep (data : bytes) (items : list Item) (rs : list nat) :
  block_rep data items rs ->
  Block_new data = Some (MkBlock data (Z.of_nat (length data)) (Z.of_nat (length (body items)))) /\
  Block_NewIterator (MkBlock data (Z.of_nat (length data)) (Z.of_nat (length (body items))))
  = Some (BIter (Iter_new data (Z.of_nat (length (body items))) (Z.of_nat (length rs)))).
Proof.
  intros Hb. pose proof (data_length data items rs Hb) as Hd. pose proof (rs_nonempty data items rs Hb) as Hn.
  pose proof (NumRestarts_rep data items rs Hb) as Hr.
  assert (Z.of_nat (length data) = Z.of_nat (length (body items)) + 4 * Z.of_nat (length rs) + 4) as Hl.
  { rewrite (br_data _ _ _ Hb), !length_app, restart_bytes_length. simpl length. lia. }
  split.
  - unfold Block_new. rewrite (proj2 (Z.ltb_ge _ _)) by lia. rewrite Hr. cbn [mbind option_bind].
    rewrite (proj2 (Z.ltb_ge _ _)) by (apply Z.div_le_lower_bound; lia). do 2 f_equal. unfold u32.
    rewrite (Z.mod_small (1 + _)) by lia. rewrite Z.mod_small; lia.
  - unfold Block_NewIterator. cbn [size_ blk_data_ restart_offset_]. rewrite (proj2 (Z.ltb_ge _ _)) by lia.
    rewrite Hr. cbn [mbind option_bind]. by rewrite (proj2 (Z.eqb_neq _ _)) by lia.
Qed.

(** The iterator behind the interface. *)
Definition block_iter_at (data : bytes) (items : list Item) (rs : list nat) (b : BlockIterator) (p : option nat) : Prop :=
  exists it, b = BIter it /\ block_at data items rs it p.

Lemma BlockIterator_spec (C : Comparator) (ok : bytes -> Prop) (data : bytes) (items : list Item) (rs : list nat) :
  ComparatorSpec C ok -> block_rep data items rs ->
  StronglySorted (fun a b : bytes * bytes => cmp_lt a.1 b.1) (items.*2) ->
  Forall (fun e : bytes * bytes => ok e.1) (items.*2) ->
  IteratorSpec BlockIterator_iterator ok cmp_lt (items.*2) (block_iter_at data items rs).
Proof.
  intros HC Hb Hs Hok. pose proof (Iter_spec data items rs Hb Hs Hok) as HI.
  split.
  - intros b p (it & -> & Hat). by apply (it_valid_at (I := BlockIter)).
  - intros b i (it & -> & Hat). by apply (it_entry_at (I := BlockIter)).
  - intros b p (it & -> & Hat). destruct (it_first_at (I := BlockIter) it p Hat) as (it' & He & Hat').
    exists (BIter it'). simpl in *. rewrite He. split; [done|by exists it'].
  - intros b p (it & -> & Hat). destruct (it_last_at (I := BlockIter) it p Hat) as (it' & He & Hat').
    exists (BIter it'). simpl in *. rewrite He. split; [done|by exists it'].
  - intros b i (it & -> & Hat). destruct (it_next_at (I := BlockIter) it i Hat) as (it' & He & Hat').
    exists (BIter it'). simpl in *. rewrite He. split; [done|by exists it'].
  - intros b i (it & -> & Hat). destruct (it_prev_at (I := BlockIter) it i Hat) as (it' & He & Hat').
    exists (BIter it'). simpl in *. rewrite He. split; [done|by exists it'].
  - intros b p t (it & -> & Hat) Ht. destruct (it_seek_at (I := BlockIter) it p t Hat Ht) as (it' & i & He & Hi & Hat' & Hl & Hr).
    exists (BIter it'), i. simpl in *. rewrite He. split; [done|]. split; [done|]. split; [by exists it'|done].
  - intros b p (it & -> & Hat). by apply (it_status_at (I := BlockIter) it p).
Qed.

(** An iterator over the block that the builder wrote for [es]. *)
Definition built (r : Z) (es : list (bytes * bytes)) : bytes := (BB.Finish (BB.Adds r BB.BlockBuilder_new es)).1.

Definition built_rep (r : Z) (es : list (bytes * bytes)) (a : list Item * list nat) : Prop :=
  block_rep (built r es) a.1 a.2 /\ a.1.*2 = es.

Definition built_at (r : Z) (es : list (bytes * bytes)) (it : BlockIterator) (p : option nat) : Prop :=
  exists a, built_rep r es a /\ block_iter_at (built r es) a.1 a.2 it p.

Lemma built_exists (r : Z) (es : list (bytes * bytes)) :
  1 <= r -> BB.CurrentSizeEstimate (BB.Adds r BB.BlockBuilder_new es) < 2 ^ 32 -> exists a, built_rep r es a.
Proof.
  intros Hr Hlen.
  destruct (Adds_rep r es BB.BlockBuilder_new [] [O] (BlockBuilder_new_rep r Hr)) as (items & rs & Hb & He).
  { unfold BB.CurrentSizeEstimate in Hlen. lia. }
  exists (items, rs). split; [by apply (Finish_rep r _ items rs Hb Hlen)|done].
Qed.

Lemma built_open (r : Z) (es : list (bytes * bytes)) :
  1 <= r -> BB.CurrentSizeEstimate (BB.Adds r BB.BlockBuilder_new es) < 2 ^ 32 ->
  exists b it, Block_new (built r es) = Some b /\ Block_NewIterator b = Some it /\ built_at r es it None /\
    blk_data_ b = built r es /\ (length es <= length (built r es))%nat.
Proof.
  intros Hr Hlen. destruct (built_exists r es Hr Hlen) as [[items rs] [Hrep He]]. simpl in *.
  destruct (Block_new_rep _ items rs Hrep) as [Hnew Hit]. eexists _, _. split; [done|]. split; [done|]. split.
  - exists (items, rs). split; [done|]. eexists. split; [done|]. done.
  - split; [done|]. rewrite <- He, length_fmap. pose proof (body_length items). rewrite He at 1.
    rewrite (br_data _ _ _ Hrep), length_app. lia.
Qed.

Lemma built_spec (C : Comparator) (ok : bytes -> Prop) (r : Z) (es : list (bytes * bytes)) :
  ComparatorSpec C ok -> StronglySorted (fun a b : bytes * bytes => cmp_lt a.1 b.1) es ->
  Forall (fun e : bytes * bytes => ok e.1) es -> IteratorSpec BlockIterator_iterator ok cmp_lt es (built_at r es).
Proof.
  intros HC Hs Hok. apply IteratorSpec_ex. intros [items rs] [Hrep He]. simpl in *. rewrite <- He in Hs, Hok |- *.
  rewrite <- He in Hrep. by apply BlockIterator_spec.
Qed.

(** ** Properties *)

(** C38. The entries added to a block in order are read back from the bytes of
    the finished block: its iterator visits exactly them, forwards, backwards
    and after every seek, whatever the restart interval, and no read leaves
    the block. *)
Theorem Block_iterates (C : Comparator) (ok : bytes -> Prop) (r : Z) (es : list (bytes * bytes)) :
  ComparatorSpec C ok -> 1 <= r -> StronglySorted (fun a b : bytes * bytes => cmp_lt a.1 b.1) es ->
  Forall (fun e : bytes * bytes => ok e.1) es ->
  BB.CurrentSizeEstimate (BB.Adds r BB.BlockBuilder_new es) < 2 ^ 32 ->
  exists b it at_, Block_new (BB.Finish (BB.Adds r BB.BlockBuilder_new es)).1 = Some b /\
    Block_NewIterator b = Some it /\ at_ it None /\ IteratorSpec BlockIterator_iterator ok cmp_lt es at_.
Proof.
  intros HC Hr Hs Hok Hlen. destruct (built_open r es Hr Hlen) as (b & it & Hb & Hit & Hat & _).
  exists b, it, (built_at r es). split; [done|]. split; [done|]. split; [done|]. by apply built_spec.
Qed.

Definition block_example : list (bytes * bytes) :=
  [(bs "abc", bs "1"); (bs "abd", bs "2"); (bs "abde", []); (bs "b", bs "4")]%string.

Lemma Block_iterates_witness :
  exists b it at_, Block_new (BB.Finish (BB.Adds 2 BB.BlockBuilder_new block_example)).1 = Some b /\
    Block_NewIterator b = Some it /\ at_ it None /\
    IteratorSpec (@BlockIterator_iterator Bytewise.BytewiseComparator) (fun _ => True)
      (@cmp_lt Bytewise.BytewiseComparator) block_example at_.
Proof.
  apply (Block_iterates Bytewise.BytewiseComparator (fun _ => True) 2 block_example).
  - apply Bytewise.BytewiseComparator_spec.
  - done.
  - repeat constructor; by eexists.
  - by repeat constructor.
  - vm_compute. reflexivity.
Defined.

