(* ===== verification/FilterBlock.v ===== *)
(** * Filter blocks

    [table/filter_block.cc]: one filter for every 2 KB of a table, built while
    the table is written, with the array of their offsets, and the reader
    that consults the filter of a block.  The theorem is that no key is
    reported as absent from the block it was added for. *)

From Stdlib Require Import String.
From S2P Require Import Prelude Status Coding Bloom Block.

(** ** Definitions *)

Definition kFilterBaseLg : Z := 11.
Definition kFilterBase : Z := Z.shiftl 1 kFilterBaseLg.

Module FB.

Section builder.
Context {P : FilterPolicy}.

(** The keys of the current filter, flattened, and where each begins; the
    filters so far and where each begins. *)
Record FilterBlockBuilder := MkFB {
  keys_ : bytes;
  start_ : list Z;
  result_ : bytes;
  filter_offsets_ : list Z }.

Definition FilterBlockBuilder_new : FilterBlockBuilder := MkFB [] [] [] [].

(** The loop that makes slices of the flattened keys; [start] has one more
    element than there are keys. *)
Fixpoint slices (keys : bytes) (start : list Z) : option (list bytes) :=
  match start with
  | s :: (s' :: _) as rest =>
      k ← sub keys s (s' - s);
      ks ← slices keys rest;
      Some (k :: ks)
  | _ => Some []
  end.

Definition GenerateFilter (b : FilterBlockBuilder) : option FilterBlockBuilder :=
  match start_ b with
  | [] => Some (MkFB (keys_ b) [] (result_ b) (filter_offsets_ b ++ [u32 (Z.of_nat (length (result_ b)))]))
  | _ =>
      tmp_keys ← slices (keys_ b) (start_ b ++ [Z.of_nat (length (keys_ b))]);
      result ← CreateFilter tmp_keys (result_ b);
      Some (MkFB [] [] result (filter_offsets_ b ++ [u32 (Z.of_nat (length (result_ b)))]))
  end.

Fixpoint generate (n : nat) (b : FilterBlockBuilder) : option FilterBlockBuilder :=
  match n with
  | O => Some b
  | S n' => b ← GenerateFilter b; generate n' b
  end.

(** [GenerateFilter] adds an offset, so the loop runs as often as offsets are
    missing. *)
Definition StartBlock (b : FilterBlockBuilder) (block_offset : Z) : option FilterBlockBuilder :=
  let filter_index := block_offset / kFilterBase in
  generate (Z.to_nat (filter_index - Z.of_nat (length (filter_offsets_ b)))) b.

Definition AddKey (b : FilterBlockBuilder) (key : bytes) : FilterBlockBuilder :=
  MkFB (keys_ b ++ key) (start_ b ++ [Z.of_nat (length (keys_ b))]) (result_ b) (filter_offsets_ b).

Definition Finish (b : FilterBlockBuilder) : option bytes :=
  b ← match start_ b with [] => Some b | _ => GenerateFilter b end;
  let array_offset := u32 (Z.of_nat (length (result_ b))) in
  let result := foldl PutFixed32 (result_ b) (filter_offsets_ b) in
  let result := PutFixed32 result array_offset in
  Some (result ++ [byte.of_Z kFilterBaseLg]).

(** The reader; [num_] is 0 where the pointers stay null. *)
Record FilterBlockReader := MkFR { fr_data_ : bytes; offset_ : Z; num_ : Z; base_lg_ : Z }.

Definition FilterBlockReader_new (contents : bytes) : option FilterBlockReader :=
  let n := Z.of_nat (length contents) in
  if n <? 5 then Some (MkFR [] 0 0 0)
  else
    c ← contents !! Z.to_nat (n - 1);
    let base_lg := u64 (signed_char c) in
    last_word ← DecodeFixed32 true (drop (Z.to_nat (n - 5)) contents);
    if n - 5 <? last_word then Some (MkFR [] 0 0 base_lg)
    else Some (MkFR contents last_word ((n - 5 - last_word) / 4) base_lg).

(** A shift by 64 bits or more is undefined. *)
Definition FilterKeyMayMatch (r : FilterBlockReader) (block_offset : Z) (key : bytes) : option bool :=
  if 64 <=? base_lg_ r then None
  else
    let index := Z.shiftr block_offset (base_lg_ r) in
    if index <? num_ r then
      start ← DecodeFixed32 true (drop (Z.to_nat (offset_ r + index * 4)) (fr_data_ r));
      limit ← DecodeFixed32 true (drop (Z.to_nat (offset_ r + index * 4 + 4)) (fr_data_ r));
      if (start <=? limit) && (limit <=? offset_ r) then
        filter ← sub (fr_data_ r) start (limit - start);
        KeyMayMatch key filter
      else if start =? limit then Some false
      else Some true
    else Some true.

(** The calls of a table builder: the blocks with their offsets and keys. *)
Fixpoint add_blocks (b : FilterBlockBuilder) (blocks : list (Z * list bytes)) : option FilterBlockBuilder :=
  match blocks with
  | [] => Some b
  | (o, ks) :: blocks' =>
      b ← StartBlock b o;
      add_blocks (foldl AddKey b ks) blocks'
  end.

End builder.

(** ** Correctness *)

(** Where consecutive strings begin. *)
Fixpoint starts (o : Z) (l : list bytes) : list Z :=
  match l with
  | [] => []
  | k :: l' => o :: starts (o + Z.of_nat (length k)) l'
  end.

Lemma starts_app (o : Z) (l1 l2 : list bytes) :
  starts o (l1 ++ l2) = starts o l1 ++ starts (o + Z.of_nat (length (concat l1))) l2.
Proof.
  revert o. induction l1 as [|k l1 IH]; intros o; simpl; [by rewrite Z.add_0_r|].
  rewrite IH, length_app. do 3 f_equal. lia.
Qed.

Lemma starts_length (o : Z) (l : list bytes) : length (starts o l) = length l.
Proof. revert o. induction l; intros o; simpl; [done|]. by rewrite IHl. Qed.

Lemma slices_starts (pre : bytes) (ks : list bytes) :
  slices (pre ++ concat ks) (starts (Z.of_nat (length pre)) ks ++ [Z.of_nat (length (pre ++ concat ks))]) = Some ks.
Proof.
  revert pre. induction ks as [|k ks IH]; intros pre; [done|].
  cbn [starts concat app]. specialize (IH (pre ++ k)). rewrite length_app, Nat2Z.inj_add, <- app_assoc in IH.
  cbn [slices]. destruct (starts _ ks ++ _) as [|s' rest] eqn:E; [by destruct ks|].
  assert (s' = Z.of_nat (length pre) + Z.of_nat (length k)) as Hs.
  { destruct ks as [|k2 ks]; simpl in E; injection E as <- _; [|done]. rewrite !length_app. simpl. lia. }
  rewrite (sub_app pre k (concat ks)) by lia. cbn [mbind option_bind]. by rewrite IH.
Qed.

Lemma slices_all (ks : list bytes) :
  slices (concat ks) (starts 0 ks ++ [Z.of_nat (length (concat ks))]) = Some ks.
Proof. exact (slices_starts [] ks). Qed.

Section spec.
Context {P : FilterPolicy} {keys_ok : list bytes -> Prop} {same : bytes -> bytes -> Prop}.
Context {HP : FilterPolicySpec P keys_ok same}.

(** A filter with the keys it was made for. *)
Definition seg_ok (seg : list bytes * bytes) : Prop :=
  forall k k', k ∈ seg.1 -> same k k' -> KeyMayMatch k' seg.2 = Some true.

(** The builder has made the filters [segs] and holds the keys [pending]. *)
Record fb_rep (b : FilterBlockBuilder) (segs : list (list bytes * bytes)) (pending : list bytes) : Prop := MkFbRep {
  fb_keys : keys_ b = concat pending;
  fb_start : start_ b = starts 0 pending;
  fb_result : result_ b = concat (segs.*2);
  fb_offsets : filter_offsets_ b = u32 <$> starts 0 (segs.*2);
  fb_segs : Forall seg_ok segs }.

Lemma GenerateFilter_ok (b : FilterBlockBuilder) (segs : list (list bytes * bytes)) (pending : list bytes) :
  fb_rep b segs pending -> (pending = [] \/ keys_ok pending) ->
  exists f b', GenerateFilter b = Some b' /\ fb_rep b' (segs ++ [(pending, f)]) [].
Proof.
  intros [Hk Hs Hr Ho Hseg] Hok. unfold GenerateFilter.
  assert (forall f, u32 <$> starts 0 ((segs ++ [(pending, f)]).*2)
    = filter_offsets_ b ++ [u32 (Z.of_nat (length (result_ b)))]) as Hoff.
  { intros f. rewrite fmap_app, starts_app, fmap_app, <- Ho, Hr. done. }
  destruct pending as [|k ks].
  - exists [], (MkFB (keys_ b) [] (result_ b) (filter_offsets_ b ++ [u32 (Z.of_nat (length (result_ b)))])).
    rewrite Hs. split; [done|]. split; simpl; [done|done| |by rewrite Hoff|].
    + by rewrite fmap_app, concat_app, Hr, app_nil_r.
    + apply Forall_app. split; [done|]. apply Forall_singleton. intros k k' Hk'. set_solver.
  - destruct Hok as [|Hok]; [done|]. rewrite Hs, Hk. destruct (starts 0 (k :: ks)) eqn:E; [done|]. rewrite <- E.
    rewrite slices_all. cbn [mbind option_bind].
    destruct (policy_appends (k :: ks) (result_ b) Hok) as (f & -> & Hm). cbn [mbind option_bind].
    eexists f, _. split; [done|]. split; simpl; [done|done| |by rewrite Hoff|].
    + rewrite fmap_app, concat_app, Hr. simpl. by rewrite app_nil_r.
    + apply Forall_app. split; [done|]. by apply Forall_singleton.
Qed.

Lemma generate_ok (n : nat) (b : FilterBlockBuilder) (segs : list (list bytes * bytes)) (pending : list bytes) :
  fb_rep b segs pending -> (pending = [] \/ keys_ok pending) ->
  exists segs' pending' b', generate n b = Some b' /\ fb_rep b' (segs ++ segs') pending' /\ length segs' = n /\
    match n with O => pending' = pending | S _ => pending' = [] /\ (exists f, segs' !! O = Some (pending, f)) end.
Proof.
  revert b segs pending. induction n as [|n IH]; intros b segs pending Hb Hok.
  - exists [], pending, b. by rewrite app_nil_r.
  - destruct (GenerateFilter_ok b segs pending Hb Hok) as (f & b1 & Hg & Hb1). cbn [generate]. rewrite Hg.
    cbn [mbind option_bind]. destruct (IH b1 _ [] Hb1 (or_introl eq_refl)) as (segs' & pending' & b' & Hgen & Hb' & Hl & Hp).
    exists ((pending, f) :: segs'), pending', b'. rewrite Hgen. rewrite <- app_assoc in Hb'.
    split; [done|]. split; [done|]. split; [simpl; lia|]. split; [destruct n; [done|by destruct Hp]|by exists f].
Qed.

(** The key will be in, or is in, the filter of the block at [o]. *)
Definition placed (segs : list (list bytes * bytes)) (pending : list bytes) (o : Z) (k : bytes) : Prop :=
  (exists seg, segs !! Z.to_nat (o / kFilterBase) = Some seg /\ k ∈ seg.1) \/
  (o / kFilterBase = Z.of_nat (length segs) /\ k ∈ pending).

Lemma generate_placed (n : nat) (b : FilterBlockBuilder) (segs : list (list bytes * bytes)) (pending : list bytes) :
  fb_rep b segs pending -> (pending = [] \/ keys_ok pending) ->
  exists segs' pending' b', generate n b = Some b' /\ fb_rep b' segs' pending' /\
    length segs' = (length segs + n)%nat /\ (pending' = pending \/ pending' = []) /\
    forall o k, placed segs pending o k -> placed segs' pending' o k.
Proof.
  intros Hb Hok. destruct (generate_ok n b segs pending Hb Hok) as (segs' & pending' & b' & Hg & Hb' & Hl & Hp).
  exists (segs ++ segs'), pending', b'. split; [done|]. split; [done|]. split; [rewrite length_app; lia|].
  split; [destruct n; [by left|right; by destruct Hp]|].
  intros o k [(seg & Hseg & Hk)|[Ho Hk]].
  - left. exists seg. split; [by apply lookup_app_l_Some|done].
  - destruct n as [|n].
    + right. subst. apply nil_length_inv in Hl as ->. by rewrite app_nil_r.
    + left. destruct Hp as [-> [f Hf]]. exists (pending, f). split; [|done].
      rewrite Ho, Nat2Z.id, lookup_app_r, Nat.sub_diag by done. done.
Qed.

Lemma AddKeys_rep (ks : list bytes) (b : FilterBlockBuilder) (segs : list (list bytes * bytes)) (pending : list bytes) :
  fb_rep b segs pending -> fb_rep (foldl AddKey b ks) segs (pending ++ ks).
Proof.
  revert b pending. induction ks as [|k ks IH]; intros b pending Hb; [by rewrite app_nil_r|].
  simpl. rewrite (cons_middle k pending ks), app_assoc. apply IH. destruct Hb as [Hk Hs Hr Ho Hseg].
  split; simpl; [|rewrite starts_app; simpl|done..].
  - rewrite concat_app, Hk. simpl. by rewrite app_nil_r.
  - by rewrite Hs, Hk.
Qed.

(** Offsets do not fall, and the first is not before [o]. *)
Fixpoint rising (o : Z) (blocks : list (Z * list bytes)) : Prop :=
  match blocks with
  | [] => True
  | (o', _) :: blocks' => o <= o' /\ rising o' blocks'
  end.

Lemma rising_from (o : Z) (blocks : list (Z * list bytes)) (o' : Z) (ks : list bytes) :
  rising o blocks -> (o', ks) ∈ blocks -> o <= o'.
Proof.
  revert o. induction blocks as [|[o1 ks1] blocks IH]; intros o; [set_solver|].
  intros [Hle Hris] [[= -> ->]|Hin]%elem_of_cons; [done|]. specialize (IH o1 Hris Hin). lia.
Qed.

Context (all : list bytes) (Hall : forall l, sublist l all -> keys_ok l).

Lemma add_blocks_ok (blocks : list (Z * list bytes)) (b : FilterBlockBuilder) (segs : list (list bytes * bytes))
    (pending dn : list bytes) (o : Z) :
  fb_rep b segs pending -> sublist pending dn -> dn ++ concat (blocks.*2) = all -> 0 <= o -> rising o blocks ->
  Z.of_nat (length segs) = o / kFilterBase ->
  exists segs' pending' b', add_blocks b blocks = Some b' /\ fb_rep b' segs' pending' /\ sublist pending' all /\
    (forall o' k, placed segs pending o' k -> placed segs' pending' o' k) /\
    forall o' ks k, (o', ks) ∈ blocks -> k ∈ ks -> placed segs' pending' o' k.
Proof.
  revert b segs pending dn o. induction blocks as [|[o1 ks] blocks IH]; intros b segs pending dn o Hb Hsub Heq Ho Hris Hl.
  - exists segs, pending, b. split; [done|]. split; [done|]. split; [|split; [done|set_solver]].
    simpl in Heq. by rewrite <- Heq, app_nil_r.
  - destruct Hris as [Hle Hris]. cbn [add_blocks]. unfold StartBlock.
    assert (length (filter_offsets_ b) = length segs) as Hfo
      by (rewrite (fb_offsets _ _ _ Hb), length_fmap, starts_length, length_fmap; done).
    rewrite Hfo. set (n := Z.to_nat (o1 / kFilterBase - Z.of_nat (length segs))).
    destruct (generate_placed n b segs pending Hb) as (segs1 & pending1 & b1 & -> & Hb1 & Hl1 & Hp1 & Hpl).
    { right. apply Hall. etransitivity; [exact Hsub|]. rewrite <- Heq. by apply sublist_inserts_r. }
    cbn [mbind option_bind]. assert (o / kFilterBase <= o1 / kFilterBase) by (apply Z.div_le_mono; done).
    assert (Z.of_nat (length segs1) = o1 / kFilterBase) as Hl2 by lia.
    destruct (IH (foldl AddKey b1 ks) segs1 (pending1 ++ ks) (dn ++ ks) o1) as (segs' & pending' & b' & Hadd & Hb' & Hs' & Hpl' & Hnew).
    + by apply AddKeys_rep.
    + apply sublist_app; [|done]. destruct Hp1 as [->| ->]; [done|apply sublist_nil_l].
    + rewrite <- Heq. simpl. by rewrite app_assoc.
    + lia.
    + done.
    + done.
    + exists segs', pending', b'. split; [done|]. split; [done|]. split; [done|].
      assert (forall o' k, placed segs1 pending1 o' k -> placed segs1 (pending1 ++ ks) o' k) as Hgrow.
      { intros o' k [?|[? ?]]; [by left|right]. set_solver. }
      split; [intros o' k Hk; by apply Hpl', Hgrow, Hpl|].
      intros o' ks' k [[= -> ->]|Hin]%elem_of_cons Hk; [|by apply (Hnew o' ks')].
      apply Hpl'. right. split; [done|set_solver].
Qed.
(** The finished block. *)
Definition filter_bytes (segs : list (list bytes * bytes)) : bytes :=
  concat (segs.*2) ++ concat ((fun o => EncodeFixed32 true (u32 o)) <$> starts 0 (segs.*2)) ++
  EncodeFixed32 true (u32 (Z.of_nat (length (concat (segs.*2))))) ++ [byte.of_Z kFilterBaseLg].

Lemma Finish_ok (b : FilterBlockBuilder) (segs : list (list bytes * bytes)) (pending : list bytes) :
  fb_rep b segs pending -> sublist pending all ->
  exists segs', Finish b = Some (filter_bytes segs') /\ Forall seg_ok segs' /\
    forall o k, 0 <= o -> placed segs pending o k ->
      exists seg, segs' !! Z.to_nat (o / kFilterBase) = Some seg /\ k ∈ seg.1.
Proof.
  intros Hb Hsub.
  assert (exists segs' b', match start_ b with [] => Some b | _ => GenerateFilter b end = Some b' /\ fb_rep b' segs' [] /\
    forall o k, 0 <= o -> placed segs pending o k ->
      exists seg, segs' !! Z.to_nat (o / kFilterBase) = Some seg /\ k ∈ seg.1) as (segs' & b' & Hgen & Hb' & Hpl).
  { destruct pending as [|k0 ks].
    - exists segs, b. rewrite (fb_start _ _ _ Hb). split; [done|]. split; [done|].
      intros o k _ [?|[_ ?]]; [done|set_solver].
    - destruct (generate_placed 1 b segs (k0 :: ks) Hb (or_intror (Hall _ Hsub))) as (segs' & p' & b' & Hg & Hb' & Hl & _ & Hpl).
      destruct (generate_ok 1 b segs (k0 :: ks) Hb (or_intror (Hall _ Hsub))) as (s2 & p2 & b2 & Hg2 & Hb2 & Hl2 & -> & f & Hf).
      exists (segs ++ s2), b2. rewrite (fb_start _ _ _ Hb). cbn [generate] in Hg2. cbn [starts].
      destruct (GenerateFilter b) as [b3|]; [|done]. split; [done|]. split; [done|].
      intros o k Ho [(seg & Hseg & Hk)|[Heq Hk]]; [exists seg; split; [by apply lookup_app_l_Some|done]|].
      exists (k0 :: ks, f). split; [|done]. by rewrite Heq, Nat2Z.id, lookup_app_r, Nat.sub_diag by done. }
  exists segs'. unfold Finish. rewrite Hgen. cbn [mbind option_bind]. split; [|split; [apply (fb_segs _ _ _ Hb')|done]].
  rewrite foldl_PutFixed32, (fb_offsets _ _ _ Hb'), (fb_result _ _ _ Hb'). unfold PutFixed32, filter_bytes.
  rewrite <- list_fmap_compose, <- !app_assoc. done.
Qed.

Lemma starts_lookup (l : list bytes) (o : Z) (i : nat) (k : bytes) :
  l !! i = Some k -> starts o l !! i = Some (o + Z.of_nat (length (concat (take i l)))).
Proof.
  revert o i. induction l as [|k0 l IH]; intros o [|i]; simpl; [done|done| |].
  - intros _. f_equal. lia.
  - intros Hi. rewrite (IH _ _ Hi), length_app. f_equal. lia.
Qed.

(** *** Reading the block back *)

Lemma filter_bytes_length (segs : list (list bytes * bytes)) :
  length (filter_bytes segs) = (length (concat (segs.*2)) + 4 * length segs + 5)%nat.
Proof.
  unfold filter_bytes. rewrite !length_app, fixed32s_length, starts_length, length_fmap. simpl length. lia.
Qed.

(** The array of offsets, with the end of the filters after it. *)
Lemma filter_offset (segs : list (list bytes * bytes)) (i : nat) :
  (i <= length segs)%nat ->
  (starts 0 (segs.*2) ++ [Z.of_nat (length (concat (segs.*2)))]) !! i
  = Some (Z.of_nat (length (concat (take i (segs.*2))))).
Proof.
  intros Hi. destruct (decide (i < length segs)%nat) as [Hlt|Hge].
  - destruct (lookup_lt_is_Some_2 (segs.*2) i) as [f Hf]; [by rewrite length_fmap|].
    apply lookup_app_l_Some. apply (starts_lookup _ 0 _ _ Hf).
  - rewrite lookup_app_r by (rewrite starts_length, length_fmap; lia). rewrite starts_length, length_fmap.
    replace (i - length segs)%nat with O by lia. simpl. by rewrite take_ge by (rewrite length_fmap; lia).
Qed.

Lemma filter_word (segs : list (list bytes * bytes)) (i : nat) :
  Z.of_nat (length (filter_bytes segs)) < 2 ^ 32 -> (i <= length segs)%nat ->
  DecodeFixed32 true (drop (length (concat (segs.*2)) + 4 * i) (filter_bytes segs))
  = Some (Z.of_nat (length (concat (take i (segs.*2))))).
Proof.
  rewrite filter_bytes_length. intros Hlen Hi. pose proof (filter_offset segs i Hi) as Ho.
  assert (length (concat (take i (segs.*2))) <= length (concat (segs.*2)))%nat.
  { rewrite <- (take_drop i (segs.*2)) at 2. rewrite concat_app, length_app. lia. }
  assert (filter_bytes segs = concat (segs.*2) ++
    concat ((fun o => EncodeFixed32 true (u32 o)) <$> starts 0 (segs.*2) ++ [Z.of_nat (length (concat (segs.*2)))]) ++
    [byte.of_Z kFilterBaseLg]) as ->.
  { unfold filter_bytes. rewrite fmap_app, concat_app, <- app_assoc. by do 3 f_equal. }
  rewrite (fixed32s_read u32 _ i _ _ _ Ho); unfold u32; rewrite Z.mod_small by lia; [done|lia].
Qed.

Lemma FilterBlockReader_new_ok (segs : list (list bytes * bytes)) :
  Z.of_nat (length (filter_bytes segs)) < 2 ^ 32 ->
  FilterBlockReader_new (filter_bytes segs)
  = Some (MkFR (filter_bytes segs) (Z.of_nat (length (concat (segs.*2)))) (Z.of_nat (length segs)) kFilterBaseLg).
Proof.
  intros Hlen. pose proof (filter_bytes_length segs) as Hl. unfold FilterBlockReader_new.
  rewrite (proj2 (Z.ltb_ge _ _)) by lia.
  assert (filter_bytes segs !! Z.to_nat (Z.of_nat (length (filter_bytes segs)) - 1) = Some (byte.of_Z kFilterBaseLg)) as ->.
  { rewrite Hl. unfold filter_bytes. rewrite !app_assoc. rewrite lookup_app_r.
    - rewrite !length_app, fixed32s_length, starts_length, length_fmap. simpl length. by replace (_ - _)%nat with O by lia.
    - rewrite !length_app, fixed32s_length, starts_length, length_fmap. simpl length. lia. }
  cbn [mbind option_bind].
  replace (Z.to_nat (Z.of_nat (length (filter_bytes segs)) - 5)) with (length (concat (segs.*2)) + 4 * length segs)%nat by lia.
  rewrite filter_word by done. cbn [mbind option_bind]. rewrite take_ge by (rewrite length_fmap; lia).
  rewrite (proj2 (Z.ltb_ge _ _)) by lia. do 2 f_equal.
  replace (_ - 5 - _) with (Z.of_nat (length segs) * 4) by lia. apply Z.div_mul. lia.
Qed.

(** The reader consults the filter of the block. *)
Lemma FilterKeyMayMatch_ok (segs : list (list bytes * bytes)) (seg : list bytes * bytes) (o : Z) (k : bytes) :
  Z.of_nat (length (filter_bytes segs)) < 2 ^ 32 -> 0 <= o -> segs !! Z.to_nat (o / kFilterBase) = Some seg ->
  FilterKeyMayMatch (MkFR (filter_bytes segs) (Z.of_nat (length (concat (segs.*2)))) (Z.of_nat (length segs)) kFilterBaseLg) o k
  = KeyMayMatch k seg.2.
Proof.
  intros Hlen Ho Hseg. set (idx := Z.to_nat (o / kFilterBase)) in *. pose proof (lookup_lt_Some _ _ _ Hseg) as Hlt.
  assert (segs.*2 !! idx = Some seg.2) as Hf by (by rewrite list_lookup_fmap, Hseg).
  assert (0 <= o / kFilterBase) by (apply Z.div_pos; [lia|done]).
  unfold FilterKeyMayMatch. cbn [base_lg_ num_ offset_ fr_data_]. change (64 <=? kFilterBaseLg) with false. cbn iota.
  rewrite Z.shiftr_div_pow2 by done. change (2 ^ kFilterBaseLg) with kFilterBase.
  rewrite (proj2 (Z.ltb_lt _ _)) by lia.
  replace (Z.to_nat (_ + o / kFilterBase * 4)) with (length (concat (segs.*2)) + 4 * idx)%nat by lia.
  replace (Z.to_nat (_ + o / kFilterBase * 4 + 4)) with (length (concat (segs.*2)) + 4 * S idx)%nat by lia.
  rewrite !filter_word by (done || lia). cbn [mbind option_bind].
  rewrite (take_S_r _ _ _ Hf), concat_app, length_app. simpl. rewrite app_nil_r.
  assert (concat (segs.*2) = concat (take idx (segs.*2)) ++ seg.2 ++ concat (drop (S idx) (segs.*2))) as HD
    by (rewrite <- (take_drop_middle _ _ _ Hf) at 1; by rewrite concat_app).
  pose proof (f_equal length HD) as HlD. rewrite !length_app in HlD.
  rewrite !(proj2 (Z.leb_le _ _)) by lia. cbn [andb].
  unfold filter_bytes. rewrite HD at 1. rewrite <- !app_assoc. by rewrite (sub_app _ seg.2) by lia.
Qed.
End spec.

Lemma FilterKeyMayMatch_total (P : FilterPolicy) (key_ok : bytes -> Prop) (segs : list (list bytes * bytes)) (o : Z) (k : bytes) :
  FilterPolicyTotal P key_ok -> Z.of_nat (length (filter_bytes segs)) < 2 ^ 32 -> 0 <= o -> key_ok k ->
  is_Some (FilterKeyMayMatch (MkFR (filter_bytes segs) (Z.of_nat (length (concat (segs.*2)))) (Z.of_nat (length segs)) kFilterBaseLg) o k).
Proof.
  intros HT Hlen Ho Hk. destruct (segs !! Z.to_nat (o / kFilterBase)) as [seg|] eqn:E.
  - rewrite (FilterKeyMayMatch_ok segs seg) by done. apply policy_returns; [done|].
    rewrite filter_bytes_length in Hlen. assert (length seg.2 <= length (concat (segs.*2)))%nat; [|lia].
    assert (segs.*2 !! Z.to_nat (o / kFilterBase) = Some seg.2) as Hf by (by rewrite list_lookup_fmap, E).
    rewrite <- (take_drop_middle _ _ _ Hf), concat_app. simpl. rewrite !length_app. lia.
  - unfold FilterKeyMayMatch. cbn [base_lg_ num_ offset_ fr_data_]. change (64 <=? kFilterBaseLg) with false. cbn iota.
    rewrite Z.shiftr_div_pow2 by done. change (2 ^ kFilterBaseLg) with kFilterBase.
    assert (0 <= o / kFilterBase) by (apply Z.div_pos; [lia|done]). apply lookup_ge_None in E.
    by rewrite (proj2 (Z.ltb_ge _ _)) by lia.
Qed.

Lemma FilterBlock_matches (P : FilterPolicy) (keys_ok : list bytes -> Prop)
    (same : bytes -> bytes -> Prop) (blocks : list (Z * list bytes)) :
  FilterPolicySpec P keys_ok same -> (forall l, sublist l (concat (blocks.*2)) -> keys_ok l) -> rising 0 blocks ->
  exists b contents, add_blocks FilterBlockBuilder_new blocks = Some b /\ Finish b = Some contents /\
    (Z.of_nat (length contents) < 2 ^ 32 ->
     exists r, FilterBlockReader_new contents = Some r /\
       (forall o ks k k', (o, ks) ∈ blocks -> k ∈ ks -> same k k' -> FilterKeyMayMatch r o k' = Some true) /\
       forall key_ok o k, FilterPolicyTotal P key_ok -> 0 <= o -> key_ok k -> is_Some (FilterKeyMayMatch r o k)).
Proof.
  intros HP Hall Hris.
  destruct (add_blocks_ok (concat (blocks.*2)) Hall blocks FilterBlockBuilder_new [] [] [] 0)
    as (segs & pending & b & Hadd & Hb & Hsub & _ & Hpl); try done.
  destruct (Finish_ok (concat (blocks.*2)) Hall b segs pending Hb Hsub) as (segs' & Hfin & Hok & Hpl').
  exists b, (filter_bytes segs'). split; [done|]. split; [done|]. intros Hlen.
  eexists. split; [by apply FilterBlockReader_new_ok|]. split; [|intros; by eapply FilterKeyMayMatch_total].
  intros o ks k k' Hin Hk Hs. pose proof (rising_from 0 blocks o ks Hris Hin) as Ho.
  destruct (Hpl' o k Ho (Hpl o ks k Hin Hk)) as (seg & Hseg & Hks).
  rewrite (FilterKeyMayMatch_ok segs' seg) by done.
  exact (proj1 (Forall_forall _ _) Hok seg (list_elem_of_lookup_2 _ _ _ Hseg) k k' Hks Hs).
Qed.

(** ** Properties *)

(** C40. No false negatives: after the calls a table builder makes for blocks
    at rising offsets, the filter block it finishes, read back, matches at
    the offset of every block every key added for it, blocks that share a
    filter and empty ranges in between included. *)
Theorem FilterBlock_no_false_negative (P : FilterPolicy) (keys_ok : list bytes -> Prop)
    (same : bytes -> bytes -> Prop) (blocks : list (Z * list bytes)) :
  FilterPolicySpec P keys_ok same -> (forall l, sublist l (concat (blocks.*2)) -> keys_ok l) -> rising 0 blocks ->
  exists b contents, add_blocks FilterBlockBuilder_new blocks = Some b /\ Finish b = Some contents /\
    (Z.of_nat (length contents) < 2 ^ 32 ->
     exists r, FilterBlockReader_new contents = Some r /\
       forall o ks k k', (o, ks) ∈ blocks -> k ∈ ks -> same k k' -> FilterKeyMayMatch r o k' = Some true).
Proof.
  intros HP Hall Hris. destruct (FilterBlock_matches P keys_ok same blocks HP Hall Hris) as (b & c & Hb & Hc & Hr).
  exists b, c. split; [done|]. split; [done|]. intros Hlen. destruct (Hr Hlen) as (r & Hrd & Hm & _). by exists r.
Qed.

Definition filter_example : list (Z * list bytes) :=
  [(0, [bs "a"; bs "b"]); (1000, [bs "c"]); (5000, [bs "d"]); (9000, [])]%string.

Lemma FilterBlock_no_false_negative_witness :
  exists b contents, @add_blocks (Bloom.NewBloomFilterPolicy 10) FilterBlockBuilder_new filter_example = Some b /\
    @Finish (Bloom.NewBloomFilterPolicy 10) b = Some contents /\
    (Z.of_nat (length contents) < 2 ^ 32 ->
     exists r, FilterBlockReader_new contents = Some r /\
       forall o ks k k', (o, ks) ∈ filter_example -> k ∈ ks -> k = k' ->
         @FilterKeyMayMatch (Bloom.NewBloomFilterPolicy 10) r o k' = Some true).
Proof.
  apply (FilterBlock_no_false_negative (Bloom.NewBloomFilterPolicy 10)
    (fun keys => 0 <= Z.of_nat (length keys) * 10 < 2 ^ 63) eq filter_example).
  - apply Bloom.Bloom_FilterPolicySpec.
  - intros l Hl%sublist_length. simpl in Hl. lia.
  - cbn. lia.
Defined.

End FB.
