(* ===== verification/TableFormat.v ===== *)
(** * The format of table files

    [table/format.cc]: handles of blocks, the footer, and reading a block with
    its trailer; the compression port of [port/port_posix.h] as a class. *)

From Stdlib Require Import String.
From S2P Require Import Prelude Status Coding Crc32c Files.

(** ** Definitions *)

(** [kNoCompression] and [kSnappyCompression]. *)
Inductive CompressionType := kNoCompression | kSnappyCompression.

Definition CompressionType_to_Z (t : CompressionType) : Z :=
  match t with kNoCompression => 0 | kSnappyCompression => 1 end.

(** The port's compression functions; [None] is a false result. *)
Class SnappyPort := {
  Snappy_Compress : bytes -> option bytes;
  Snappy_GetUncompressedLength : bytes -> option Z;
  Snappy_Uncompress : bytes -> option bytes }.

(** What the library documents: compressed data uncompresses to the input,
    whose length has 32 bits. *)
Class SnappyPortSpec (P : SnappyPort) := {
  snappy_round : forall x y, Snappy_Compress x = Some y ->
    Snappy_GetUncompressedLength y = Some (Z.of_nat (length x)) /\ Snappy_Uncompress y = Some x;
  snappy_length : forall x y, Snappy_Compress x = Some y -> Z.of_nat (length x) < 2 ^ 32 }.

(** The port built without the library. *)
Definition no_snappy : SnappyPort :=
  {| Snappy_Compress _ := None; Snappy_GetUncompressedLength _ := None; Snappy_Uncompress _ := None |}.

#[export] Instance no_snappy_spec : SnappyPortSpec no_snappy.
Proof. by constructor. Qed.

(** *** Block handles and the footer *)

Record BlockHandle := MkHandle { h_offset : Z; h_size : Z }.

Definition BlockHandle_new : BlockHandle := MkHandle (2 ^ 64 - 1) (2 ^ 64 - 1).

Definition kMaxEncodedLength : Z := 10 + 10.

Definition Handle_EncodeTo (dst : bytes) (h : BlockHandle) : bytes :=
  PutVarint64 (PutVarint64 dst (h_offset h)) (h_size h).

(** The handle and what follows it, or a status. *)
Definition Handle_DecodeFrom (input : bytes) : (BlockHandle * bytes) + Status :=
  match GetVarint64 input with
  | Some (offset, input) =>
      match GetVarint64 input with
      | Some (size, input) => inl (MkHandle offset size, input)
      | None => inr (Corruption (bs "bad block handle"))
      end
  | None => inr (Corruption (bs "bad block handle"))
  end.

Record Footer := MkFooter { metaindex_handle : BlockHandle; index_handle : BlockHandle }.

Definition kEncodedLength : Z := 2 * kMaxEncodedLength + 8.
Definition kTableMagicNumber : Z := 0xdb4775248b80fb57.
Definition kBlockTrailerSize : Z := 5.

(** [std::string::resize]. *)
Definition resize (s : bytes) (n : nat) : bytes := take n s ++ replicate (n - length s) Byte.x00.

Definition Footer_EncodeTo (dst : bytes) (f : Footer) : bytes :=
  let dst := Handle_EncodeTo dst (metaindex_handle f) in
  let dst := Handle_EncodeTo dst (index_handle f) in
  let dst := resize dst (Z.to_nat (2 * kMaxEncodedLength)) in
  let dst := PutFixed32 dst (Z.land kTableMagicNumber 0xffffffff) in
  PutFixed32 dst (Z.shiftr kTableMagicNumber 32).

(** The input has at least [kEncodedLength] bytes. *)
Definition Footer_DecodeFrom (input : bytes) : option ((Footer * bytes) + Status) :=
  let magic_ptr := drop (Z.to_nat (kEncodedLength - 8)) input in
  magic_lo ← DecodeFixed32 true magic_ptr;
  magic_hi ← DecodeFixed32 true (drop 4 magic_ptr);
  let magic := Z.lor (Z.shiftl magic_hi 32) magic_lo in
  if negb (magic =? kTableMagicNumber) then
    Some (inr (Corruption (bs "not an sstable (bad magic number)")))
  else
    match Handle_DecodeFrom input with
    | inr s => Some (inr s)
    | inl (metaindex, rest) =>
        match Handle_DecodeFrom rest with
        | inr s => Some (inr s)
        | inl (index, _) => Some (inl (MkFooter metaindex index, drop 8 magic_ptr))
        end
    end.

(** *** Reading a block *)

Record BlockContents := MkContents { bc_data : bytes; cachable : bool; heap_allocated : bool }.

Section read.
Context {F : Type} {R : RandomAccessFile F} {CP : CrcPort} {SP : SnappyPort} (addr : bytes -> Z).

(** [ReadBlock]: the file is read without a buffer, so for an uncompressed
    block the data is never at [buf], which is null. *)
Definition ReadBlock (file : F) (verify_checksums : bool) (handle : BlockHandle)
    : option (BlockContents + Status) :=
  let n := h_size handle in
  '(s, contents) ← ReadAt file (h_offset handle) (u64 (n + kBlockTrailerSize)) false;
  if negb (ok s) then Some (inr s)
  else if negb (Z.of_nat (length contents) =? u64 (n + kBlockTrailerSize)) then
    Some (inr (Corruption (bs "truncated block read")))
  else
    bad ← (if verify_checksums : bool then
             word ← DecodeFixed32 true (drop (Z.to_nat (n + 1)) contents);
             let crc := Unmask word in
             let d := take (Z.to_nat (n + 1)) contents in
             Some (negb (Value (addr d) d =? crc))
           else Some false);
    if bad : bool then Some (inr (Corruption (bs "block checksum mismatch")))
    else
      type ← contents !! Z.to_nat n;
      let data := take (Z.to_nat n) contents in
      if byte.unsigned type =? CompressionType_to_Z kNoCompression then
        Some (inl (MkContents data false false))
      else if byte.unsigned type =? CompressionType_to_Z kSnappyCompression then
        match Snappy_GetUncompressedLength data with
        | None => Some (inr (Corruption (bs "corrupted compressed block contents")))
        | Some _ =>
            match Snappy_Uncompress data with
            | None => Some (inr (Corruption (bs "corrupted compressed block contents")))
            | Some ubuf => Some (inl (MkContents ubuf true true))
            end
        end
      else Some (inr (Corruption (bs "bad block type"))).

End read.

(** ** Round trips *)

Definition handle_ok (h : BlockHandle) : Prop := 0 <= h_offset h < 2 ^ 64 /\ 0 <= h_size h < 2 ^ 64.

Lemma Handle_EncodeTo_app (dst : bytes) (h : BlockHandle) :
  Handle_EncodeTo dst h = dst ++ EncodeVarint64 (h_offset h) ++ EncodeVarint64 (h_size h).
Proof. unfold Handle_EncodeTo, PutVarint64. by rewrite <- app_assoc. Qed.

Lemma Handle_round (h : BlockHandle) (rest : bytes) :
  handle_ok h -> Handle_DecodeFrom (Handle_EncodeTo [] h ++ rest) = inl (h, rest).
Proof.
  intros [Ho Hs]. rewrite Handle_EncodeTo_app, app_nil_l, <- app_assoc. unfold Handle_DecodeFrom.
  rewrite varint64_round by done. rewrite varint64_round by done. by destruct h.
Qed.

Lemma EncodeVarint64_loop_length (n : nat) (v : Z) : (length (EncodeVarint64_loop n v) <= S n)%nat.
Proof. revert v. induction n as [|n IH]; intros v; simpl; [lia|]. case_match; simpl; [|lia]. specialize (IH (Z.shiftr v 7)). lia. Qed.

Lemma Handle_length (h : BlockHandle) : (length (Handle_EncodeTo [] h) <= 20)%nat.
Proof.
  rewrite Handle_EncodeTo_app, app_nil_l, length_app. unfold EncodeVarint64.
  pose proof (EncodeVarint64_loop_length 9 (h_offset h)). pose proof (EncodeVarint64_loop_length 9 (h_size h)). lia.
Qed.

(** The footer has 48 bytes and reads back. *)
Lemma Footer_round (f : Footer) (rest : bytes) :
  handle_ok (metaindex_handle f) -> handle_ok (index_handle f) ->
  length (Footer_EncodeTo [] f) = Z.to_nat kEncodedLength /\
  Footer_DecodeFrom (Footer_EncodeTo [] f ++ rest) = Some (inl (f, rest)).
Proof.
  intros Hm Hi. unfold Footer_EncodeTo. set (m := metaindex_handle f) in *. set (i := index_handle f) in *.
  pose proof (Handle_length m) as Hlm. pose proof (Handle_length i) as Hli.
  assert (Handle_EncodeTo (Handle_EncodeTo [] m) i = Handle_EncodeTo [] m ++ Handle_EncodeTo [] i) as ->
    by (by rewrite !Handle_EncodeTo_app, !app_nil_l).
  change (Z.to_nat (2 * kMaxEncodedLength)) with 40%nat. unfold resize. rewrite take_ge by (rewrite length_app; lia).
  set (pad := replicate _ Byte.x00).
  assert (length ((Handle_EncodeTo [] m ++ Handle_EncodeTo [] i) ++ pad) = 40%nat) as Hl.
  { rewrite !length_app. unfold pad. rewrite length_replicate, length_app. lia. }
  unfold PutFixed32. split; [rewrite length_app, length_app, Hl; done|].
  unfold Footer_DecodeFrom. rewrite <- !app_assoc.
  assert (drop (Z.to_nat (kEncodedLength - 8)) (Handle_EncodeTo [] m ++ Handle_EncodeTo [] i ++ pad ++
    EncodeFixed32 true (Z.land kTableMagicNumber 0xffffffff) ++ EncodeFixed32 true (Z.shiftr kTableMagicNumber 32) ++ rest)
    = EncodeFixed32 true (Z.land kTableMagicNumber 0xffffffff) ++ EncodeFixed32 true (Z.shiftr kTableMagicNumber 32) ++ rest) as Hd.
  { rewrite (app_assoc _ (Handle_EncodeTo [] i)), (app_assoc _ pad). by apply drop_app_length'. }
  rewrite Hd, fixed32_round by (split; [discriminate|reflexivity]). cbn [mbind option_bind].
  assert (forall z x, drop 4 (EncodeFixed32 true z ++ x) = x) as H4 by done. rewrite H4.
  rewrite fixed32_round by (split; [discriminate|reflexivity]). cbn [mbind option_bind].
  change (negb _) with false at 1. cbn iota. rewrite Handle_round by done. rewrite Handle_round by done.
  assert (forall z z' x, drop 8 (EncodeFixed32 true z ++ EncodeFixed32 true z' ++ x) = x) as H8 by done.
  rewrite H8. unfold m, i. by destruct f.
Qed.

(** ** Stored blocks *)

(** The trailer of a block. *)
Definition trailer (contents : bytes) (t : CompressionType) : bytes :=
  let b := byte.of_Z (CompressionType_to_Z t) in
  b :: EncodeFixed32 true (Mask (crc32c 0 (contents ++ [b]))).

(** The file [d] has at [h] a block whose uncompressed contents are [raw]. *)
Definition stored {SP : SnappyPort} (d : bytes) (h : BlockHandle) (raw : bytes) : Prop :=
  exists pre c t post, d = pre ++ c ++ trailer c t ++ post /\
    h_offset h = Z.of_nat (length pre) /\ h_size h = Z.of_nat (length c) /\
    match t with
    | kNoCompression => c = raw
    | kSnappyCompression => is_Some (Snappy_GetUncompressedLength c) /\ Snappy_Uncompress c = Some raw
    end.

Lemma trailer_length (c : bytes) (t : CompressionType) : length (trailer c t) = 5%nat.
Proof. done. Qed.

Lemma stored_app {SP : SnappyPort} (d x : bytes) (h : BlockHandle) (raw : bytes) :
  stored d h raw -> stored (d ++ x) h raw.
Proof.
  intros (pre & c & t & post & -> & Ho & Hs & Hr). exists pre, c, t, (post ++ x). by rewrite <- !app_assoc.
Qed.

Lemma stored_bounds {SP : SnappyPort} (d : bytes) (h : BlockHandle) (raw : bytes) :
  stored d h raw -> 0 <= h_offset h /\ 0 <= h_size h /\ h_offset h + h_size h + 5 <= Z.of_nat (length d).
Proof.
  intros (pre & c & t & post & -> & -> & -> & _). rewrite !length_app, trailer_length. lia.
Qed.

Section read_spec.
Context {F : Type} {R : RandomAccessFile F} {contents : F -> bytes} {file_ok : F -> Prop}.
Context {HR : RandomAccessFileSpec F contents file_ok}.
Context {CP : CrcPort} {HP : CrcPortSpec CP} {SP : SnappyPort} (addr : bytes -> Z).

(** A stored block reads back, with its checksum verified or not. *)
Lemma ReadBlock_stored (f : F) (verify : bool) (h : BlockHandle) (raw : bytes) :
  file_ok f -> stored (contents f) h raw -> Z.of_nat (length (contents f)) < 2 ^ 64 ->
  exists c, ReadBlock addr f verify h = Some (inl c) /\ bc_data c = raw.
Proof.
  intros Hfok Hst Hlen. pose proof (stored_bounds _ _ _ Hst) as (H0 & H1 & H2).
  destruct Hst as (pre & c & t & post & Hd & Ho & Hs & Hr).
  assert (u64 (h_size h + kBlockTrailerSize) = h_size h + 5) as Hn by (apply Z.mod_small; unfold kBlockTrailerSize; lia).
  unfold ReadBlock. rewrite Hn, (ReadAt_contents f _ _ false) by (done || lia). cbn [mbind option_bind]. simpl (negb (ok OK)). cbn iota.
  assert (take (Z.to_nat (h_size h + 5)) (drop (Z.to_nat (h_offset h)) (contents f)) = c ++ trailer c t) as ->.
  { rewrite Hd, Ho, Hs, Nat2Z.id, drop_app_length, app_assoc. apply take_app_length'.
    rewrite length_app, trailer_length. lia. }
  rewrite length_app, trailer_length, Hs, (proj2 (Z.eqb_eq _ _)) by lia. cbn [negb].
  set (b := byte.of_Z (CompressionType_to_Z t)).
  assert (c ++ trailer c t = (c ++ [b]) ++ EncodeFixed32 true (Mask (crc32c 0 (c ++ [b])))) as Heq
    by (unfold trailer; by rewrite <- app_assoc).
  match goal with |- context [if verify then ?a else Some false] =>
    assert ((if verify then a else Some false) = Some false) as -> end.
  { destruct verify; [|done]. rewrite Heq. rewrite drop_app_length', take_app_length' by (rewrite length_app; simpl; lia).
    rewrite <- (app_nil_r (EncodeFixed32 _ _)), fixed32_round by (unfold Mask, u32; apply Z.mod_pos_bound; lia).
    cbn [mbind option_bind]. rewrite Unmask_Mask, Value_ok, Z.eqb_refl by (apply crc32c_bound; lia). done. }
  assert ((c ++ trailer c t) !! length c = Some b) as Hb by (unfold trailer; by apply list_lookup_middle).
  cbn [mbind option_bind]. rewrite Nat2Z.id, Hb. cbn [mbind option_bind].
  rewrite take_app_length. destruct t; simpl in *.
  - eexists. split; [done|]. done.
  - destruct Hr as [[n ->] ->]. eexists. done.
Qed.
End read_spec.
