(* ===== verification/TwoLevel.v ===== *)
(** * Two-level iterators

    [table/two_level_iterator.cc]: an iterator over an index whose values name
    blocks, and an iterator over the current block.  The function that opens
    a block may have an effect on an environment (the block cache), which is
    passed along.  The theorem is that the iterator visits the entries of all
    blocks in the order of the index. *)

From S2P Require Import Prelude Status Coding Comparator Iterator.

(** ** Definitions *)

Record TwoLevelIterator (SI SD E : Type) := MkTwoLevel {
  env : E;
  status_ : Status;
  index_iter_ : IteratorWrapper SI;
  data_iter_ : IteratorWrapper SD;
  data_block_handle_ : bytes }.
Arguments MkTwoLevel {SI SD E}.
Arguments env {SI SD E}.
Arguments status_ {SI SD E}.
Arguments index_iter_ {SI SD E}.
Arguments data_iter_ {SI SD E}.
Arguments data_block_handle_ {SI SD E}.

Section two_level.
Context {SI SD E : Type} {II : Iterator SI} {ID : Iterator SD}.
Context (block_function_ : E -> bytes -> option (SD * E)) (fuel : nat).

Abbreviation TL := (TwoLevelIterator SI SD E).

Definition NewTwoLevelIterator (e : E) (index_iter : SI) : option TL :=
  w ← Wrapper_Set Wrapper_new (Some index_iter);
  Some (MkTwoLevel e OK w Wrapper_new []).

Definition SaveError (t : TL) (s : Status) : TL :=
  if ok (status_ t) && negb (ok s)
  then MkTwoLevel (env t) s (index_iter_ t) (data_iter_ t) (data_block_handle_ t) else t.

Definition set_index (t : TL) (w : IteratorWrapper SI) : TL :=
  MkTwoLevel (env t) (status_ t) w (data_iter_ t) (data_block_handle_ t).

Definition set_data (t : TL) (w : IteratorWrapper SD) : TL :=
  MkTwoLevel (env t) (status_ t) (index_iter_ t) w (data_block_handle_ t).

Definition SetDataIterator (t : TL) (data_iter : option SD) : option TL :=
  let t := match Wrapper_status (data_iter_ t) with Some s => SaveError t s | None => t end in
  w ← Wrapper_Set (data_iter_ t) data_iter;
  Some (set_data t w).

Definition InitDataBlock (t : TL) : option TL :=
  if negb (Wrapper_Valid (index_iter_ t)) then SetDataIterator t None
  else
    handle ← Wrapper_value (index_iter_ t);
    match iter_ (data_iter_ t) with
    | Some _ =>
        if compare handle (data_block_handle_ t) =? 0 then Some t
        else
          '(iter, e) ← block_function_ (env t) handle;
          SetDataIterator (MkTwoLevel e (status_ t) (index_iter_ t) (data_iter_ t) handle) (Some iter)
    | None =>
        '(iter, e) ← block_function_ (env t) handle;
        SetDataIterator (MkTwoLevel e (status_ t) (index_iter_ t) (data_iter_ t) handle) (Some iter)
    end.

(** [if (data_iter_.iter() != nullptr) data_iter_.f();] *)
Definition on_data (f : IteratorWrapper SD -> option (IteratorWrapper SD)) (t : TL) : option TL :=
  match iter_ (data_iter_ t) with
  | Some _ => w ← f (data_iter_ t); Some (set_data t w)
  | None => Some t
  end.

(** [data_iter_.iter() == nullptr || !data_iter_.Valid()]. *)
Definition no_data (t : TL) : bool :=
  match iter_ (data_iter_ t) with Some _ => negb (Wrapper_Valid (data_iter_ t)) | None => true end.

Fixpoint SkipEmptyDataBlocksForward (n : nat) (t : TL) : option TL :=
  match n with
  | O => None
  | S n' =>
      if no_data t then
        if negb (Wrapper_Valid (index_iter_ t)) then SetDataIterator t None
        else
          w ← Wrapper_Next (index_iter_ t);
          t ← InitDataBlock (set_index t w);
          t ← on_data Wrapper_SeekToFirst t;
          SkipEmptyDataBlocksForward n' t
      else Some t
  end.

Fixpoint SkipEmptyDataBlocksBackward (n : nat) (t : TL) : option TL :=
  match n with
  | O => None
  | S n' =>
      if no_data t then
        if negb (Wrapper_Valid (index_iter_ t)) then SetDataIterator t None
        else
          w ← Wrapper_Prev (index_iter_ t);
          t ← InitDataBlock (set_index t w);
          t ← on_data Wrapper_SeekToLast t;
          SkipEmptyDataBlocksBackward n' t
      else Some t
  end.

Definition TL_Seek (t : TL) (target : bytes) : option TL :=
  w ← Wrapper_Seek (index_iter_ t) target;
  t ← InitDataBlock (set_index t w);
  t ← on_data (fun w => Wrapper_Seek w target) t;
  SkipEmptyDataBlocksForward fuel t.

Definition TL_SeekToFirst (t : TL) : option TL :=
  w ← Wrapper_SeekToFirst (index_iter_ t);
  t ← InitDataBlock (set_index t w);
  t ← on_data Wrapper_SeekToFirst t;
  SkipEmptyDataBlocksForward fuel t.

Definition TL_SeekToLast (t : TL) : option TL :=
  w ← Wrapper_SeekToLast (index_iter_ t);
  t ← InitDataBlock (set_index t w);
  t ← on_data Wrapper_SeekToLast t;
  SkipEmptyDataBlocksBackward fuel t.

Definition TL_Next (t : TL) : option TL :=
  w ← Wrapper_Next (data_iter_ t); SkipEmptyDataBlocksForward fuel (set_data t w).

Definition TL_Prev (t : TL) : option TL :=
  w ← Wrapper_Prev (data_iter_ t); SkipEmptyDataBlocksBackward fuel (set_data t w).

Definition TL_Valid (t : TL) : bool := Wrapper_Valid (data_iter_ t).

Definition TL_status (t : TL) : Status :=
  match Wrapper_status (index_iter_ t) with
  | Some s =>
      if negb (ok s) then s
      else match Wrapper_status (data_iter_ t) with
           | Some d => if negb (ok d) then d else status_ t
           | None => status_ t
           end
  | None => status_ t
  end.

#[export] Instance TwoLevel_iterator : Iterator TL := {|
  it_Valid := TL_Valid;
  it_SeekToFirst := TL_SeekToFirst;
  it_SeekToLast := TL_SeekToLast;
  it_Seek := TL_Seek;
  it_Next := TL_Next;
  it_Prev := TL_Prev;
  it_key t := Some (Wrapper_key (data_iter_ t));
  it_value t := Wrapper_value (data_iter_ t);
  it_status := TL_status |}.

End two_level.

(** ** Correctness *)

(** Wrapped iterators move as the ones inside. *)
Section wrapper_moves.
Context {S : Type} {I : Iterator S} {okt : bytes -> Prop} {lt : bytes -> bytes -> Prop}.
Context {ents : list (bytes * bytes)} {at_ : S -> option nat -> Prop}.
Context {HI : IteratorSpec I okt lt ents at_}.
Abbreviation wr := (wrapped (ents := ents) (at_ := at_)).

Lemma wrapped_first (w : IteratorWrapper S) (p : option nat) :
  wr w p -> exists w', Wrapper_SeekToFirst w = Some w' /\ wr w' (pos_of (length ents) 0).
Proof. intros Hw. apply (on_iter_wrapped (HI := HI) _ w p _ Hw). intros s Hs. by eapply it_first_at. Qed.

Lemma wrapped_last (w : IteratorWrapper S) (p : option nat) :
  wr w p -> exists w', Wrapper_SeekToLast w = Some w' /\ wr w' (pos_before (length ents)).
Proof. intros Hw. apply (on_iter_wrapped (HI := HI) _ w p _ Hw). intros s Hs. by eapply it_last_at. Qed.

Lemma wrapped_next (w : IteratorWrapper S) (i : nat) :
  wr w (Some i) -> exists w', Wrapper_Next w = Some w' /\ wr w' (pos_of (length ents) (i + 1)).
Proof. intros Hw. apply (on_iter_wrapped (HI := HI) _ w _ _ Hw). intros s Hs. by apply it_next_at. Qed.

Lemma wrapped_prev (w : IteratorWrapper S) (i : nat) :
  wr w (Some i) -> exists w', Wrapper_Prev w = Some w' /\ wr w' (pos_before i).
Proof. intros Hw. apply (on_iter_wrapped (HI := HI) _ w _ _ Hw). intros s Hs. by apply it_prev_at. Qed.

Lemma wrapped_seek (w : IteratorWrapper S) (p : option nat) (t : bytes) :
  wr w p -> okt t ->
  exists w' i, Wrapper_Seek w t = Some w' /\ (i <= length ents)%nat /\ wr w' (pos_of (length ents) i) /\
    Forall (fun e : bytes * bytes => lt e.1 t) (take i ents) /\ Forall (fun e : bytes * bytes => ~ lt e.1 t) (drop i ents).
Proof.
  intros Hw Ht. destruct Hw as (s & Hi & Hs & _). destruct (it_seek_at s p t Hs Ht) as (s' & i & Hk & Hle & Hat & Hl & Hr).
  unfold Wrapper_Seek, on_iter. rewrite Hi. simpl. rewrite Hk. simpl.
  destruct (Update_wrapped (HI := HI) s' _ (valid_ w) (key_ w) Hat) as (w' & Hu & Hw'). exists w', i. by rewrite Hu.
Qed.

Lemma wrapped_status (w : IteratorWrapper S) (p : option nat) : wr w p -> Wrapper_status w = Some OK.
Proof. intros (s & Hi & Hs & _). unfold Wrapper_status. rewrite Hi. simpl. by rewrite (it_status_at s p Hs). Qed.
End wrapper_moves.

Lemma pos_of_lt (n i : nat) : (i < n)%nat -> pos_of n i = Some i.
Proof. intros Hi. unfold pos_of. by rewrite (proj2 (Nat.ltb_lt _ _)). Qed.

Lemma pos_of_ge (n i : nat) : (n <= i)%nat -> pos_of n i = None.
Proof. intros Hi. unfold pos_of. by rewrite (proj2 (Nat.ltb_ge _ _)). Qed.

Section spec.
Context {SI SD E : Type} {II : Iterator SI} {ID : Iterator SD}.
Context (block_function_ : E -> bytes -> option (SD * E)) (fuel : nat).
Context {C : Comparator} {ok okt : bytes -> Prop} {HC : ComparatorSpec C ok} (Hokt : forall k, okt k -> ok k).

(** The index, and the entries of the block behind each of its values. *)
Context (idx : list (bytes * bytes)) (iat : SI -> option nat -> Prop).
Context {HII : IteratorSpec II okt cmp_lt idx iat}.
Context (blocks : bytes -> list (bytes * bytes)) (dat : bytes -> SD -> option nat -> Prop).
Context (HID : forall h, h ∈ idx.*2 -> IteratorSpec ID okt cmp_lt (blocks h) (dat h)).
Context (env_ok : E -> Prop).
Context (Hbf : forall e h, env_ok e -> h ∈ idx.*2 ->
  exists it e', block_function_ e h = Some (it, e') /\ env_ok e' /\ dat h it None).
Context (Hfuel : (S (length idx) < fuel)%nat).

Abbreviation TL := (TwoLevelIterator SI SD E).

Definition all_ents : list (bytes * bytes) := concat (blocks <$> idx.*2).
Definition offset (i : nat) : nat := length (concat (blocks <$> take i idx.*2)).

Lemma offset_S (i : nat) (k h : bytes) :
  idx !! i = Some (k, h) -> offset (S i) = (offset i + length (blocks h))%nat.
Proof.
  intros Hi. unfold offset. assert (idx.*2 !! i = Some h) as Hh by (by rewrite list_lookup_fmap, Hi).
  rewrite (take_S_r _ _ _ Hh), fmap_app, concat_app, length_app. simpl. by rewrite app_nil_r.
Qed.

Lemma offset_all : offset (length idx) = length all_ents.
Proof. unfold offset, all_ents. by rewrite take_ge by (rewrite length_fmap; lia). Qed.

Lemma offset_le (i : nat) : (offset i <= length all_ents)%nat.
Proof.
  unfold offset, all_ents. rewrite <- (take_drop i (idx.*2)) at 2. rewrite fmap_app, concat_app, length_app. lia.
Qed.

Lemma all_ents_lookup (i j : nat) (k h : bytes) :
  idx !! i = Some (k, h) -> (j < length (blocks h))%nat -> all_ents !! (offset i + j)%nat = blocks h !! j.
Proof.
  intros Hi Hj. assert (idx.*2 !! i = Some h) as Hh by (by rewrite list_lookup_fmap, Hi).
  assert (all_ents = concat (blocks <$> take i idx.*2) ++ blocks h ++ concat (blocks <$> drop (S i) idx.*2)) as ->.
  { unfold all_ents. rewrite <- (take_drop_middle _ _ _ Hh) at 1. by rewrite fmap_app, concat_app. }
  fold (offset i). unfold offset. rewrite lookup_app_r by lia. rewrite Nat.add_comm, Nat.add_sub. by apply lookup_app_l.
Qed.

(** The data iterator is null, or over some block of the index. *)
Definition data_any (t : TL) : Prop :=
  (iter_ (data_iter_ t) = None /\ valid_ (data_iter_ t) = false) \/
  (data_block_handle_ t ∈ idx.*2 /\
   exists p, wrapped (ents := blocks (data_block_handle_ t)) (at_ := dat (data_block_handle_ t)) (data_iter_ t) p).

Definition iwrap (t : TL) (p : option nat) : Prop := wrapped (ents := idx) (at_ := iat) (index_iter_ t) p.

Lemma iwrap_valid (t : TL) (p : option nat) : iwrap t p -> Wrapper_Valid (index_iter_ t) = bool_decide (is_Some p).
Proof. apply wrapped_valid. Qed.

Record base (t : TL) : Prop := MkBase { b_env : env_ok (env t); b_status : status_ t = OK; b_data : data_any t }.

(** The index is at entry [i] and the data iterator at [p] of its block. *)
Definition on_block (t : TL) (i : nat) (h : bytes) (p : option nat) : Prop :=
  (exists k, idx !! i = Some (k, h)) /\ iwrap t (Some i) /\ data_block_handle_ t = h /\
  wrapped (ents := blocks h) (at_ := dat h) (data_iter_ t) p /\ env_ok (env t) /\ status_ t = OK.

Definition two_at (t : TL) (p : option nat) : Prop :=
  match p with
  | Some g => exists i j h, on_block t i h (Some j) /\ (j < length (blocks h))%nat /\ g = (offset i + j)%nat
  | None => base t /\ iwrap t None /\ iter_ (data_iter_ t) = None
  end.

Lemma handle_in (i : nat) (k h : bytes) : idx !! i = Some (k, h) -> h ∈ idx.*2.
Proof. intros Hi. apply list_elem_of_fmap. exists (k, h). split; [done|by eapply list_elem_of_lookup_2]. Qed.

Lemma on_block_base (t : TL) (i : nat) (h : bytes) (p : option nat) : on_block t i h p -> base t.
Proof.
  intros ((k & Hi) & _ & Hh & Hw & He & Hs). split; [done|done|right]. rewrite Hh.
  split; [by eapply handle_in|by exists p].
Qed.

Lemma data_status (t : TL) : data_any t -> match Wrapper_status (data_iter_ t) with Some s => s = OK | None => True end.
Proof.
  intros [[Hn _]|(Hin & p & Hw)]; [unfold Wrapper_status; by rewrite Hn|].
  by rewrite (wrapped_status (HI := HID _ Hin) _ p Hw).
Qed.

Lemma SetDataIterator_eq (t : TL) (it : option SD) :
  base t -> SetDataIterator t it = w ← Wrapper_Set (data_iter_ t) it; Some (set_data t w).
Proof.
  intros Hb. unfold SetDataIterator. pose proof (data_status t (b_data t Hb)) as Hs.
  destruct (Wrapper_status (data_iter_ t)); [|done]. subst. unfold SaveError. by rewrite andb_false_r.
Qed.

Lemma SetDataIterator_null (t : TL) :
  base t -> iwrap t None -> exists t', SetDataIterator t None = Some t' /\ two_at t' None.
Proof.
  intros Hb Hi. rewrite (SetDataIterator_eq t None Hb). eexists. split; [done|].
  split; [split; [apply (b_env t Hb)|apply (b_status t Hb)|by left]|]. split; [done|done].
Qed.

Lemma open_block (t : TL) (i : nat) (k h : bytes) :
  base t -> iwrap t (Some i) -> idx !! i = Some (k, h) ->
  exists t' p, ('(iter, e) ← block_function_ (env t) h;
    SetDataIterator (MkTwoLevel e (status_ t) (index_iter_ t) (data_iter_ t) h) (Some iter)) = Some t' /\ on_block t' i h p.
Proof.
  intros Hb Hi Hk. pose proof (handle_in i k h Hk) as Hin.
  destruct (Hbf (env t) h (b_env t Hb) Hin) as (it & e' & -> & He & Hd). cbn [mbind option_bind].
  assert (SetDataIterator (MkTwoLevel e' (status_ t) (index_iter_ t) (data_iter_ t) h) (Some it)
    = w ← Wrapper_Set (data_iter_ t) (Some it); Some (set_data (MkTwoLevel e' (status_ t) (index_iter_ t) (data_iter_ t) h) w)) as ->.
  { unfold SetDataIterator. simpl. pose proof (data_status t (b_data t Hb)) as Hs.
    destruct (Wrapper_status (data_iter_ t)); [|done]. subst. unfold SaveError. simpl. by rewrite andb_false_r. }
  destruct (Set_wrapped (HI := HID h Hin) (data_iter_ t) it None Hd) as (w & -> & Hw).
  eexists _, None. split; [done|]. split; [by exists k|]. split; [done|]. split; [done|]. split; [done|].
  split; [done|apply (b_status t Hb)].
Qed.

Lemma compare_eq_0 (a b : bytes) : compare a b = 0 -> a = b.
Proof.
  intros H. pose proof Bytewise.BytewiseComparator_spec as HB.
  apply (cmp_eq (C := Bytewise.BytewiseComparator) a b); [done|done|]. simpl. by rewrite H.
Qed.

Lemma InitDataBlock_at (t : TL) (i : nat) :
  base t -> iwrap t (Some i) -> exists t' h p, InitDataBlock block_function_ t = Some t' /\ on_block t' i h p.
Proof.
  intros Hb Hi. unfold InitDataBlock. rewrite (iwrap_valid _ _ Hi). simpl.
  destruct (wrapped_entry (HI := HII) _ i Hi) as (h & Hk & Hv). rewrite Hv. cbn [mbind option_bind].
  pose proof (open_block t i _ h Hb Hi Hk) as (t' & p & Hopen & Hob).
  destruct (iter_ (data_iter_ t)) as [d|] eqn:Hd.
  - destruct (Z.eqb_spec (compare h (data_block_handle_ t)) 0) as [Heq|_]; [|by exists t', h, p].
    apply compare_eq_0 in Heq. destruct (b_data t Hb) as [[Hn _]|(_ & q & Hw)]; [congruence|].
    exists t, h, q. split; [done|]. rewrite <- Heq in Hw. split; [eauto|]. split; [done|]. split; [done|]. split; [done|].
    split; [apply (b_env t Hb)|apply (b_status t Hb)].
  - by exists t', h, p.
Qed.

Lemma InitDataBlock_end (t : TL) :
  base t -> iwrap t None -> exists t', InitDataBlock block_function_ t = Some t' /\ two_at t' None.
Proof.
  intros Hb Hi. unfold InitDataBlock. rewrite (iwrap_valid _ _ Hi). by apply SetDataIterator_null.
Qed.

Lemma on_block_iter (t : TL) (i : nat) (h : bytes) (p : option nat) :
  on_block t i h p -> is_Some (iter_ (data_iter_ t)) /\ valid_ (data_iter_ t) = bool_decide (is_Some p).
Proof. intros (_ & _ & _ & (s & Hs & _ & Hv & _) & _). split; [by exists s|done]. Qed.

Lemma no_data_on_block (t : TL) (i : nat) (h : bytes) (p : option nat) :
  on_block t i h p -> no_data t = negb (bool_decide (is_Some p)).
Proof. intros Hb. destruct (on_block_iter t i h p Hb) as [[s Hs] Hv]. unfold no_data, Wrapper_Valid. by rewrite Hs, Hv. Qed.

(** A move of the data iterator within its block. *)
Lemma on_data_block (f : IteratorWrapper SD -> option (IteratorWrapper SD)) (t : TL) (i : nat) (h : bytes)
    (p q : option nat) (w : IteratorWrapper SD) :
  on_block t i h p -> f (data_iter_ t) = Some w -> wrapped (ents := blocks h) (at_ := dat h) w q ->
  on_data f t = Some (set_data t w) /\ on_block (set_data t w) i h q.
Proof.
  intros Hb Hf Hw. destruct (on_block_iter t i h p Hb) as [[s Hs] _]. unfold on_data. rewrite Hs, Hf. simpl.
  split; [done|]. destruct Hb as (Hk & Hi & Hh & _ & He & Hst). split; [done|]. split; [done|]. split; [done|]. by split.
Qed.

Lemma on_data_null (f : IteratorWrapper SD -> option (IteratorWrapper SD)) (t : TL) :
  two_at t None -> on_data f t = Some t.
Proof. intros (_ & _ & Hn). unfold on_data. by rewrite Hn. Qed.

Lemma set_index_base (t : TL) (w : IteratorWrapper SI) : base t -> base (set_index t w).
Proof. by intros []. Qed.

(** *** Skipping empty blocks *)

Definition fwd_pos (i : nat) (p : option nat) : nat :=
  match p with Some j => (offset i + j)%nat | None => offset (S i) end.

Lemma skip_null (n : nat) (t : TL) :
  two_at t None -> (0 < n)%nat ->
  (exists t', SkipEmptyDataBlocksForward block_function_ n t = Some t' /\ two_at t' None) /\
  (exists t', SkipEmptyDataBlocksBackward block_function_ n t = Some t' /\ two_at t' None).
Proof.
  intros Ht Hn. destruct n as [|n]; [lia|]. cbn [SkipEmptyDataBlocksForward SkipEmptyDataBlocksBackward].
  destruct Ht as (Hb & Hi & Hd). unfold no_data. rewrite Hd, (iwrap_valid _ _ Hi).
  by split; apply SetDataIterator_null.
Qed.

Lemma two_at_on_block (t : TL) (i j : nat) (h : bytes) :
  on_block t i h (Some j) -> two_at t (Some (offset i + j)%nat).
Proof.
  intros Hb. exists i, j, h. split; [done|]. split; [|done].
  destruct Hb as ((k & Hk) & _ & _ & Hw & _). pose proof (HID h (handle_in i k h Hk)) as HD.
  destruct (wrapped_entry (HI := HD) _ j Hw) as (v & Hj & _). by apply lookup_lt_Some in Hj.
Qed.

Lemma two_at_pos (t : TL) (g : nat) : two_at t (Some g) -> (g < length all_ents)%nat.
Proof.
  intros (i & j & h & ((k & Hk) & _) & Hj & ->).
  pose proof (offset_S i k h Hk). pose proof (offset_le (S i)). lia.
Qed.

Lemma skip_forward (n : nat) (t : TL) (i : nat) (h : bytes) (p : option nat) :
  on_block t i h p -> (length idx - i < n)%nat ->
  exists t', SkipEmptyDataBlocksForward block_function_ n t = Some t' /\
    two_at t' (pos_of (length all_ents) (fwd_pos i p)).
Proof.
  revert t i h p. induction n as [|n IH]; intros t i h p Hb Hn; [lia|]. cbn [SkipEmptyDataBlocksForward].
  rewrite (no_data_on_block t i h p Hb). destruct p as [j|]; simpl.
  { exists t. split; [done|]. pose proof (two_at_on_block t i j h Hb) as Hat.
    by rewrite (pos_of_lt _ _ (two_at_pos _ _ Hat)). }
  destruct Hb as ((k & Hk) & Hi & Hrest). rewrite (iwrap_valid _ _ Hi). simpl.
  destruct (wrapped_next (HI := HII) _ i Hi) as (w & -> & Hw). cbn [mbind option_bind].
  pose proof (set_index_base t w (on_block_base t i h None (conj (ex_intro _ k Hk) (conj Hi Hrest)))) as Hb.
  pose proof (lookup_lt_Some _ _ _ Hk) as Hlt. rewrite Nat.add_1_r in Hw.
  destruct (decide (S i < length idx)%nat) as [Hs|Hs].
  - rewrite (pos_of_lt _ _ Hs) in Hw.
    destruct (InitDataBlock_at (set_index t w) (S i) Hb Hw) as (t1 & h1 & p1 & -> & Hb1). cbn [mbind option_bind].
    pose proof Hb1 as ((k1 & Hk1) & _ & _ & Hw1 & _). pose proof (HID h1 (handle_in _ k1 h1 Hk1)) as HD.
    destruct (wrapped_first (HI := HD) _ p1 Hw1) as (w1 & Hf & Hw1').
    destruct (on_data_block Wrapper_SeekToFirst t1 (S i) h1 p1 _ w1 Hb1 Hf Hw1') as [-> Hb2]. cbn [mbind option_bind].
    destruct (IH _ _ _ _ Hb2 ltac:(lia)) as (t' & Hskip & Hat). exists t'. split; [done|].
    replace (fwd_pos (S i) (pos_of (length (blocks h1)) 0)) with (offset (S i)) in Hat; [done|].
    unfold pos_of. destruct (Nat.ltb_spec 0 (length (blocks h1))); simpl; [lia|].
    rewrite (offset_S (S i) k1 h1 Hk1). lia.
  - rewrite pos_of_ge in Hw by lia.
    destruct (InitDataBlock_end (set_index t w) Hb Hw) as (t1 & -> & Hat1). cbn [mbind option_bind].
    rewrite (on_data_null _ t1 Hat1). cbn [mbind option_bind].
    destruct (proj1 (skip_null n t1 Hat1 ltac:(lia))) as (t' & -> & Hat'). exists t'. split; [done|].
    assert (S i = length idx) as -> by lia. by rewrite offset_all, pos_of_ge.
Qed.

Definition bwd_pos (i : nat) (p : option nat) : option nat :=
  match p with Some j => Some (offset i + j)%nat | None => pos_before (offset i) end.

Lemma skip_backward (n : nat) (t : TL) (i : nat) (h : bytes) (p : option nat) :
  on_block t i h p -> (S i < n)%nat ->
  exists t', SkipEmptyDataBlocksBackward block_function_ n t = Some t' /\ two_at t' (bwd_pos i p).
Proof.
  revert t i h p. induction n as [|n IH]; intros t i h p Hb Hn; [lia|]. cbn [SkipEmptyDataBlocksBackward].
  rewrite (no_data_on_block t i h p Hb). destruct p as [j|]; simpl.
  { exists t. split; [done|]. by apply (two_at_on_block t i j h). }
  destruct Hb as ((k & Hk) & Hi & Hrest). rewrite (iwrap_valid _ _ Hi). simpl.
  destruct (wrapped_prev (HI := HII) _ i Hi) as (w & -> & Hw). cbn [mbind option_bind].
  pose proof (set_index_base t w (on_block_base t i h None (conj (ex_intro _ k Hk) (conj Hi Hrest)))) as Hb.
  pose proof (lookup_lt_Some _ _ _ Hk) as Hlt. destruct i as [|i]; simpl in Hw.
  - destruct (InitDataBlock_end (set_index t w) Hb Hw) as (t1 & -> & Hat1). cbn [mbind option_bind].
    rewrite (on_data_null _ t1 Hat1). cbn [mbind option_bind].
    destruct (proj2 (skip_null n t1 Hat1 ltac:(lia))) as (t' & -> & Hat'). exists t'. split; [done|]. done.
  - destruct (InitDataBlock_at (set_index t w) i Hb Hw) as (t1 & h1 & p1 & -> & Hb1). cbn [mbind option_bind].
    pose proof Hb1 as ((k1 & Hk1) & _ & _ & Hw1 & _). pose proof (HID h1 (handle_in _ k1 h1 Hk1)) as HD.
    destruct (wrapped_last (HI := HD) _ p1 Hw1) as (w1 & Hf & Hw1').
    destruct (on_data_block Wrapper_SeekToLast t1 i h1 p1 _ w1 Hb1 Hf Hw1') as [-> Hb2]. cbn [mbind option_bind].
    destruct (IH _ _ _ _ Hb2 ltac:(lia)) as (t' & Hskip & Hat). exists t'. split; [done|].
    replace (bwd_pos i (pos_before (length (blocks h1)))) with (pos_before (offset (S i))) in Hat; [done|].
    rewrite (offset_S i k1 h1 Hk1). destruct (length (blocks h1)) as [|m]; simpl; [by rewrite Nat.add_0_r|].
    by rewrite Nat.add_succ_r.
Qed.

(** *** The contract *)

(** The key of the index for a block is not below its entries and below those
    of the blocks after it. *)
Context (Hlow : forall i k h e, idx !! i = Some (k, h) -> e ∈ blocks h -> ~ cmp_lt k e.1).
Context (Hhigh : forall i j k k' h h' e, (i < j)%nat -> idx !! i = Some (k, h) -> idx !! j = Some (k', h') ->
  e ∈ blocks h' -> cmp_lt k e.1).
Context (Hik : Forall (fun e : bytes * bytes => ok e.1) idx).
Context (Hek : forall h e, h ∈ idx.*2 -> e ∈ blocks h -> ok e.1).

Lemma block_below (i : nat) (k h t : bytes) :
  idx !! i = Some (k, h) -> ok t -> cmp_lt k t -> Forall (fun e : bytes * bytes => cmp_lt e.1 t) (blocks h).
Proof.
  intros Hi Ht Hk. apply Forall_forall. intros e He.
  pose proof (proj1 (Forall_lookup _ _) Hik i _ Hi) as Hkok. simpl in Hkok.
  pose proof (Hek h e (handle_in i k h Hi) He) as Heok.
  destruct (cmp_cases e.1 k Heok Hkok) as [(r & _ & _ & Hlt)|[[_ ->]|(r & _ & _ & Hlt)]].
  - by apply (cmp_trans e.1 k t).
  - done.
  - by destruct (Hlow i k h e Hi He).
Qed.

Lemma blocks_below (i : nat) (t : bytes) :
  ok t -> Forall (fun e : bytes * bytes => cmp_lt e.1 t) (take i idx) ->
  Forall (fun e : bytes * bytes => cmp_lt e.1 t) (concat (blocks <$> take i idx.*2)).
Proof.
  intros Ht Hi. apply Forall_concat, Forall_fmap, Forall_forall. intros h (j & Hj & Hlt)%elem_of_take.
  apply list_lookup_fmap_Some in Hj as ([k h'] & -> & Hj). simpl.
  apply (block_below j k h'); [done|done|].
  apply (proj1 (Forall_forall _ _) Hi (k, h')). apply elem_of_take. by exists j.
Qed.

Lemma blocks_above (i : nat) (k h t : bytes) :
  ok t -> idx !! i = Some (k, h) -> ~ cmp_lt k t ->
  Forall (fun e : bytes * bytes => ~ cmp_lt e.1 t) (concat (blocks <$> drop (S i) idx.*2)).
Proof.
  intros Ht Hi Hk. apply Forall_concat, Forall_fmap, Forall_forall. intros h' (m & Hm)%list_elem_of_lookup.
  rewrite lookup_drop in Hm. apply list_lookup_fmap_Some in Hm as ([k' h''] & -> & Hm). simpl.
  apply Forall_forall. intros e He Hlt. apply Hk.
  pose proof (proj1 (Forall_lookup _ _) Hik i _ Hi) as Hkok. simpl in Hkok.
  apply (cmp_trans k e.1 t); [done|by apply (Hek h''), He; eapply handle_in|done| |done].
  by apply (Hhigh i (S i + m) k k' h h''); [lia|..].
Qed.

Lemma all_ents_split (i j : nat) (k h : bytes) :
  idx !! i = Some (k, h) -> (j <= length (blocks h))%nat ->
  take (offset i + j) all_ents = concat (blocks <$> take i idx.*2) ++ take j (blocks h) /\
  drop (offset i + j) all_ents = drop j (blocks h) ++ concat (blocks <$> drop (S i) idx.*2).
Proof.
  intros Hi Hj. assert (idx.*2 !! i = Some h) as Hh by (by rewrite list_lookup_fmap, Hi).
  assert (all_ents = concat (blocks <$> take i idx.*2) ++ blocks h ++ concat (blocks <$> drop (S i) idx.*2)) as ->.
  { unfold all_ents. rewrite <- (take_drop_middle _ _ _ Hh) at 1. by rewrite fmap_app, concat_app. }
  unfold offset. rewrite take_app_add, drop_app_add. by rewrite take_app_le, drop_app_le by done.
Qed.

Lemma TL_Seek_ok (t : TL) (p : option nat) (target : bytes) :
  base t -> iwrap t p -> okt target ->
  exists t' g, TL_Seek block_function_ fuel t target = Some t' /\ (g <= length all_ents)%nat /\
    two_at t' (pos_of (length all_ents) g) /\
    Forall (fun e : bytes * bytes => cmp_lt e.1 target) (take g all_ents) /\
    Forall (fun e : bytes * bytes => ~ cmp_lt e.1 target) (drop g all_ents).
Proof.
  intros Hb Hi Ht. pose proof (Hokt _ Ht) as Hto. unfold TL_Seek.
  destruct (wrapped_seek (HI := HII) _ p target Hi Ht) as (w & i & -> & Hle & Hw & Hlt & Hge). cbn [mbind option_bind].
  destruct (decide (i < length idx)%nat) as [Hs|Hs].
  - rewrite (pos_of_lt _ _ Hs) in Hw.
    destruct (InitDataBlock_at (set_index t w) i (set_index_base t w Hb) Hw) as (t1 & h & q & -> & Hb1).
    cbn [mbind option_bind]. pose proof Hb1 as ((k & Hk) & _ & _ & Hw1 & _).
    pose proof (HID h (handle_in i k h Hk)) as HD.
    destruct (wrapped_seek (HI := HD) _ q target Hw1 Ht) as (w1 & j & Hseek & Hj & Hw2 & Hjl & Hjg).
    destruct (on_data_block (fun w => Wrapper_Seek w target) t1 i h q _ w1 Hb1 Hseek Hw2) as [-> Hb2]. cbn [mbind option_bind].
    destruct (skip_forward fuel _ _ _ _ Hb2 ltac:(lia)) as (t' & Hskip & Hat).
    replace (fwd_pos i (pos_of (length (blocks h)) j)) with (offset i + j)%nat in Hat.
    + destruct (all_ents_split i j k h Hk Hj) as [Htk Hdr]. exists t', (offset i + j)%nat. split; [done|].
      pose proof (offset_S i k h Hk). pose proof (offset_le (S i)). split; [lia|]. split; [done|]. rewrite Htk, Hdr.
      assert (~ cmp_lt k target) as Hnk.
      { rewrite (drop_S _ _ _ Hk) in Hge. by apply Forall_cons in Hge as [? _]. }
      split; apply Forall_app; split; [by apply blocks_below|done|done|by apply (blocks_above i k h)].
    + unfold pos_of. destruct (Nat.ltb_spec j (length (blocks h))); simpl; [done|]. rewrite (offset_S i k h Hk). lia.
  - rewrite pos_of_ge in Hw by lia.
    destruct (InitDataBlock_end (set_index t w) (set_index_base t w Hb) Hw) as (t1 & -> & Hat1). cbn [mbind option_bind].
    rewrite (on_data_null _ t1 Hat1). cbn [mbind option_bind].
    destruct (proj1 (skip_null fuel t1 Hat1 ltac:(lia))) as (t' & -> & Hat'). exists t', (length all_ents).
    split; [done|]. split; [done|]. split; [by rewrite pos_of_ge|]. rewrite take_ge, drop_ge by done. split; [|done].
    unfold all_ents. rewrite <- (take_ge (idx.*2) i) by (rewrite length_fmap; lia). by apply blocks_below.
Qed.

Lemma TL_SeekToFirst_ok (t : TL) (p : option nat) :
  base t -> iwrap t p ->
  exists t', TL_SeekToFirst block_function_ fuel t = Some t' /\ two_at t' (pos_of (length all_ents) 0).
Proof.
  intros Hb Hi. unfold TL_SeekToFirst.
  destruct (wrapped_first (HI := HII) _ p Hi) as (w & -> & Hw). cbn [mbind option_bind].
  destruct (decide (0 < length idx)%nat) as [Hs|Hs].
  - rewrite (pos_of_lt _ _ Hs) in Hw.
    destruct (InitDataBlock_at (set_index t w) 0 (set_index_base t w Hb) Hw) as (t1 & h & q & -> & Hb1).
    cbn [mbind option_bind]. pose proof Hb1 as ((k & Hk) & _ & _ & Hw1 & _).
    pose proof (HID h (handle_in 0 k h Hk)) as HD.
    destruct (wrapped_first (HI := HD) _ q Hw1) as (w1 & Hf & Hw2).
    destruct (on_data_block Wrapper_SeekToFirst t1 0 h q _ w1 Hb1 Hf Hw2) as [-> Hb2]. cbn [mbind option_bind].
    destruct (skip_forward fuel _ _ _ _ Hb2 ltac:(lia)) as (t' & Hskip & Hat). exists t'. split; [done|].
    replace (fwd_pos 0 (pos_of (length (blocks h)) 0)) with O in Hat; [done|].
    unfold pos_of. destruct (Nat.ltb_spec 0 (length (blocks h))); simpl; [done|].
    rewrite (offset_S 0 k h Hk). unfold offset. simpl. lia.
  - rewrite pos_of_ge in Hw by lia.
    destruct (InitDataBlock_end (set_index t w) (set_index_base t w Hb) Hw) as (t1 & -> & Hat1). cbn [mbind option_bind].
    rewrite (on_data_null _ t1 Hat1). cbn [mbind option_bind].
    destruct (proj1 (skip_null fuel t1 Hat1 ltac:(lia))) as (t' & -> & Hat'). exists t'. split; [done|].
    rewrite pos_of_ge; [done|]. rewrite <- offset_all. unfold offset. by destruct idx; [|simpl in Hs; lia].
Qed.

Lemma TL_SeekToLast_ok (t : TL) (p : option nat) :
  base t -> iwrap t p ->
  exists t', TL_SeekToLast block_function_ fuel t = Some t' /\ two_at t' (pos_before (length all_ents)).
Proof.
  intros Hb Hi. unfold TL_SeekToLast.
  destruct (wrapped_last (HI := HII) _ p Hi) as (w & -> & Hw). cbn [mbind option_bind].
  rewrite <- offset_all. assert (length idx = O \/ exists n, length idx = S n) as [Hn|[n Hn]]
    by (clear; destruct (length idx); eauto); rewrite Hn in Hw |- *; simpl in Hw.
  - destruct (InitDataBlock_end (set_index t w) (set_index_base t w Hb) Hw) as (t1 & -> & Hat1). cbn [mbind option_bind].
    rewrite (on_data_null _ t1 Hat1). cbn [mbind option_bind].
    destruct (proj2 (skip_null fuel t1 Hat1 ltac:(lia))) as (t' & -> & Hat'). by exists t'.
  - destruct (InitDataBlock_at (set_index t w) n (set_index_base t w Hb) Hw) as (t1 & h & q & -> & Hb1).
    cbn [mbind option_bind]. pose proof Hb1 as ((k & Hk) & _ & _ & Hw1 & _).
    pose proof (HID h (handle_in n k h Hk)) as HD.
    destruct (wrapped_last (HI := HD) _ q Hw1) as (w1 & Hf & Hw2).
    destruct (on_data_block Wrapper_SeekToLast t1 n h q _ w1 Hb1 Hf Hw2) as [-> Hb2]. cbn [mbind option_bind].
    destruct (skip_backward fuel _ _ _ _ Hb2 ltac:(lia)) as (t' & Hskip & Hat). exists t'. split; [done|].
    replace (pos_before (offset (S n))) with (bwd_pos n (pos_before (length (blocks h)))); [done|].
    rewrite (offset_S n k h Hk). destruct (length (blocks h)) as [|m]; simpl; [by rewrite Nat.add_0_r|].
    by rewrite Nat.add_succ_r.
Qed.

Lemma two_at_base (t : TL) (p : option nat) : two_at t p -> base t /\ exists q, iwrap t q.
Proof.
  destruct p as [g|]; [|intros (? & ? & _); eauto].
  intros (i & j & h & Hb & _). split; [by eapply on_block_base|]. exists (Some i). by destruct Hb as (_ & ? & _).
Qed.

Lemma TwoLevel_spec :
  IteratorSpec (TwoLevel_iterator block_function_ fuel) okt cmp_lt all_ents two_at.
Proof.
  split.
  - intros t [g|] Hat; simpl; unfold TL_Valid, Wrapper_Valid.
    + destruct Hat as (i & j & h & Hb & _). by destruct (on_block_iter t i h _ Hb) as [_ ->].
    + destruct Hat as (Hb & _ & Hn). destruct (b_data t Hb) as [[_ ->]|(_ & q & s & Hs & _)]; [done|congruence].
  - intros t g (i & j & h & Hb & Hj & ->). pose proof Hb as ((k & Hk) & _ & _ & Hw & _).
    pose proof (HID h (handle_in i k h Hk)) as HD. destruct (wrapped_entry (HI := HD) _ j Hw) as (v & He & Hv).
    exists (Wrapper_key (data_iter_ t)), v. rewrite (all_ents_lookup i j k h Hk Hj). done.
  - intros t p Hat. destruct (two_at_base t p Hat) as (Hb & q & Hi). by apply (TL_SeekToFirst_ok t q).
  - intros t p Hat. destruct (two_at_base t p Hat) as (Hb & q & Hi). by apply (TL_SeekToLast_ok t q).
  - intros t g (i & j & h & Hb & Hj & ->). pose proof Hb as ((k & Hk) & Hi & Hh & Hw & He & Hst). simpl. unfold TL_Next.
    pose proof (HID h (handle_in i k h Hk)) as HD. destruct (wrapped_next (HI := HD) _ j Hw) as (w & -> & Hw'). cbn [mbind option_bind].
    assert (on_block (set_data t w) i h (pos_of (length (blocks h)) (j + 1))) as Hb' by (split_and!; eauto).
    pose proof (lookup_lt_Some _ _ _ Hk). destruct (skip_forward fuel _ _ _ _ Hb' ltac:(lia)) as (t' & Hskip & Hat).
    exists t'. split; [done|]. replace (offset i + j + 1)%nat with (fwd_pos i (pos_of (length (blocks h)) (j + 1))); [done|].
    unfold pos_of. destruct (Nat.ltb_spec (j + 1) (length (blocks h))); simpl; [lia|]. rewrite (offset_S i k h Hk). lia.
  - intros t g (i & j & h & Hb & Hj & ->). pose proof Hb as ((k & Hk) & Hi & Hh & Hw & He & Hst). simpl. unfold TL_Prev.
    pose proof (HID h (handle_in i k h Hk)) as HD. destruct (wrapped_prev (HI := HD) _ j Hw) as (w & -> & Hw'). cbn [mbind option_bind].
    assert (on_block (set_data t w) i h (pos_before j)) as Hb' by (split_and!; eauto).
    pose proof (lookup_lt_Some _ _ _ Hk). destruct (skip_backward fuel _ _ _ _ Hb' ltac:(lia)) as (t' & Hskip & Hat).
    exists t'. split; [done|]. replace (pos_before (offset i + j)) with (bwd_pos i (pos_before j)); [done|].
    destruct j as [|j]; simpl; [by rewrite Nat.add_0_r|]. by rewrite Nat.add_succ_r.
  - intros t p target Hat Ht. destruct (two_at_base t p Hat) as (Hb & q & Hi). by apply (TL_Seek_ok t q).
  - intros t p Hat. destruct (two_at_base t p Hat) as (Hb & q & Hi). simpl. unfold TL_status.
    rewrite (wrapped_status (HI := HII) _ q Hi). simpl. pose proof (data_status t (b_data t Hb)) as Hs.
    destruct (Wrapper_status (data_iter_ t)); [subst; simpl|]; apply (b_status t Hb).
Qed.

Lemma NewTwoLevelIterator_at (e : E) (it : SI) (p : option nat) :
  env_ok e -> iat it None -> exists t, NewTwoLevelIterator (SD := SD) e it = Some t /\ two_at t None.
Proof.
  intros He Hi. unfold NewTwoLevelIterator. destruct (Set_wrapped (HI := HII) Wrapper_new it None Hi) as (w & -> & Hw).
  eexists. split; [done|]. split; [|done]. split; [done|done|by left].
Qed.
End spec.
