(* ===== verification/TableBuilder.v ===== *)
(** * Building a table

    [table/table_builder.cc]: data blocks cut by size, the index block with
    shortened keys, the filter block, the metaindex block and the footer, and
    the queue of keys handed to the index when the table is finished. *)

From Stdlib Require Import String.
From S2P Require Import Prelude Status Coding Bloom Crc32c Comparator Files DbFormat Iterator Block FilterBlock TableFormat.

(** The members of [Options] a table depends on; the comparator and the filter
    policy are arguments. *)
Record TableOptions := MkTableOptions {
  block_size : Z;
  block_restart_interval : Z;
  compression : CompressionType;
  paranoid_checks : bool }.

(** [Index::AddQueue], of [include/leveldb/index.h]: the queue is exchanged for
    the one the index holds.  An element is a key with a file number, an edit
    the list of file numbers to recover. *)
Class Index (X : Type) := {
  Index_AddQueue : X -> list (Z * Z) -> option (list Z) -> bool -> X * list (Z * Z) }.

(** [TableBuilder::Rep]; [index_meta] is the shared [IndexMeta] of the block. *)
Record TableRep (F : Type) := MkTableRep {
  tb_file : F;
  tb_offset : Z;
  tb_status : Status;
  data_block : BB.BlockBuilder;
  index_block : BB.BlockBuilder;
  last_key : bytes;
  num_entries : Z;
  index_queue : list (Z * Z);
  fnumber : Z;
  closed : bool;
  filter_block : option FB.FilterBlockBuilder;
  index_meta : option Z;
  pending_index_entry : bool;
  pending_handle : BlockHandle }.
Arguments MkTableRep {F}.
Arguments tb_file {F}.
Arguments tb_offset {F}.
Arguments tb_status {F}.
Arguments data_block {F}.
Arguments index_block {F}.
Arguments last_key {F}.
Arguments num_entries {F}.
Arguments index_queue {F}.
Arguments fnumber {F}.
Arguments closed {F}.
Arguments filter_block {F}.
Arguments index_meta {F}.
Arguments pending_index_entry {F}.
Arguments pending_handle {F}.

Section builder.
Context {F : Type} {W : WritableFile F} {C : Comparator} {CP : CrcPort} {SP : SnappyPort}.
Context (addr : bytes -> Z) (opt : TableOptions) (filter_policy : option FilterPolicy).

Abbreviation Rep := (TableRep F).

Definition set_out (r : Rep) (f : F) (o : Z) (s : Status) : Rep :=
  MkTableRep f o s (data_block r) (index_block r) (last_key r) (num_entries r) (index_queue r) (fnumber r)
    (closed r) (filter_block r) (index_meta r) (pending_index_entry r) (pending_handle r).

Definition set_filter_block (r : Rep) (b : option FB.FilterBlockBuilder) : Rep :=
  MkTableRep (tb_file r) (tb_offset r) (tb_status r) (data_block r) (index_block r) (last_key r) (num_entries r)
    (index_queue r) (fnumber r) (closed r) b (index_meta r) (pending_index_entry r) (pending_handle r).

(** The index entry of the block just written, with [key]. *)
Definition add_index_entry (r : Rep) (key : bytes) : Rep :=
  MkTableRep (tb_file r) (tb_offset r) (tb_status r) (data_block r)
    (BB.Add 1 (index_block r) key (Handle_EncodeTo [] (pending_handle r))) key (num_entries r)
    (index_queue r) (fnumber r) (closed r) (filter_block r) (index_meta r) false (pending_handle r).

(** Statements on the filter block, if there is one. *)
Definition on_filter (f : FilterPolicy -> FB.FilterBlockBuilder -> option FB.FilterBlockBuilder) (r : Rep) : option Rep :=
  match filter_policy, filter_block r with
  | Some P, Some b => b ← f P b; Some (set_filter_block r (Some b))
  | _, _ => Some r
  end.

Definition TableBuilder_new (file : F) (number : Z) : option Rep :=
  on_filter (fun P b => @FB.StartBlock P b 0)
    (MkTableRep file 0 OK BB.BlockBuilder_new BB.BlockBuilder_new [] 0 [] number false
       ((fun _ => FB.FilterBlockBuilder_new) <$> filter_policy) None false BlockHandle_new).

Definition WriteRawBlock (r : Rep) (block_contents : bytes) (type : CompressionType) : option (Rep * BlockHandle) :=
  let handle := MkHandle (tb_offset r) (Z.of_nat (length block_contents)) in
  '(s, f) ← Append (tb_file r) block_contents;
  if ok s then
    let t := [byte.of_Z (CompressionType_to_Z type)] in
    let crc := Value (addr block_contents) block_contents in
    let crc := Extend (addr t) crc t in
    '(s, f) ← Append f (t ++ EncodeFixed32 true (Mask crc));
    let o := if ok s then u64 (tb_offset r + (Z.of_nat (length block_contents) + kBlockTrailerSize)) else tb_offset r in
    Some (set_out r f o s, handle)
  else Some (set_out r f (tb_offset r) s, handle).

(** The contents to write for a block and how they are compressed. *)
Definition compress (raw : bytes) : bytes * CompressionType :=
  match compression opt with
  | kNoCompression => (raw, kNoCompression)
  | kSnappyCompression =>
      match Snappy_Compress raw with
      | Some compressed =>
          if Z.of_nat (length compressed) <? Z.of_nat (length raw) - Z.of_nat (length raw) / 8
          then (compressed, kSnappyCompression) else (raw, kNoCompression)
      | None => (raw, kNoCompression)
      end
  end.

(** [WriteBlock]: the block builder is given back reset. *)
Definition WriteBlock (r : Rep) (block : BB.BlockBuilder) : option (Rep * BlockHandle * BB.BlockBuilder) :=
  let '(raw, block) := BB.Finish block in
  let '(block_contents, type) := compress raw in
  '(r, handle) ← WriteRawBlock r block_contents type;
  Some (r, handle, BB.Reset block).

Definition tb_Flush (r : Rep) : option Rep :=
  if negb (ok (tb_status r)) then Some r
  else if BB.empty (data_block r) then Some r
  else
    '(r, handle, block) ← WriteBlock r (data_block r);
    let written := ok (tb_status r) in
    '(s, f) ← (if written then Flush (tb_file r) else Some (tb_status r, tb_file r));
    on_filter (fun P b => @FB.StartBlock P b (tb_offset r))
      (MkTableRep f (tb_offset r) s block (index_block r) (last_key r) (num_entries r) (index_queue r) (fnumber r)
         (closed r) (filter_block r) (index_meta r) (if written then true else pending_index_entry r) handle).

Definition tb_Add (r : Rep) (key value : bytes) : option Rep :=
  if negb (ok (tb_status r)) then Some r
  else
    let meta := if BB.empty (data_block r) then Some (u32 (fnumber r)) else index_meta r in
    r ← (if pending_index_entry r then
           sep ← FindShortestSeparator (last_key r) key;
           Some (add_index_entry r sep)
         else Some r);
    r ← on_filter (fun P b => Some (FB.AddKey b key)) r;
    user_key ← ExtractUserKey key;
    file_number ← meta;
    let r := MkTableRep (tb_file r) (tb_offset r) (tb_status r)
      (BB.Add (block_restart_interval opt) (data_block r) key value) (index_block r) key (num_entries r + 1)
      (index_queue r ++ [(fast_atoi user_key, file_number)]) (fnumber r) (closed r) (filter_block r) meta
      (pending_index_entry r) (pending_handle r) in
    if block_size opt <=? BB.CurrentSizeEstimate (data_block r) then tb_Flush r else Some r.

Fixpoint tb_Adds (r : Rep) (es : list (bytes * bytes)) : option Rep :=
  match es with
  | [] => Some r
  | (k, v) :: es' => r ← tb_Add r k v; tb_Adds r es'
  end.

(** [if (ok()) f();] *)
Definition if_ok (f : Rep -> option Rep) (r : Rep) : option Rep :=
  if ok (tb_status r) then f r else Some r.

Definition set_closed (r : Rep) : Rep :=
  MkTableRep (tb_file r) (tb_offset r) (tb_status r) (data_block r) (index_block r) (last_key r) (num_entries r)
    (index_queue r) (fnumber r) true (filter_block r) (index_meta r) (pending_index_entry r) (pending_handle r).

Definition filter_key (P : FilterPolicy) : bytes := bs "filter." ++ @PolicyName P.

(** The filter block, if there is one; its handle is not set otherwise. *)
Definition finish_filter (r : Rep) : option (Rep * BlockHandle) :=
  if ok (tb_status r) then
    match filter_policy, filter_block r with
    | Some P, Some b => contents ← @FB.Finish P b; WriteRawBlock r contents kNoCompression
    | _, _ => Some (r, BlockHandle_new)
    end
  else Some (r, BlockHandle_new).

Definition finish_metaindex (r : Rep) (filter_block_handle : BlockHandle) : option (Rep * BlockHandle) :=
  if ok (tb_status r) then
    let meta_index_block :=
      match filter_policy, filter_block r with
      | Some P, Some _ =>
          BB.Add (block_restart_interval opt) BB.BlockBuilder_new (filter_key P) (Handle_EncodeTo [] filter_block_handle)
      | _, _ => BB.BlockBuilder_new
      end in
    '(r, handle, _) ← WriteBlock r meta_index_block;
    Some (r, handle)
  else Some (r, BlockHandle_new).

Definition finish_index (r : Rep) : option (Rep * BlockHandle) :=
  if ok (tb_status r) then
    r ← (if pending_index_entry r then
           succ ← FindShortSuccessor (last_key r);
           Some (add_index_entry r succ)
         else Some r);
    '(r, handle, block) ← WriteBlock r (index_block r);
    Some (MkTableRep (tb_file r) (tb_offset r) (tb_status r) (data_block r) block (last_key r) (num_entries r)
            (index_queue r) (fnumber r) (closed r) (filter_block r) (index_meta r) (pending_index_entry r)
            (pending_handle r), handle)
  else Some (r, BlockHandle_new).

Definition finish_footer (r : Rep) (footer : Footer) : option Rep :=
  if ok (tb_status r) then
    let footer_encoding := Footer_EncodeTo [] footer in
    '(s, f) ← Append (tb_file r) footer_encoding;
    Some (set_out r f (if ok s then u64 (tb_offset r + Z.of_nat (length footer_encoding)) else tb_offset r) s)
  else Some r.

(** [r->status = r->file->f();] if no error so far. *)
Definition on_file (f : F -> option (Status * F)) (r : Rep) : option Rep :=
  if_ok (fun r => '(s, g) ← f (tb_file r); Some (set_out r g (tb_offset r) s)) r.

Section finish.
Context {X : Type} {IX : Index X}.

Definition tb_Finish (r : Rep) (index : X) (edit : option (list Z)) (for_gc : bool)
    : option (Status * Rep * X) :=
  r ← tb_Flush r;
  '(r, filter_block_handle) ← finish_filter (set_closed r);
  '(r, metaindex_block_handle) ← finish_metaindex r filter_block_handle;
  '(r, index_block_handle) ← finish_index r;
  r ← finish_footer r (MkFooter metaindex_block_handle index_block_handle);
  r ← on_file Sync r;
  r ← on_file Close r;
  let '(index, queue) := Index_AddQueue index (index_queue r) edit for_gc in
  Some (tb_status r,
        MkTableRep (tb_file r) (tb_offset r) (tb_status r) (data_block r) (index_block r) (last_key r) (num_entries r)
          queue (fnumber r) (closed r) (filter_block r) (index_meta r) (pending_index_entry r) (pending_handle r),
        index).
End finish.

Definition Abandon (r : Rep) : Rep := set_closed r.
Definition NumEntries (r : Rep) : Z := num_entries r.
Definition FileSize (r : Rep) : Z := tb_offset r.

End builder.
