(* ===== verification/Table.v ===== *)
(** * Reading a table

    [table/table.cc]: opening a table file, the block function of its
    iterator with the block cache, its two-level iterator, and point lookups
    through the index block and the filter.  What the destructors of
    iterators release is not part of the model. *)

From Stdlib Require Import String.
From S2P Require Import Prelude Status Coding Bloom Crc32c Comparator Files Iterator Block FilterBlock TableFormat TwoLevel TableBuilder.

(** The block cache, as far as tables use it: a key is a string of 16 bytes. *)
Class BlockCache (K : Type) := {
  bc_NewId : K -> Z * K;
  bc_Lookup : K -> bytes -> option Block * K;
  bc_Insert : K -> bytes -> Block -> Z -> K }.

(** [Table::Rep]. *)
Record Table (G : Type) := MkTable {
  t_file : G;
  cache_id : Z;
  t_filter : option FB.FilterBlockReader;
  t_metaindex_handle : BlockHandle;
  t_index_block : Block }.
Arguments MkTable {G}.
Arguments t_file {G}.
Arguments cache_id {G}.
Arguments t_filter {G}.
Arguments t_metaindex_handle {G}.
Arguments t_index_block {G}.

(** The members of [ReadOptions] that matter here. *)
Record ReadOptions := MkReadOptions { verify_checksums : bool; fill_cache : bool }.

Definition ReadOptions_new : ReadOptions := MkReadOptions false true.

Section table.
Context {G K : Type} {R : RandomAccessFile G} {BC : BlockCache K} {C : Comparator} {CP : CrcPort} {SP : SnappyPort}.
Context (addr : bytes -> Z) (opt : TableOptions) (filter_policy : option FilterPolicy).

(** The options [Open], [ReadMeta] and [ReadFilter] read with. *)
Definition meta_verify : bool := paranoid_checks opt.

Definition ReadFilter (file : G) (filter_handle_value : bytes) : option (option FB.FilterBlockReader) :=
  match Handle_DecodeFrom filter_handle_value with
  | inr _ => Some None
  | inl (filter_handle, _) =>
      block ← ReadBlock addr file meta_verify filter_handle;
      match block with
      | inr _ => Some None
      | inl block => r ← FB.FilterBlockReader_new (bc_data block); Some (Some r)
      end
  end.

Definition ReadMeta (file : G) (footer : Footer) : option (option FB.FilterBlockReader) :=
  match filter_policy with
  | None => Some None
  | Some P =>
      contents ← ReadBlock addr file meta_verify (metaindex_handle footer);
      match contents with
      | inr _ => Some None
      | inl contents =>
          meta ← Block_new (bc_data contents);
          iter ← Block_NewIterator meta;
          let key := filter_key P in
          iter ← @it_Seek _ (@BlockIterator_iterator Bytewise.BytewiseComparator) iter key;
          if @it_Valid _ (@BlockIterator_iterator Bytewise.BytewiseComparator) iter then
            k ← @it_key _ (@BlockIterator_iterator Bytewise.BytewiseComparator) iter;
            if slice_eqb k key then
              v ← @it_value _ (@BlockIterator_iterator Bytewise.BytewiseComparator) iter;
              ReadFilter file v
            else Some None
          else Some None
      end
  end.

(** [Open]: a table, or a status that is not OK; [cache] is the block cache if
    there is one. *)
Definition Open (file : G) (size : Z) (cache : option K) : option ((Table G + Status) * option K) :=
  if size <? kEncodedLength then Some (inr (Corruption (bs "file is too short to be an sstable")), cache)
  else
    '(s, footer_input) ← ReadAt file (size - kEncodedLength) kEncodedLength true;
    if negb (ok s) then Some (inr s, cache)
    else
      footer ← Footer_DecodeFrom footer_input;
      match footer with
      | inr s => Some (inr s, cache)
      | inl (footer, _) =>
          contents ← ReadBlock addr file meta_verify (index_handle footer);
          match contents with
          | inr s => Some (inr s, cache)
          | inl contents =>
              index_block ← Block_new (bc_data contents);
              let '(id, cache) :=
                match cache with Some c => let '(id, c) := bc_NewId c in (id, Some c) | None => (0, None) end in
              filter ← ReadMeta file footer;
              Some (inl (MkTable file id filter (metaindex_handle footer) index_block), cache)
          end
      end.

(** The block at a handle, from the cache or the file, as [BlockReader] and
    [BlockIterator] get it. *)
Definition GetBlock (t : Table G) (ropt : ReadOptions) (cache : option K) (handle : BlockHandle)
    : option ((Block + Status) * option K) :=
  match cache with
  | Some c =>
      let key := EncodeFixed64 true (cache_id t) ++ EncodeFixed64 true (h_offset handle) in
      let '(found, c) := bc_Lookup c key in
      match found with
      | Some block => Some (inl block, Some c)
      | None =>
          contents ← ReadBlock addr (t_file t) (verify_checksums ropt) handle;
          match contents with
          | inr s => Some (inr s, Some c)
          | inl contents =>
              block ← Block_new (bc_data contents);
              Some (inl block,
                Some (if cachable contents && fill_cache ropt then bc_Insert c key block (size_ block) else c))
          end
      end
  | None =>
      contents ← ReadBlock addr (t_file t) (verify_checksums ropt) handle;
      match contents with
      | inr s => Some (inr s, None)
      | inl contents => block ← Block_new (bc_data contents); Some (inl block, None)
      end
  end.

Definition iter_of (block : Block + Status) : option BlockIterator :=
  match block with
  | inl block => Block_NewIterator block
  | inr s => Some (BEmpty (NewErrorIterator s))
  end.

Definition BlockReader (t : Table G) (ropt : ReadOptions) (cache : option K) (index_value : bytes)
    : option (BlockIterator * option K) :=
  match Handle_DecodeFrom index_value with
  | inr s => Some (BEmpty (NewErrorIterator s), cache)
  | inl (handle, _) =>
      '(block, cache) ← GetBlock t ropt cache handle;
      iter ← iter_of block;
      Some (iter, cache)
  end.

Definition Table_BlockIterator (t : Table G) (ropt : ReadOptions) (cache : option K) (handle : BlockHandle)
    : option (BlockIterator * option K) :=
  '(block, cache) ← GetBlock t ropt cache handle;
  iter ← iter_of block;
  Some (iter, cache).

(** The rounds of the loops over the index: it has less entries than bytes. *)
Definition table_fuel (t : Table G) : nat := S (S (S (length (blk_data_ (t_index_block t))))).

Definition TableIterator : Type := TwoLevelIterator BlockIterator BlockIterator (option K).

Definition Table_NewIterator (t : Table G) (ropt : ReadOptions) (cache : option K) : option TableIterator :=
  index_iter ← Block_NewIterator (t_index_block t);
  NewTwoLevelIterator cache index_iter.

(** The two-level iterator of a table. *)
Definition Table_iterator (t : Table G) (ropt : ReadOptions) : Iterator TableIterator :=
  TwoLevel_iterator (BlockReader t ropt) (table_fuel t).

(** [InternalGet]: the status and the entry that the saver is called with, if
    any. *)
Definition InternalGet (t : Table G) (ropt : ReadOptions) (cache : option K) (k : bytes)
    : option (Status * option (bytes * bytes) * option K) :=
  iiter ← Block_NewIterator (t_index_block t);
  iiter ← it_Seek iiter k;
  '(s, saved, cache) ←
    (if it_Valid iiter then
       handle_value ← it_value iiter;
       may ← match filter_policy, t_filter t, Handle_DecodeFrom handle_value with
             | Some P, Some filter, inl (handle, _) => @FB.FilterKeyMayMatch P filter (h_offset handle) k
             | _, _, _ => Some true
             end;
       if negb may then Some (OK, None, cache)
       else
         '(block_iter, cache) ← BlockReader t ropt cache handle_value;
         block_iter ← it_Seek block_iter k;
         saved ← (if it_Valid block_iter then
                    bk ← it_key block_iter;
                    bv ← it_value block_iter;
                    Some (Some (bk, bv))
                  else Some None);
         Some (it_status block_iter, saved, cache)
     else Some (OK, None, cache));
  Some (if ok s then it_status iiter else s, saved, cache).

End table.
