(* ===== verification/DbTables.v ===== *)
(** * The table files of the database

    [db/builder.cc], which writes what an iterator over a memtable shows to a
    table, [db/table_cache.cc], which keeps tables open, and [Version::Get] of
    [db/version.cc], which looks a key up in the file the index names.

    The environment's [NewWritableFile], [NewRandomAccessFile] and
    [GetFileSize] are arguments, the cache behind the table cache is a class.
    What the destructors of handles release is not part of the model. *)

From Stdlib Require Import String.
From S2P Require Import Prelude Status Coding Bloom Crc32c Comparator FileName Files DbFormat VersionEdit Iterator Block FilterBlock TableFormat TwoLevel TableBuilder Table.

(** ** Building a table *)

Section build.
Context {S : Type} {I : Iterator S} {F : Type} {W : WritableFile F} {C : Comparator} {CP : CrcPort} {SP : SnappyPort}.
Context {X : Type} {IX : Index X}.
Context (addr : bytes -> Z) (opt : TableOptions) (filter_policy : option FilterPolicy).

(** The loop of [BuildTable]: an entry is added unless it has the user key of
    the last one added. *)
Fixpoint Build_loop (fuel : nat) (iter : S) (prev_key : bytes) (builder : TableRep F) : option (bytes * TableRep F * S) :=
  match fuel with
  | O => None
  | Datatypes.S fuel' =>
      if it_Valid iter then
        key ← it_key iter;
        value ← it_value iter;
        differs ← (if bool_decide (prev_key = []) then Some true
                   else
                     u ← ExtractUserKey prev_key;
                     k ← ExtractUserKey key;
                     c ← Compare u k;
                     Some (negb (c =? 0)));
        '(prev_key, builder) ← (if (differs : bool) then builder ← tb_Add addr opt filter_policy builder key value; Some (key, builder)
                                else Some (prev_key, builder));
        iter ← it_Next iter;
        Build_loop fuel' iter prev_key builder
      else Some (prev_key, builder, iter)
  end.

(** What [BuildTable] leaves: the status, the data of the file, the index, the
    file if it was created, and whether its name was deleted. *)
Record Built := MkBuilt {
  bt_status : Status;
  bt_meta : FileMetaData;
  bt_index : X;
  bt_file : option F;
  bt_deleted : bool }.

Definition built_meta (meta : FileMetaData) (size total : Z) (smallest largest : bytes) : FileMetaData :=
  MkFile (number meta) (allowed_seeks meta) size total total smallest largest.

(** [BuildTable]; [open] is what [NewWritableFile] gives, [table_status] the
    status of the table cache's iterator over a file of a number and size. *)
Definition BuildTable (fuel : nat) (open : F + Status) (table_status : Z -> Z -> Status) (iter : S) (meta : FileMetaData)
    (index : X) (edit : option (list Z)) : option Built :=
  let meta := MkFile (number meta) (allowed_seeks meta) 0 (total meta) (alive meta) (smallest meta) (largest meta) in
  let finish s meta index file iter :=
    let s := if negb (ok (it_status iter)) then it_status iter else s in
    Some (MkBuilt s meta index file (negb (ok s && (0 <? file_size meta)))) in
  iter ← it_SeekToFirst iter;
  if it_Valid iter then
    match open with
    | inr s => Some (MkBuilt s meta index None false)
    | inl file =>
        builder ← TableBuilder_new filter_policy file (number meta);
        small ← it_key iter;
        '(prev_key, builder, iter) ← Build_loop fuel iter [] builder;
        let n := NumEntries builder in
        '(s, builder, index) ← tb_Finish addr opt filter_policy builder index edit false;
        let meta := built_meta meta (if ok s then FileSize builder else 0) n small prev_key in
        let s := if ok s then table_status (number meta) (file_size meta) else s in
        finish s meta index (Some (tb_file builder)) iter
    end
  else finish OK meta index None iter.
End build.

(** ** The table cache *)

(** The cache of open tables, by the 8 bytes of a file number. *)
Class TableStore (T G : Type) := {
  ts_Lookup : T -> bytes -> option (Table G) * T;
  ts_Insert : T -> bytes -> Table G -> T;
  ts_Erase : T -> bytes -> T }.

Section cache.
Context {T G K : Type} {TS : TableStore T G} {R : RandomAccessFile G} {BC : BlockCache K} {C : Comparator} {CP : CrcPort} {SP : SnappyPort}.
Context (addr : bytes -> Z) (opt : TableOptions) (filter_policy : option FilterPolicy).
Context (dbname : bytes) (open_file : bytes -> G + Status) (file_size_of : bytes -> Status * Z).

Definition table_key (file_number : Z) : bytes := EncodeFixed64 true file_number.

(** [FindTable]; the size of the file is asked under its new name. *)
Definition FindTable (tc : T) (bc : option K) (file_number file_size : Z) : option ((Table G + Status) * T * option K) :=
  let key := table_key file_number in
  let '(found, tc) := ts_Lookup tc key in
  match found with
  | Some t => Some (inl t, tc, bc)
  | None =>
      let fname := TableFileName dbname file_number in
      let file := match open_file fname with
                  | inl f => inl f
                  | inr s => match open_file (SSTTableFileName dbname file_number) with inl f => inl f | inr _ => inr s end
                  end in
      match file with
      | inr s => Some (inr s, tc, bc)
      | inl f =>
          let '(s, size) := if file_size =? 0 then file_size_of fname else (OK, file_size) in
          if ok s then
            '(t, bc) ← Open addr opt filter_policy f size bc;
            match t with
            | inl t => Some (inl t, ts_Insert tc key t, bc)
            | inr s => Some (inr s, tc, bc)
            end
          else Some (inr s, tc, bc)
      end
  end.

(** [TableCache::Get]: the status and the entry that the saver is called with,
    if any. *)
Definition TableCache_Get (ropt : ReadOptions) (tc : T) (bc : option K) (file_number file_size : Z) (k : bytes)
    : option (Status * option (bytes * bytes) * T * option K) :=
  '(t, tc, bc) ← FindTable tc bc file_number file_size;
  match t with
  | inl t => '(s, saved, bc) ← InternalGet addr filter_policy t ropt bc k; Some (s, saved, tc, bc)
  | inr s => Some (s, None, tc, bc)
  end.

Definition TableCache_Evict (tc : T) (file_number : Z) : T := ts_Erase tc (table_key file_number).

(** ** Looking a key up *)

Inductive SaverState := kNotFound | kFound | kDeleted | kCorrupt.

(** [SaveValue] on a saver in state [kNotFound]. *)
Definition SaveValue (ucmp : Comparator) (user_key ikey v : bytes) : option (SaverState * option bytes) :=
  match ParseInternalKey ikey with
  | None => Some (kCorrupt, None)
  | Some parsed_key =>
      c ← @Compare ucmp (p_user_key parsed_key) user_key;
      if c =? 0 then
        Some (match type parsed_key with kTypeValue => (kFound, Some v) | kTypeDeletion => (kDeleted, None) end)
      else Some (kNotFound, None)
  end.

(** The [switch] of [Version::Get] after the lookup in the table gave [s] and
    the entry [saved]. *)
Definition answer (ucmp : Comparator) (user_key : bytes) (s : Status) (saved : option (bytes * bytes)) : option (Status * option bytes) :=
  '(state, value) ← match saved with Some (k, v) => SaveValue ucmp user_key k v | None => Some (kNotFound, None) end;
  Some (if negb (ok s) then (s, value)
        else match state with
             | kNotFound => (NotFound [], value)
             | kFound => (s, value)
             | kDeleted => (NotFound [], value)
             | kCorrupt => (Corruption2 (bs "corrupted key for") user_key, value)
             end).

(** [Version::Get]; [index_get] is [Get] of the index, a [uint32_t].  The last
    component but two is [file_number], if it was set. *)
Definition Version_Get (ucmp : Comparator) (index_get : bytes -> Z) (ropt : ReadOptions) (tc : T) (bc : option K) (key : LookupKey)
    : option (Status * option bytes * option Z * T * option K) :=
  let ikey := internal_key key in
  let user_key := user_key key in
  let file_no := u32 (index_get user_key) in
  if file_no =? u32 (-1) then Some (NotFound [], None, None, tc, bc)
  else
    '(s, saved, tc, bc) ← TableCache_Get ropt tc bc file_no 0 ikey;
    '(s, value) ← answer ucmp user_key s saved;
    Some (s, value, Some file_no, tc, bc).
End cache.
