(* ===== verification/DbCompact.v ===== *)
(** * Compactions

    [Compaction] and [PickCompaction] of [db/version_control.cc], and the
    compaction of tables in [db/db_impl.cc]: the merge of the input tables
    into output tables of bounded size, which leaves out the entries that are
    hidden and those of keys for which the index names a file that is not an
    input, and the edit that replaces the inputs by the outputs.

    [DoCompactionWork] gives up the mutex.  What happens meanwhile to the index
    and to the versions, the flush of a memtable by the loop itself included,
    is an argument, and so is the state of [shutting_down_] at every round. *)

From Stdlib Require Import String.
From S2P Require Import Prelude Status Coding Bloom Crc32cTables Crc32c Comparator Files Log DbFormat VersionEdit Version Iterator Block FilterBlock TableFormat TwoLevel TableBuilder Table.

(** ** The choice of the inputs *)

Module Compaction.

(** The inputs of a compaction, addresses of file data. *)
Record Compaction := MkCompaction { inputs_ : list Z }.

Definition Compaction_new : Compaction := MkCompaction [].
Definition AddInput (c : Compaction) (p : Z) : Compaction := MkCompaction (inputs_ c ++ [p]).
Definition num_input_files (c : Compaction) : Z := Z.of_nat (length (inputs_ c)).
Definition ReleaseFiles (c : Compaction) : Compaction := MkCompaction [].

(** The numbers of the inputs, which do not change. *)
Definition input_numbers (h : VC.Heap) (c : Compaction) : option (list Z) := mapM (fun p => number <$> h !! p) (inputs_ c).

Fixpoint IsInput (numbers : list Z) (num : Z) : bool :=
  match numbers with
  | [] => false
  | n :: numbers => (n =? num) || IsInput numbers num
  end.

Definition AddInputDeletions (numbers : list Z) (edit : VersionEdit) : VersionEdit :=
  foldl (fun e n => DeleteFile n e) edit numbers.

(** The loop of [ForcedPick]; [forced_compaction_size] is an [int], compared as
    [size_t]. *)
Fixpoint ForcedPick (forced_compaction_size : Z) (l : list (Z * Z)) (c : Compaction) : Compaction :=
  match l with
  | [] => c
  | (_, p) :: l =>
      if num_input_files c <=? u64 forced_compaction_size then ForcedPick forced_compaction_size l (AddInput c p) else c
  end.

Section pick.
Context {F : Type} (order : gmap Z Z -> list (Z * Z)) (forced_compaction_size : Z).
Implicit Types vc : VersionControl F.

Definition set_state_change vc (b : bool) : VersionControl F :=
  MkVC (vc_next_file_number_ vc) (vc_manifest_file_number_ vc) (vc_last_sequence_ vc) (vc_log_number_ vc)
    (vc_prev_log_number_ vc) b (vc_heap vc) (vc_current_ vc) (vc_descriptor_log_ vc).

Definition PickCompaction vc : option Compaction * VersionControl F :=
  let v := vc_current_ vc in
  if VC.MergeNumFiles v <=? 1 then (None, vc)
  else
    let to_compact := VC.files_to_compact_ v in
    let c := if 1 <? Z.of_nat (length to_compact) then foldl AddInput Compaction_new to_compact else Compaction_new in
    let c := if num_input_files c <=? 1 then
               let c := ReleaseFiles c in
               if VC.StopWritesTrigger <=? VC.MergeNumFiles v then ForcedPick forced_compaction_size (order (VC.candidates_ v)) c else c
             else c in
    if num_input_files c <=? 1 then (None, set_state_change vc false) else (Some c, set_state_change vc true).
End pick.
End Compaction.

(** ** The work *)

Module Work.
Import Compaction.

Section work.
Context {S : Type} {I : Iterator S} {F : Type} {W : WritableFile F} (U : Comparator) {CP : CrcPort} {SP : SnappyPort}.
Context {X : Type} {IX : Index X} (index_get : X -> bytes -> Z).
Context (addr : bytes -> Z) (opt : TableOptions) (filter_policy : option FilterPolicy).
(** [NewWritableFile] on the name of a table, the status of the table cache's
    iterator over a file of a number and size, and [MaxOutputFileSize]. *)
Context (open_table : Z -> F + Status) (table_status : Z -> Z -> Status) (max_output_file_size : Z).
(** What others do to the index and the versions before a round, and what the
    round sees of [shutting_down_]. *)
Context (other : nat -> X -> VersionControl F -> X * VersionControl F) (stop : nat -> bool).

(** [CompactionState::Output]; [o_result] is the size of the file, the number of
    its entries, which both [total] and [alive] are set to, and the file,
    once it is finished. *)
Record Output := MkOutput {
  o_number : Z;
  o_smallest : bytes;
  o_largest : bytes;
  o_result : option (Z * Z * F) }.

(** [CompactionState], with what the work changes outside of it. *)
Record CompactionState := MkState {
  outputs : list Output;
  builder : option (TableRep F);
  total_bytes : Z;
  cs_index : X;
  cs_vc : VersionControl F;
  cs_pending_outputs : gset Z }.

(** [current_output]. *)
Definition on_current (f : Output -> Output) (c : CompactionState) : CompactionState :=
  MkState (alter f (length (outputs c) - 1)%nat (outputs c)) (builder c) (total_bytes c) (cs_index c) (cs_vc c) (cs_pending_outputs c).

Definition set_builder (c : CompactionState) (b : option (TableRep F)) : CompactionState :=
  MkState (outputs c) b (total_bytes c) (cs_index c) (cs_vc c) (cs_pending_outputs c).

Definition OpenCompactionOutputFile (c : CompactionState) : option (Status * CompactionState) :=
  let '(file_number, vc) := NewFileNumber (cs_vc c) in
  let c := MkState (outputs c ++ [MkOutput file_number [] [] None]) (builder c) (total_bytes c) (cs_index c) vc
             ({[file_number]} ∪ cs_pending_outputs c) in
  match open_table file_number with
  | inl f => b ← TableBuilder_new filter_policy f file_number; Some (OK, set_builder c (Some b))
  | inr s => Some (s, c)
  end.

Definition FinishCompactionOutputFile (c : CompactionState) (input : S) : option (Status * CompactionState) :=
  out ← last (outputs c);
  b ← builder c;
  let output_number := o_number out in
  let s := it_status input in
  let current_entries := NumEntries b in
  '(s, b, index) ← (if ok s then tb_Finish (C := InternalKeyComparator U) addr opt filter_policy b (cs_index c) (Some []) true
                    else Some (s, Abandon b, cs_index c));
  let current_bytes := FileSize b in
  let c := on_current (fun o => MkOutput (o_number o) (o_smallest o) (o_largest o) (Some (current_bytes, current_entries, tb_file b))) c in
  let c := MkState (outputs c) None (u64 (total_bytes c + current_bytes)) index (cs_vc c) (cs_pending_outputs c) in
  let s := if ok s && (0 <? current_entries) then table_status output_number current_bytes else s in
  Some (s, c).

(** The part of the loop that adds an entry: the first component tells whether
    the loop goes on. *)
Definition add_entry (c : CompactionState) (input : S) (key value : bytes) : option (bool * Status * CompactionState) :=
  '(s, c) ← match builder c with Some _ => Some (OK, c) | None => OpenCompactionOutputFile c end;
  if negb (ok s) then Some (false, s, c)
  else
    b ← builder c;
    let c := on_current (fun o => MkOutput (o_number o) (if NumEntries b =? 0 then key else o_smallest o) key (o_result o)) c in
    b ← tb_Add (C := InternalKeyComparator U) addr opt filter_policy b key value;
    let c := set_builder c (Some b) in
    if max_output_file_size <=? FileSize b then
      '(s, c) ← FinishCompactionOutputFile c input;
      Some (ok s, s, c)
    else Some (true, OK, c).

(** The last key that was parsed, and its sequence number: [current_user_key]
    and [last_sequence_for_key], and whether the entry is hidden. *)
Definition hides (smallest_snapshot : Z) (current : option bytes) (last_sequence : Z) (key : bytes)
    : option (bool * option bytes * Z) :=
  match ParseInternalKey key with
  | None => Some (false, None, kMaxSequenceNumber)
  | Some ikey =>
      differs ← match current with
                | None => Some true
                | Some k => c ← @Compare U (p_user_key ikey) k; Some (negb (c =? 0))
                end;
      let last_sequence := if (differs : bool) then kMaxSequenceNumber else last_sequence in
      Some (last_sequence <=? smallest_snapshot, Some (p_user_key ikey), sequence ikey)
  end.

(** The loop of [DoCompactionWork] from round [i] on. *)
Fixpoint Work_loop (fuel : nat) (numbers : list Z) (smallest_snapshot : Z) (i : nat) (input : S)
    (current : option bytes) (last_sequence : Z) (c : CompactionState) : option (Status * CompactionState * S) :=
  match fuel with
  | O => None
  | Datatypes.S fuel =>
      if it_Valid input && negb (stop i) then
        let '(index, vc) := other i (cs_index c) (cs_vc c) in
        let c := MkState (outputs c) (builder c) (total_bytes c) index vc (cs_pending_outputs c) in
        key ← it_key input;
        '(hidden, current, last_sequence) ← hides smallest_snapshot current last_sequence key;
        u ← ExtractUserKey key;
        let drop := hidden || negb (IsInput numbers (u32 (index_get index u))) in
        '(go, s, c) ← (if (drop : bool) then Some (true, OK, c) else value ← it_value input; add_entry c input key value);
        if (go : bool) then
          input ← it_Next input;
          Work_loop fuel numbers smallest_snapshot (i + 1)%nat input current last_sequence c
        else Some (s, c, input)
      else Some (if stop i then IOError (bs "Deleting DB during compaction") else OK, c, input)
  end.

(** [DoCompactionWork] up to the edit: the status, the outputs and the input
    iterator. *)
Definition Work_run (fuel : nat) (numbers : list Z) (smallest_snapshot : Z) (input : S) (c : CompactionState)
    : option (Status * CompactionState) :=
  input ← it_SeekToFirst input;
  '(s, c, input) ← Work_loop fuel numbers smallest_snapshot 0 input None kMaxSequenceNumber c;
  '(s, c) ← (if ok s && bool_decide (is_Some (builder c)) then FinishCompactionOutputFile c input else Some (s, c));
  Some (if ok s then it_status input else s, c).

(** The edit of [InstallCompactionResults]. *)
Definition add_output (e : VersionEdit) (o : Output) : option VersionEdit :=
  '(size, n, _) ← o_result o;
  Some (AddFile (o_number o) size n n (o_smallest o) (o_largest o) e).

Fixpoint add_outputs (e : VersionEdit) (outs : list Output) : option VersionEdit :=
  match outs with
  | [] => Some e
  | o :: outs => e ← add_output e o; add_outputs e outs
  end.

Definition install_edit (numbers : list Z) (outs : list Output) : option VersionEdit :=
  add_outputs (AddInputDeletions numbers VersionEdit_new) outs.

(** [DoCompactionWork]; [snapshots] has the numbers of the snapshots, the oldest
    first, and [log_and_apply] is [LogAndApply]. *)
Definition DoCompactionWork (fuel : nat) (log_and_apply : VersionControl F -> VersionEdit -> option (Status * VersionEdit * VersionControl F))
    (snapshots : list Z) (comp : Compaction) (input : S) (index : X) (vc : VersionControl F) (pending : gset Z)
    : option (Status * CompactionState) :=
  numbers ← input_numbers (vc_heap vc) comp;
  let smallest_snapshot := match snapshots with [] => vc_last_sequence_ vc | s :: _ => s end in
  '(s, c) ← Work_run fuel numbers smallest_snapshot input (MkState [] None 0 index vc pending);
  if ok s then
    edit ← install_edit numbers (outputs c);
    '(s, _, vc) ← log_and_apply (cs_vc c) edit;
    Some (s, MkState (outputs c) (builder c) (total_bytes c) (cs_index c) vc (cs_pending_outputs c))
  else Some (s, c).

(** [CleanupCompaction], for the outputs that were pending. *)
Definition CleanupCompaction (c : CompactionState) : gset Z :=
  foldl (fun p o => p ∖ {[o_number o]}) (cs_pending_outputs c) (outputs c).
End work.
End Work.
