(* ===== verification/TableSpec.v ===== *)
(** * What a table builder writes

    The layout of a table file under construction, as an invariant of the
    operations of [TableBuilder.v], and the layout of the finished file, which
    [TableReadSpec.v] reads. *)

From Stdlib Require Import String.
From S2P Require Import Prelude Status Coding Bloom Crc32c Comparator Files DbFormat Iterator Block BlockSpec FilterBlock TableFormat TwoLevel TableBuilder Table.

(** ** Writing blocks *)

Section write.
Context {F : Type} {W : WritableFile F} {contents : F -> bytes} {file_ok : F -> Prop}.
Context {HW : WritableFileSpec F contents file_ok}.
Context {CP : CrcPort} {HP : CrcPortSpec CP} {SP : SnappyPort} {HS : SnappyPortSpec SP}.
Context (addr : bytes -> Z) (opt : TableOptions).

Abbreviation Rep := (TableRep F).

(** [c] is [raw] or its compressed form. *)
Definition packs (c : bytes) (t : CompressionType) (raw : bytes) : Prop :=
  match t with
  | kNoCompression => c = raw
  | kSnappyCompression => Snappy_Compress raw = Some c
  end.

Lemma compress_packs (raw : bytes) : packs (compress opt raw).1 (compress opt raw).2 raw.
Proof.
  unfold compress. destruct (compression opt); [done|]. destruct (Snappy_Compress raw) eqn:E; [|done].
  by destruct (_ <? _).
Qed.

(** [r'] is [r] after [raw] has been written as the block [h]. *)
Definition wrote (r r' : Rep) (h : BlockHandle) (raw : bytes) : Prop :=
  exists f c t, r' = set_out r f (u64 (tb_offset r + (Z.of_nat (length c) + 5))) OK /\ file_ok f /\
    contents f = contents (tb_file r) ++ c ++ trailer c t /\
    h = MkHandle (tb_offset r) (Z.of_nat (length c)) /\ packs c t raw.

Lemma WriteRawBlock_ok (r : Rep) (c raw : bytes) (t : CompressionType) :
  file_ok (tb_file r) -> packs c t raw ->
  exists r' h, WriteRawBlock addr r c t = Some (r', h) /\ wrote r r' h raw.
Proof.
  intros Hf Hc. unfold WriteRawBlock.
  destruct (Append_contents (tb_file r) c Hf) as (f1 & -> & Hc1 & Hf1). cbn [mbind option_bind]. simpl (ok OK). cbn iota.
  rewrite Value_ok, Extend_ok by (apply crc32c_bound; lia). rewrite <- crc32c_app.
  change ([byte.of_Z (CompressionType_to_Z t)] ++ EncodeFixed32 true (Mask (crc32c 0 (c ++ [byte.of_Z (CompressionType_to_Z t)]))))
    with (trailer c t).
  destruct (Append_contents f1 (trailer c t) Hf1) as (f2 & -> & Hc2 & Hf2). cbn [mbind option_bind]. simpl (ok OK). cbn iota.
  eexists _, _. split; [done|]. exists f2, c, t. rewrite Hc2, Hc1, <- app_assoc. done.
Qed.

Lemma WriteBlock_ok (r : Rep) (b : BB.BlockBuilder) :
  file_ok (tb_file r) ->
  exists r' h, WriteBlock addr opt r b = Some (r', h, BB.BlockBuilder_new) /\ wrote r r' h (BB.Finish b).1.
Proof.
  intros Hf. unfold WriteBlock. destruct (BB.Finish b) as [raw b'] eqn:E. pose proof (compress_packs raw) as Hp.
  destruct (compress opt raw) as [c t]. simpl in Hp.
  destruct (WriteRawBlock_ok r c raw t Hf Hp) as (r' & h & -> & Hw). by exists r', h.
Qed.

Lemma wrote_stored (r r' : Rep) (h : BlockHandle) (raw : bytes) :
  wrote r r' h raw -> tb_offset r = Z.of_nat (length (contents (tb_file r))) ->
  Z.of_nat (length (contents (tb_file r'))) < 2 ^ 32 ->
  stored (contents (tb_file r')) h raw /\ tb_offset r' = Z.of_nat (length (contents (tb_file r'))) /\
  h_offset h = tb_offset r /\ tb_offset r < tb_offset r' /\ Z.of_nat (length raw) < 2 ^ 32.
Proof.
  intros (f & c & t & -> & _ & Hc & -> & Hp) Ho. cbn [tb_file set_out tb_offset]. intros Hlen.
  rewrite Hc, !length_app, trailer_length in Hlen. unfold u64. rewrite Z.mod_small by lia.
  split_and!; [|rewrite Hc, !length_app, trailer_length; lia|done|lia|].
  - exists (contents (tb_file r)), c, t, []. rewrite app_nil_r. split_and!; [done|done|done|].
    destruct t; [done|]. destruct (snappy_round _ _ Hp) as [-> ->]. by split.
  - destruct t; simpl in Hp; [subst; lia|by eapply snappy_length].
Qed.

Lemma wrote_file (r r' : Rep) (h : BlockHandle) (raw : bytes) :
  wrote r r' h raw -> file_ok (tb_file r') /\ tb_status r' = OK /\
  exists x, contents (tb_file r') = contents (tb_file r) ++ x.
Proof. intros (f & c & t & -> & Hf & Hc & _). split; [done|]. split; [done|]. eexists. exact Hc. Qed.
End write.

(** ** The layout of a table under construction *)

(** A block of the index: its key, its handle and its entries. *)
Record Seg := MkSeg { sg_key : bytes; sg_handle : BlockHandle; sg_ents : list (bytes * bytes) }.

Abbreviation Blk := (BlockHandle * list (bytes * bytes))%type.

Definition blocks_of (segs : list Seg) (pend : option Blk) : list Blk :=
  ((fun s => (sg_handle s, sg_ents s)) <$> segs) ++ option_list pend.

Definition index_of (segs : list Seg) : list (bytes * bytes) :=
  (fun s => (sg_key s, Handle_EncodeTo [] (sg_handle s))) <$> segs.

Definition filter_blocks (bl : list Blk) : list (Z * list bytes) := (fun b : Blk => (h_offset b.1, b.2.*1)) <$> bl.

Definition pend_ents (pend : option Blk) : list (bytes * bytes) := match pend with Some b => b.2 | None => [] end.

Lemma blocks_of_ents (segs : list Seg) (pend : option Blk) :
  concat ((blocks_of segs pend).*2) = concat (sg_ents <$> segs) ++ pend_ents pend.
Proof.
  unfold blocks_of. rewrite fmap_app, concat_app, <- list_fmap_compose. f_equal. destruct pend; simpl; [apply app_nil_r|done].
Qed.

(** A separator of [s] and [l] is below every key above [s] that a filter
    takes to be the same as [l]. *)
Definition sep_sharp (C : Comparator) (ok : bytes -> Prop) (same : bytes -> bytes -> Prop) : Prop :=
  forall s l t k, ok s -> ok l -> ok k -> cmp_lt s l -> FindShortestSeparator s l = Some t ->
    same l k -> cmp_lt s k -> cmp_lt t k.

Section seps.
Context {C : Comparator} {ok : bytes -> Prop} {HC : ComparatorSpec C ok} (same : bytes -> bytes -> Prop).

(** No key that is the same as the entry after [s] and above those of [s] is
    looked up in [s]. *)
Definition sharp (s : Seg) (rest : list (bytes * bytes)) : Prop :=
  forall e k, head rest = Some e -> ok k -> same e.1 k ->
    Forall (fun x : bytes * bytes => cmp_lt x.1 k) (sg_ents s) -> cmp_lt (sg_key s) k.

(** The key of each block is not below its entries, and below those that
    follow. *)
Fixpoint seps (segs : list Seg) (rest : list (bytes * bytes)) : Prop :=
  match segs with
  | [] => True
  | s :: l =>
      ok (sg_key s) /\ Forall (fun e : bytes * bytes => ~ cmp_lt (sg_key s) e.1) (sg_ents s) /\
      Forall (fun e : bytes * bytes => cmp_lt (sg_key s) e.1) (concat (sg_ents <$> l) ++ rest) /\
      sharp s (concat (sg_ents <$> l) ++ rest) /\ seps l rest
  end.

Lemma seps_extend (segs : list Seg) (rest : list (bytes * bytes)) (e0 e : bytes * bytes) :
  seps segs rest -> (segs <> [] -> e0 ∈ rest) -> ok e0.1 -> ok e.1 -> cmp_lt e0.1 e.1 -> seps segs (rest ++ [e]).
Proof.
  intros Hs Hin He0 He Hlt. induction segs as [|s l IH]; [done|].
  destruct Hs as (Hk & Hl & Hh & Hsh & Hs). specialize (Hin ltac:(done)). simpl. split_and!; [done|done| | |].
  - rewrite app_assoc. apply Forall_app. split; [done|]. apply Forall_singleton.
    apply Forall_app in Hh as [_ Hh]. apply (cmp_trans (sg_key s) e0.1 e.1); try done.
    exact (proj1 (Forall_forall _ _) Hh e0 Hin).
  - intros e1 k He1. apply Hsh. rewrite app_assoc in He1. destruct (_ ++ rest) as [|x y] eqn:E; [|done].
    apply app_nil in E as [_ ->]. set_solver.
  - by apply IH.
Qed.

Lemma seps_snoc (segs : list Seg) (s : Seg) (rest : list (bytes * bytes)) :
  seps segs (sg_ents s ++ rest) -> seps [s] rest -> seps (segs ++ [s]) rest.
Proof.
  intros Hs Hn. induction segs as [|s0 l IH]; [done|]. destruct Hs as (Hk & Hl & Hh & Hsh & Hs). simpl.
  assert (concat (sg_ents <$> l ++ [s]) ++ rest = concat (sg_ents <$> l) ++ sg_ents s ++ rest) as ->.
  { rewrite fmap_app, concat_app. simpl. by rewrite app_nil_r, <- app_assoc. }
  split_and!; [done|done|done|done|by apply IH].
Qed.
End seps.

Lemma Adds_empty (r : Z) (es : list (bytes * bytes)) :
  BB.empty (BB.Adds r BB.BlockBuilder_new es) = match es with [] => true | _ => false end.
Proof.
  destruct es as [|[k v] es]; [done|]. unfold BB.empty.
  change (BB.Adds r BB.BlockBuilder_new ((k, v) :: es)) with (BB.Adds r (BB.Add r BB.BlockBuilder_new k v) es).
  pose proof (Adds_grows r (BB.Add r BB.BlockBuilder_new k v) es) as Hg.
  assert (0 < length (BB.buffer_ (BB.Add r BB.BlockBuilder_new k v)))%nat as Hp.
  { unfold BB.Add. destruct (_ <? _); simpl; unfold PutVarint32; rewrite !length_app;
      pose proof (EncodeVarint32_nonempty 0); simpl in *; lia. }
  destruct (BB.buffer_ (BB.Adds r (BB.Add r BB.BlockBuilder_new k v) es)) eqn:E; [simpl in Hg; lia|done].
Qed.

Lemma Adds_snoc (r : Z) (b : BB.BlockBuilder) (es : list (bytes * bytes)) (k v : bytes) :
  BB.Adds r b (es ++ [(k, v)]) = BB.Add r (BB.Adds r b es) k v.
Proof. unfold BB.Adds. by rewrite foldl_app. Qed.

(** *** The calls to the filter block *)

Lemma add_blocks_app (P : FilterPolicy) (b : FB.FilterBlockBuilder) (l1 l2 : list (Z * list bytes)) :
  FB.add_blocks b (l1 ++ l2) = b ← FB.add_blocks b l1; FB.add_blocks b l2.
Proof.
  revert b. induction l1 as [|[o ks] l1 IH]; intros b; [done|]. cbn [app FB.add_blocks].
  destruct (FB.StartBlock b o); [|done]. cbn [mbind option_bind]. apply IH.
Qed.

Lemma add_blocks_key (P : FilterPolicy) (b b' : FB.FilterBlockBuilder) (l : list (Z * list bytes)) (o : Z) (ks : list bytes) (k : bytes) :
  FB.add_blocks b (l ++ [(o, ks)]) = Some b' -> FB.add_blocks b (l ++ [(o, ks ++ [k])]) = Some (FB.AddKey b' k).
Proof.
  rewrite !add_blocks_app. destruct (FB.add_blocks b l); [|done]. cbn [mbind option_bind FB.add_blocks].
  destruct (FB.StartBlock f o); [|done]. cbn [mbind option_bind FB.add_blocks]. intros [= <-]. by rewrite foldl_app.
Qed.

Lemma add_blocks_start (P : FilterPolicy) (b b' : FB.FilterBlockBuilder) (l : list (Z * list bytes)) (o : Z) :
  FB.add_blocks b l = Some b' -> FB.add_blocks b (l ++ [(o, [])]) = FB.StartBlock b' o.
Proof.
  intros Hl. rewrite add_blocks_app, Hl. cbn [mbind option_bind FB.add_blocks].
  by destruct (FB.StartBlock b' o).
Qed.

(** ** The invariant of the builder *)

Section build.
Context {F : Type} {W : WritableFile F} {contents : F -> bytes} {file_ok : F -> Prop}.
Context {HW : WritableFileSpec F contents file_ok}.
Context {C : Comparator} {ok : bytes -> Prop} {HC : ComparatorSpec C ok}.
Context {CP : CrcPort} {HP : CrcPortSpec CP} {SP : SnappyPort} {HS : SnappyPortSpec SP}.
Context (addr : bytes -> Z) (opt : TableOptions) (filter_policy : option FilterPolicy) (number : Z).
Context (keys_ok : list bytes -> Prop) (same : bytes -> bytes -> Prop).
Context (HF : forall P, filter_policy = Some P -> FilterPolicySpec P keys_ok same).
Context (Hsharp : sep_sharp C ok same).

(** The entries to be added. *)
Context (es : list (bytes * bytes)).
Context (Hsorted : StronglySorted (fun a b : bytes * bytes => cmp_lt a.1 b.1) es).
Context (Hok : Forall (fun e : bytes * bytes => ok e.1 /\ is_Some (ExtractUserKey e.1)) es).
Context (Hall : filter_policy <> None -> forall l, sublist l (es.*1) -> keys_ok l).

Abbreviation Rep := (TableRep F).
Abbreviation interval := (block_restart_interval opt).

(** The bytes of the block with some entries. *)
Definition raw (l : list (bytes * bytes)) : bytes := (BB.Finish (BB.Adds interval BB.BlockBuilder_new l)).1.

(** What is queued for the index. *)
Definition queued (e : bytes * bytes) : Z * Z := (fast_atoi (default [] (ExtractUserKey e.1)), u32 number).

Definition blk_ok (d : bytes) (b : Blk) : Prop :=
  b.2 <> [] /\ stored d b.1 (raw b.2) /\ Z.of_nat (length (raw b.2)) < 2 ^ 32.

Record layout (r : Rep) (dn : list (bytes * bytes)) (segs : list Seg) (pend : option Blk)
    (cur : list (bytes * bytes)) : Prop := MkLayout {
  l_offset : tb_offset r = Z.of_nat (length (contents (tb_file r)));
  l_index : index_block r = BB.Adds 1 BB.BlockBuilder_new (index_of segs);
  l_data : data_block r = BB.Adds interval BB.BlockBuilder_new cur;
  l_stored : Forall (blk_ok (contents (tb_file r))) (blocks_of segs pend);
  l_order : StronglySorted (fun a b : Blk => h_offset a.1 < h_offset b.1) (blocks_of segs pend);
  l_below : Forall (fun b : Blk => h_offset b.1 < tb_offset r) (blocks_of segs pend);
  l_pend : match pend with
           | Some b => pending_index_entry r = true /\ pending_handle r = b.1 /\ cur = []
           | None => pending_index_entry r = false end;
  l_ents : dn = concat ((blocks_of segs pend).*2) ++ cur;
  l_seps : seps (ok := ok) same segs (pend_ents pend ++ cur);
  l_cur : pend = None -> cur = [] -> segs = [];
  l_filter : forall P, filter_policy = Some P -> exists b, filter_block r = Some b /\
    FB.add_blocks FB.FilterBlockBuilder_new (filter_blocks (blocks_of segs pend) ++ [(tb_offset r, cur.*1)]) = Some b }.

Record tb_inv (r : Rep) (dn : list (bytes * bytes)) : Prop := MkTbInv {
  ti_status : tb_status r = OK;
  ti_file : file_ok (tb_file r);
  ti_last : last_key r = default [] (fst <$> last dn);
  ti_pend : pending_index_entry r = true -> dn <> [];
  ti_empty : BB.empty (data_block r) = false -> dn <> [];
  ti_meta : BB.empty (data_block r) = false -> index_meta r = Some (u32 number);
  ti_num : num_entries r = Z.of_nat (length dn);
  ti_fnumber : fnumber r = number;
  ti_queue : index_queue r = queued <$> dn;
  ti_filter : match filter_policy with
              | None => filter_block r = None
              | Some P => exists b segs pending, filter_block r = Some b /\
                  FB.fb_rep (P := P) (same := same) b segs pending /\ sublist pending (dn.*1) end;
  ti_layout : Z.of_nat (length (contents (tb_file r))) < 2 ^ 32 -> exists segs pend cur, layout r dn segs pend cur }.

(** *** Statements on the filter block are total *)

Lemma StartBlock_total (P : FilterPolicy) (b : FB.FilterBlockBuilder) (segs : list (list bytes * bytes))
    (pending dn : list bytes) (o : Z) :
  filter_policy = Some P -> FB.fb_rep (P := P) (same := same) b segs pending -> sublist pending dn -> sublist dn (es.*1) ->
  exists b' segs' pending', FB.StartBlock b o = Some b' /\ FB.fb_rep (P := P) (same := same) b' segs' pending' /\ sublist pending' dn.
Proof.
  intros HPf Hb Hs Hd. pose proof (HF P HPf) as HPS. unfold FB.StartBlock.
  destruct (FB.generate_placed (HP := HPS) (Z.to_nat (o / kFilterBase - Z.of_nat (length (FB.filter_offsets_ b)))) b segs pending Hb)
    as (segs' & pending' & b' & Hg & Hb' & _ & Hp & _).
  { right. apply Hall; [by rewrite HPf|]. by transitivity dn. }
  exists b', segs', pending'. split; [done|]. split; [done|]. destruct Hp as [->| ->]; [done|apply sublist_nil_l].
Qed.

Lemma layout_rising (r : Rep) (dn : list (bytes * bytes)) (segs : list Seg) (pend : option Blk) (cur : list (bytes * bytes))
    (o : Z) (ks : list bytes) :
  layout r dn segs pend cur -> tb_offset r <= o -> FB.rising 0 (filter_blocks (blocks_of segs pend) ++ [(o, ks)]).
Proof.
  intros [Hoff _ _ Hst Ho Hb _ _ _ _ _] Hle.
  assert (forall bl o0, StronglySorted (fun a b : Blk => h_offset a.1 < h_offset b.1) bl ->
    Forall (fun b : Blk => h_offset b.1 < tb_offset r) bl -> Forall (fun b : Blk => o0 <= h_offset b.1) bl -> o0 <= tb_offset r ->
    FB.rising o0 (filter_blocks bl ++ [(o, ks)])) as Hgen.
  { clear -Hle. induction bl as [|b bl IH]; intros o0 Ho Hb H0 Hr; [split; [by etransitivity|done]|].
    apply StronglySorted_inv in Ho as [Ho Hob]. apply Forall_cons in Hb as [Hb1 Hb]. apply Forall_cons in H0 as [H0 _].
    split; [done|]. apply IH; [done|done| |simpl; lia]. eapply Forall_impl; [exact Hob|]. intros b' Hb'. simpl in *. lia. }
  apply Hgen; try done; [|lia].
  eapply Forall_impl; [exact Hst|]. intros b (_ & Hs & _). by apply stored_bounds in Hs as (? & _).
Qed.

Lemma filter_blocks_keys (bl : list Blk) (o : Z) (ks : list bytes) :
  concat ((filter_blocks bl ++ [(o, ks)]).*2) = (concat (bl.*2)).*1 ++ ks.
Proof.
  rewrite fmap_app, concat_app. simpl. rewrite app_nil_r. f_equal. clear.
  induction bl as [|b bl IH]; [done|]. simpl. rewrite fmap_app. by f_equal.
Qed.

(** *** Flushing a block *)

Lemma blocks_of_pend (segs : list Seg) (b : Blk) : blocks_of segs (Some b) = blocks_of segs None ++ [b].
Proof. unfold blocks_of. simpl. by rewrite app_nil_r. Qed.

(** The layout after the current block has been written as [h]. *)
Lemma layout_flush (r r1 r2 : Rep) (dn : list (bytes * bytes)) (segs : list Seg) (cur : list (bytes * bytes)) (h : BlockHandle) :
  layout r dn segs None cur -> cur <> [] ->
  wrote (contents := contents) (file_ok := file_ok) r r1 h (raw cur) ->
  Z.of_nat (length (contents (tb_file r1))) < 2 ^ 32 ->
  contents (tb_file r2) = contents (tb_file r1) -> tb_offset r2 = tb_offset r1 ->
  index_block r2 = index_block r -> data_block r2 = BB.BlockBuilder_new ->
  pending_index_entry r2 = true -> pending_handle r2 = h ->
  (forall P, filter_policy = Some P -> exists b, filter_block r = Some b /\ filter_block r2 = FB.StartBlock b (tb_offset r1) /\
     is_Some (filter_block r2)) ->
  layout r2 dn segs (Some (h, cur)) [].
Proof.
  intros Hl Hne Hw Hlen Hc Ho Hi Hd Hp Hh Hf. pose proof Hl as [Lo Li Ld Lst Lor Lbe Lp Le Ls _ Lf].
  destruct (wrote_stored r r1 h (raw cur) Hw Lo Hlen) as (Hst & Ho1 & Hho & Hlt & Hraw).
  destruct (wrote_file r r1 h (raw cur) Hw) as (_ & _ & x & Hx).
  rewrite <- Ho in *.
  split; rewrite ?blocks_of_pend, ?app_nil_r; try done.
  - by rewrite Ho1, Hc.
  - by rewrite Hi.
  - rewrite Hc. apply Forall_app. split; [|by apply Forall_singleton].
    eapply Forall_impl; [exact Lst|]. intros b (? & ? & ?). split_and!; [done|rewrite Hx; by apply stored_app|done].
  - apply sorted_snoc; [done|]. eapply Forall_impl; [exact Lbe|]. simpl. intros b. lia.
  - apply Forall_app. split; [eapply Forall_impl; [exact Lbe|]; simpl; lia|]. apply Forall_singleton. simpl. lia.
  - rewrite Le, fmap_app, concat_app. simpl. by rewrite app_nil_r.
  - intros P HPf. destruct (Hf P HPf) as (b & Hb & Hb2 & [b2 Hb3]). destruct (Lf P HPf) as (b' & Hb' & Hadd).
    exists b2. split; [done|]. unfold filter_blocks. rewrite fmap_app. simpl.
    rewrite (add_blocks_start P _ b'); [congruence|]. rewrite Hho. exact Hadd.
Qed.

Lemma policy_cases : filter_policy = None \/ exists P, filter_policy = Some P.
Proof. clear. destruct filter_policy; eauto. Qed.

(** The filter block of [r] can start a new block. *)
Lemma on_filter_start (r r0 : Rep) (dn : list (bytes * bytes)) (o : Z) :
  tb_inv r dn -> dn `prefix_of` es -> filter_block r0 = filter_block r ->
  exists fb, on_filter filter_policy (fun P b => @FB.StartBlock P b o) r0 = Some (set_filter_block r0 fb) /\
    match filter_policy with
    | None => fb = None
    | Some P => exists b b' segs pending, filter_block r = Some b /\ fb = Some b' /\ FB.StartBlock b o = Some b' /\
        FB.fb_rep (P := P) (same := same) b' segs pending /\ sublist pending (dn.*1) end.
Proof.
  intros Hi [todo Hes] Hr0. pose proof (ti_filter r dn Hi) as Hf. unfold on_filter. rewrite Hr0.
  destruct policy_cases as [HPf|[P HPf]]; rewrite HPf in Hf |- *; [|].
  { exists None. split; [|done]. rewrite <- Hf, <- Hr0. by destruct r0. }
  - destruct Hf as (b & segs & pending & Hb & Hrep & Hs). rewrite Hb.
    destruct (StartBlock_total P b segs pending (dn.*1) o HPf Hrep Hs) as (b' & segs' & pending' & Hst & Hrep' & Hs').
    { rewrite Hes, fmap_app. by apply sublist_inserts_r. }
    rewrite Hst. exists (Some b'). split; [done|]. eauto 10.
Qed.

Lemma tb_Flush_ok (r : Rep) (dn : list (bytes * bytes)) :
  tb_inv r dn -> dn `prefix_of` es ->
  exists r', tb_Flush addr opt filter_policy r = Some r' /\ tb_inv r' dn /\ BB.empty (data_block r') = true /\
    exists x, contents (tb_file r') = contents (tb_file r) ++ x.
Proof.
  intros Hi Hpre. pose proof Hi as [Ist If Il Ip Ie Im In Ifn Iq Ifi Ilay]. unfold tb_Flush. rewrite Ist. change (Status.ok OK) with true. cbn [negb].
  destruct (BB.empty (data_block r)) eqn:Hem.
  { exists r. split; [done|]. split; [done|]. split; [done|]. exists []. by rewrite app_nil_r. }
  destruct (WriteBlock_ok addr opt r (data_block r) If) as (r1 & h & -> & Hw). cbn [mbind option_bind].
  destruct (wrote_file r r1 h _ Hw) as (Hf1 & Hs1 & x & Hx). rewrite Hs1. change (Status.ok OK) with true. cbn iota.
  destruct (Flush_contents (tb_file r1) Hf1) as (f2 & -> & Hc2 & Hf2). cbn [mbind option_bind].
  assert (filter_block r1 = filter_block r /\ index_block r1 = index_block r /\ last_key r1 = last_key r /\
    num_entries r1 = num_entries r /\ fnumber r1 = fnumber r /\ index_queue r1 = index_queue r) as (Efb & Eib & Elk & Enu & Efn & Eiq)
    by (destruct Hw as (? & ? & ? & -> & _); done).
  match goal with |- context [on_filter _ _ ?r] => set (r2 := r) end.
  destruct (on_filter_start r r2 dn (tb_offset r1) Hi Hpre Efb) as (fb & -> & Hfb).
  exists (set_filter_block r2 fb). split; [done|]. split; [|split; [done|exists x; simpl; congruence]].
  split; cbn -[default]; try done; try congruence.
  - by intros _; apply Ie.
  - destruct policy_cases as [HPf|[P HPf]]; rewrite HPf in Hfb |- *; [done|].
    destruct Hfb as (b & b' & segs & pending & _ & -> & _ & Hrep & Hs). exists b', segs, pending. done.
  - rewrite Hc2, Hx. intros Hlen. rewrite length_app in Hlen. destruct (Ilay ltac:(lia)) as (segs & pend & cur & Hl).
    pose proof (l_data _ _ _ _ _ Hl) as Hd. rewrite Hd, Adds_empty in Hem. assert (cur <> []) as Hne by (by destruct cur).
    assert (pend = None) as -> by (pose proof (l_pend _ _ _ _ _ Hl) as Hp; destruct pend; [by destruct Hp as (_ & _ & ?)|done]).
    exists segs, (Some (h, cur)), [].
    apply (layout_flush r r1 _ dn segs cur h Hl Hne); try done; [by rewrite Hd in Hw|rewrite Hx, length_app; lia|].
    intros P HPf. rewrite HPf in Hfb. destruct Hfb as (b & b' & ? & ? & Hb & -> & Hst & _). exists b. by rewrite Hst.
Qed.

(** *** Adding an entry *)

Lemma not_below (x l s : bytes) :
  ok x -> ok l -> ok s -> (x = l \/ cmp_lt x l) -> (l = s \/ cmp_lt l s) -> ~ cmp_lt s x.
Proof.
  intros Hx Hl Hs Hxl Hls. assert (x = s \/ cmp_lt x s) as [->|Hlt].
  { destruct Hxl as [->|Hxl]; [done|]. destruct Hls as [->|Hls]; [by right|]. right. by apply (cmp_trans x l s). }
  - by apply cmp_lt_irrefl.
  - by apply cmp_lt_asym.
Qed.

Lemma es_ok (e : bytes * bytes) : e ∈ es -> ok e.1.
Proof. intros He. by apply (proj1 (Forall_forall _ _) Hok) in He as [? _]. Qed.

(** The facts about the next entry. *)
Record next_entry (dn : list (bytes * bytes)) (e : bytes * bytes) : Prop := MkNext {
  ne_prefix : dn ++ [e] `prefix_of` es;
  ne_ok : ok e.1;
  ne_user : is_Some (ExtractUserKey e.1);
  ne_dn_ok : forall x, x ∈ dn -> ok x.1;
  ne_sorted : StronglySorted (fun a b : bytes * bytes => cmp_lt a.1 b.1) dn;
  ne_lt : forall x, x ∈ dn -> cmp_lt x.1 e.1 }.

Lemma prefix_next (dn : list (bytes * bytes)) (e : bytes * bytes) : dn ++ [e] `prefix_of` es -> next_entry dn e.
Proof.
  intros Hp. pose proof Hp as [todo Hes]. pose proof Hsorted as Hs. rewrite Hes, <- app_assoc in Hs.
  apply sorted_app_inv in Hs as (Hs1 & _ & Hs2).
  assert (e ∈ es) as He by (rewrite Hes; set_solver). split; [done|by apply es_ok| | |done|].
  - by apply (proj1 (Forall_forall _ _) Hok) in He as [_ ?].
  - intros x Hx. apply es_ok. rewrite Hes. set_solver.
  - intros x Hx. pose proof (proj1 (Forall_forall _ _) Hs2 x Hx) as H1. simpl in H1. by apply Forall_cons in H1 as [? _].
Qed.

Lemma layout_dn (r : Rep) (dn : list (bytes * bytes)) (segs : list Seg) (pend : option Blk) (cur : list (bytes * bytes)) :
  layout r dn segs pend cur -> dn = concat (sg_ents <$> segs) ++ pend_ents pend ++ cur.
Proof. intros Hl. rewrite (l_ents _ _ _ _ _ Hl), blocks_of_ents. by rewrite <- app_assoc. Qed.

(** The index keys still separate the blocks from what follows. *)
Lemma next_seps_none (r : Rep) (dn : list (bytes * bytes)) (segs : list Seg) (cur : list (bytes * bytes)) (e : bytes * bytes) :
  layout r dn segs None cur -> next_entry dn e -> seps (ok := ok) same segs (cur ++ [e]).
Proof.
  intros Hl Hn. pose proof (layout_dn _ _ _ _ _ Hl) as Hd. simpl in Hd. pose proof (l_seps _ _ _ _ _ Hl) as Hs. simpl in Hs.
  destruct (last cur) as [e0|] eqn:Hla.
  - apply last_Some in Hla as [cur' ->]. assert (e0 ∈ dn) as Hin by (rewrite Hd; set_solver).
    apply (seps_extend same segs _ e0 e Hs); [set_solver|by apply (ne_dn_ok _ _ Hn)|apply (ne_ok _ _ Hn)|by apply (ne_lt _ _ Hn)].
  - apply last_None in Hla as ->. by rewrite (l_cur _ _ _ _ _ Hl eq_refl eq_refl).
Qed.

Lemma next_seps_some (r : Rep) (dn : list (bytes * bytes)) (segs : list Seg) (b : Blk) (e : bytes * bytes) (sep : bytes) :
  layout r dn segs (Some b) [] -> next_entry dn e -> ok sep ->
  (default [] (fst <$> last dn) = sep \/ cmp_lt (default [] (fst <$> last dn)) sep) -> cmp_lt sep e.1 ->
  FindShortestSeparator (default [] (fst <$> last dn)) e.1 = Some sep ->
  seps (ok := ok) same (segs ++ [MkSeg sep b.1 b.2]) [e].
Proof.
  intros Hl Hn Hsep Hlo Hhi Hfs. pose proof (layout_dn _ _ _ _ _ Hl) as Hd. simpl in Hd. rewrite app_nil_r in Hd.
  pose proof (l_stored _ _ _ _ _ Hl) as Hst. rewrite blocks_of_pend in Hst. apply Forall_app in Hst as [_ Hst].
  apply Forall_singleton in Hst as (Hne & _).
  destruct (last b.2) as [e0|] eqn:Hla; [|by apply last_None in Hla].
  assert (last dn = Some e0) as Hld by (rewrite Hd, last_app, Hla; done). rewrite Hld in Hlo, Hfs. simpl in Hlo, Hfs.
  pose proof (ne_sorted _ _ Hn) as Hso. rewrite Hd in Hso. apply sorted_app_inv in Hso as (_ & Hso & _).
  assert (forall x, x ∈ b.2 -> ok x.1 /\ cmp_lt x.1 e.1) as Hx.
  { intros x Hx. split; [apply (ne_dn_ok _ _ Hn)|apply (ne_lt _ _ Hn)]; rewrite Hd; set_solver. }
  assert (e0 ∈ b.2) as He0 by (apply last_Some in Hla as [l' ->]; set_solver).
  apply seps_snoc; simpl.
  - pose proof (l_seps _ _ _ _ _ Hl) as Hs. simpl in Hs. rewrite app_nil_r in Hs.
    apply (seps_extend same segs _ e0 e Hs); [done|by apply Hx|apply (ne_ok _ _ Hn)|by apply Hx].
  - split_and!; [done| |by apply Forall_singleton| |done].
    + apply Forall_forall. intros x Hin. apply (not_below x.1 e0.1 sep); [by apply Hx|by apply Hx|done| |done].
      destruct (sorted_last _ _ x e0 Hso Hla Hin) as [->|?]; [by left|by right].
    + intros e1 k [= <-] Hk Hsa Hbelow. destruct (Hx e0 He0).
      apply (Hsharp e0.1 e.1 sep k); [done|apply (ne_ok _ _ Hn)|done|done|done|done|].
      exact (proj1 (Forall_forall _ _) Hbelow e0 He0).
Qed.

Lemma layout_add (r r' : Rep) (dn : list (bytes * bytes)) (segs segs' : list Seg) (pend : option Blk)
    (cur : list (bytes * bytes)) (k v : bytes) :
  layout r dn segs pend cur -> blocks_of segs' None = blocks_of segs pend ->
  seps (ok := ok) same segs' (cur ++ [(k, v)]) -> tb_offset r' = tb_offset r -> tb_file r' = tb_file r ->
  index_block r' = BB.Adds 1 BB.BlockBuilder_new (index_of segs') ->
  data_block r' = BB.Add interval (data_block r) k v -> pending_index_entry r' = false ->
  (forall P, filter_policy = Some P -> exists b, filter_block r = Some b /\ filter_block r' = Some (FB.AddKey b k)) ->
  layout r' (dn ++ [(k, v)]) segs' None (cur ++ [(k, v)]).
Proof.
  intros Hl Hbl Hs Ho Hf Hi Hd Hp Hfb. pose proof Hl as [Lo Li Ld Lst Lor Lbe Lp Le Ls _ Lf].
  split; rewrite ?Hbl, ?Ho, ?Hf; try done.
  - by rewrite Hd, Ld, Adds_snoc.
  - by rewrite Le, <- app_assoc.
  - intros _ Hn. by destruct cur.
  - intros P HPf. destruct (Hfb P HPf) as (b & Hb & ->). destruct (Lf P HPf) as (b' & Hb' & Hadd).
    eexists. split; [done|]. rewrite fmap_app. simpl. apply add_blocks_key. congruence.
Qed.

(** The index entry of the pending block, when a key follows. *)
Definition index_sep (r : Rep) (key : bytes) : option Rep :=
  if pending_index_entry r then sep ← FindShortestSeparator (last_key r) key; Some (add_index_entry r sep) else Some r.

Lemma index_sep_ok (r : Rep) (dn : list (bytes * bytes)) (e : bytes * bytes) :
  tb_inv r dn -> next_entry dn e ->
  exists r1, index_sep r e.1 = Some r1 /\ pending_index_entry r1 = false /\
    r1 = MkTableRep (tb_file r) (tb_offset r) (tb_status r) (data_block r) (index_block r1) (last_key r1) (num_entries r)
           (index_queue r) (fnumber r) (closed r) (filter_block r) (index_meta r) false (pending_handle r) /\
    forall segs pend cur, layout r dn segs pend cur ->
      exists segs', blocks_of segs' None = blocks_of segs pend /\ seps (ok := ok) same segs' (cur ++ [e]) /\
        index_block r1 = BB.Adds 1 BB.BlockBuilder_new (index_of segs').
Proof.
  intros Hi Hn. unfold index_sep. destruct (pending_index_entry r) eqn:Hp.
  - pose proof (ti_pend _ _ Hi Hp) as Hne. rewrite (ti_last _ _ Hi).
    destruct (last dn) as [e0|] eqn:Hla; [|by apply last_None in Hla]. cbn [fmap option_fmap option_map default].
    assert (e0 ∈ dn) as Hin by (apply last_Some in Hla as [l' ->]; set_solver).
    destruct (sep_between e0.1 e.1) as (sep & Hsp & Hsok & Hlo & Hhi);
      [by apply (ne_dn_ok _ _ Hn)|apply (ne_ok _ _ Hn)|by apply (ne_lt _ _ Hn)|].
    simpl. rewrite Hsp. cbn [mbind option_bind]. eexists. split; [done|]. split; [done|]. split; [done|].
    intros segs pend cur Hl. pose proof (l_pend _ _ _ _ _ Hl) as Hpe. destruct pend as [b|]; [|congruence].
    destruct Hpe as (_ & Hh & ->). exists (segs ++ [MkSeg sep b.1 b.2]). split; [|split].
    + unfold blocks_of. rewrite fmap_app. simpl. rewrite app_nil_r. by destruct b.
    + apply (next_seps_some r dn segs b e sep Hl Hn Hsok); rewrite ?Hla; done.
    + simpl. unfold index_of. rewrite fmap_app. simpl. by rewrite Adds_snoc, (l_index _ _ _ _ _ Hl), Hh.
  - exists r. split; [done|]. split; [done|]. split; [destruct r; simpl in *; by subst|].
    intros segs pend cur Hl. pose proof (l_pend _ _ _ _ _ Hl) as Hpe. destruct pend as [b|]; [destruct Hpe; congruence|].
    exists segs. split; [done|]. split; [by apply (next_seps_none r dn)|apply (l_index _ _ _ _ _ Hl)].
Qed.

(** The state after an entry has gone into the data block, before a flush. *)
Definition added (r1 : Rep) (fb : option FB.FilterBlockBuilder) (k v uk : bytes) : Rep :=
  MkTableRep (tb_file r1) (tb_offset r1) (tb_status r1) (BB.Add interval (data_block r1) k v) (index_block r1) k
    (num_entries r1 + 1) (index_queue r1 ++ [(fast_atoi uk, u32 number)]) (fnumber r1) (closed r1) fb
    (Some (u32 number)) (pending_index_entry r1) (pending_handle r1).

Lemma Add_nonempty (r : Z) (b : BB.BlockBuilder) (k v : bytes) : BB.empty (BB.Add r b k v) = false.
Proof.
  unfold BB.empty, BB.Add. destruct (_ <? _); simpl; unfold PutVarint32.
  all: match goal with |- match ?l with _ => _ end = _ => assert (0 < length l)%nat; [|by destruct l; simpl in *; [lia|]] end.
  all: rewrite !length_app; match goal with |- context [EncodeVarint32 ?x] => pose proof (EncodeVarint32_nonempty x) end; lia.
Qed.

Lemma added_inv (r r1 : Rep) (dn : list (bytes * bytes)) (k v uk : bytes) (fb : option FB.FilterBlockBuilder) :
  tb_inv r dn -> next_entry dn (k, v) -> index_sep r k = Some r1 -> ExtractUserKey k = Some uk ->
  match filter_policy with
  | None => fb = None
  | Some _ => exists b, filter_block r = Some b /\ fb = Some (FB.AddKey b k)
  end ->
  tb_inv (added r1 fb k v uk) (dn ++ [(k, v)]).
Proof.
  intros Hi Hn Hsep Huk Hfb. destruct (index_sep_ok r dn (k, v) Hi Hn) as (r1' & Hs & Hpe & Hr1 & Hlay).
  simpl in Hs. rewrite Hsep in Hs. injection Hs as <-. pose proof Hi as [Ist If Il Ip Ie Im In Ifn Iq Ifi Ilay].
  rewrite Hr1. split; cbn -[default]; try done.
  - by rewrite last_snoc.
  - intros _. by destruct dn.
  - rewrite length_app, In. simpl. lia.
  - rewrite fmap_app, Iq. simpl. unfold queued. simpl. by rewrite Huk.
  - destruct policy_cases as [HPf|[P HPf]]; rewrite HPf in Hfb, Ifi |- *; [done|].
    destruct Hfb as (b & Hb & ->). destruct Ifi as (b' & segs & pending & Hb' & Hrep & Hsub).
    rewrite Hb in Hb'. injection Hb' as <-. eexists _, segs, (pending ++ [k]). split; [done|].
    split; [by apply (FB.AddKeys_rep [k])|]. rewrite fmap_app. by apply sublist_app.
  - intros Hlen. destruct (Ilay Hlen) as (segs & pend & cur & Hl).
    destruct (Hlay segs pend cur Hl) as (segs' & Hbl & Hse & Hix). exists segs', None, (cur ++ [(k, v)]).
    apply (layout_add r _ dn segs segs' pend cur k v Hl Hbl Hse); try done.
    intros P HPf. rewrite HPf in Hfb. exact Hfb.
Qed.

Lemma tb_Add_ok (r : Rep) (dn : list (bytes * bytes)) (k v : bytes) :
  tb_inv r dn -> dn ++ [(k, v)] `prefix_of` es ->
  exists r', tb_Add addr opt filter_policy r k v = Some r' /\ tb_inv r' (dn ++ [(k, v)]) /\
    exists x, contents (tb_file r') = contents (tb_file r) ++ x.
Proof.
  intros Hi Hpre. pose proof (prefix_next dn (k, v) Hpre) as Hn.
  destruct (index_sep_ok r dn (k, v) Hi Hn) as (r1 & Hs & _ & Hr1 & _). simpl in Hs.
  destruct (ne_user _ _ Hn) as [uk Huk]. simpl in Huk.
  assert (exists fb, on_filter filter_policy (fun P b => Some (FB.AddKey b k)) r1 = Some (set_filter_block r1 fb) /\
    match filter_policy with
    | None => fb = None
    | Some _ => exists b, filter_block r = Some b /\ fb = Some (FB.AddKey b k)
    end) as (fb & Hof & Hfb).
  { pose proof (ti_filter _ _ Hi) as Hf. unfold on_filter. replace (filter_block r1) with (filter_block r) by (by rewrite Hr1).
    destruct policy_cases as [HPf|[P HPf]]; rewrite HPf in Hf |- *.
    - exists None. split; [|done]. rewrite Hf in Hr1. rewrite Hr1. done.
    - destruct Hf as (b & segs & pending & Hb & _). rewrite Hb. simpl. eauto. }
  pose proof (added_inv r r1 dn k v uk fb Hi Hn Hs Huk Hfb) as Hi'.
  unfold tb_Add. rewrite (ti_status _ _ Hi). change (Status.ok OK) with true. cbn [negb].
  change (if pending_index_entry r then _ else Some r) with (index_sep r k). rewrite Hs. cbn [mbind option_bind].
  rewrite Hof. cbn [mbind option_bind]. rewrite Huk. cbn [mbind option_bind].
  assert ((if BB.empty (data_block r) then Some (u32 (fnumber r)) else index_meta r) = Some (u32 number)) as ->.
  { destruct (BB.empty (data_block r)) eqn:He; [by rewrite (ti_fnumber _ _ Hi)|by apply (ti_meta _ _ Hi)]. }
  cbn [mbind option_bind].
  match goal with |- context [tb_Flush _ _ _ ?r] => change r with (added r1 fb k v uk) end.
  assert (tb_file (added r1 fb k v uk) = tb_file r) as Hfile by (by rewrite Hr1).
  destruct (_ <=? _).
  - destruct (tb_Flush_ok _ _ Hi' Hpre) as (r' & -> & Hi'' & _ & x & Hx). exists r'. split; [done|]. split; [done|].
    exists x. by rewrite <- Hfile.
  - eexists. split; [done|]. split; [done|]. exists []. by rewrite Hfile, app_nil_r.
Qed.

Lemma tb_Adds_ok (l : list (bytes * bytes)) (r : Rep) (dn : list (bytes * bytes)) :
  tb_inv r dn -> dn ++ l `prefix_of` es ->
  exists r', tb_Adds addr opt filter_policy r l = Some r' /\ tb_inv r' (dn ++ l).
Proof.
  revert r dn. induction l as [|[k v] l IH]; intros r dn Hi Hp; [exists r; by rewrite app_nil_r|].
  rewrite (cons_middle (k, v) dn l), app_assoc in Hp |- *.
  destruct (tb_Add_ok r dn k v Hi) as (r1 & Hadd & Hi1 & _); [by eapply prefix_app_l|].
  destruct (IH r1 _ Hi1 Hp) as (r' & Hl & Hi'). exists r'. cbn [tb_Adds]. by rewrite Hadd.
Qed.

Lemma TableBuilder_new_ok (f : F) :
  file_ok f -> contents f = [] -> exists r, TableBuilder_new filter_policy f number = Some r /\ tb_inv r [].
Proof.
  intros Hf Hc. unfold TableBuilder_new, on_filter.
  assert (forall fb, (match filter_policy with None => fb = None | Some _ => fb = Some FB.FilterBlockBuilder_new end) ->
    tb_inv (MkTableRep f 0 OK BB.BlockBuilder_new BB.BlockBuilder_new [] 0 [] number false fb None false BlockHandle_new) []) as Hinv.
  { intros fb Hfb. split; try done.
    - destruct policy_cases as [HPf|[P HPf]]; rewrite HPf in Hfb |- *; subst; [done|].
      exists FB.FilterBlockBuilder_new, [], []. split; [done|]. split; [|done]. by split.
    - intros _. exists [], None, []. split; try done; simpl; [by rewrite Hc|constructor|].
      intros P HPf. rewrite HPf in Hfb. subst. eauto. }
  destruct policy_cases as [HPf|[P HPf]]; rewrite HPf in Hinv |- *; cbn; eexists; (split; [done|]); by apply Hinv.
Qed.

(** *** Finishing the table *)

(** A finished table file whose index has the blocks [segs]. *)
Record table_file (d : bytes) (segs : list Seg) : Prop := MkTableFile {
  tf_blocks : Forall (blk_ok d) (blocks_of segs None);
  tf_order : StronglySorted (fun a b : Blk => h_offset a.1 < h_offset b.1) (blocks_of segs None);
  tf_seps : seps (ok := ok) same segs [];
  tf_ents : es = concat (sg_ents <$> segs);
  tf_footer : exists pre footer meta, d = pre ++ Footer_EncodeTo [] footer /\
    stored d (index_handle footer) (BB.Finish (BB.Adds 1 BB.BlockBuilder_new (index_of segs))).1 /\
    BB.CurrentSizeEstimate (BB.Adds 1 BB.BlockBuilder_new (index_of segs)) < 2 ^ 32 /\
    stored d (metaindex_handle footer) (BB.Finish (BB.Adds interval BB.BlockBuilder_new meta)).1 /\
    BB.CurrentSizeEstimate (BB.Adds interval BB.BlockBuilder_new meta) < 2 ^ 32 /\
    match filter_policy with
    | None => meta = []
    | Some P => exists h fc rd, meta = [(filter_key P, Handle_EncodeTo [] h)] /\ stored d h fc /\
        FB.FilterBlockReader_new fc = Some rd /\
        (forall o ks k k', (o, ks) ∈ filter_blocks (blocks_of segs None) -> k ∈ ks -> same k k' ->
          @FB.FilterKeyMayMatch P rd o k' = Some true) /\
        forall key_ok o k, FilterPolicyTotal P key_ok -> 0 <= o -> key_ok k -> is_Some (@FB.FilterKeyMayMatch P rd o k)
    end }.

(** The builder has no error, and knows the size of its file. *)
Definition off_ok (r : Rep) : Prop :=
  Z.of_nat (length (contents (tb_file r))) < 2 ^ 32 -> tb_offset r = Z.of_nat (length (contents (tb_file r))).

Definition good (r : Rep) : Prop := tb_status r = OK /\ file_ok (tb_file r) /\ off_ok r.

Definition grows (r r' : Rep) : Prop := exists x, contents (tb_file r') = contents (tb_file r) ++ x.

Lemma grows_trans (r1 r2 r3 : Rep) : grows r1 r2 -> grows r2 r3 -> grows r1 r3.
Proof. intros [x Hx] [y Hy]. exists (x ++ y). by rewrite Hy, Hx, app_assoc. Qed.

Lemma grows_length (r r' : Rep) : grows r r' -> (length (contents (tb_file r)) <= length (contents (tb_file r')))%nat.
Proof. intros [x ->]. rewrite length_app. lia. Qed.

Abbreviation wr := (wrote (contents := contents) (file_ok := file_ok)).

Lemma wrote_good (r r' : Rep) (h : BlockHandle) (c : bytes) :
  good r -> wr r r' h c -> good r' /\ grows r r'.
Proof.
  intros (_ & _ & Ho) Hw. destruct (wrote_file _ _ _ _ Hw) as (Hf & Hs & x & Hx).
  split; [|by exists x]. split; [done|]. split; [done|]. intros Hlen.
  assert (Z.of_nat (length (contents (tb_file r))) < 2 ^ 32) as Hl by (rewrite Hx, length_app in Hlen; lia).
  by destruct (wrote_stored _ _ _ _ Hw (Ho Hl) Hlen) as (_ & ? & _).
Qed.

Lemma wrote_kept (r r' r2 : Rep) (h : BlockHandle) (c : bytes) :
  good r -> wr r r' h c -> grows r' r2 -> Z.of_nat (length (contents (tb_file r2))) < 2 ^ 32 ->
  stored (contents (tb_file r2)) h c /\ Z.of_nat (length c) < 2 ^ 32.
Proof.
  intros (_ & _ & Ho) Hw Hg Hlen. pose proof (grows_length _ _ Hg). destruct Hg as [x Hx].
  destruct (wrote_file _ _ _ _ Hw) as (_ & _ & y & Hy).
  assert (Z.of_nat (length (contents (tb_file r))) < 2 ^ 32) as Hl by (rewrite Hy, length_app in *; lia).
  destruct (wrote_stored _ _ _ _ Hw (Ho Hl) ltac:(lia)) as (Hst & _ & _ & _ & Hc). split; [|done].
  rewrite Hx. by apply stored_app.
Qed.

(** [r'] differs from [r] in what has been written only. *)
Definition same_but_out (r r' : Rep) : Prop := r' = set_out r (tb_file r') (tb_offset r') (tb_status r').

Lemma wrote_same (r r' : Rep) (h : BlockHandle) (c : bytes) : wr r r' h c -> same_but_out r r'.
Proof. by intros (f & ? & ? & -> & _). Qed.

Lemma tb_inv_good (r : Rep) (dn : list (bytes * bytes)) : tb_inv r dn -> good (set_closed r).
Proof.
  intros Hi. split; [apply (ti_status _ _ Hi)|]. split; [apply (ti_file _ _ Hi)|]. intros Hlen.
  destruct (ti_layout _ _ Hi Hlen) as (? & ? & ? & Hl). apply (l_offset _ _ _ _ _ Hl).
Qed.

(** The filter block of the finished table. *)
Definition filter_written (r r1 : Rep) (h : BlockHandle) : Prop :=
  match filter_policy with
  | None => r1 = set_closed r /\ h = BlockHandle_new
  | Some P => exists b fc, filter_block r = Some b /\ FB.Finish b = Some fc /\ wr (set_closed r) r1 h fc
  end.

Lemma finish_filter_ok (r : Rep) :
  tb_inv r es -> exists r1 h, finish_filter addr filter_policy (set_closed r) = Some (r1, h) /\ filter_written r r1 h.
Proof.
  intros Hi. unfold finish_filter, filter_written. cbn [tb_status set_closed filter_block]. rewrite (ti_status _ _ Hi).
  change (Status.ok OK) with true. cbn iota. pose proof (ti_filter _ _ Hi) as Hf.
  destruct policy_cases as [HPf|[P HPf]]; rewrite HPf in Hf |- *; [by eauto|].
  destruct Hf as (b & segs & pending & Hb & Hrep & Hs). rewrite Hb. pose proof (HF P HPf) as HPS.
  destruct (FB.Finish_ok (HP := HPS) (es.*1) (Hall ltac:(by rewrite HPf)) b segs pending Hrep Hs) as (segs' & Hfin & _).
  rewrite Hfin. cbn [mbind option_bind].
  destruct (WriteRawBlock_ok addr (set_closed r) (FB.filter_bytes segs') _ kNoCompression (ti_file _ _ Hi) eq_refl) as (r1 & h & -> & Hw).
  exists r1, h. split; [done|]. by exists b, (FB.filter_bytes segs').
Qed.

Lemma filter_written_good (r r1 : Rep) (h : BlockHandle) :
  tb_inv r es -> filter_written r r1 h -> good r1 /\ grows r r1 /\ same_but_out (set_closed r) r1.
Proof.
  intros Hi Hw. pose proof (tb_inv_good r es Hi) as Hg. unfold filter_written in Hw.
  destruct policy_cases as [HPf|[P HPf]]; rewrite HPf in Hw.
  - destruct Hw as [-> _]. split; [done|]. split; [exists []; by rewrite app_nil_r|done].
  - destruct Hw as (b & fc & _ & _ & Hw). destruct (wrote_good _ _ _ _ Hg Hw) as [? ?].
    split; [done|]. split; [done|by eapply wrote_same].
Qed.

(** The entries of the metaindex block. *)
Definition meta_ents (h : BlockHandle) : list (bytes * bytes) :=
  match filter_policy with Some P => [(filter_key P, Handle_EncodeTo [] h)] | None => [] end.

Lemma finish_metaindex_ok (r r1 : Rep) (h : BlockHandle) :
  tb_inv r es -> filter_written r r1 h ->
  exists r2 h2, finish_metaindex addr opt filter_policy r1 h = Some (r2, h2) /\
    wr r1 r2 h2 (BB.Finish (BB.Adds interval BB.BlockBuilder_new (meta_ents h))).1.
Proof.
  intros Hi Hw. destruct (filter_written_good r r1 h Hi Hw) as ((Hs & Hf & _) & _ & Hsame).
  unfold finish_metaindex. rewrite Hs. change (Status.ok OK) with true. cbn iota.
  assert (filter_block r1 = filter_block r) as Efb by (by rewrite Hsame). rewrite Efb.
  pose proof (ti_filter _ _ Hi) as Hfi. unfold meta_ents.
  destruct policy_cases as [HPf|[P HPf]]; rewrite HPf in Hfi |- *.
  - destruct (WriteBlock_ok addr opt r1 BB.BlockBuilder_new Hf) as (r2 & h2 & -> & Hw2). by exists r2, h2.
  - destruct Hfi as (b & ? & ? & -> & _).
    destruct (WriteBlock_ok addr opt r1 (BB.Add interval BB.BlockBuilder_new (filter_key P) (Handle_EncodeTo [] h)) Hf)
      as (r2 & h2 & -> & Hw2). by exists r2, h2.
Qed.

(** The index at the end: the last block has its entry. *)
Lemma final_index (r : Rep) :
  tb_inv r es -> BB.empty (data_block r) = true ->
  exists ib, (if pending_index_entry r then succ ← FindShortSuccessor (last_key r); Some (index_block (add_index_entry r succ))
              else Some (index_block r)) = Some ib /\
    (Z.of_nat (length (contents (tb_file r))) < 2 ^ 32 ->
     exists segs pend cur segs', layout r es segs pend cur /\ blocks_of segs' None = blocks_of segs pend /\
       cur = [] /\ seps (ok := ok) same segs' [] /\ ib = BB.Adds 1 BB.BlockBuilder_new (index_of segs')).
Proof.
  intros Hi Hem. destruct (pending_index_entry r) eqn:Hp.
  - pose proof (ti_pend _ _ Hi Hp) as Hne. rewrite (ti_last _ _ Hi).
    destruct (last es) as [e0|] eqn:Hla; [|by apply last_None in Hla]. cbn [fmap option_fmap option_map default].
    assert (e0 ∈ es) as Hin.
    { apply last_Some in Hla as [l' Hl']. rewrite Hl'. set_solver. }
    destruct (succ_above e0.1 (es_ok e0 Hin)) as (succ & Hsu & Hsok & Hlo). simpl. rewrite Hsu. cbn [mbind option_bind].
    eexists. split; [done|]. intros Hlen. destruct (ti_layout _ _ Hi Hlen) as (segs & pend & cur & Hl).
    pose proof (l_pend _ _ _ _ _ Hl) as Hpe. destruct pend as [b|]; [|congruence]. destruct Hpe as (_ & Hh & ->).
    exists segs, (Some b), [], (segs ++ [MkSeg succ b.1 b.2]). split; [done|]. split; [|split; [done|split]].
    + unfold blocks_of. rewrite fmap_app. simpl. rewrite app_nil_r. by destruct b.
    + pose proof (layout_dn _ _ _ _ _ Hl) as Hd. simpl in Hd. rewrite app_nil_r in Hd.
      pose proof Hsorted as Hso. rewrite Hd in Hso. apply sorted_app_inv in Hso as (_ & Hso & _).
      pose proof (l_stored _ _ _ _ _ Hl) as Hst. rewrite blocks_of_pend in Hst. apply Forall_app in Hst as [_ Hst].
      apply Forall_singleton in Hst as (Hbne & _).
      assert (last b.2 = Some e0) as Hlb.
      { rewrite Hd, last_app in Hla. by destruct (last b.2) eqn:E; [|apply last_None in E]. }
      apply seps_snoc; simpl; [pose proof (l_seps _ _ _ _ _ Hl) as Hse; simpl in Hse; done|].
      split_and!; [done| |constructor|by intros ? ? [=]|done]. apply Forall_forall. intros x Hx.
      assert (x ∈ es) as Hxe by (rewrite Hd; set_solver).
      apply (not_below x.1 e0.1 succ); [by apply es_ok|by apply es_ok|done| |done].
      destruct (sorted_last _ _ x e0 Hso Hlb Hx) as [->|?]; [by left|by right].
    + simpl. unfold index_of. rewrite fmap_app. simpl. by rewrite Adds_snoc, (l_index _ _ _ _ _ Hl), Hh.
  - eexists. split; [done|]. intros Hlen. destruct (ti_layout _ _ Hi Hlen) as (segs & pend & cur & Hl).
    pose proof (l_pend _ _ _ _ _ Hl) as Hpe. destruct pend as [b|]; [destruct Hpe; congruence|].
    rewrite (l_data _ _ _ _ _ Hl), Adds_empty in Hem. assert (cur = []) as -> by (by destruct cur).
    pose proof (l_cur _ _ _ _ _ Hl eq_refl eq_refl) as ->.
    exists [], None, [], []. split; [done|]. split; [done|]. split; [done|]. split; [done|apply (l_index _ _ _ _ _ Hl)].
Qed.

Lemma finish_index_ok (r r2 : Rep) (ib : BB.BlockBuilder) :
  good r2 -> same_but_out (set_closed r) r2 ->
  (if pending_index_entry r then succ ← FindShortSuccessor (last_key r); Some (index_block (add_index_entry r succ))
   else Some (index_block r)) = Some ib ->
  exists r0 r3 h3, finish_index addr opt r2 = Some (r3, h3) /\ tb_file r0 = tb_file r2 /\ good r0 /\
    wr r0 (set_out r0 (tb_file r3) (tb_offset r3) (tb_status r3)) h3 (BB.Finish ib).1 /\
    num_entries r3 = num_entries r /\ index_queue r3 = index_queue r /\ filter_block r3 = filter_block r.
Proof.
  intros (Hs & Hf & Ho) Hsame Hib. unfold finish_index. rewrite Hs. change (Status.ok OK) with true. cbn iota.
  assert (exists r0, (if pending_index_entry r2 then succ ← FindShortSuccessor (last_key r2); Some (add_index_entry r2 succ)
    else Some r2) = Some r0 /\ index_block r0 = ib /\ tb_file r0 = tb_file r2 /\ good r0 /\
    num_entries r0 = num_entries r /\ index_queue r0 = index_queue r /\ filter_block r0 = filter_block r)
    as (r0 & -> & Hi0 & Hf0 & Hg0 & Hn0 & Hq0 & Hfb0).
  { assert (good (set_out (set_closed r) (tb_file r2) (tb_offset r2) (tb_status r2))) as Hg by (split; [done|by split]).
    rewrite Hsame. cbn [pending_index_entry set_out set_closed last_key]. destruct (pending_index_entry r).
    - destruct (FindShortSuccessor (last_key r)) as [succ|]; [|done]. cbn [mbind option_bind] in Hib |- *.
      injection Hib as <-. eexists. done.
    - injection Hib as <-. eexists. done. }
  cbn [mbind option_bind]. rewrite Hi0. rewrite <- Hf0 in Hf.
  destruct (WriteBlock_ok addr opt r0 ib Hf) as (r3 & h3 & -> & Hw). cbn [mbind option_bind].
  pose proof (wrote_same _ _ _ _ Hw) as Hsm. exists r0. eexists _, h3. split; [done|]. split; [done|]. split; [done|].
  cbn [tb_file tb_offset tb_status num_entries index_queue filter_block]. split; [by rewrite <- Hsm|].
  rewrite Hsm. cbn [num_entries index_queue filter_block set_out]. done.
Qed.

Lemma finish_footer_ok (r : Rep) (footer : Footer) :
  good r -> exists r', finish_footer r footer = Some r' /\ good r' /\ same_but_out r r' /\
    contents (tb_file r') = contents (tb_file r) ++ Footer_EncodeTo [] footer.
Proof.
  intros (Hs & Hf & Ho). unfold finish_footer. rewrite Hs. change (Status.ok OK) with true. cbn iota.
  destruct (Append_contents (tb_file r) (Footer_EncodeTo [] footer) Hf) as (f & -> & Hc & Hf'). cbn [mbind option_bind].
  change (Status.ok OK) with true. cbn iota. eexists. split; [done|]. split; [|by split].
  split; [done|]. split; [done|]. unfold off_ok. cbn [tb_file tb_offset set_out]. rewrite Hc, length_app. intros Hlen.
  rewrite (Ho ltac:(lia)). unfold u64. rewrite Z.mod_small; lia.
Qed.

Lemma on_file_ok (g : F -> option (Status * F)) (r : Rep) :
  tb_status r = OK ->
  (exists f', g (tb_file r) = Some (OK, f') /\ contents f' = contents (tb_file r)) ->
  exists r', on_file g r = Some r' /\ tb_status r' = OK /\ tb_offset r' = tb_offset r /\ same_but_out r r' /\
    g (tb_file r) = Some (OK, tb_file r') /\ contents (tb_file r') = contents (tb_file r).
Proof.
  intros Hs (f' & Hg & Hc). unfold on_file, if_ok. rewrite Hs. change (Status.ok OK) with true. cbn iota.
  rewrite Hg. cbn [mbind option_bind]. eexists. done.
Qed.

(** The filter block reads back and matches. *)
Lemma filter_matches (r : Rep) (segs : list Seg) (pend : option Blk) (P : FilterPolicy) (b : FB.FilterBlockBuilder) (fc : bytes) :
  layout r es segs pend [] -> filter_policy = Some P -> filter_block r = Some b -> FB.Finish b = Some fc ->
  Z.of_nat (length fc) < 2 ^ 32 ->
  exists rd, FB.FilterBlockReader_new fc = Some rd /\
    (forall o ks k k', (o, ks) ∈ filter_blocks (blocks_of segs pend) -> k ∈ ks -> same k k' ->
      @FB.FilterKeyMayMatch P rd o k' = Some true) /\
    forall key_ok o k, FilterPolicyTotal P key_ok -> 0 <= o -> key_ok k -> is_Some (@FB.FilterKeyMayMatch P rd o k).
Proof.
  intros Hl HPf Hb Hfin Hlen. pose proof (HF P HPf) as HPS.
  destruct (l_filter _ _ _ _ _ Hl P HPf) as (b' & Hb' & Hadd). rewrite Hb in Hb'. injection Hb' as <-. simpl in Hadd.
  destruct (FB.FilterBlock_matches P keys_ok same (filter_blocks (blocks_of segs pend) ++ [(tb_offset r, [])]) HPS)
    as (b2 & fc2 & Hadd2 & Hfin2 & Hr).
  - intros l Hs. apply (Hall ltac:(by rewrite HPf)). rewrite filter_blocks_keys, app_nil_r in Hs.
    by rewrite (l_ents _ _ _ _ _ Hl), app_nil_r.
  - by apply (layout_rising r es segs pend []).
  - rewrite Hadd in Hadd2. injection Hadd2 as <-. rewrite Hfin in Hfin2. injection Hfin2 as <-.
    destruct (Hr Hlen) as (rd & Hrd & Hm & Ht). exists rd. split; [done|]. split; [|done].
    intros o ks k k' Hin. apply (Hm o ks k k'). set_solver.
Qed.

(** All parts are in the final file. *)
Lemma finished_file (ra r1 r2 r0 r3 r4 : Rep) (h1 h2 h3 : BlockHandle) (ib : BB.BlockBuilder) :
  tb_inv ra es -> filter_written ra r1 h1 -> wr r1 r2 h2 (BB.Finish (BB.Adds interval BB.BlockBuilder_new (meta_ents h1))).1 ->
  tb_file r0 = tb_file r2 -> good r0 -> wr r0 r3 h3 (BB.Finish ib).1 ->
  contents (tb_file r4) = contents (tb_file r3) ++ Footer_EncodeTo [] (MkFooter h2 h3) ->
  (Z.of_nat (length (contents (tb_file ra))) < 2 ^ 32 ->
     exists segs pend cur segs', layout ra es segs pend cur /\ blocks_of segs' None = blocks_of segs pend /\
       cur = [] /\ seps (ok := ok) same segs' [] /\ ib = BB.Adds 1 BB.BlockBuilder_new (index_of segs')) ->
  Z.of_nat (length (contents (tb_file r4))) < 2 ^ 32 ->
  exists segs, table_file (contents (tb_file r4)) segs.
Proof.
  intros Hi Hw1 Hw2 Hf0 Hg0 Hw3 Hc4 Hlay Hlen. destruct (filter_written_good ra r1 h1 Hi Hw1) as (Hg1 & Hgr1 & _).
  destruct (wrote_good _ _ _ _ Hg1 Hw2) as [_ Hgr2]. destruct (wrote_good _ _ _ _ Hg0 Hw3) as [_ Hgr3].
  assert (grows r3 r4) as Hgr4 by (eexists; exact Hc4).
  assert (grows r2 r4) as Hg24. { unfold grows in Hgr3. rewrite Hf0 in Hgr3. by apply (grows_trans r2 r3 r4). }
  pose proof (grows_trans _ _ _ Hgr2 Hg24) as Hg14. pose proof (grows_trans _ _ _ Hgr1 Hg14) as Hga4.
  pose proof (grows_length _ _ Hga4) as Hla.
  destruct (Hlay ltac:(lia)) as (segs & pend & cur & segs' & Hl & Hbl & -> & Hse & ->).
  destruct (wrote_kept _ _ r4 _ _ Hg1 Hw2 Hg24 Hlen) as [Hst2 Hl2]. rewrite Finish_length in Hl2.
  destruct (wrote_kept _ _ r4 _ _ Hg0 Hw3 Hgr4 Hlen) as [Hst3 Hl3]. rewrite Finish_length in Hl3.
  exists segs'. split.
  - rewrite Hbl. destruct Hga4 as [x ->]. eapply Forall_impl; [apply (l_stored _ _ _ _ _ Hl)|].
    intros b (? & ? & ?). split_and!; [done|by apply stored_app|done].
  - rewrite Hbl. apply (l_order _ _ _ _ _ Hl).
  - done.
  - rewrite (l_ents _ _ _ _ _ Hl), <- Hbl, blocks_of_ents. simpl. by rewrite !app_nil_r.
  - exists (contents (tb_file r3)), (MkFooter h2 h3), (meta_ents h1). split_and!; [done..|].
    unfold meta_ents. unfold filter_written in Hw1. destruct policy_cases as [HPf|[P HPf]]; rewrite HPf in Hw1 |- *; [done|].
    destruct Hw1 as (b & fc & Hb & Hfin & Hw1). pose proof (tb_inv_good ra es Hi) as Hga.
    destruct (wrote_kept _ _ r4 _ _ Hga Hw1 Hg14 Hlen) as [Hst1 Hl1].
    destruct (filter_matches ra segs pend P b fc Hl HPf Hb Hfin Hl1) as (rd & Hrd & Hm). rewrite <- Hbl in Hm.
    by exists h1, fc, rd.
Qed.

Section finish.
Context {X : Type} {IX : Index X}.

Lemma tb_Finish_ok (r : Rep) (index : X) (edit : option (list Z)) (for_gc : bool) :
  tb_inv r es ->
  exists r', tb_Finish addr opt filter_policy r index edit for_gc
      = Some (OK, r', (Index_AddQueue index (queued <$> es) edit for_gc).1) /\
    num_entries r' = Z.of_nat (length es) /\ index_queue r' = (Index_AddQueue index (queued <$> es) edit for_gc).2 /\
    (Z.of_nat (length (contents (tb_file r'))) < 2 ^ 32 ->
     tb_offset r' = Z.of_nat (length (contents (tb_file r'))) /\ exists segs, table_file (contents (tb_file r')) segs).
Proof.
  intros Hi0. destruct (tb_Flush_ok r es Hi0 (reflexivity es)) as (ra & Hfl & Hi & Hem & _). unfold tb_Finish. rewrite Hfl.
  cbn [mbind option_bind]. destruct (finish_filter_ok ra Hi) as (r1 & h1 & -> & Hw1). cbn [mbind option_bind].
  destruct (filter_written_good ra r1 h1 Hi Hw1) as (Hg1 & Hgr1 & Hsa1).
  destruct (finish_metaindex_ok ra r1 h1 Hi Hw1) as (r2 & h2 & -> & Hw2). cbn [mbind option_bind].
  destruct (wrote_good _ _ _ _ Hg1 Hw2) as [Hg2 Hgr2]. pose proof (wrote_same _ _ _ _ Hw2) as Hsa2.
  destruct (final_index ra Hi Hem) as (ib & Hib & Hlay).
  assert (same_but_out (set_closed ra) r2) as Hsa by (rewrite Hsa2, Hsa1; done).
  destruct (finish_index_ok ra r2 ib Hg2 Hsa Hib) as (r0 & r3 & h3 & -> & Hf0 & Hg0 & Hw3 & Hn3 & Hq3 & _).
  cbn [mbind option_bind]. destruct (wrote_good _ _ _ _ Hg0 Hw3) as [Hg3 _].
  assert (good r3) as Hg3' by exact Hg3.
  destruct (finish_footer_ok r3 (MkFooter h2 h3) Hg3') as (r4 & -> & (Hs4 & Hf4 & Ho4) & Hsa4 & Hc4). cbn [mbind option_bind].
  destruct (on_file_ok Sync r4 Hs4) as (r5 & -> & Hs5 & Ho5 & Hsa5 & Hsync & Hc5).
  { destruct (Sync_contents (tb_file r4) Hf4) as (f & ? & ? & _). eauto. }
  cbn [mbind option_bind].
  assert (file_ok (tb_file r5)) as Hf5.
  { destruct (Sync_contents (tb_file r4) Hf4) as (f & Hf & _ & ?). rewrite Hf in Hsync. by injection Hsync as <-. }
  destruct (on_file_ok Close r5 Hs5 (Close_contents (tb_file r5) Hf5)) as (r6 & -> & Hs6 & Ho6 & Hsa6 & _ & Hc6).
  cbn [mbind option_bind].
  assert (index_queue r6 = queued <$> es /\ num_entries r6 = Z.of_nat (length es)) as [Hq6 Hn6].
  { rewrite Hsa6, Hsa5, Hsa4. cbn [index_queue num_entries set_out]. rewrite Hq3, Hn3.
    by rewrite (ti_queue _ _ Hi), (ti_num _ _ Hi). }
  rewrite Hq6, Hs6. destruct (Index_AddQueue index (queued <$> es) edit for_gc) as [index' q'].
  eexists. split; [done|]. cbn [num_entries index_queue tb_file tb_offset]. split; [done|]. split; [done|].
  rewrite Hc6, Hc5, Ho6, Ho5. intros Hlen. split; [by apply Ho4|].
  apply (finished_file ra r1 r2 r0 (set_out r0 (tb_file r3) (tb_offset r3) (tb_status r3)) r4 h1 h2 h3 ib); done.
Qed.
End finish.
End build.
