(* ===== verification/TableReadSpec.v ===== *)
(** * A table reads what a builder wrote

    The table opened on a finished file ([Table.v]) iterates over exactly the
    entries the builder ([TableBuilder.v]) was given, and a point lookup finds
    the entry a client looks for, through the filter and the block cache. *)

From Stdlib Require Import String.
From S2P Require Import Prelude Status Coding Bloom Crc32c Comparator Files DbFormat Iterator Block BlockSpec FilterBlock TableFormat TwoLevel TableBuilder Table TableSpec.

(** What tables rely on: the cache holds nothing that was not inserted. *)
Class BlockCacheSpec {K : Type} (BC : BlockCache K) (has : K -> bytes -> Block -> Prop) := {
  bc_found : forall c key b c', bc_Lookup c key = (Some b, c') -> has c key b;
  bc_lookup_keeps : forall c key r c' key' b, bc_Lookup c key = (r, c') -> has c' key' b -> has c key' b;
  bc_newid_keeps : forall c id c' key b, bc_NewId c = (id, c') -> has c' key b -> has c key b;
  bc_insert_adds : forall c key b n key' b', has (bc_Insert c key b n) key' b' ->
    has c key' b' \/ (key' = key /\ b' = b) }.

(** ** The segments of a file *)

Section segs.
Context {C : Comparator} {ok : bytes -> Prop} {HC : ComparatorSpec C ok} {same : bytes -> bytes -> Prop}.
Context {SP : SnappyPort} {opt : TableOptions} {filter_policy : option FilterPolicy}.
Context {es : list (bytes * bytes)} {d : bytes} {segs : list Seg}.
Context (Htf : table_file (ok := ok) opt filter_policy same es d segs).
Context (Hlen : Z.of_nat (length d) < 2 ^ 32).
Context (Hok : Forall (fun e : bytes * bytes => ok e.1) es).

Lemma seg_block (s : Seg) : s ∈ segs -> blk_ok opt d (sg_handle s, sg_ents s).
Proof.
  intros Hs. apply (proj1 (Forall_forall _ _) (tf_blocks _ _ _ _ _ _ Htf)).
  unfold blocks_of. apply elem_of_app. left. apply list_elem_of_fmap. by exists s.
Qed.

Lemma seg_handle_ok (s : Seg) : s ∈ segs -> handle_ok (sg_handle s).
Proof.
  intros (_ & Hst & _)%seg_block. pose proof (stored_bounds _ _ _ Hst) as (? & ? & ?). simpl in *.
  unfold handle_ok. lia.
Qed.

Lemma seg_offset_inj (s s' : Seg) :
  s ∈ segs -> s' ∈ segs -> h_offset (sg_handle s) = h_offset (sg_handle s') -> s = s'.
Proof.
  intros [i Hi]%list_elem_of_lookup [j Hj]%list_elem_of_lookup Heq.
  pose proof (tf_order _ _ _ _ _ _ Htf) as Ho. unfold blocks_of in Ho. simpl in Ho. rewrite app_nil_r in Ho.
  assert (forall i s, segs !! i = Some s -> ((fun s => (sg_handle s, sg_ents s)) <$> segs) !! i = Some (sg_handle s, sg_ents s)) as Hm.
  { intros n x Hx. by rewrite list_lookup_fmap, Hx. }
  destruct (Nat.lt_trichotomy i j) as [Hij|[->|Hij]].
  - pose proof (sorted_lookup _ _ _ _ _ _ Ho Hij (Hm _ _ Hi) (Hm _ _ Hj)). simpl in *. lia.
  - congruence.
  - pose proof (sorted_lookup _ _ _ _ _ _ Ho Hij (Hm _ _ Hj) (Hm _ _ Hi)). simpl in *. lia.
Qed.

(** The entries behind a value of the index. *)
Definition seg_blocks (h : bytes) : list (bytes * bytes) :=
  default [] (sg_ents <$> head (filter (fun s => Handle_EncodeTo [] (sg_handle s) = h) segs)).

Lemma seg_blocks_ents (s : Seg) : s ∈ segs -> seg_blocks (Handle_EncodeTo [] (sg_handle s)) = sg_ents s.
Proof.
  intros Hs. unfold seg_blocks. destruct (filter _ segs) as [|s' l] eqn:E.
  - assert (s ∈ filter (fun x => Handle_EncodeTo [] (sg_handle x) = Handle_EncodeTo [] (sg_handle s)) segs) as Hin
      by (by apply list_elem_of_filter).
    rewrite E in Hin. by apply not_elem_of_nil in Hin.
  - simpl. assert (s' ∈ filter (fun x => Handle_EncodeTo [] (sg_handle x) = Handle_EncodeTo [] (sg_handle s)) segs) as Hin
      by (rewrite E; constructor).
    apply list_elem_of_filter in Hin as [He Hin]. f_equal. apply seg_offset_inj; [done|done|].
    pose proof (Handle_round (sg_handle s') [] (seg_handle_ok _ Hin)) as H1.
    rewrite He, (Handle_round (sg_handle s) [] (seg_handle_ok _ Hs)) in H1. congruence.
Qed.

Lemma index_elem (h : bytes) : h ∈ (index_of segs).*2 -> exists s, s ∈ segs /\ h = Handle_EncodeTo [] (sg_handle s).
Proof.
  intros ([k h'] & -> & (s & [= -> ->] & Hs)%list_elem_of_fmap)%list_elem_of_fmap. by exists s.
Qed.

Lemma index_lookup (i : nat) (k h : bytes) :
  index_of segs !! i = Some (k, h) ->
  exists s, segs !! i = Some s /\ k = sg_key s /\ h = Handle_EncodeTo [] (sg_handle s).
Proof.
  unfold index_of. rewrite list_lookup_fmap. destruct (segs !! i) as [s|]; simpl; [|done]. intros [= <- <-]. by exists s.
Qed.

Lemma seg_all_ents : all_ents (index_of segs) seg_blocks = es.
Proof.
  rewrite (tf_ents _ _ _ _ _ _ Htf). unfold all_ents, index_of. rewrite <- !list_fmap_compose. f_equal.
  apply list_fmap_ext. intros i s Hs. simpl. apply seg_blocks_ents. by eapply list_elem_of_lookup_2.
Qed.

Lemma seg_elem (s : Seg) (e : bytes * bytes) : s ∈ segs -> e ∈ sg_ents s -> e ∈ es.
Proof.
  intros Hs He. rewrite (tf_ents _ _ _ _ _ _ Htf). apply (elem_of_concat _ (sg_ents s)); [done|].
  apply list_elem_of_fmap. by exists s.
Qed.

Lemma seg_ents_ok (s : Seg) : s ∈ segs -> Forall (fun e : bytes * bytes => ok e.1) (sg_ents s).
Proof. intros Hs. apply Forall_forall. intros e He. apply (proj1 (Forall_forall _ _) Hok). by apply (seg_elem s). Qed.
End segs.

(** ** The keys of the index *)

Section keys.
Context {C : Comparator} {ok : bytes -> Prop} {HC : ComparatorSpec C ok} {same : bytes -> bytes -> Prop}.

Lemma seps_middle (l r : list Seg) (s : Seg) (rest : list (bytes * bytes)) :
  seps (ok := ok) same (l ++ s :: r) rest -> seps (ok := ok) same (s :: r) rest.
Proof. induction l as [|x l IH]; [done|]. intros (_ & _ & _ & _ & H). by apply IH. Qed.

Lemma seps_key_ok (segs : list Seg) (rest : list (bytes * bytes)) :
  seps (ok := ok) same segs rest -> Forall (fun s => ok (sg_key s)) segs.
Proof. induction segs as [|s l IH]; [done|]. intros (? & _ & _ & _ & H). constructor; [done|by apply IH]. Qed.

Lemma seps_low (segs : list Seg) (rest : list (bytes * bytes)) (s : Seg) (e : bytes * bytes) :
  seps (ok := ok) same segs rest -> s ∈ segs -> e ∈ sg_ents s -> ~ cmp_lt (sg_key s) e.1.
Proof.
  intros Hs (l & r & ->)%list_elem_of_split He. apply seps_middle in Hs as (_ & Hl & _).
  exact (proj1 (Forall_forall _ _) Hl e He).
Qed.

Lemma seps_high (segs : list Seg) (rest : list (bytes * bytes)) (i j : nat) (s s' : Seg) (e : bytes * bytes) :
  seps (ok := ok) same segs rest -> (i < j)%nat -> segs !! i = Some s -> segs !! j = Some s' -> e ∈ sg_ents s' ->
  cmp_lt (sg_key s) e.1.
Proof.
  intros Hs Hij Hi Hj He. rewrite <- (take_drop_middle segs i s Hi) in Hs. apply seps_middle in Hs as (_ & _ & Hh & _).
  apply (proj1 (Forall_forall _ _) Hh). apply elem_of_app. left. apply (elem_of_concat _ (sg_ents s')); [done|].
  apply list_elem_of_fmap. exists s'. split; [done|]. apply (list_elem_of_lookup_2 _ (j - S i)).
  rewrite lookup_drop. by replace (S i + (j - S i))%nat with j by lia.
Qed.

(** A key is above what is not above a key below it. *)
Lemma lt_of_not_lt (a b c : bytes) : ok a -> ok b -> ok c -> ~ cmp_lt b a -> cmp_lt b c -> cmp_lt a c.
Proof.
  intros Ha Hb Hc Hn Hlt. destruct (cmp_cases a b Ha Hb) as [(_ & _ & _ & H)|[[_ ->]|(_ & _ & _ & H)]]; [|done|done].
  by apply (cmp_trans a b c).
Qed.

Lemma lt_of_lt_not (a b c : bytes) : ok a -> ok b -> ok c -> cmp_lt a b -> ~ cmp_lt c b -> cmp_lt a c.
Proof.
  intros Ha Hb Hc Hlt Hn. destruct (cmp_cases b c Hb Hc) as [(_ & _ & _ & H)|[[_ ->]|(_ & _ & _ & H)]]; [|done|done].
  by apply (cmp_trans a b c).
Qed.

Lemma index_sorted (segs : list Seg) (rest : list (bytes * bytes)) :
  seps (ok := ok) same segs rest -> Forall (fun s => sg_ents s <> []) segs ->
  Forall (fun s => Forall (fun e : bytes * bytes => ok e.1) (sg_ents s)) segs ->
  StronglySorted (fun a b : bytes * bytes => cmp_lt a.1 b.1) (index_of segs).
Proof.
  intros Hs Hne Hok. induction segs as [|s l IH]; [constructor|]. pose proof Hs as (Hk & _ & Hh & _ & Hs').
  apply Forall_cons in Hne as [_ Hne]. apply Forall_cons in Hok as [_ Hok].
  constructor; [by apply IH|]. apply Forall_fmap, Forall_forall. intros s' Hin. simpl.
  pose proof (proj1 (Forall_forall _ _) Hne s' Hin) as Hn. pose proof (proj1 (Forall_forall _ _) Hok s' Hin) as Ho.
  simpl in Hn, Ho. pose proof (fun e => seps_low l rest s' e Hs' Hin) as Hl. destruct (sg_ents s') as [|e es'] eqn:E; [done|].
  apply Forall_cons in Ho as [Ho _]. apply (lt_of_lt_not _ e.1); [done|done| | |].
  - exact (proj1 (Forall_forall _ _) (seps_key_ok _ _ Hs') s' Hin).
  - apply (proj1 (Forall_forall _ _) Hh). apply elem_of_app. left. apply (elem_of_concat _ (sg_ents s')); [rewrite E; set_solver|].
    apply list_elem_of_fmap. by exists s'.
  - apply Hl. set_solver.
Qed.
End keys.

(** ** Opening *)

Section read.
Context {G K : Type} {R : RandomAccessFile G} {contents : G -> bytes} {file_ok : G -> Prop}.
Context {HR : RandomAccessFileSpec G contents file_ok}.
Context {BC : BlockCache K} {has : K -> bytes -> Block -> Prop} {HB : BlockCacheSpec BC has}.
Context {C : Comparator} {ok : bytes -> Prop} {HC : ComparatorSpec C ok}.
Context {CP : CrcPort} {HP : CrcPortSpec CP} {SP : SnappyPort}.
Context (addr : bytes -> Z) (opt : TableOptions) (filter_policy : option FilterPolicy) (same : bytes -> bytes -> Prop).
Context (Hinterval : 1 <= block_restart_interval opt).

Context (es : list (bytes * bytes)) (d : bytes) (segs : list Seg).
Context (Hsorted : StronglySorted (fun a b : bytes * bytes => cmp_lt a.1 b.1) es).
Context (Hok : Forall (fun e : bytes * bytes => ok e.1) es).
Context (Htf : table_file (ok := ok) opt filter_policy same es d segs).
Context (Hlen : Z.of_nat (length d) < 2 ^ 32).

(** What the filter of the table promises. *)
Definition filter_good (P : FilterPolicy) (rd : FB.FilterBlockReader) : Prop :=
  (forall o ks k k', (o, ks) ∈ filter_blocks (blocks_of segs None) -> k ∈ ks -> same k k' ->
    @FB.FilterKeyMayMatch P rd o k' = Some true) /\
  forall key_ok o k, FilterPolicyTotal P key_ok -> 0 <= o -> key_ok k -> is_Some (@FB.FilterKeyMayMatch P rd o k).

Definition filter_opened (rd : option FB.FilterBlockReader) : Prop :=
  match filter_policy with
  | None => rd = None
  | Some P => exists r, rd = Some r /\ filter_good P r
  end.

(** A file with the contents of the table. *)
Definition on_disk (g : G) : Prop := file_ok g /\ contents g = d.

(** [t] is the table on the file. *)
Record opened (t : Table G) : Prop := MkOpened {
  o_file : on_disk (t_file t);
  o_index : Block_new (built 1 (index_of segs)) = Some (t_index_block t);
  o_filter : filter_opened (t_filter t) }.

Lemma read_stored (file : G) (verify : bool) (h : BlockHandle) (c : bytes) :
  on_disk file -> stored d h c -> exists x, ReadBlock addr file verify h = Some (inl x) /\ bc_data x = c.
Proof. intros [Hf <-] Hst. apply (ReadBlock_stored addr file verify h c Hf Hst). lia. Qed.

Lemma stored_handle_ok (h : BlockHandle) (c : bytes) : stored d h c -> handle_ok h.
Proof. intros (? & ? & ?)%stored_bounds. unfold handle_ok. lia. Qed.

Lemma ReadFilter_ok (file : G) (h : BlockHandle) (fc : bytes) (rd : FB.FilterBlockReader) :
  on_disk file -> stored d h fc -> FB.FilterBlockReader_new fc = Some rd ->
  ReadFilter addr opt file (Handle_EncodeTo [] h) = Some (Some rd).
Proof.
  intros Hf Hst Hrd. unfold ReadFilter. rewrite <- (app_nil_r (Handle_EncodeTo [] h)), Handle_round by (by eapply stored_handle_ok).
  destruct (read_stored file (meta_verify opt) h fc Hf Hst) as (x & -> & <-). cbn [mbind option_bind]. by rewrite Hrd.
Qed.

(** A block with one entry: seeking its key finds it. *)
Lemma built_seek_single (it : BlockIterator) (r : Z) (k v : bytes) :
  built_at r [(k, v)] it None ->
  exists it', @it_Seek _ (@BlockIterator_iterator Bytewise.BytewiseComparator) it k = Some it' /\
    @it_Valid _ (@BlockIterator_iterator Bytewise.BytewiseComparator) it' = true /\
    @it_key _ (@BlockIterator_iterator Bytewise.BytewiseComparator) it' = Some k /\
    @it_value _ (@BlockIterator_iterator Bytewise.BytewiseComparator) it' = Some v.
Proof.
  intros Hat. pose proof (built_spec Bytewise.BytewiseComparator (fun _ => True) r [(k, v)] Bytewise.BytewiseComparator_spec ltac:(repeat constructor)
    ltac:(by repeat constructor)) as HI.
  destruct (it_seek_at (IteratorSpec := HI) it None k Hat I) as (it' & i & He & Hi & Hat' & Hl & _).
  assert (i = O) as ->.
  { destruct i as [|[|i]]; [done| |simpl in Hi; lia]. simpl in Hl. apply Forall_cons in Hl as [Hl _].
    by apply (cmp_lt_irrefl (H := Bytewise.BytewiseComparator_spec)) in Hl. }
  exists it'. split; [done|]. rewrite (it_valid_at (IteratorSpec := HI) it' (Some O) Hat').
  destruct (it_entry_at (IteratorSpec := HI) it' O Hat') as (k' & v' & [= <- <-] & -> & ->). done.
Qed.

Lemma ReadMeta_ok (file : G) (footer : Footer) (meta : list (bytes * bytes)) :
  on_disk file -> stored d (metaindex_handle footer) (built (block_restart_interval opt) meta) ->
  BB.CurrentSizeEstimate (BB.Adds (block_restart_interval opt) BB.BlockBuilder_new meta) < 2 ^ 32 ->
  match filter_policy with
  | None => meta = []
  | Some P => exists h fc rd, meta = [(filter_key P, Handle_EncodeTo [] h)] /\ stored d h fc /\
      FB.FilterBlockReader_new fc = Some rd /\ filter_good P rd
  end ->
  exists rd, ReadMeta addr opt filter_policy file footer = Some rd /\ filter_opened rd.
Proof.
  intros Hf Hst Hsz Hm. unfold ReadMeta, filter_opened.
  destruct (policy_cases filter_policy) as [E|[P E]]; rewrite E in Hm |- *; [by exists None|].
  destruct Hm as (h & fc & rd & -> & Hh & Hrd & Hgood).
  destruct (read_stored file (meta_verify opt) _ _ Hf Hst) as (x & -> & Hx). cbn [mbind option_bind]. rewrite Hx.
  destruct (built_open _ _ Hinterval Hsz) as (b & it & -> & Hit & Hat & _). cbn [mbind option_bind].
  rewrite Hit. cbn [mbind option_bind]. destruct (built_seek_single it _ _ _ Hat) as (it' & -> & Hv & Hk & Hval).
  cbn [mbind option_bind]. rewrite Hv, Hk. cbn [mbind option_bind].
  rewrite (proj2 (Bytewise.slice_eqb_spec _ _)) by done. rewrite Hval. cbn [mbind option_bind].
  rewrite (ReadFilter_ok file h fc rd Hf Hh Hrd). eauto.
Qed.

(** The cache holds, under the keys of the table, only its blocks. *)
Definition block_key (id : Z) (h : BlockHandle) : bytes := EncodeFixed64 true id ++ EncodeFixed64 true (h_offset h).

Definition cache_ok (id : Z) (cache : option K) : Prop :=
  match cache with
  | None => True
  | Some c => forall s b, s ∈ segs -> has c (block_key id (sg_handle s)) b ->
      Block_new (built (block_restart_interval opt) (sg_ents s)) = Some b
  end.

(** The identifier and the cache after a table has been opened. *)
Definition opened_cache (cache : option K) : Z * option K :=
  match cache with
  | Some c => let '(id, c) := bc_NewId c in (id, Some c)
  | None => (0, None)
  end.

Lemma Open_ok (file : G) (cache : option K) :
  on_disk file ->
  exists t, Open addr opt filter_policy file (Z.of_nat (length d)) cache = Some (inl t, (opened_cache cache).2) /\
    cache_id t = (opened_cache cache).1 /\ opened t.
Proof.
  intros Hf. destruct (tf_footer _ _ _ _ _ _ Htf) as (pre & footer & meta & Hd & Hi & Hisz & Hm & Hmsz & Hfl).
  pose proof (Footer_round footer [] (stored_handle_ok _ _ Hm) (stored_handle_ok _ _ Hi)) as [Hfl1 Hdec].
  rewrite app_nil_r in Hdec.
  assert (length d = length pre + Z.to_nat kEncodedLength)%nat as Hdl by (by rewrite Hd, length_app, Hfl1).
  change (Z.to_nat kEncodedLength) with 48%nat in *. unfold Open. change kEncodedLength with 48.
  destruct (Z.ltb_spec (Z.of_nat (length d)) 48); [lia|].
  rewrite (ReadAt_contents file _ _ true) by (apply Hf || rewrite ?(proj2 Hf); lia). cbn [mbind option_bind].
  change (negb (Status.ok OK)) with false. cbn iota. rewrite (proj2 Hf).
  assert (take (Z.to_nat 48) (drop (Z.to_nat (Z.of_nat (length d) - 48)) d) = Footer_EncodeTo [] footer) as ->.
  { replace (Z.to_nat (Z.of_nat (length d) - 48)) with (length pre) by lia. rewrite Hd, drop_app_length.
    apply take_ge. rewrite Hfl1. change (Z.to_nat 48) with 48%nat. lia. }
  rewrite Hdec. cbn [mbind option_bind].
  destruct (read_stored file (meta_verify opt) _ _ Hf Hi) as (x & -> & Hx). cbn [mbind option_bind]. rewrite Hx.
  destruct (built_open 1 _ ltac:(lia) Hisz) as (b & it & Hb & _). unfold built in Hb. rewrite Hb. cbn [mbind option_bind].
  destruct (ReadMeta_ok file footer meta Hf Hm Hmsz Hfl) as (rd & Hrd & Hro).
  unfold opened_cache. destruct cache as [c|]; [destruct (bc_NewId c) as [id c'] eqn:Eid|];
    rewrite Hrd; cbn [mbind option_bind]; (eexists; split; [reflexivity|]; split; [done|]; by split).
Qed.

(** A cache with nothing under the new identifier will do. *)
Lemma opened_cache_ok (cache : option K) :
  (forall c, (opened_cache cache).2 = Some c -> forall h b, ~ has c (block_key (opened_cache cache).1 h) b) ->
  cache_ok (opened_cache cache).1 (opened_cache cache).2.
Proof.
  intros Hn. unfold cache_ok. destruct (opened_cache cache).2 as [c|]; [|done].
  intros s b _ Hb. by apply (Hn c eq_refl) in Hb.
Qed.

(** ** Blocks *)

Lemma block_key_inj (id : Z) (s s' : Seg) :
  s ∈ segs -> s' ∈ segs -> block_key id (sg_handle s) = block_key id (sg_handle s') -> s = s'.
Proof.
  intros Hs Hs' Heq. apply (seg_offset_inj Htf); [done|done|]. apply app_inj_1 in Heq as [_ Heq]; [|done].
  pose proof (seg_handle_ok Htf Hlen s Hs) as [H1 _]. pose proof (seg_handle_ok Htf Hlen s' Hs') as [H2 _].
  pose proof (fixed64_round (h_offset (sg_handle s)) [] H1) as E1.
  pose proof (fixed64_round (h_offset (sg_handle s')) [] H2) as E2. rewrite <- Heq, E1 in E2. congruence.
Qed.

Lemma seg_open (s : Seg) :
  s ∈ segs -> exists b it, Block_new (built (block_restart_interval opt) (sg_ents s)) = Some b /\
    Block_NewIterator b = Some it /\ built_at (block_restart_interval opt) (sg_ents s) it None.
Proof.
  intros Hs. destruct (seg_block Htf s Hs) as (_ & _ & Hsz). simpl in Hsz. unfold raw in Hsz. rewrite Finish_length in Hsz.
  destruct (built_open _ _ Hinterval Hsz) as (b & it & ? & ? & ? & _). by exists b, it.
Qed.

Lemma seg_read (t : Table G) (verify : bool) (s : Seg) :
  opened t -> s ∈ segs -> exists x b, ReadBlock addr (t_file t) verify (sg_handle s) = Some (inl x) /\
    Block_new (bc_data x) = Some b /\ Block_new (built (block_restart_interval opt) (sg_ents s)) = Some b.
Proof.
  intros Ht Hs. destruct (seg_block Htf s Hs) as (_ & Hst & _). simpl in Hst.
  destruct (read_stored (t_file t) verify _ _ (o_file t Ht) Hst) as (x & Hx & Hd).
  destruct (seg_open s Hs) as (b & _ & Hb & _). exists x, b. split; [done|]. rewrite Hd. by split.
Qed.

Lemma GetBlock_ok (t : Table G) (ropt : ReadOptions) (cache : option K) (s : Seg) :
  opened t -> s ∈ segs -> cache_ok (cache_id t) cache ->
  exists b cache', GetBlock addr t ropt cache (sg_handle s) = Some (inl b, cache') /\
    cache_ok (cache_id t) cache' /\ Block_new (built (block_restart_interval opt) (sg_ents s)) = Some b.
Proof.
  intros Ht Hs Hc. destruct (seg_read t (verify_checksums ropt) s Ht Hs) as (x & b & Hx & Hb & Hnew).
  unfold GetBlock. destruct cache as [c|]; [|rewrite Hx; cbn [mbind option_bind]; rewrite Hb; by exists b, None].
  fold (block_key (cache_id t) (sg_handle s)).
  destruct (bc_Lookup c _) as [[b'|] c'] eqn:El.
  - exists b', (Some c'). split; [done|]. split.
    + intros s' b2 Hs' H2. apply (Hc s' b2 Hs'). by eapply bc_lookup_keeps.
    + apply (Hc s b' Hs). by eapply bc_found.
  - rewrite Hx. cbn [mbind option_bind]. rewrite Hb. cbn [mbind option_bind]. eexists b, _. split; [reflexivity|].
    split; [|done]. intros s' b2 Hs' H2.
    assert (has c' (block_key (cache_id t) (sg_handle s')) b2 \/
      (block_key (cache_id t) (sg_handle s') = block_key (cache_id t) (sg_handle s) /\ b2 = b)) as [H3|[He ->]].
    { case_match; [by eapply bc_insert_adds|by left]. }
    + apply (Hc s' b2 Hs'). by eapply bc_lookup_keeps.
    + by apply (block_key_inj _ s' s Hs' Hs) in He as ->.
Qed.

(** The iterator over the block behind a value of the index. *)
Definition seg_at (h : bytes) (it : BlockIterator) (p : option nat) : Prop :=
  built_at (block_restart_interval opt) (seg_blocks (segs := segs) h) it p.

Lemma BlockReader_ok (t : Table G) (ropt : ReadOptions) (cache : option K) (s : Seg) :
  opened t -> s ∈ segs -> cache_ok (cache_id t) cache ->
  exists it cache', BlockReader addr t ropt cache (Handle_EncodeTo [] (sg_handle s)) = Some (it, cache') /\
    cache_ok (cache_id t) cache' /\ built_at (block_restart_interval opt) (sg_ents s) it None.
Proof.
  intros Ht Hs Hc. unfold BlockReader.
  rewrite <- (app_nil_r (Handle_EncodeTo [] _)), Handle_round by (by apply (seg_handle_ok Htf Hlen)).
  destruct (GetBlock_ok t ropt cache s Ht Hs Hc) as (b & c' & -> & Hc' & Hb). cbn [mbind option_bind iter_of].
  destruct (seg_open s Hs) as (b' & it & Hb' & Hit & Hat). rewrite Hb in Hb'. injection Hb' as <-. rewrite Hit.
  cbn [mbind option_bind]. by exists it, c'.
Qed.

Lemma seg_sorted (s : Seg) : s ∈ segs -> StronglySorted (fun a b : bytes * bytes => cmp_lt a.1 b.1) (sg_ents s).
Proof.
  intros (l & r & Hs)%list_elem_of_split. rewrite (tf_ents _ _ _ _ _ _ Htf), Hs, fmap_app, concat_app in Hsorted.
  apply sorted_app_inv in Hsorted as (_ & H & _). simpl in H. by apply sorted_app_inv in H as (H & _ & _).
Qed.

Lemma seg_spec (s : Seg) : s ∈ segs ->
  IteratorSpec BlockIterator_iterator ok cmp_lt (sg_ents s) (built_at (block_restart_interval opt) (sg_ents s)).
Proof. intros Hs. apply built_spec; [done|by apply seg_sorted|by apply (seg_ents_ok Htf Hok)]. Qed.

Lemma index_keys_ok : Forall (fun e : bytes * bytes => ok e.1) (index_of segs).
Proof.
  apply Forall_fmap, Forall_forall. intros s Hs.
  exact (proj1 (Forall_forall _ _) (seps_key_ok _ _ (tf_seps _ _ _ _ _ _ Htf)) s Hs).
Qed.

Lemma index_spec : IteratorSpec BlockIterator_iterator ok cmp_lt (index_of segs) (built_at 1 (index_of segs)).
Proof.
  apply built_spec; [done| |apply index_keys_ok]. apply (index_sorted segs [] (tf_seps _ _ _ _ _ _ Htf)).
  - apply Forall_forall. intros s Hs. by destruct (seg_block Htf s Hs).
  - apply Forall_forall. intros s Hs. by apply (seg_ents_ok Htf Hok).
Qed.

Lemma index_open (t : Table G) :
  opened t -> exists it, Block_NewIterator (t_index_block t) = Some it /\ built_at 1 (index_of segs) it None /\
    (length (index_of segs) <= length (blk_data_ (t_index_block t)))%nat.
Proof.
  intros Ht. destruct (tf_footer _ _ _ _ _ _ Htf) as (_ & _ & _ & _ & _ & Hisz & _).
  destruct (built_open 1 _ ltac:(lia) Hisz) as (b & it & Hb & Hit & Hat & Hd & Hl). rewrite (o_index t Ht) in Hb.
  injection Hb as <-. exists it. split; [done|]. split; [done|]. by rewrite Hd.
Qed.

(** ** Iteration *)

Definition table_at (t : Table G) : TableIterator -> option nat -> Prop :=
  two_at (index_of segs) (built_at 1 (index_of segs)) (seg_blocks (segs := segs)) seg_at (cache_ok (cache_id t)).

Lemma Table_iterator_spec (t : Table G) (ropt : ReadOptions) :
  opened t -> IteratorSpec (Table_iterator addr t ropt) ok cmp_lt es (table_at t).
Proof.
  intros Ht. rewrite <- (seg_all_ents Htf Hlen) at 1. unfold Table_iterator, table_at.
  destruct (index_open t Ht) as (_ & _ & _ & Hl). pose proof index_spec as HI.
  pose proof (tf_seps _ _ _ _ _ _ Htf) as Hseps.
  apply (TwoLevel_spec _ _ (ok := ok)); [done|done| | |unfold table_fuel; lia| | |apply index_keys_ok|].
  - intros h (s & Hs & ->)%index_elem. unfold seg_at. rewrite (seg_blocks_ents Htf Hlen s Hs). by apply seg_spec.
  - intros c h Hc (s & Hs & ->)%index_elem. unfold seg_at. rewrite (seg_blocks_ents Htf Hlen s Hs).
    by apply BlockReader_ok.
  - intros i k h e (s & Hi & -> & ->)%index_lookup. apply list_elem_of_lookup_2 in Hi as Hs.
    rewrite (seg_blocks_ents Htf Hlen s Hs). by apply (seps_low _ _ s e Hseps).
  - intros i j k k' h h' e Hij (s & Hi & -> & ->)%index_lookup (s' & Hj & -> & ->)%index_lookup.
    apply list_elem_of_lookup_2 in Hj as Hs'. rewrite (seg_blocks_ents Htf Hlen s' Hs').
    by apply (seps_high _ _ i j s s' e Hseps).
  - intros h e (s & Hs & ->)%index_elem. rewrite (seg_blocks_ents Htf Hlen s Hs).
    apply (proj1 (Forall_forall _ _) (seg_ents_ok Htf Hok s Hs)).
Qed.

Lemma Table_NewIterator_ok (t : Table G) (ropt : ReadOptions) (cache : option K) :
  opened t -> cache_ok (cache_id t) cache ->
  exists it, Table_NewIterator t ropt cache = Some it /\ table_at t it None.
Proof.
  intros Ht Hc. destruct (index_open t Ht) as (it & Hit & Hat & _). unfold Table_NewIterator. rewrite Hit.
  cbn [mbind option_bind]. pose proof index_spec as HI. by apply (NewTwoLevelIterator_at (okt := ok) _ _ _ _ _ _ _ None).
Qed.

(** ** Point lookups *)

(** [g] is the position of the first entry not below [k]. *)
Definition first_not_below (l : list (bytes * bytes)) (k : bytes) (g : nat) : Prop :=
  (g <= length l)%nat /\ Forall (fun e : bytes * bytes => cmp_lt e.1 k) (take g l) /\
  Forall (fun e : bytes * bytes => ~ cmp_lt e.1 k) (drop g l).

Lemma seg_key_ok (s : Seg) : s ∈ segs -> ok (sg_key s).
Proof. exact (proj1 (Forall_forall _ _) (seps_key_ok _ _ (tf_seps _ _ _ _ _ _ Htf)) s). Qed.

Lemma seg_entry_ok (s : Seg) (e : bytes * bytes) : s ∈ segs -> e ∈ sg_ents s -> ok e.1.
Proof. intros Hs. exact (proj1 (Forall_forall _ _) (seg_ents_ok Htf Hok s Hs) e). Qed.

Lemma keys_below (l : list Seg) (k : bytes) :
  ok k -> Forall (fun s => s ∈ segs) l -> Forall (fun s => cmp_lt (sg_key s) k) l ->
  Forall (fun e : bytes * bytes => cmp_lt e.1 k) (concat (sg_ents <$> l)).
Proof.
  intros Hk Hin Hl. induction Hl as [|s l Hs Hl IH]; [constructor|]. apply Forall_cons in Hin as [Hss Hin].
  simpl. apply Forall_app. split; [|by apply IH]. apply Forall_forall. intros e He.
  apply (lt_of_not_lt e.1 (sg_key s) k); [by apply (seg_entry_ok s)|by apply seg_key_ok|done| |done].
  by apply (seps_low _ _ s e (tf_seps _ _ _ _ _ _ Htf)).
Qed.

Lemma split_end (k : bytes) :
  ok k -> Forall (fun s => cmp_lt (sg_key s) k) segs -> first_not_below es k (length es).
Proof.
  intros Hk Hl. unfold first_not_below. rewrite firstn_all, drop_all. split; [done|]. split; [|constructor].
  rewrite (tf_ents _ _ _ _ _ _ Htf). apply keys_below; [done| |done]. by apply Forall_forall.
Qed.

Lemma split_segs (l r : list Seg) (s : Seg) (k : bytes) (j : nat) :
  segs = l ++ s :: r -> ok k -> Forall (fun s => cmp_lt (sg_key s) k) l -> ~ cmp_lt (sg_key s) k ->
  first_not_below (sg_ents s) k j -> first_not_below es k (length (concat (sg_ents <$> l)) + j).
Proof.
  intros Hsegs Hk Hl Hs (Hj & Hj1 & Hj2). pose proof (tf_ents _ _ _ _ _ _ Htf) as He.
  rewrite Hsegs, fmap_app, concat_app in He. simpl in He.
  assert (Forall (fun s => s ∈ segs) (l ++ s :: r)) as Hin by (rewrite <- Hsegs; by apply Forall_forall).
  apply Forall_app in Hin as [Hin1 [Hin2 Hin3]%Forall_cons].
  unfold first_not_below. rewrite He, take_app_add, drop_app_add, !length_app.
  rewrite take_app_le, drop_app_le by done. split; [lia|]. split.
  - apply Forall_app. split; [by apply keys_below|done].
  - apply Forall_app. split; [done|]. pose proof (tf_seps _ _ _ _ _ _ Htf) as Hseps. rewrite Hsegs in Hseps.
    apply seps_middle in Hseps as (_ & _ & Hh & _). rewrite app_nil_r in Hh.
    apply Forall_forall. intros e Hin Hlt. apply Hs. assert (e ∈ es) as Hes by (rewrite He; set_solver).
    apply (cmp_trans _ e.1); [by apply seg_key_ok|exact (proj1 (Forall_forall _ _) Hok e Hes)|done| |done].
    exact (proj1 (Forall_forall _ _) Hh e Hin).
Qed.

(** The entry a filter takes to be the same as [k] is in the block [k] is
    looked up in. *)
Lemma found_in_seg (l r : list Seg) (s : Seg) (k : bytes) (j : nat) (e : bytes * bytes) :
  segs = l ++ s :: r -> ok k -> ~ cmp_lt (sg_key s) k -> first_not_below (sg_ents s) k j ->
  es !! (length (concat (sg_ents <$> l)) + j)%nat = Some e -> same e.1 k -> sg_ents s !! j = Some e.
Proof.
  intros Hsegs Hk Hs (Hj & Hj1 & Hj2) He Hsame. pose proof (tf_ents _ _ _ _ _ _ Htf) as Hes.
  pose proof (tf_seps _ _ _ _ _ _ Htf) as Hseps. rewrite Hsegs, fmap_app, concat_app in Hes. simpl in Hes.
  rewrite Hsegs in Hseps. apply seps_middle in Hseps as (_ & _ & _ & Hsh & _).
  rewrite Hes, lookup_app_r, Nat.add_comm, Nat.add_sub in He by lia.
  destruct (decide (j < length (sg_ents s))%nat) as [Hlt|Hge]; [by rewrite lookup_app_l in He|].
  exfalso. assert (j = length (sg_ents s)) as -> by lia. rewrite lookup_app_r, Nat.sub_diag in He by lia.
  apply Hs. apply (Hsh e k); [|done|done|by rewrite take_ge in Hj1 by lia].
  rewrite app_nil_r. by rewrite head_lookup.
Qed.

Lemma seg_lookup_es (l r : list Seg) (s : Seg) (j : nat) :
  segs = l ++ s :: r -> sg_ents s !! j = None \/ sg_ents s !! j = es !! (length (concat (sg_ents <$> l)) + j)%nat.
Proof.
  intros Hsegs. destruct (sg_ents s !! j) as [e|] eqn:E; [|by left]. right.
  rewrite (tf_ents _ _ _ _ _ _ Htf), Hsegs, fmap_app, concat_app, lookup_app_r, Nat.add_comm, Nat.add_sub by lia.
  simpl. by rewrite lookup_app_l by (by eapply lookup_lt_Some).
Qed.

(** The call to the filter in [InternalGet]. *)
Definition may_match (t : Table G) (handle_value k : bytes) : option bool :=
  match filter_policy, t_filter t, Handle_DecodeFrom handle_value with
  | Some P, Some filter, inl (handle, _) => @FB.FilterKeyMayMatch P filter (h_offset handle) k
  | _, _, _ => Some true
  end.

Lemma may_match_ok (t : Table G) (s : Seg) (k : bytes) (key_ok : bytes -> Prop) :
  opened t -> s ∈ segs -> (forall P, filter_policy = Some P -> FilterPolicyTotal P key_ok /\ key_ok k) ->
  exists may, may_match t (Handle_EncodeTo [] (sg_handle s)) k = Some may /\
    forall e, e ∈ sg_ents s -> same e.1 k -> may = true.
Proof.
  intros Ht Hs Htot. pose proof (o_filter t Ht) as Hfo. unfold may_match, filter_opened in *.
  destruct (policy_cases filter_policy) as [E|[P E]]; rewrite E in Hfo |- *; [by exists true|].
  destruct Hfo as (rd & -> & Hm & Htt). pose proof (seg_handle_ok Htf Hlen s Hs) as Hh.
  rewrite <- (app_nil_r (Handle_EncodeTo [] _)), Handle_round by done.
  destruct (Htot P E) as [HT Hk]. destruct (Htt key_ok (h_offset (sg_handle s)) k HT (proj1 (proj1 Hh)) Hk) as [may Hmay].
  exists may. split; [done|]. intros e He Hsame.
  rewrite (Hm (h_offset (sg_handle s)) ((sg_ents s).*1) e.1 k) in Hmay; [by injection Hmay| | |done].
  - unfold filter_blocks, blocks_of. rewrite app_nil_r, <- list_fmap_compose. apply list_elem_of_fmap. by exists s.
  - apply list_elem_of_fmap. by exists e.
Qed.

(** Seeking in a block and calling the saver. *)
Lemma seg_seek (it : BlockIterator) (s : Seg) (k : bytes) :
  s ∈ segs -> ok k -> built_at (block_restart_interval opt) (sg_ents s) it None ->
  exists it' j, it_Seek it k = Some it' /\ it_status it' = OK /\ first_not_below (sg_ents s) k j /\
    (if it_Valid it' then bk ← it_key it'; bv ← it_value it'; Some (Some (bk, bv)) else Some None) = Some (sg_ents s !! j).
Proof.
  intros Hs Hk Hat. pose proof (seg_spec s Hs) as HI.
  destruct (it_seek_at (IteratorSpec := HI) it None k Hat Hk) as (it' & j & He & Hj & Hat' & Hl & Hr).
  exists it', j. split; [done|]. split; [by apply (it_status_at (IteratorSpec := HI) it' _ Hat')|]. split; [done|].
  rewrite (it_valid_at (IteratorSpec := HI) it' _ Hat'). unfold pos_of in *. destruct (Nat.ltb_spec j (length (sg_ents s))).
  - destruct (it_entry_at (IteratorSpec := HI) it' j Hat') as (bk & bv & -> & -> & ->). done.
  - by rewrite lookup_ge_None_2.
Qed.

(** The part of [InternalGet] after the index. *)
Definition get_in (t : Table G) (ropt : ReadOptions) (cache : option K) (handle_value k : bytes)
    : option (Status * option (bytes * bytes) * option K) :=
  may ← may_match t handle_value k;
  if negb may then Some (OK, None, cache)
  else
    '(block_iter, cache) ← BlockReader addr t ropt cache handle_value;
    block_iter ← it_Seek block_iter k;
    saved ← (if it_Valid block_iter then
               bk ← it_key block_iter;
               bv ← it_value block_iter;
               Some (Some (bk, bv))
             else Some None);
    Some (it_status block_iter, saved, cache).

(** What a lookup of [k] may leave in [saved]. *)
Definition get_result (k : bytes) (g : nat) (saved : option (bytes * bytes)) : Prop :=
  first_not_below es k g /\ (saved = None \/ saved = es !! g) /\
  forall e, es !! g = Some e -> same e.1 k -> saved = Some e.

Lemma get_in_ok (t : Table G) (ropt : ReadOptions) (cache : option K) (k : bytes) (key_ok : bytes -> Prop)
    (l r : list Seg) (s : Seg) :
  opened t -> cache_ok (cache_id t) cache -> ok k ->
  (forall P, filter_policy = Some P -> FilterPolicyTotal P key_ok /\ key_ok k) ->
  segs = l ++ s :: r -> Forall (fun s => cmp_lt (sg_key s) k) l -> ~ cmp_lt (sg_key s) k ->
  exists saved cache' g, get_in t ropt cache (Handle_EncodeTo [] (sg_handle s)) k = Some (OK, saved, cache') /\
    cache_ok (cache_id t) cache' /\ get_result k g saved.
Proof.
  intros Ht Hc Hk Htot Hsegs Hl Hns. assert (s ∈ segs) as Hin by (rewrite Hsegs; set_solver).
  unfold get_in. destruct (may_match_ok t s k key_ok Ht Hin Htot) as (may & -> & Hmay). cbn [mbind option_bind].
  destruct (BlockReader_ok t ropt cache s Ht Hin Hc) as (bit & c' & Hbr & Hc' & Hbat).
  destruct (seg_seek bit s k Hin Hk Hbat) as (bit' & j & Hbs & Hst & Hj & Hsaved).
  pose proof (split_segs l _ s k j Hsegs Hk Hl Hns Hj) as Hg.
  pose proof (fun e => found_in_seg l _ s k j e Hsegs Hk Hns Hj) as Hfound.
  destruct may; cbn [negb].
  - rewrite Hbr. cbn [mbind option_bind]. rewrite Hbs. cbn [mbind option_bind].
    match type of Hsaved with ?x = _ => match goal with |- context [mbind _ ?y] => change y with x end end.
    rewrite Hsaved. cbn [mbind option_bind]. rewrite Hst. eexists _, c', _. split; [reflexivity|]. split; [done|].
    split; [exact Hg|]. split; [|done]. by apply (seg_lookup_es l r s).
  - eexists None, cache, _. split; [reflexivity|]. split; [done|]. split; [exact Hg|]. split; [by left|].
    intros e Hes Hsame. exfalso. specialize (Hfound e Hes Hsame).
    apply list_elem_of_lookup_2 in Hfound. by specialize (Hmay e Hfound Hsame).
Qed.

Lemma index_below (i : nat) (k : bytes) :
  Forall (fun e : bytes * bytes => cmp_lt e.1 k) (take i (index_of segs)) ->
  Forall (fun s => cmp_lt (sg_key s) k) (take i segs).
Proof. unfold index_of. rewrite <- fmap_take. intros H. exact (proj1 (Forall_fmap _ _ _) H). Qed.

Lemma InternalGet_ok (t : Table G) (ropt : ReadOptions) (cache : option K) (k : bytes) (key_ok : bytes -> Prop) :
  opened t -> cache_ok (cache_id t) cache -> ok k ->
  (forall P, filter_policy = Some P -> FilterPolicyTotal P key_ok /\ key_ok k) ->
  exists saved cache' g, InternalGet addr filter_policy t ropt cache k = Some (OK, saved, cache') /\
    cache_ok (cache_id t) cache' /\ get_result k g saved.
Proof.
  intros Ht Hc Hk Htot. unfold InternalGet. destruct (index_open t Ht) as (it & -> & Hat & _). cbn [mbind option_bind].
  pose proof index_spec as HI. destruct (it_seek_at it None k Hat Hk) as (it' & i & -> & Hi & Hat' & Hl & Hr).
  cbn [mbind option_bind]. rewrite (it_valid_at it' _ Hat'), (it_status_at it' _ Hat'). apply index_below in Hl.
  unfold pos_of in *. destruct (Nat.ltb_spec i (length (index_of segs))) as [Hlt|Hge].
  - destruct (it_entry_at it' i Hat') as (ik & h & He & _ & ->). cbn [mbind option_bind].
    destruct (index_lookup i ik h He) as (s & Hs & -> & ->).
    rewrite (drop_S _ _ _ He) in Hr. apply Forall_cons in Hr as [Hns _]. simpl in Hns.
    destruct (get_in_ok t ropt cache k key_ok (take i segs) (drop (S i) segs) s Ht Hc Hk Htot
      (eq_sym (take_drop_middle segs i s Hs)) Hl Hns) as (saved & c' & g & Hget & Hc' & Hres).
    exists saved, c', g. split; [|by split]. unfold get_in, may_match in Hget.
    change (bool_decide (is_Some (Some i))) with true. cbn iota. rewrite Hget. done.
  - eexists None, cache, (length es). split; [reflexivity|]. split; [done|].
    rewrite take_ge in Hl by (unfold index_of in Hge; rewrite length_fmap in Hge; lia).
    split; [by apply split_end|]. split; [by left|]. intros e He. apply lookup_lt_Some in He. lia.
Qed.
End read.
