(* ===== verification/Cache.v ===== *)
(** * The LRU cache

    [util/cache.cc]: the hash table of handles, a shard with its two lists and
    reference counts, and the sharded cache.

    A handle lives at an address of [heap], and reading through an address
    that is not there is [None].  A chain of [next_hash] pointers, and a
    circular list without its dummy head, is the list of the addresses it
    visits; the front of [lru_] is the oldest entry.  [alloc] is [malloc], and
    [deleted] records the calls of the deleters. *)

From S2P Require Import Prelude Status Coding Comparator Bloom.

Module LRU.

(** ** Definitions *)

Section cache.
Context {V : Type} (alloc : gset Z -> Z).

(** [LRUHandle]. *)
Record LRUHandle := MkHandle { value : V; charge : Z; in_cache : bool; refs : Z; hash : Z; key : bytes }.

Abbreviation heap_t := (gmap Z LRUHandle).

Definition set_refs (e : LRUHandle) (r : Z) : LRUHandle :=
  MkHandle (value e) (charge e) (in_cache e) r (hash e) (key e).

Definition set_in_cache (e : LRUHandle) (b : bool) : LRUHandle :=
  MkHandle (value e) (charge e) b (refs e) (hash e) (key e).

(** *** [HandleTable] *)

Record HandleTable := MkTable { length_ : Z; elems_ : Z; list_ : list (list Z) }.

(** The walk along a chain: the position of the slot. *)
Fixpoint find_slot (heap : heap_t) (l : list Z) (k : bytes) (h : Z) : option nat :=
  match l with
  | [] => Some O
  | a :: l' =>
      e ← heap !! a;
      if negb (hash e =? h) || negb (slice_eqb k (key e)) then S <$> find_slot heap l' k h else Some O
  end.

(** The bucket, its chain, and the position of the slot. *)
Definition FindPointer (heap : heap_t) (t : HandleTable) (k : bytes) (h : Z) : option (nat * list Z * nat) :=
  let i := Z.to_nat (Z.land h (length_ t - 1)) in
  l ← list_ t !! i;
  j ← find_slot heap l k h;
  Some (i, l, j).

Definition Table_Lookup (heap : heap_t) (t : HandleTable) (k : bytes) (h : Z) : option (option Z) :=
  '(_, l, j) ← FindPointer heap t k h; Some (l !! j).

(** The loop that doubles [new_length]. *)
Fixpoint new_length (fuel : nat) (n elems : Z) : option Z :=
  if n <? elems then match fuel with O => None | S fuel' => new_length fuel' (u32 (n * 2)) elems end else Some n.

(** A handle is put at the front of its new chain. *)
Definition rehash (heap : heap_t) (n : Z) (lists : list (list Z)) (a : Z) : option (list (list Z)) :=
  e ← heap !! a;
  let i := Z.to_nat (Z.land (hash e) (n - 1)) in
  l ← lists !! i;
  Some (<[i := a :: l]> lists).

Fixpoint rehash_all (heap : heap_t) (n : Z) (lists : list (list Z)) (l : list Z) : option (list (list Z)) :=
  match l with
  | [] => Some lists
  | a :: l' => lists ← rehash heap n lists a; rehash_all heap n lists l'
  end.

Definition Resize (heap : heap_t) (t : HandleTable) : option HandleTable :=
  n ← new_length 32 4 (elems_ t);
  lists ← rehash_all heap n (replicate (Z.to_nat n) []) (concat (list_ t));
  Some (MkTable n (elems_ t) lists).

(** What the constructor's call of [Resize] makes. *)
Definition HandleTable_new : HandleTable := MkTable 4 0 (replicate 4 []).

(** [Insert], with the handle that was replaced. *)
Definition Table_Insert (heap : heap_t) (t : HandleTable) (a : Z) : option (option Z * HandleTable) :=
  e ← heap !! a;
  '(i, l, j) ← FindPointer heap t (key e) (hash e);
  let lists := <[i := take j l ++ a :: drop (S j) l]> (list_ t) in
  match l !! j with
  | Some old => Some (Some old, MkTable (length_ t) (elems_ t) lists)
  | None =>
      let t := MkTable (length_ t) (u32 (elems_ t + 1)) lists in
      t ← (if length_ t <? elems_ t then Resize heap t else Some t);
      Some (None, t)
  end.

Definition Table_Remove (heap : heap_t) (t : HandleTable) (k : bytes) (h : Z) : option (option Z * HandleTable) :=
  '(i, l, j) ← FindPointer heap t k h;
  match l !! j with
  | Some a => Some (Some a, MkTable (length_ t) (u32 (elems_ t - 1)) (<[i := take j l ++ drop (S j) l]> (list_ t)))
  | None => Some (None, t)
  end.

(** *** [LRUCache] *)

Record LRUCache := MkCache {
  capacity_ : Z; usage_ : Z; lru_ : list Z; in_use_ : list Z; table_ : HandleTable;
  heap : heap_t; deleted : list (bytes * V) }.

Definition LRUCache_new (capacity : Z) : LRUCache := MkCache capacity 0 [] [] HandleTable_new ∅ [].

Definition set_heap (c : LRUCache) (h : heap_t) : LRUCache :=
  MkCache (capacity_ c) (usage_ c) (lru_ c) (in_use_ c) (table_ c) h (deleted c).

Definition set_lists (c : LRUCache) (lru in_use : list Z) : LRUCache :=
  MkCache (capacity_ c) (usage_ c) lru in_use (table_ c) (heap c) (deleted c).

Definition set_table (c : LRUCache) (t : HandleTable) : LRUCache :=
  MkCache (capacity_ c) (usage_ c) (lru_ c) (in_use_ c) t (heap c) (deleted c).

Definition set_usage (c : LRUCache) (u : Z) : LRUCache :=
  MkCache (capacity_ c) u (lru_ c) (in_use_ c) (table_ c) (heap c) (deleted c).

(** [LRU_Remove]: the handle is unlinked from the list it is in. *)
Definition LRU_Remove (c : LRUCache) (a : Z) : option LRUCache :=
  if bool_decide (a ∈ lru_ c) then Some (set_lists c (filter (fun x => x <> a) (lru_ c)) (in_use_ c))
  else if bool_decide (a ∈ in_use_ c) then Some (set_lists c (lru_ c) (filter (fun x => x <> a) (in_use_ c)))
  else None.

(** [LRU_Append] to [lru_] and to [in_use_]. *)
Definition append_lru (c : LRUCache) (a : Z) : LRUCache := set_lists c (lru_ c ++ [a]) (in_use_ c).
Definition append_in_use (c : LRUCache) (a : Z) : LRUCache := set_lists c (lru_ c) (in_use_ c ++ [a]).

Definition Ref (c : LRUCache) (a : Z) : option LRUCache :=
  e ← heap c !! a;
  c ← (if (refs e =? 1) && in_cache e then c ← LRU_Remove c a; Some (append_in_use c a) else Some c);
  Some (set_heap c (<[a := set_refs e (u32 (refs e + 1))]> (heap c))).

Definition Unref (c : LRUCache) (a : Z) : option LRUCache :=
  e ← heap c !! a;
  let r := u32 (refs e - 1) in
  let c := set_heap c (<[a := set_refs e r]> (heap c)) in
  if r =? 0 then
    Some (MkCache (capacity_ c) (usage_ c) (lru_ c) (in_use_ c) (table_ c) (delete a (heap c))
            (deleted c ++ [(key e, value e)]))
  else if in_cache e && (r =? 1) then c ← LRU_Remove c a; Some (append_lru c a)
  else Some c.

Definition FinishErase (c : LRUCache) (e : option Z) : option LRUCache :=
  match e with
  | None => Some c
  | Some a =>
      c ← LRU_Remove c a;
      e ← heap c !! a;
      let c := set_heap c (<[a := set_in_cache e false]> (heap c)) in
      Unref (set_usage c (u64 (usage_ c - charge e))) a
  end.

Definition LRU_Lookup (c : LRUCache) (k : bytes) (h : Z) : option (option Z * LRUCache) :=
  found ← Table_Lookup (heap c) (table_ c) k h;
  match found with
  | None => Some (None, c)
  | Some a => c ← Ref c a; Some (Some a, c)
  end.

Definition LRU_Release (c : LRUCache) (a : Z) : option LRUCache := Unref c a.

(** The removal of the oldest entry, in the loops of [Insert] and [Prune]. *)
Definition evict (c : LRUCache) (a : Z) : option LRUCache :=
  e ← heap c !! a;
  '(removed, t) ← Table_Remove (heap c) (table_ c) (key e) (hash e);
  FinishErase (set_table c t) removed.

Fixpoint evict_loop (fuel : nat) (c : LRUCache) : option LRUCache :=
  match lru_ c with
  | a :: _ =>
      if capacity_ c <? usage_ c then
        match fuel with O => None | S fuel' => c ← evict c a; evict_loop fuel' c end
      else Some c
  | [] => Some c
  end.

Fixpoint prune_loop (fuel : nat) (c : LRUCache) : option LRUCache :=
  match lru_ c with
  | a :: _ => match fuel with O => None | S fuel' => c ← evict c a; prune_loop fuel' c end
  | [] => Some c
  end.

(** The part of [Insert] before the loop; [a] is the new handle. *)
Definition insert_entry (c : LRUCache) (a : Z) (k : bytes) (h : Z) (v : V) (chg : Z) : option LRUCache :=
  if 0 <? capacity_ c then
    let c := append_in_use (set_heap c (<[a := MkHandle v chg true 2 h k]> (heap c))) a in
    let c := set_usage c (u64 (usage_ c + chg)) in
    '(old, t) ← Table_Insert (heap c) (table_ c) a;
    FinishErase (set_table c t) old
  else Some (set_heap c (<[a := MkHandle v chg false 1 h k]> (heap c))).

Definition LRU_Insert (c : LRUCache) (k : bytes) (h : Z) (v : V) (chg : Z) : option (Z * LRUCache) :=
  let a := alloc (dom (heap c)) in
  c ← insert_entry c a k h v chg;
  c ← evict_loop (length (lru_ c)) c;
  Some (a, c).

Definition LRU_Erase (c : LRUCache) (k : bytes) (h : Z) : option LRUCache :=
  '(removed, t) ← Table_Remove (heap c) (table_ c) k h;
  FinishErase (set_table c t) removed.

Definition LRU_Prune (c : LRUCache) : option LRUCache := prune_loop (length (lru_ c)) c.

(** The destructor's loop over [lru_]. *)
Fixpoint delete_all (c : LRUCache) (l : list Z) : option LRUCache :=
  match l with
  | [] => Some c
  | a :: l' =>
      e ← heap c !! a;
      c ← Unref (set_heap c (<[a := set_in_cache e false]> (heap c))) a;
      delete_all c l'
  end.

Definition LRUCache_delete (c : LRUCache) : option LRUCache := delete_all c (lru_ c).

Definition TotalCharge (c : LRUCache) : Z := usage_ c.

(** *** [ShardedLRUCache] *)

Definition kNumShardBits : Z := 4.
Definition kNumShards : Z := Z.shiftl 1 kNumShardBits.

Record ShardedLRUCache := MkSharded { shard_ : list LRUCache; last_id_ : Z }.

Definition HashSlice (s : bytes) : Z := Hash s 0.

Definition Shard (h : Z) : Z := Z.shiftr h (32 - kNumShardBits).

Definition ShardedLRUCache_new (capacity : Z) : ShardedLRUCache :=
  let per_shard := u64 (capacity + (kNumShards - 1)) / kNumShards in
  MkSharded (replicate (Z.to_nat kNumShards) (LRUCache_new per_shard)) 0.

(** An operation on one shard. *)
Definition on_shard {R : Type} (c : ShardedLRUCache) (h : Z) (f : LRUCache -> option (R * LRUCache))
    : option (R * ShardedLRUCache) :=
  let i := Z.to_nat (Shard h) in
  s ← shard_ c !! i;
  '(r, s) ← f s;
  Some (r, MkSharded (<[i := s]> (shard_ c)) (last_id_ c)).

Definition without_result {R : Type} (x : option (R * ShardedLRUCache)) : option ShardedLRUCache := snd <$> x.

(** A handle is its shard's number with its address. *)
Definition Sharded_Insert (c : ShardedLRUCache) (k : bytes) (v : V) (chg : Z) : option ((Z * Z) * ShardedLRUCache) :=
  let h := HashSlice k in
  on_shard c h (fun s => '(a, s) ← LRU_Insert s k h v chg; Some ((h, a), s)).

Definition Sharded_Lookup (c : ShardedLRUCache) (k : bytes) : option (option (Z * Z) * ShardedLRUCache) :=
  let h := HashSlice k in
  on_shard c h (fun s => '(r, s) ← LRU_Lookup s k h; Some (option_map (pair h) r, s)).

Definition Sharded_Release (c : ShardedLRUCache) (handle : Z * Z) : option ShardedLRUCache :=
  without_result (on_shard c handle.1 (fun s => s ← LRU_Release s handle.2; Some (tt, s))).

Definition Sharded_Erase (c : ShardedLRUCache) (k : bytes) : option ShardedLRUCache :=
  let h := HashSlice k in
  without_result (on_shard c h (fun s => s ← LRU_Erase s k h; Some (tt, s))).

Definition Sharded_Value (c : ShardedLRUCache) (handle : Z * Z) : option V :=
  s ← shard_ c !! Z.to_nat (Shard handle.1);
  value <$> heap s !! handle.2.

Definition NewId (c : ShardedLRUCache) : Z * ShardedLRUCache :=
  let id := u64 (last_id_ c + 1) in (id, MkSharded (shard_ c) id).

Definition Sharded_Prune (c : ShardedLRUCache) : option ShardedLRUCache :=
  l ← mapM LRU_Prune (shard_ c); Some (MkSharded l (last_id_ c)).

Definition Sharded_TotalCharge (c : ShardedLRUCache) : Z :=
  foldl (fun total s => u64 (total + TotalCharge s)) 0 (shard_ c).

End cache.
End LRU.
