(* ===== verification/CacheSpec.v ===== *)
(** * The LRU cache keeps its entries

    The hash table of [Cache.v] holds each key once and finds it whatever the
    chains; a shard's lists, reference counts and usage agree; what a client
    holds is not freed, and a lookup gives what was last inserted. *)

From S2P Require Import Prelude Status Coding Comparator Bloom Cache.
Import LRU.

(** ** Lists of chains *)

Lemma concat_middle {A} (ls : list (list A)) (i : nat) (l : list A) :
  ls !! i = Some l -> exists rest, concat ls ≡ₚ l ++ rest /\ forall l', concat (<[i := l']> ls) ≡ₚ l' ++ rest.
Proof.
  intros Hi. exists (concat (take i ls) ++ concat (drop (S i) ls)).
  assert (forall l', concat (take i ls ++ l' :: drop (S i) ls) ≡ₚ l' ++ concat (take i ls) ++ concat (drop (S i) ls)) as Hp.
  { intros l'. rewrite concat_app. simpl. by rewrite Permutation_app_swap_app. }
  split.
  - by rewrite <- Hp, take_drop_middle.
  - intros l'. rewrite <- Hp. rewrite insert_take_drop by (by eapply lookup_lt_Some). done.
Qed.

Lemma concat_replicate_nil {A} (n : nat) : concat (replicate n (@nil A)) = [].
Proof. induction n; [done|]. simpl. done. Qed.

Section table.
Context {V : Type} (H : bytes -> Z) (HH : forall k, 0 <= H k < 2 ^ 32).
Abbreviation heap_t := (gmap Z (@LRUHandle V)).

(** ** The hash table *)

Definition members (t : HandleTable) : list Z := concat (list_ t).

(** The bucket of a hash. *)
Definition bucket (n h : Z) : nat := Z.to_nat (Z.land h (n - 1)).

Definition in_bucket (hp : heap_t) (n : Z) (i : nat) (a : Z) : Prop :=
  exists e, hp !! a = Some e /\ hash e = H (key e) /\ bucket n (hash e) = i.

Definition has_key (hp : heap_t) (k : bytes) (a : Z) : Prop := exists e, hp !! a = Some e /\ key e = k.

Definition keys_inj (hp : heap_t) (l : list Z) : Prop :=
  forall a b k, a ∈ l -> b ∈ l -> has_key hp k a -> has_key hp k b -> a = b.

Record table_ok (hp : heap_t) (t : HandleTable) : Prop := MkTableOk {
  to_pow : exists n, 2 <= n <= 31 /\ length_ t = 2 ^ n;
  to_len : length (list_ t) = Z.to_nat (length_ t);
  to_bucket : forall i l a, list_ t !! i = Some l -> a ∈ l -> in_bucket hp (length_ t) i a;
  to_nodup : NoDup (members t);
  to_keys : keys_inj hp (members t);
  to_elems : elems_ t = Z.of_nat (length (members t));
  to_small : elems_ t <= 2 ^ 31 }.

Lemma bucket_lt (n h : Z) : 0 <= n -> 0 <= h -> (bucket (2 ^ n) h < Z.to_nat (2 ^ n))%nat.
Proof.
  intros Hn Hh. unfold bucket. rewrite land_mask_mod by done. pose proof (Z.mod_pos_bound h (2 ^ n) ltac:(lia)). lia.
Qed.

Lemma find_slot_ok (hp : heap_t) (l : list Z) (k : bytes) :
  (forall a, a ∈ l -> exists e, hp !! a = Some e /\ hash e = H (key e)) ->
  exists j, find_slot hp l k (H k) = Some j /\ (j <= length l)%nat /\
    match l !! j with Some a => has_key hp k a | None => forall a, a ∈ l -> ~ has_key hp k a end.
Proof.
  intros Hl. induction l as [|a l IH].
  - exists O. split; [done|]. split; [done|]. simpl. intros a Ha. by apply not_elem_of_nil in Ha.
  - destruct (Hl a ltac:(constructor)) as (e & He & Hh). simpl. rewrite He. cbn [mbind option_bind].
    destruct (decide (key e = k)) as [Hk|Hk].
    + exists O. rewrite Hh, Hk, Z.eqb_refl, (proj2 (Bytewise.slice_eqb_spec k k) eq_refl). simpl.
      split; [done|]. split; [lia|]. by exists e.
    + destruct IH as (j & Hj & Hle & Hm); [intros b Hb; apply Hl; by constructor|]. exists (S j).
      assert (slice_eqb k (key e) = false) as Hs.
      { apply not_true_iff_false. rewrite Bytewise.slice_eqb_spec. congruence. }
      rewrite Hs, orb_true_r, Hj. simpl. split; [done|]. split; [lia|].
      destruct (l !! j); [done|]. intros b [->|Hb]%elem_of_cons; [|by apply Hm]. intros (e' & He' & Hk'). congruence.
Qed.

Lemma members_bucket (hp : heap_t) (t : HandleTable) (a : Z) :
  table_ok hp t -> a ∈ members t -> exists i l, list_ t !! i = Some l /\ a ∈ l /\ in_bucket hp (length_ t) i a.
Proof.
  intros Ht Ha. unfold members in Ha. apply list_elem_of_In, in_concat in Ha as (l & Hl & Ha).
  apply list_elem_of_In, list_elem_of_lookup in Hl as [i Hi]. apply list_elem_of_In in Ha. exists i, l.
  split; [done|]. split; [done|]. by apply (to_bucket hp t Ht i l).
Qed.

Lemma bucket_members (t : HandleTable) (i : nat) (l : list Z) (a : Z) : list_ t !! i = Some l -> a ∈ l -> a ∈ members t.
Proof. intros Hi Ha. apply (elem_of_concat a l); [done|]. by eapply list_elem_of_lookup_2. Qed.

Lemma FindPointer_ok (hp : heap_t) (t : HandleTable) (k : bytes) :
  table_ok hp t ->
  exists l j, FindPointer hp t k (H k) = Some (bucket (length_ t) (H k), l, j) /\
    list_ t !! bucket (length_ t) (H k) = Some l /\ (j <= length l)%nat /\
    match l !! j with Some a => has_key hp k a | None => forall a, a ∈ members t -> ~ has_key hp k a end.
Proof.
  intros Ht. destruct (to_pow hp t Ht) as (n & Hn & Hlen).
  assert (bucket (length_ t) (H k) < length (list_ t))%nat as Hi.
  { rewrite (to_len hp t Ht), Hlen. apply bucket_lt; [lia|]. apply HH. }
  apply lookup_lt_is_Some_2 in Hi as [l Hl].
  destruct (find_slot_ok hp l k) as (j & Hj & Hle & Hm).
  { intros a Ha. destruct (to_bucket hp t Ht _ l a Hl Ha) as (e & He & Hh & _). by exists e. }
  exists l, j. unfold FindPointer. fold (bucket (length_ t) (H k)). rewrite Hl. cbn [mbind option_bind]. rewrite Hj.
  split; [done|]. split; [done|]. split; [done|]. destruct (l !! j); [done|].
  intros a Ha Hk. destruct (members_bucket hp t a Ht Ha) as (i & l' & Hi & Hal & e & He & Hh & Hb).
  apply (Hm a); [|done]. destruct Hk as (e' & He' & <-). simplify_eq. rewrite Hh in Hi. by simplify_eq.
Qed.

Lemma Table_Lookup_ok (hp : heap_t) (t : HandleTable) (k : bytes) :
  table_ok hp t ->
  exists r, Table_Lookup hp t k (H k) = Some r /\
    match r with Some a => a ∈ members t /\ has_key hp k a | None => forall a, a ∈ members t -> ~ has_key hp k a end.
Proof.
  intros Ht. destruct (FindPointer_ok hp t k Ht) as (l & j & He & Hl & _ & Hm).
  unfold Table_Lookup. rewrite He. cbn [mbind option_bind]. exists (l !! j). split; [done|].
  destruct (l !! j) as [a|] eqn:E; [|done]. split; [|done]. apply (bucket_members t _ l a Hl). by eapply list_elem_of_lookup_2.
Qed.

(** A chain is exchanged for another. *)
Lemma table_ok_insert (hp : heap_t) (t : HandleTable) (i : nat) (l l' rest : list Z) (n : Z) :
  table_ok hp t -> list_ t !! i = Some l -> (forall a, a ∈ l' -> in_bucket hp (length_ t) i a) ->
  concat (<[i := l']> (list_ t)) ≡ₚ rest -> NoDup rest -> keys_inj hp rest ->
  n = Z.of_nat (length rest) -> n <= 2 ^ 31 ->
  table_ok hp (MkTable (length_ t) n (<[i := l']> (list_ t))).
Proof.
  intros Ht Hl Hl' Hp Hnd Hk Hn Hs. constructor; simpl; unfold members; simpl.
  - apply (to_pow hp t Ht).
  - rewrite length_insert. apply (to_len hp t Ht).
  - intros i' l2 a Hi' Ha. destruct (decide (i' = i)) as [->|Hne].
    + rewrite list_lookup_insert_eq in Hi' by (by eapply lookup_lt_Some). simplify_eq. by apply Hl'.
    + rewrite list_lookup_insert_ne in Hi' by done. by apply (to_bucket hp t Ht i' l2).
  - by rewrite Hp.
  - intros a b k Ha Hb. apply Hk; by rewrite <- Hp.
  - by rewrite Hp.
  - done.
Qed.

(** ** Resizing *)

Lemma new_length_ok (fuel : nat) (m elems : Z) :
  2 <= m <= 31 -> 31 <= m + Z.of_nat fuel -> elems <= 2 ^ 31 ->
  exists n, 2 <= n <= 31 /\ new_length fuel (2 ^ m) elems = Some (2 ^ n).
Proof.
  revert m. induction fuel as [|fuel IH]; intros m Hm Hf He; simpl.
  - assert (m = 31) as -> by lia. destruct (Z.ltb_spec (2 ^ 31) elems); [lia|]. by exists 31.
  - destruct (Z.ltb_spec (2 ^ m) elems) as [Hlt|]; [|by exists m].
    assert (m < 31) as Hm' by (apply (Z.pow_lt_mono_r_iff 2); lia).
    assert (u32 (2 ^ m * 2) = 2 ^ (m + 1)) as ->.
    { rewrite Z.pow_add_r by lia. unfold u32. apply Z.mod_small. split; [lia|]. change (2 ^ 1) with 2.
      assert (2 ^ m < 2 ^ 31) by (apply Z.pow_lt_mono_r; lia). lia. }
    apply IH; lia.
Qed.

Lemma rehash_all_ok (hp : heap_t) (n : Z) (l : list Z) (ls : list (list Z)) :
  2 <= n -> length ls = Z.to_nat (2 ^ n) ->
  (forall a, a ∈ l -> exists e, hp !! a = Some e /\ hash e = H (key e)) ->
  (forall i c a, ls !! i = Some c -> a ∈ c -> in_bucket hp (2 ^ n) i a) ->
  exists ls', rehash_all hp (2 ^ n) ls l = Some ls' /\ length ls' = Z.to_nat (2 ^ n) /\
    concat ls' ≡ₚ l ++ concat ls /\ forall i c a, ls' !! i = Some c -> a ∈ c -> in_bucket hp (2 ^ n) i a.
Proof.
  intros Hn. revert ls. induction l as [|a l IH]; intros ls Hlen Hl Hb; [by exists ls|].
  destruct (Hl a ltac:(constructor)) as (e & He & Hh). simpl. unfold rehash. rewrite He. cbn [mbind option_bind].
  fold (bucket (2 ^ n) (hash e)). assert (bucket (2 ^ n) (hash e) < length ls)%nat as Hi.
  { rewrite Hlen. apply bucket_lt; [lia|]. rewrite Hh. apply HH. }
  apply lookup_lt_is_Some_2 in Hi as [c Hc]. rewrite Hc. cbn [mbind option_bind].
  destruct (IH (<[bucket (2 ^ n) (hash e) := a :: c]> ls)) as (ls' & -> & Hlen' & Hp & Hb').
  - by rewrite length_insert.
  - intros b Hb'. apply Hl. by constructor.
  - intros i c' b Hi Hin. destruct (decide (i = bucket (2 ^ n) (hash e))) as [->|Hne].
    + rewrite list_lookup_insert_eq in Hi by (by eapply lookup_lt_Some). simplify_eq.
      apply elem_of_cons in Hin as [->|Hin]; [by exists e|by eapply Hb].
    + rewrite list_lookup_insert_ne in Hi by done. by eapply Hb.
  - exists ls'. split; [done|]. split; [done|]. split; [|done]. rewrite Hp.
    destruct (concat_middle ls _ c Hc) as (rest & H1 & H2). rewrite (H2 (a :: c)), H1. simpl. symmetry. apply Permutation_middle.
Qed.

Lemma Resize_ok (hp : heap_t) (t : HandleTable) :
  table_ok hp t -> exists t', Resize hp t = Some t' /\ table_ok hp t' /\ members t' ≡ₚ members t.
Proof.
  intros Ht. unfold Resize. destruct (new_length_ok 32 2 (elems_ t)) as (n & Hn & E); [lia|lia|apply (to_small hp t Ht)|].
  change (2 ^ 2) with 4 in E. rewrite E. cbn [mbind option_bind].
  destruct (rehash_all_ok hp n (concat (list_ t)) (replicate (Z.to_nat (2 ^ n)) [])) as (ls & -> & Hlen & Hp & Hb).
  - lia.
  - apply length_replicate.
  - intros a Ha. destruct (members_bucket hp t a Ht Ha) as (i & l & _ & _ & e & He & Hh & _). by exists e.
  - intros i c a [-> _]%lookup_replicate Ha. by apply not_elem_of_nil in Ha.
  - cbn [mbind option_bind]. rewrite concat_replicate_nil, app_nil_r in Hp. eexists. split; [reflexivity|].
    split; [|done]. unfold members. constructor; simpl; unfold members; simpl.
    + by exists n.
    + done.
    + done.
    + rewrite Hp. apply (to_nodup hp t Ht).
    + intros a b k Ha Hb'. rewrite Hp in Ha, Hb'. by apply (to_keys hp t Ht).
    + rewrite Hp. apply (to_elems hp t Ht).
    + apply (to_small hp t Ht).
Qed.

(** ** Inserting and removing *)

Lemma has_key_fun (hp : heap_t) (k k' : bytes) (a : Z) : has_key hp k a -> has_key hp k' a -> k = k'.
Proof. intros (e & He & <-) (e' & He' & <-). by simplify_eq. Qed.

Lemma keys_inj_cons (hp : heap_t) (l : list Z) (a : Z) (k : bytes) :
  keys_inj hp l -> has_key hp k a -> (forall b, b ∈ l -> ~ has_key hp k b) -> keys_inj hp (a :: l).
Proof.
  intros Hl Ha Hn x y k' [->|Hx]%elem_of_cons [->|Hy]%elem_of_cons Hkx Hky; [done|..|by eapply Hl].
  - destruct (Hn y Hy). by rewrite (has_key_fun hp k k' a).
  - destruct (Hn x Hx). by rewrite (has_key_fun hp k k' a).
Qed.

Lemma keys_inj_tail (hp : heap_t) (l : list Z) (a : Z) : keys_inj hp (a :: l) -> keys_inj hp l.
Proof. intros Hl x y k Hx Hy. apply Hl; by constructor. Qed.

Lemma keys_inj_perm (hp : heap_t) (l l' : list Z) : l ≡ₚ l' -> keys_inj hp l -> keys_inj hp l'.
Proof. intros Hp Hl x y k Hx Hy. apply Hl; by rewrite Hp. Qed.

Lemma chain_split (l : list Z) (j : nat) (a : Z) : l !! j = Some a -> l ≡ₚ a :: take j l ++ drop (S j) l.
Proof. intros Hj. rewrite <- (take_drop_middle l j a Hj) at 1. symmetry. apply Permutation_middle. Qed.

Lemma chain_elem (l : list Z) (j : nat) (x : Z) : x ∈ take j l ++ drop (S j) l -> x ∈ l.
Proof.
  intros [[i Hi]%list_elem_of_lookup|[i Hi]%list_elem_of_lookup]%elem_of_app.
  - apply lookup_take_Some in Hi as [Hi _]. by eapply list_elem_of_lookup_2.
  - rewrite lookup_drop in Hi. by eapply list_elem_of_lookup_2.
Qed.

(** [rest] is what was in the table beside the handle that [r] gives. *)
Definition without (hp : heap_t) (t : HandleTable) (k : bytes) (r : option Z) (rest : list Z) : Prop :=
  match r with
  | Some old => members t ≡ₚ old :: rest /\ has_key hp k old
  | None => rest = members t
  end /\ forall b, b ∈ rest -> ~ has_key hp k b.

Lemma without_key (hp : heap_t) (t : HandleTable) (k : bytes) (old : Z) (rest : list Z) :
  table_ok hp t -> members t ≡ₚ old :: rest -> has_key hp k old -> forall b, b ∈ rest -> ~ has_key hp k b.
Proof.
  intros Ht Hp Hk b Hb Hkb. pose proof (to_nodup hp t Ht) as Hnd. rewrite Hp in Hnd. apply NoDup_cons in Hnd as [Hni _].
  apply Hni. rewrite (to_keys hp t Ht old b k); [done|rewrite Hp; constructor|rewrite Hp; by constructor|done|done].
Qed.

Lemma Table_Remove_ok (hp : heap_t) (t : HandleTable) (k : bytes) :
  table_ok hp t ->
  exists r t' rest, Table_Remove hp t k (H k) = Some (r, t') /\ table_ok hp t' /\ members t' ≡ₚ rest /\ without hp t k r rest.
Proof.
  intros Ht. destruct (FindPointer_ok hp t k Ht) as (l & j & He & Hl & Hj & Hm). unfold Table_Remove. rewrite He.
  cbn [mbind option_bind]. destruct (l !! j) as [a|] eqn:E.
  2:{ exists None, t, (members t). split; [done|]. split; [done|]. split; [done|]. by split. }
  set (l' := take j l ++ drop (S j) l). destruct (concat_middle (list_ t) _ l Hl) as (rest & H1 & H2).
  assert (members t ≡ₚ a :: l' ++ rest) as Hp by (unfold members; rewrite H1, (chain_split l j a E); done).
  pose proof (to_nodup hp t Ht) as Hnd. rewrite Hp in Hnd. apply NoDup_cons in Hnd as [_ Hnd].
  pose proof (to_elems hp t Ht) as Hel. rewrite Hp in Hel. simpl in Hel. pose proof (to_small hp t Ht).
  assert (u32 (elems_ t - 1) = elems_ t - 1) as Hu by (apply Z.mod_small; lia).
  exists (Some a), (MkTable (length_ t) (u32 (elems_ t - 1)) (<[bucket (length_ t) (H k) := l']> (list_ t))), (l' ++ rest).
  split; [done|]. split; [|split; [apply H2|split; [done|by apply (without_key hp t k a)]]].
  apply (table_ok_insert hp t _ l l' (l' ++ rest)); try done; [| |lia|lia].
  - intros b Hb%chain_elem. by apply (to_bucket hp t Ht _ l).
  - apply (keys_inj_tail hp _ a). by apply (keys_inj_perm hp (members t)), (to_keys hp t Ht).
Qed.

(** A full chain is exchanged, without the size. *)
Lemma Table_Insert_ok (hp : heap_t) (t : HandleTable) (a : Z) (e : LRUHandle) :
  table_ok hp t -> hp !! a = Some e -> hash e = H (key e) -> a ∉ members t -> elems_ t + 1 <= 2 ^ 31 ->
  exists r t' rest, Table_Insert hp t a = Some (r, t') /\ table_ok hp t' /\ members t' ≡ₚ a :: rest /\
    without hp t (key e) r rest.
Proof.
  intros Ht Ha Hh Hna Hs. unfold Table_Insert. rewrite Ha. cbn [mbind option_bind]. rewrite Hh.
  destruct (FindPointer_ok hp t (key e) Ht) as (l & j & -> & Hl & Hj & Hm). cbn [mbind option_bind].
  assert (has_key hp (key e) a) as Hka by (by exists e).
  destruct (concat_middle (list_ t) _ l Hl) as (rest & H1 & H2). set (l' := take j l ++ a :: drop (S j) l).
  assert (l' ≡ₚ a :: take j l ++ drop (S j) l) as Hl' by (symmetry; apply Permutation_middle).
  assert (forall b, b ∈ l' -> in_bucket hp (length_ t) (bucket (length_ t) (H (key e))) b) as Hb.
  { intros b. rewrite Hl'. intros [->|Hb%chain_elem]%elem_of_cons; [|by apply (to_bucket hp t Ht _ l)].
    exists e. by rewrite <- Hh. }
  pose proof (to_nodup hp t Ht) as Hnd. pose proof (to_elems hp t Ht) as Hel. destruct (l !! j) as [old|] eqn:E.
  - set (r := take j l ++ drop (S j) l) in *.
    assert (members t ≡ₚ old :: r ++ rest) as Hp by (unfold members; rewrite H1, (chain_split l j old E); done).
    rewrite Hp in Hnd, Hel, Hna. apply NoDup_cons in Hnd as [_ Hnd].
    pose proof (without_key hp t (key e) old _ Ht Hp Hm) as Hnk.
    eexists (Some old), _, (r ++ rest). split; [reflexivity|]. split; [|split; [by rewrite (H2 l'), Hl'|by split]].
    apply (table_ok_insert hp t _ l l' (a :: r ++ rest)); try done; [by rewrite (H2 l'), Hl'| | |lia].
    + apply NoDup_cons. split; [|done]. intros Hin. apply Hna. by constructor.
    + apply (keys_inj_cons hp _ a (key e)); [|done|done]. apply (keys_inj_tail hp _ old).
      by apply (keys_inj_perm hp (members t)), (to_keys hp t Ht).
  - assert (take j l ++ drop (S j) l = l) as Htd.
    { apply lookup_ge_None in E. rewrite take_ge, drop_ge by lia. apply app_nil_r. }
    rewrite Htd in Hl'. assert (concat (<[bucket (length_ t) (H (key e)):=l']> (list_ t)) ≡ₚ a :: members t) as Hp.
    { unfold members. by rewrite (H2 l'), Hl', H1. }
    assert (u32 (elems_ t + 1) = elems_ t + 1) as -> by (apply Z.mod_small; lia).
    assert (table_ok hp (MkTable (length_ t) (elems_ t + 1) (<[bucket (length_ t) (H (key e)):=l']> (list_ t)))) as Ht1.
    { apply (table_ok_insert hp t _ l l' (a :: members t)); try done; [|by apply (keys_inj_cons hp _ a (key e)), Hm; [apply (to_keys hp t Ht)|]|simpl; lia].
      by apply NoDup_cons. }
    cbn [length_ elems_]. destruct (length_ t <? elems_ t + 1).
    + destruct (Resize_ok hp _ Ht1) as (t' & -> & Ht' & Hp'). cbn [mbind option_bind].
      eexists None, t', (members t). split; [reflexivity|]. split; [done|]. split; [by rewrite Hp'|by split].
    + eexists None, _, (members t). split; [reflexivity|]. split; [done|]. split; [done|by split].
Qed.
End table.

(** ** A shard *)

Section shard.
Context {V : Type} (H : bytes -> Z) (HH : forall k, 0 <= H k < 2 ^ 32).
Abbreviation heap_t := (gmap Z (@LRUHandle V)).
Abbreviation table_ok := (table_ok H).
Abbreviation Cache := (LRUCache (V := V)).
Abbreviation Handle := (LRUHandle (V := V)).

Definition charge_of (hp : heap_t) (a : Z) : Z := match hp !! a with Some e => charge e | None => 0 end.
Definition charges (hp : heap_t) (l : list Z) : Z := foldr (fun a s => charge_of hp a + s) 0 l.

#[export] Instance charges_perm (hp : heap_t) : Proper ((≡ₚ) ==> eq) (charges hp).
Proof. intros l l' Hp. induction Hp; simpl; lia. Qed.

Lemma charges_ext (hp hp' : heap_t) (l : list Z) :
  (forall a, a ∈ l -> charge_of hp a = charge_of hp' a) -> charges hp l = charges hp' l.
Proof.
  intros Hl. induction l as [|a l IH]; [done|]. simpl. rewrite (Hl a) by constructor. rewrite IH; [done|].
  intros b Hb. apply Hl. by constructor.
Qed.

(** The same entry, but for its count of references and whether it is in the
    cache. *)
Definition same_entry (e e' : Handle) : Prop :=
  value e' = value e /\ charge e' = charge e /\ hash e' = hash e /\ key e' = key e.

Lemma same_entry_refl (e : Handle) : same_entry e e.
Proof. done. Qed.

Lemma same_entry_trans (e1 e2 e3 : Handle) : same_entry e1 e2 -> same_entry e2 e3 -> same_entry e1 e3.
Proof. unfold same_entry. intuition congruence. Qed.

(** The entries of [l] are the same in [hp']. *)
Definition same_on (hp hp' : heap_t) (l : list Z) : Prop :=
  forall a e, a ∈ l -> hp !! a = Some e -> exists e', hp' !! a = Some e' /\ same_entry e e'.

Lemma table_ok_same (hp hp' : heap_t) (t : HandleTable) :
  table_ok hp t -> same_on hp hp' (members t) -> table_ok hp' t.
Proof.
  intros Ht Hs. assert (forall a k, a ∈ members t -> has_key hp' k a -> has_key hp k a) as Hk.
  { intros a k Ha (e' & He' & <-). destruct (members_bucket H hp t a Ht Ha) as (_ & _ & _ & _ & e & He & _ & _).
    destruct (Hs a e Ha He) as (e2 & He2 & Hse). simplify_eq. exists e. split; [done|]. symmetry. apply Hse. }
  destruct Ht as [? ? Hb ? Hinj ? ?]. constructor; try done.
  - intros i l a Hi Ha. destruct (Hb i l a Hi Ha) as (e & He & Hh & Hbu).
    destruct (Hs a e (bucket_members t i l a Hi Ha) He) as (e' & He' & _ & _ & Hh' & Hk').
    exists e'. rewrite Hh', Hk'. done.
  - intros a b k Ha Hb' Hka Hkb. apply (Hinj a b k); auto.
Qed.

Definition cell_lru (hp : heap_t) (held : Z -> Z) (a : Z) : Prop :=
  exists e, hp !! a = Some e /\ in_cache e = true /\ refs e = 1 /\ held a = 0.

Definition cell_use (hp : heap_t) (held : Z -> Z) (a : Z) : Prop :=
  exists e, hp !! a = Some e /\ in_cache e = true /\ refs e = held a + 1 /\ 0 < held a.

(** [held a] is the number of handles for [a] that clients have not released;
    [extra] is what has been taken out of the table but not yet out of the
    lists. *)
Record inv (c : Cache) (held : Z -> Z) (extra : list Z) : Prop := MkInv {
  iv_table : table_ok (heap c) (table_ c);
  iv_members : members (table_ c) ++ extra ≡ₚ lru_ c ++ in_use_ c;
  iv_nodup : NoDup (lru_ c ++ in_use_ c);
  iv_lru : forall a, a ∈ lru_ c -> cell_lru (heap c) held a;
  iv_use : forall a, a ∈ in_use_ c -> cell_use (heap c) held a;
  iv_out : forall a e, heap c !! a = Some e -> a ∉ lru_ c ++ in_use_ c ->
    in_cache e = false /\ refs e = held a /\ 0 < held a;
  iv_held : forall a, 0 < held a -> is_Some (heap c !! a);
  iv_range : forall a, 0 <= held a < 2 ^ 32 - 1;
  iv_usage : usage_ c = u64 (charges (heap c) (lru_ c ++ in_use_ c));
  iv_off : capacity_ c <= 0 -> lru_ c ++ in_use_ c = [] }.

Lemma filter_ne_out (l : list Z) (a : Z) : a ∉ l -> filter (fun x => x <> a) l = l.
Proof.
  intros Hl. induction l as [|x l IH]; [done|]. apply not_elem_of_cons in Hl as [Hx Hl].
  rewrite filter_cons_True by done. by rewrite IH.
Qed.

Lemma LRU_Remove_ok (c : Cache) (a : Z) :
  NoDup (lru_ c ++ in_use_ c) -> a ∈ lru_ c ++ in_use_ c ->
  LRU_Remove c a = Some (set_lists c (filter (fun x => x <> a) (lru_ c)) (filter (fun x => x <> a) (in_use_ c))).
Proof.
  intros Hnd Ha. unfold LRU_Remove. apply NoDup_app in Hnd as (_ & Hd & _).
  case_bool_decide as Hl.
  - by rewrite (filter_ne_out (in_use_ c)) by (by apply Hd).
  - rewrite (filter_ne_out (lru_ c)) by done. apply elem_of_app in Ha as [|Ha]; [done|]. by rewrite bool_decide_true.
Qed.

Lemma filter_ne_perm (l : list Z) (a : Z) : NoDup l -> a ∈ l -> l ≡ₚ a :: filter (fun x => x <> a) l.
Proof.
  intros Hnd Ha. apply list.NoDup_Permutation; [done| |].
  - apply NoDup_cons. split; [|by apply NoDup_filter]. intros [? _]%list_elem_of_filter. done.
  - intros x. rewrite elem_of_cons, list_elem_of_filter. destruct (decide (x = a)); naive_solver.
Qed.

Definition held_set (held : Z -> Z) (a n : Z) : Z -> Z := fun x => if bool_decide (x = a) then n else held x.

Lemma held_set_eq (held : Z -> Z) (a n : Z) : held_set held a n a = n.
Proof. unfold held_set. by rewrite bool_decide_true. Qed.

Lemma held_set_ne (held : Z -> Z) (a n x : Z) : x <> a -> held_set held a n x = held x.
Proof. intros Hx. unfold held_set. by rewrite bool_decide_false. Qed.

(** The address [a] gets [e'], the same entry. *)
Lemma same_on_insert (hp : heap_t) (a : Z) (e e' : Handle) (l : list Z) :
  hp !! a = Some e -> same_entry e e' -> same_on hp (<[a := e']> hp) l.
Proof.
  intros He Hs b e2 _ He2. destruct (decide (b = a)) as [->|Hne].
  - simplify_eq. rewrite lookup_insert_eq. by exists e'.
  - rewrite lookup_insert_ne by done. by exists e2.
Qed.

Lemma charges_insert (hp : heap_t) (a : Z) (e e' : Handle) (l : list Z) :
  hp !! a = Some e -> charge e' = charge e -> charges (<[a := e']> hp) l = charges hp l.
Proof.
  intros He Hc. apply charges_ext. intros b _. unfold charge_of. destruct (decide (b = a)) as [->|].
  - by rewrite lookup_insert_eq, He.
  - by rewrite lookup_insert_ne.
Qed.

Lemma charges_delete (hp : heap_t) (a : Z) (l : list Z) : a ∉ l -> charges (delete a hp) l = charges hp l.
Proof.
  intros Ha. apply charges_ext. intros b Hb. unfold charge_of. rewrite lookup_delete_ne; [done|]. by intros ->.
Qed.

(** Every entry of [c'] is an entry of [c]. *)
Definition keeps (c c' : Cache) : Prop :=
  capacity_ c' = capacity_ c /\
  forall a e', heap c' !! a = Some e' -> exists e, heap c !! a = Some e /\ same_entry e e'.

Lemma keeps_trans (c1 c2 c3 : Cache) : keeps c1 c2 -> keeps c2 c3 -> keeps c1 c3.
Proof.
  intros [E1 H1] [E2 H2]. split; [congruence|]. intros a e3 H3. destruct (H2 a e3 H3) as (e2 & He2 & S2).
  destruct (H1 a e2 He2) as (e1 & He1 & S1). exists e1. split; [done|]. by eapply same_entry_trans.
Qed.

Lemma inv_cell (c : Cache) (held : Z -> Z) (extra : list Z) (a : Z) :
  inv c held extra -> a ∈ lru_ c ++ in_use_ c ->
  exists e, heap c !! a = Some e /\ in_cache e = true /\ refs e = held a + 1 /\
    (a ∈ lru_ c <-> held a = 0) /\ (a ∈ in_use_ c <-> 0 < held a).
Proof.
  intros Hi Ha. pose proof (iv_nodup _ _ _ Hi) as Hnd. apply NoDup_app in Hnd as (_ & Hd & _).
  apply elem_of_app in Ha as [Ha|Ha].
  - destruct (iv_lru _ _ _ Hi a Ha) as (e & He & Hc & Hr & Hh). exists e.
    split_and!; [done|done|lia|done|]. split; [intros Hu; by destruct (Hd a Ha)|lia].
  - destruct (iv_use _ _ _ Hi a Ha) as (e & He & Hc & Hr & Hh). exists e.
    split_and!; [done|done|lia| |done]. split; [intros Hu; by destruct (Hd a Hu)|lia].
Qed.

(** An entry is taken out of the lists, and out of the heap unless it is held. *)
Lemma inv_drop (c : Cache) (held : Z -> Z) (a : Z) (e : Handle) (hp' : heap_t) (del : list (bytes * V)) :
  inv c held [a] -> heap c !! a = Some e -> (forall b, b <> a -> hp' !! b = heap c !! b) ->
  match hp' !! a with
  | Some e' => in_cache e' = false /\ refs e' = held a /\ 0 < held a
  | None => held a = 0 end ->
  inv (MkCache (capacity_ c) (u64 (usage_ c - charge e)) (filter (fun x => x <> a) (lru_ c))
         (filter (fun x => x <> a) (in_use_ c)) (table_ c) hp' del) held [].
Proof.
  intros Hi He Hne Ha'. pose proof (iv_nodup _ _ _ Hi) as Hnd. pose proof (iv_members _ _ _ Hi) as Hm.
  assert (a ∈ lru_ c ++ in_use_ c) as Ha by (rewrite <- Hm; set_solver).
  pose proof (filter_ne_perm _ a Hnd Ha) as Hp. rewrite filter_app in Hp.
  set (lru := filter (fun x => x <> a) (lru_ c)) in *. set (use := filter (fun x => x <> a) (in_use_ c)) in *.
  assert (members (table_ c) ≡ₚ lru ++ use) as Hm'.
  { apply (Permutation_cons_inv (a := a)). rewrite <- Hp, <- Hm. by rewrite Permutation_app_comm. }
  rewrite Hp in Hnd. apply NoDup_cons in Hnd as [Hna Hnd].
  assert (forall b, b ∈ lru ++ use -> b <> a) as Hba by (intros b Hb ->; done).
  constructor; simpl; try done.
  - apply (table_ok_same (heap c)); [by apply (iv_table _ _ _ Hi)|]. intros b e2 Hb He2. rewrite Hm' in Hb.
    rewrite Hne by (by apply Hba). by exists e2.
  - by rewrite app_nil_r.
  - intros b [Hbn Hb]%list_elem_of_filter. destruct (iv_lru _ _ _ Hi b Hb) as (e2 & ? & ?). exists e2. by rewrite Hne.
  - intros b [Hbn Hb]%list_elem_of_filter. destruct (iv_use _ _ _ Hi b Hb) as (e2 & ? & ?). exists e2. by rewrite Hne.
  - intros b e2 Hb Hout. destruct (decide (b = a)) as [->|Hbn]; [by rewrite Hb in Ha'|].
    rewrite Hne in Hb by done. apply (iv_out _ _ _ Hi b e2 Hb). rewrite Hp. by apply not_elem_of_cons.
  - intros b Hb. destruct (decide (b = a)) as [->|Hbn]; [destruct (hp' !! a); [done|lia]|].
    rewrite Hne by done. by apply (iv_held _ _ _ Hi).
  - apply (iv_range _ _ _ Hi).
  - rewrite (iv_usage _ _ _ Hi), Hp. simpl. unfold charge_of at 1. rewrite He. unfold u64. rewrite Zminus_mod_idemp_l.
    f_equal. assert (charges hp' (lru ++ use) = charges (heap c) (lru ++ use)) as ->; [|lia].
    apply charges_ext. intros b Hb. unfold charge_of. by rewrite Hne by (by apply Hba).
  - intros Hcap. apply (iv_off _ _ _ Hi) in Hcap. rewrite Hcap in Ha. by apply not_elem_of_nil in Ha.
Qed.

(** [FinishErase] of an entry that is out of the table: it leaves the lists,
    and is deleted unless a client holds it. *)
Lemma FinishErase_ok (c : Cache) (held : Z -> Z) (a : Z) :
  inv c held [a] ->
  exists c', FinishErase c (Some a) = Some c' /\ inv c' held [] /\ keeps c c' /\ table_ c' = table_ c /\
    lru_ c' = filter (fun x => x <> a) (lru_ c) /\ in_use_ c' = filter (fun x => x <> a) (in_use_ c) /\
    exists e, heap c !! a = Some e /\
      deleted c' = deleted c ++ (if bool_decide (held a = 0) then [(key e, value e)] else []).
Proof.
  intros Hi. pose proof (iv_nodup _ _ _ Hi) as Hnd. pose proof (iv_members _ _ _ Hi) as Hm.
  assert (a ∈ lru_ c ++ in_use_ c) as Ha by (rewrite <- Hm; set_solver).
  destruct (inv_cell c held [a] a Hi Ha) as (e & He & Hc & Hr & Hl & Hu). pose proof (iv_range _ _ _ Hi a) as Hra.
  unfold FinishErase. rewrite LRU_Remove_ok by done. cbn [mbind option_bind set_lists heap usage_]. rewrite He. cbn [mbind option_bind].
  unfold Unref. cbn [set_usage set_heap heap]. rewrite lookup_insert_eq.
  cbn [mbind option_bind set_in_cache refs in_cache set_refs value charge hash key capacity_ usage_ lru_ in_use_ table_ deleted andb].
  rewrite Hr. replace (held a + 1 - 1) with (held a) by lia. unfold u32. rewrite Z.mod_small by lia. rewrite insert_insert_eq.
  destruct (Z.eqb_spec (held a) 0) as [H0|H0].
  - eexists. split; [reflexivity|]. rewrite delete_insert_eq. split.
    + apply (inv_drop c held a e); [done|done|intros b Hb; by rewrite lookup_delete_ne|by rewrite lookup_delete_eq].
    + rewrite bool_decide_true by done. split_and!; try done; [split; [done|]|by exists e]. intros b e2. simpl.
      intros [_ Hb]%lookup_delete_Some. by exists e2.
  - eexists. split; [reflexivity|]. split.
    + apply (inv_drop c held a e); [done|done|intros b Hb; by rewrite lookup_insert_ne|].
      rewrite lookup_insert_eq. simpl. split_and!; [done|done|lia].
    + rewrite bool_decide_false by done. split_and!; try done; [split; [done|]|exists e; by rewrite app_nil_r]. intros b e2. simpl.
      intros [[<- <-]|[Hne Hb]]%lookup_insert_Some; [by exists e|by exists e2].
Qed.

(** *** Removing from the table *)

Lemma inv_set_table (c : Cache) (held : Z -> Z) (t : HandleTable) (extra extra' : list Z) :
  inv c held extra -> table_ok (heap c) t -> members t ++ extra' ≡ₚ members (table_ c) ++ extra ->
  inv (set_table c t) held extra'.
Proof. intros [] Ht Hp. constructor; simpl; try done. by rewrite Hp. Qed.

Lemma Table_Remove_inv (c : Cache) (held : Z -> Z) (k : bytes) :
  inv c held [] ->
  exists r t rest, Table_Remove (heap c) (table_ c) k (H k) = Some (r, t) /\ members t ≡ₚ rest /\
    without (heap c) (table_ c) k r rest /\ inv (set_table c t) held (option_list r).
Proof.
  intros Hi. destruct (Table_Remove_ok H HH (heap c) (table_ c) k (iv_table _ _ _ Hi)) as (r & t & rest & He & Ht & Hp & Hw).
  exists r, t, rest. split; [done|]. split; [done|]. split; [done|]. apply (inv_set_table c held t []); [done|done|].
  rewrite Hp, app_nil_r. destruct Hw as [Hw _]. destruct r as [a|]; simpl.
  - destruct Hw as [-> _]. by rewrite Permutation_app_comm.
  - by rewrite Hw, app_nil_r.
Qed.

Lemma without_members (hp : heap_t) (t : HandleTable) (k : bytes) (r : option Z) (rest : list Z) (b : Z) :
  without hp t k r rest -> b ∈ rest <-> b ∈ members t /\ ~ has_key hp k b.
Proof.
  intros [Hw Hn]. split.
  - intros Hb. split; [|by apply Hn]. destruct r as [a|]; [destruct Hw as [-> _]; by constructor|by subst].
  - intros [Hb Hnk]. destruct r as [a|]; [|by subst]. destruct Hw as [Hp Hk]. rewrite Hp in Hb.
    apply elem_of_cons in Hb as [->|Hb]; done.
Qed.

Lemma FinishErase_any (c : Cache) (held : Z -> Z) (r : option Z) :
  inv c held (option_list r) ->
  exists c', FinishErase c r = Some c' /\ inv c' held [] /\ keeps c c' /\ table_ c' = table_ c.
Proof.
  destruct r as [a|]; simpl; intros Hi.
  - destruct (FinishErase_ok c held a Hi) as (c' & ? & ? & ? & ? & _). by exists c'.
  - exists c. split; [done|]. split; [done|]. split; [|done]. split; [done|]. intros a e He. by exists e.
Qed.

Lemma LRU_Erase_ok (c : Cache) (held : Z -> Z) (k : bytes) :
  inv c held [] ->
  exists c', LRU_Erase c k (H k) = Some c' /\ inv c' held [] /\ keeps c c' /\
    forall b, b ∈ members (table_ c') <-> b ∈ members (table_ c) /\ ~ has_key (heap c) k b.
Proof.
  intros Hi. destruct (Table_Remove_inv c held k Hi) as (r & t & rest & He & Hp & Hw & Hi').
  unfold LRU_Erase. rewrite He. cbn [mbind option_bind].
  destruct (FinishErase_any _ held r Hi') as (c' & -> & Hi2 & Hk & Ht). exists c'. split; [done|]. split; [done|].
  split; [done|]. intros b. rewrite Ht. simpl. rewrite Hp. by apply without_members with r.
Qed.

(** *** Eviction *)

Lemma evict_ok (c : Cache) (held : Z -> Z) (a : Z) (l : list Z) :
  inv c held [] -> lru_ c = a :: l ->
  exists c' e, evict c a = Some c' /\ inv c' held [] /\ keeps c c' /\ lru_ c' = l /\ in_use_ c' = in_use_ c /\
    heap c !! a = Some e /\ deleted c' = deleted c ++ [(key e, value e)].
Proof.
  intros Hi Hl. destruct (iv_lru _ _ _ Hi a) as (e & He & Hc & Hr & Hh); [rewrite Hl; constructor|].
  pose proof (iv_members _ _ _ Hi) as Hm. rewrite app_nil_r in Hm. pose proof (iv_nodup _ _ _ Hi) as Hnd.
  assert (a ∈ members (table_ c)) as Ha by (rewrite Hm, Hl; constructor).
  destruct (members_bucket H _ _ a (iv_table _ _ _ Hi) Ha) as (_ & _ & _ & _ & e' & He' & Hhash & _). simplify_eq.
  unfold evict. rewrite He. cbn [mbind option_bind]. rewrite Hhash.
  destruct (Table_Remove_inv c held (key e) Hi) as (r & t & rest & -> & Hp & Hw & Hi'). cbn [mbind option_bind].
  assert (r = Some a) as ->.
  { pose proof (without_members _ _ _ _ _ a Hw) as Hwa. destruct Hw as [Hw _]. destruct r as [b|].
    - destruct Hw as [Hpb Hkb]. f_equal. apply (to_keys H _ _ (iv_table _ _ _ Hi) b a (key e)); [|done|done|by exists e].
      rewrite Hpb. constructor.
    - subst rest. apply Hwa in Ha as [_ Hnk]. destruct Hnk. by exists e. }
  destruct (FinishErase_ok _ held a Hi') as (c' & -> & Hi2 & Hk & _ & Hl' & Hu' & e2 & He2 & Hd). simpl in *. simplify_eq.
  rewrite bool_decide_true in Hd by done. exists c', e. rewrite Hl in Hnd. simpl in Hnd. apply NoDup_cons in Hnd as [Hna _].
  apply not_elem_of_app in Hna as [Hn1 Hn2]. rewrite Hl in Hl'. split_and!; try done.
  - rewrite Hl', filter_cons_False by naive_solver. by rewrite filter_ne_out.
  - rewrite Hu'. by rewrite filter_ne_out.
Qed.

Lemma keeps_refl (c : Cache) : keeps c c.
Proof. split; [done|]. intros a e He. by exists e. Qed.

(** What is evicted is the oldest part of [lru_]. *)
Lemma evict_loop_ok (fuel : nat) (c : Cache) (held : Z -> Z) :
  inv c held [] -> (length (lru_ c) <= fuel)%nat ->
  exists c' n, evict_loop fuel c = Some c' /\ inv c' held [] /\ keeps c c' /\ lru_ c' = drop n (lru_ c) /\
    in_use_ c' = in_use_ c /\ (usage_ c' <= capacity_ c' \/ lru_ c' = []).
Proof.
  revert c. induction fuel as [|fuel IH]; intros c Hi Hf.
  - exists c, O. destruct (lru_ c) eqn:E; simpl in Hf; [|lia]. simpl. rewrite E. pose proof (keeps_refl c). by split_and!; auto.
  - simpl. destruct (lru_ c) as [|a l] eqn:E.
    { exists c, O. rewrite E. pose proof (keeps_refl c). by split_and!; auto. }
    destruct (Z.ltb_spec (capacity_ c) (usage_ c)) as [Hlt|Hle].
    2:{ exists c, O. rewrite E. pose proof (keeps_refl c). split_and!; auto; lia. }
    destruct (evict_ok c held a l Hi E) as (c1 & e & -> & Hi1 & Hk1 & Hl1 & Hu1 & _). cbn [mbind option_bind].
    destruct (IH c1 Hi1) as (c' & n & -> & Hi' & Hk' & Hl' & Hu' & Hcap); [rewrite Hl1; simpl in Hf; lia|].
    exists c', (S n). rewrite Hl', Hl1, Hu', Hu1. split_and!; try done; [by apply (keeps_trans c c1)|].
    by rewrite <- Hl1, <- Hl'.
Qed.

Lemma LRU_Prune_ok (c : Cache) (held : Z -> Z) :
  inv c held [] ->
  exists c', LRU_Prune c = Some c' /\ inv c' held [] /\ keeps c c' /\ lru_ c' = [] /\ in_use_ c' = in_use_ c.
Proof.
  unfold LRU_Prune. generalize (le_n (length (lru_ c))). generalize (length (lru_ c)) at 2 3. intros fuel. revert c.
  induction fuel as [|fuel IH]; intros c Hf Hi.
  - exists c. destruct (lru_ c) eqn:E; simpl in Hf; [|lia]. simpl. rewrite E. pose proof (keeps_refl c). by split_and!.
  - simpl. destruct (lru_ c) as [|a l] eqn:E.
    { exists c. rewrite E. pose proof (keeps_refl c). by split_and!. }
    destruct (evict_ok c held a l Hi E) as (c1 & e & -> & Hi1 & Hk1 & Hl1 & Hu1 & _). cbn [mbind option_bind].
    destruct (IH c1) as (c' & -> & Hi' & Hk' & Hl' & Hu'); [rewrite Hl1; simpl in Hf; lia|done|].
    exists c'. rewrite Hu', Hu1. split_and!; try done. by apply (keeps_trans c c1).
Qed.

(** *** Handles *)

(** An entry of the table gets another count of handles, and is in the list
    that the count says. *)
Lemma inv_update (c : Cache) (held : Z -> Z) (a h' : Z) (e : Handle) (lru' use' : list Z) (del : list (bytes * V)) :
  inv c held [] -> a ∈ lru_ c ++ in_use_ c -> heap c !! a = Some e -> 0 <= h' < 2 ^ 32 - 1 ->
  lru' ++ use' ≡ₚ lru_ c ++ in_use_ c ->
  (forall b, b ∈ lru' -> if bool_decide (b = a) then h' = 0 else b ∈ lru_ c) ->
  (forall b, b ∈ use' -> if bool_decide (b = a) then 0 < h' else b ∈ in_use_ c) ->
  inv (MkCache (capacity_ c) (usage_ c) lru' use' (table_ c) (<[a := set_refs e (h' + 1)]> (heap c)) del)
    (held_set held a h') [].
Proof.
  intros Hi Ha He Hh Hp Hl Hu. destruct (inv_cell c held [] a Hi Ha) as (e0 & He0 & Hc & _). simplify_eq.
  assert (forall b e2, b <> a -> heap c !! b = Some e2 -> <[a := set_refs e (h' + 1)]> (heap c) !! b = Some e2) as Hb
    by (intros b e2 Hba Hb; by rewrite lookup_insert_ne).
  constructor; simpl; try done.
  - apply (table_ok_same (heap c)); [by apply (iv_table _ _ _ Hi)|]. by apply (same_on_insert _ _ e).
  - rewrite Hp. apply (iv_members _ _ _ Hi).
  - rewrite Hp. apply (iv_nodup _ _ _ Hi).
  - intros b Hbl. specialize (Hl b Hbl). case_bool_decide as Eb.
    + subst b. eexists. rewrite lookup_insert_eq, held_set_eq. split; [reflexivity|]. simpl. split_and!; [done|lia|lia].
    + destruct (iv_lru _ _ _ Hi b Hl) as (e2 & He2 & ?). exists e2. rewrite held_set_ne by done. by rewrite (Hb b e2).
  - intros b Hbu. specialize (Hu b Hbu). case_bool_decide as Eb.
    + subst b. eexists. rewrite lookup_insert_eq, held_set_eq. split; [reflexivity|]. simpl. by split_and!.
    + destruct (iv_use _ _ _ Hi b Hu) as (e2 & He2 & ?). exists e2. rewrite held_set_ne by done. by rewrite (Hb b e2).
  - intros b e2 Hbe Hout. rewrite Hp in Hout. assert (b <> a) as Hba by (by intros ->).
    rewrite lookup_insert_ne in Hbe by done. rewrite held_set_ne by done. by apply (iv_out _ _ _ Hi).
  - intros b Hbh. destruct (decide (b = a)) as [->|Hba]; [by rewrite lookup_insert_eq|].
    rewrite held_set_ne in Hbh by done. rewrite lookup_insert_ne by done. by apply (iv_held _ _ _ Hi).
  - intros b. destruct (decide (b = a)) as [->|Hba]; [by rewrite held_set_eq|]. rewrite held_set_ne by done.
    apply (iv_range _ _ _ Hi).
  - rewrite Hp, (charges_insert _ _ e) by done. apply (iv_usage _ _ _ Hi).
  - intros Hcap. apply (iv_off _ _ _ Hi) in Hcap. rewrite Hcap in Ha. by apply not_elem_of_nil in Ha.
Qed.

Lemma keeps_insert (c c' : Cache) (a : Z) (e e' : Handle) :
  capacity_ c' = capacity_ c -> heap c !! a = Some e -> heap c' = <[a := e']> (heap c) -> same_entry e e' -> keeps c c'.
Proof.
  intros Hc He Hh Hs. split; [done|]. intros b e2. rewrite Hh.
  intros [[<- <-]|[_ Hb]]%lookup_insert_Some; [by exists e|by exists e2].
Qed.

Lemma filter_ne_elem (l : list Z) (a b : Z) : b ∈ filter (fun x => x <> a) l -> b <> a /\ b ∈ l.
Proof. by intros [? ?]%list_elem_of_filter. Qed.

Lemma LRU_Ref_ok (c : Cache) (held : Z -> Z) (a : Z) :
  inv c held [] -> a ∈ members (table_ c) -> held a + 1 < 2 ^ 32 - 1 ->
  exists c', Ref c a = Some c' /\ inv c' (held_set held a (held a + 1)) [] /\ keeps c c' /\ table_ c' = table_ c.
Proof.
  intros Hi Ha Hh. pose proof (iv_members _ _ _ Hi) as Hm. rewrite app_nil_r in Hm. rewrite Hm in Ha.
  destruct (inv_cell c held [] a Hi Ha) as (e & He & Hc & Hr & Hl & Hu). pose proof (iv_range _ _ _ Hi a) as Hra.
  pose proof (iv_nodup _ _ _ Hi) as Hnd. unfold Ref. rewrite He. cbn [mbind option_bind]. rewrite Hr, Hc, andb_true_r.
  unfold u32. rewrite Z.mod_small by lia.
  destruct (Z.eqb_spec (held a + 1) 1) as [H1|H1].
  - rewrite LRU_Remove_ok by done. cbn [mbind option_bind]. eexists. split; [reflexivity|].
    split; [|split; [by eapply keeps_insert|done]].
    apply (inv_update c held a (held a + 1) e); try done; [lia| | |]; simpl.
    + rewrite app_assoc, <- filter_app, Permutation_app_comm. simpl. symmetry. by apply filter_ne_perm.
    + intros b [Hb ?]%filter_ne_elem. by rewrite bool_decide_false.
    + intros b [[Hb ?]%filter_ne_elem|Hb]%elem_of_app; [by rewrite bool_decide_false|].
      rewrite bool_decide_true by set_solver. lia.
  - cbn [mbind option_bind]. eexists. split; [reflexivity|]. split; [|split; [by eapply keeps_insert|done]].
    apply (inv_update c held a (held a + 1) e); try done; [lia| |].
    + intros b Hb. case_bool_decide; [subst; apply Hl in Hb; lia|done].
    + intros b Hb. case_bool_decide; [lia|done].
Qed.

Lemma LRU_Lookup_ok (c : Cache) (held : Z -> Z) (k : bytes) :
  inv c held [] -> (forall a, held a + 1 < 2 ^ 32 - 1) ->
  exists r c', LRU_Lookup c k (H k) = Some (r, c') /\ keeps c c' /\ table_ c' = table_ c /\
    match r with
    | Some a => a ∈ members (table_ c) /\ has_key (heap c) k a /\ inv c' (held_set held a (held a + 1)) []
    | None => c' = c /\ forall a, a ∈ members (table_ c) -> ~ has_key (heap c) k a
    end.
Proof.
  intros Hi Hh. unfold LRU_Lookup.
  destruct (Table_Lookup_ok H HH (heap c) (table_ c) k (iv_table _ _ _ Hi)) as (r & -> & Hr). cbn [mbind option_bind].
  destruct r as [a|].
  - destruct Hr as [Ha Hk]. destruct (LRU_Ref_ok c held a Hi Ha (Hh a)) as (c' & -> & Hi' & Hkp & Ht). cbn [mbind option_bind].
    by exists (Some a), c'.
  - exists None, c. split; [done|]. split; [apply keeps_refl|done].
Qed.

(** An entry that is only held. *)
Lemma inv_out (c : Cache) (held : Z -> Z) (a h' : Z) (hp' : heap_t) (del : list (bytes * V)) :
  inv c held [] -> a ∉ lru_ c ++ in_use_ c -> 0 <= h' < 2 ^ 32 - 1 ->
  (forall b, b <> a -> hp' !! b = heap c !! b) ->
  match hp' !! a with
  | Some e' => in_cache e' = false /\ refs e' = h' /\ 0 < h'
  | None => h' = 0 end ->
  inv (MkCache (capacity_ c) (usage_ c) (lru_ c) (in_use_ c) (table_ c) hp' del) (held_set held a h') [].
Proof.
  intros Hi Ha Hh Hne Ha'. pose proof (iv_members _ _ _ Hi) as Hm. rewrite app_nil_r in Hm.
  assert (forall b, b ∈ lru_ c ++ in_use_ c -> b <> a) as Hba by (by intros b Hb ->).
  constructor; simpl; try done.
  - apply (table_ok_same (heap c)); [by apply (iv_table _ _ _ Hi)|]. intros b e2 Hb He2. rewrite Hm in Hb.
    rewrite Hne by (by apply Hba). by exists e2.
  - apply (iv_members _ _ _ Hi).
  - apply (iv_nodup _ _ _ Hi).
  - intros b Hb. assert (b <> a) as Hbn by (apply Hba, elem_of_app; by left).
    destruct (iv_lru _ _ _ Hi b Hb) as (e2 & ?). exists e2. by rewrite Hne, held_set_ne.
  - intros b Hb. assert (b <> a) as Hbn by (apply Hba, elem_of_app; by right).
    destruct (iv_use _ _ _ Hi b Hb) as (e2 & ?). exists e2. by rewrite Hne, held_set_ne.
  - intros b e2 Hb Hout. destruct (decide (b = a)) as [->|Hbn]; [rewrite Hb in Ha'; by rewrite held_set_eq|].
    rewrite Hne in Hb by done. rewrite held_set_ne by done. by apply (iv_out _ _ _ Hi b e2).
  - intros b Hb. destruct (decide (b = a)) as [->|Hbn]; [rewrite held_set_eq in Hb; destruct (hp' !! a); [done|lia]|].
    rewrite held_set_ne in Hb by done. rewrite Hne by done. by apply (iv_held _ _ _ Hi).
  - intros b. destruct (decide (b = a)) as [->|Hbn]; [by rewrite held_set_eq|]. rewrite held_set_ne by done.
    apply (iv_range _ _ _ Hi).
  - rewrite (iv_usage _ _ _ Hi). f_equal. apply charges_ext. intros b Hb. unfold charge_of. by rewrite Hne by (by apply Hba).
  - apply (iv_off _ _ _ Hi).
Qed.

(** Releasing a handle: the entry becomes the newest of [lru_] if nobody else
    holds it, or is deleted if it is not in the cache any more. *)
Lemma LRU_Release_ok (c : Cache) (held : Z -> Z) (a : Z) :
  inv c held [] -> 0 < held a ->
  exists c', LRU_Release c a = Some c' /\ inv c' (held_set held a (held a - 1)) [] /\ keeps c c' /\ table_ c' = table_ c /\
    (held a = 1 -> a ∈ members (table_ c) -> lru_ c' = lru_ c ++ [a]).
Proof.
  intros Hi Hh. destruct (iv_held _ _ _ Hi a Hh) as [e He]. pose proof (iv_range _ _ _ Hi a) as Hra.
  pose proof (iv_members _ _ _ Hi) as Hm. rewrite app_nil_r in Hm. pose proof (iv_nodup _ _ _ Hi) as Hnd.
  unfold LRU_Release, Unref. rewrite He. cbn [mbind option_bind].
  destruct (decide (a ∈ lru_ c ++ in_use_ c)) as [Ha|Ha].
  - destruct (inv_cell c held [] a Hi Ha) as (e0 & He0 & Hc & Hr & Hl & Hu). simplify_eq. rewrite Hr, Hc.
    replace (held a + 1 - 1) with (held a - 1 + 1) by lia. unfold u32. rewrite Z.mod_small by lia.
    destruct (Z.eqb_spec (held a - 1 + 1) 0); [lia|]. cbn [andb].
    assert (a ∉ lru_ c) as Hnl by (rewrite Hl; lia).
    destruct (Z.eqb_spec (held a - 1 + 1) 1) as [H1|H1].
    + rewrite LRU_Remove_ok by done. cbn [mbind option_bind]. eexists. split; [reflexivity|].
      split; [|split; [by eapply keeps_insert|split; [done|]]].
      * apply (inv_update c held a (held a - 1) e); try done; [lia| | |]; simpl.
        -- rewrite (filter_ne_out (lru_ c)) by done. rewrite <- app_assoc. apply Permutation_app_head. simpl. symmetry.
           apply filter_ne_perm; [by apply NoDup_app in Hnd as (_ & _ & ?)|apply Hu; lia].
        -- rewrite (filter_ne_out (lru_ c)) by done. intros b [Hb|Hb]%elem_of_app.
           ++ rewrite bool_decide_false by (by intros ->). done.
           ++ rewrite bool_decide_true by set_solver. lia.
        -- intros b [Hb ?]%filter_ne_elem. by rewrite bool_decide_false.
      * intros _ _. simpl. by rewrite (filter_ne_out (lru_ c)).
    + eexists. split; [reflexivity|]. split; [|split; [by eapply keeps_insert|split; [done|lia]]].
      apply (inv_update c held a (held a - 1) e); try done; [lia| |].
      * intros b Hb. rewrite bool_decide_false by (by intros ->). done.
      * intros b Hb. case_bool_decide; [lia|done].
  - destruct (iv_out _ _ _ Hi a e He Ha) as (Hc & Hr & _). rewrite Hr, Hc. unfold u32. rewrite Z.mod_small by lia. cbn [andb].
    destruct (Z.eqb_spec (held a - 1) 0) as [H1|H1].
    + eexists. split; [reflexivity|]. split; [|split; [|split; [done|intros _; rewrite Hm; done]]].
      * apply (inv_out c held a); try done; [lia| |]; simpl; rewrite delete_insert_eq.
        -- intros b Hb. by rewrite lookup_delete_ne.
        -- by rewrite lookup_delete_eq.
      * split; [done|]. simpl. rewrite delete_insert_eq. intros b e2 [_ Hb]%lookup_delete_Some. by exists e2.
    + eexists. split; [reflexivity|]. split; [|split; [by eapply keeps_insert|split; [done|lia]]].
      apply (inv_out c held a); try done; [lia|intros b Hb; by rewrite lookup_insert_ne|].
      rewrite lookup_insert_eq. simpl. split_and!; [done|done|lia].
Qed.

(** *** Insertion *)

Context (alloc : gset Z -> Z) (Halloc : forall s, alloc s ∉ s).

Lemma list_in_heap (c : Cache) (held : Z -> Z) (extra : list Z) (a : Z) :
  inv c held extra -> a ∈ lru_ c ++ in_use_ c -> is_Some (heap c !! a).
Proof. intros Hi Ha. destruct (inv_cell c held extra a Hi Ha) as (e & He & _). by exists e. Qed.

(** A new entry in [in_use_], not yet in the table. *)
Lemma inv_new (c : Cache) (held : Z -> Z) (a : Z) (k : bytes) (v : V) (chg : Z) :
  inv c held [] -> heap c !! a = None -> 0 < capacity_ c ->
  inv (MkCache (capacity_ c) (u64 (usage_ c + chg)) (lru_ c) (in_use_ c ++ [a]) (table_ c)
         (<[a := MkHandle v chg true 2 (H k) k]> (heap c)) (deleted c)) (held_set held a 1) [a].
Proof.
  intros Hi Ha Hpos. pose proof (iv_members _ _ _ Hi) as Hm. rewrite app_nil_r in Hm.
  assert (forall b, b ∈ lru_ c ++ in_use_ c -> b <> a) as Hba.
  { intros b Hb ->. destruct (list_in_heap c held [] a Hi Hb) as [? ?]. congruence. }
  constructor; simpl; try done.
  - apply (table_ok_same (heap c)); [by apply (iv_table _ _ _ Hi)|]. intros b e2 Hb He2. rewrite Hm in Hb.
    rewrite lookup_insert_ne by (by apply not_eq_sym, Hba). by exists e2.
  - by rewrite Hm, app_assoc.
  - rewrite app_assoc. apply NoDup_app. split; [apply (iv_nodup _ _ _ Hi)|]. split; [|apply NoDup_singleton].
    intros b Hb Hb'. apply (Hba b Hb). set_solver.
  - intros b Hb. assert (b <> a) as Hbn by (apply Hba, elem_of_app; by left).
    destruct (iv_lru _ _ _ Hi b Hb) as (e2 & ?). exists e2. by rewrite lookup_insert_ne, held_set_ne.
  - intros b [Hb|Hb]%elem_of_app.
    + assert (b <> a) as Hbn by (apply Hba, elem_of_app; by right).
      destruct (iv_use _ _ _ Hi b Hb) as (e2 & ?). exists e2. by rewrite lookup_insert_ne, held_set_ne.
    + apply list_elem_of_singleton in Hb as ->. eexists. by rewrite lookup_insert_eq, held_set_eq.
  - intros b e2 Hb Hout. rewrite app_assoc in Hout. apply not_elem_of_app in Hout as [Hout Hbn].
    rewrite lookup_insert_ne in Hb by set_solver. rewrite held_set_ne by set_solver. by apply (iv_out _ _ _ Hi b e2).
  - intros b Hb. destruct (decide (b = a)) as [->|Hbn]; [by rewrite lookup_insert_eq|].
    rewrite held_set_ne in Hb by done. rewrite lookup_insert_ne by done. by apply (iv_held _ _ _ Hi).
  - intros b. destruct (decide (b = a)) as [->|Hbn]; [rewrite held_set_eq; lia|]. rewrite held_set_ne by done.
    apply (iv_range _ _ _ Hi).
  - rewrite app_assoc, Permutation_app_comm. simpl. unfold charge_of at 1. rewrite lookup_insert_eq. simpl.
    rewrite (iv_usage _ _ _ Hi). unfold u64. rewrite Zplus_mod_idemp_l. f_equal. rewrite Z.add_comm. f_equal.
    apply charges_ext. intros b Hb. unfold charge_of. by rewrite lookup_insert_ne by (by apply not_eq_sym, Hba).
  - lia.
Qed.

(** The entry is in the table, in place of one with the same key. *)
Lemma table_inserted (c : Cache) (held : Z -> Z) (a : Z) (e : Handle) :
  inv c held [a] -> heap c !! a = Some e -> hash e = H (key e) -> a ∉ members (table_ c) ->
  Z.of_nat (length (members (table_ c))) + 1 <= 2 ^ 31 -> a ∈ in_use_ c ->
  exists old t c', Table_Insert (heap c) (table_ c) a = Some (old, t) /\ FinishErase (set_table c t) old = Some c' /\
    inv c' held [] /\ keeps c c' /\ a ∈ in_use_ c' /\
    lru_ c' = match old with Some o => filter (fun x => x <> o) (lru_ c) | None => lru_ c end /\
    forall b, b ∈ members (table_ c') <-> b = a \/ (b ∈ members (table_ c) /\ ~ has_key (heap c) (key e) b).
Proof.
  intros Hi He Hh Hna Hs Hu. pose proof (iv_table _ _ _ Hi) as Ht. rewrite <- (to_elems H _ _ Ht) in Hs.
  destruct (Table_Insert_ok H HH (heap c) (table_ c) a e Ht He Hh Hna Hs) as (old & t & rest & Hti & Ht' & Hp & Hw).
  pose proof (fun b => without_members _ _ _ _ _ b Hw) as Hwm.
  assert (inv (set_table c t) held (option_list old)) as Hi'.
  { apply (inv_set_table c held t [a]); [done|done|]. rewrite Hp. destruct Hw as [Hw _]. destruct old as [o|]; simpl.
    - destruct Hw as [-> _]. simpl. rewrite <- (Permutation_middle rest), app_nil_r. rewrite Permutation_swap.
      by rewrite Permutation_app_comm.
    - subst. by rewrite app_nil_r, Permutation_app_comm. }
  exists old, t. destruct old as [o|].
  - destruct (FinishErase_ok _ held o Hi') as (c' & Hf & Hi2 & Hk & Htc & Hl & Hu' & _). exists c'. simpl in *.
    destruct Hw as [[Hpo _] _]. assert (o <> a) as Hoa by (intros ->; apply Hna; rewrite Hpo; constructor).
    split_and!; try done.
    + rewrite Hu'. by apply list_elem_of_filter.
    + intros b. rewrite Htc, Hp, elem_of_cons, Hwm. done.
  - simpl. exists (set_table c t). split_and!; try done; [split; [done|]; intros b e2 Hb; by exists e2|].
    intros b. simpl. by rewrite Hp, elem_of_cons, Hwm.
Qed.

(** What an insertion of [k] leaves: the new entry, and entries with other
    keys. *)
Definition inserted (c c' : Cache) (a : Z) (k : bytes) (v : V) : Prop :=
  capacity_ c' = capacity_ c /\
  (exists e, heap c' !! a = Some e /\ key e = k /\ value e = v) /\
  (forall b e', b <> a -> heap c' !! b = Some e' -> exists e, heap c !! b = Some e /\ same_entry e e') /\
  (forall b, b ∈ members (table_ c') -> b = a \/ (b ∈ members (table_ c) /\ ~ has_key (heap c) k b)) /\
  (a ∈ members (table_ c') <-> 0 < capacity_ c).

Lemma keeps_members (c c' : Cache) (held held' : Z -> Z) (b : Z) :
  inv c held [] -> inv c' held' [] -> (forall x, x ∈ lru_ c' -> x ∈ lru_ c) -> in_use_ c' = in_use_ c ->
  b ∈ members (table_ c') -> b ∈ members (table_ c).
Proof.
  intros Hi Hi' Hl Hu Hb. pose proof (iv_members _ _ _ Hi) as Hm. pose proof (iv_members _ _ _ Hi') as Hm'.
  rewrite app_nil_r in Hm, Hm'. rewrite Hm. rewrite Hm', Hu in Hb. apply elem_of_app in Hb as [Hb|Hb]; apply elem_of_app; auto.
Qed.

Lemma elem_of_drop (l : list Z) (n : nat) (x : Z) : x ∈ drop n l -> x ∈ l.
Proof. intros [i Hi]%list_elem_of_lookup. rewrite lookup_drop in Hi. by eapply list_elem_of_lookup_2. Qed.

(** Evicting keeps the new entry, which is held. *)
Lemma inserted_evict (c c1 : Cache) (held : Z -> Z) (a : Z) (k : bytes) (v : V) :
  inv c1 held [] -> 0 < held a -> inserted c c1 a k v ->
  exists c', evict_loop (length (lru_ c1)) c1 = Some c' /\ inv c' held [] /\ inserted c c' a k v /\
    (usage_ c' <= capacity_ c' \/ lru_ c' = []).
Proof.
  intros Hi Hh (Hcap & (e & He & Hk & Hv) & Hold & Hmem & Hin).
  destruct (evict_loop_ok (length (lru_ c1)) c1 held Hi (le_n _)) as (c' & n & -> & Hi' & [Hcap' Hkeep] & Hl & Hu & Hc).
  assert (forall b, b ∈ members (table_ c') -> b ∈ members (table_ c1)) as Hsub.
  { intros b. apply (keeps_members c1 c' held held b Hi Hi'); [|done]. intros x. rewrite Hl. apply elem_of_drop. }
  exists c'. split; [done|]. split; [done|]. split; [|done]. split_and!.
  - congruence.
  - destruct (iv_held _ _ _ Hi' a Hh) as [e' He']. exists e'. destruct (Hkeep a e' He') as (e0 & He0 & Hse). simplify_eq.
    destruct Hse as (-> & _ & _ & ->). done.
  - intros b e' Hb He'. destruct (Hkeep b e' He') as (e1 & He1 & S1). destruct (Hold b e1 Hb He1) as (e0 & He0 & S0).
    exists e0. split; [done|]. by eapply same_entry_trans.
  - intros b Hb. by apply Hmem, Hsub.
  - split; [by intros Hb%Hsub%Hin|]. intros Hpos. apply Hin in Hpos.
    pose proof (iv_members _ _ _ Hi) as Hm. pose proof (iv_members _ _ _ Hi') as Hm'. rewrite app_nil_r in Hm, Hm'.
    rewrite Hm in Hpos. destruct (inv_cell c1 held [] a Hi Hpos) as (_ & _ & _ & _ & _ & Hu1).
    rewrite Hm', Hu. apply elem_of_app. right. by apply Hu1.
Qed.

Lemma insert_entry_ok (c : Cache) (held : Z -> Z) (a : Z) (k : bytes) (v : V) (chg : Z) :
  inv c held [] -> Z.of_nat (length (members (table_ c))) + 1 <= 2 ^ 31 -> heap c !! a = None ->
  exists c1, insert_entry c a k (H k) v chg = Some c1 /\ inv c1 (held_set held a 1) [] /\ inserted c c1 a k v.
Proof.
  intros Hi Hs Ha. pose proof (iv_members _ _ _ Hi) as Hm. rewrite app_nil_r in Hm.
  assert (a ∉ lru_ c ++ in_use_ c) as Hnl.
  { intros Hin. destruct (list_in_heap c held [] a Hi Hin). congruence. }
  assert (a ∉ members (table_ c)) as Hna by (by rewrite Hm).
  assert (forall b, has_key (heap c) k b -> b <> a) as Hka by (intros b (e0 & He0 & _) ->; congruence).
  unfold insert_entry. destruct (Z.ltb_spec 0 (capacity_ c)) as [Hpos|Hz].
  - pose proof (inv_new c held a k v chg Hi Ha Hpos) as Hi1. set (c1 := MkCache _ _ _ _ _ _ _) in Hi1.
    change (set_usage _ _) with c1.
    destruct (table_inserted c1 _ a (MkHandle v chg true 2 (H k) k) Hi1) as (old & t & c2 & Hti & Hf & Hi2 & [Hcap2 Hk2] & Hu2 & _ & Hm2);
      [simpl; by rewrite lookup_insert_eq|done|done|done|simpl; set_solver|].
    exists c2. cbn zeta. rewrite Hti. cbn [mbind option_bind]. split; [done|]. split; [done|]. split_and!.
    + done.
    + destruct (list_in_heap c2 _ [] a Hi2) as [e2 He2]; [apply elem_of_app; by right|]. exists e2.
      destruct (Hk2 a e2 He2) as (e0 & He0 & Hv & _ & _ & Hk). simpl in He0. rewrite lookup_insert_eq in He0. by simplify_eq.
    + intros b e' Hb He'. destruct (Hk2 b e' He') as (e0 & He0 & Hse). simpl in He0. rewrite lookup_insert_ne in He0 by done.
      by exists e0.
    + intros b [->|[Hb Hnk]]%Hm2; [by left|]. right. split; [done|]. intros Hk. apply Hnk. specialize (Hka b Hk).
      destruct Hk as (e0 & He0 & Hk0). exists e0. simpl. by rewrite lookup_insert_ne.
    + split; [done|]. intros _. apply Hm2. by left.
  - pose proof (iv_off _ _ _ Hi Hz) as Hoff. rewrite Hoff in Hm. apply Permutation_nil_r in Hm.
    eexists. split; [reflexivity|]. split.
    + apply (inv_out c held a 1); [done|done|lia|intros b Hb; by rewrite lookup_insert_ne|by rewrite lookup_insert_eq].
    + split_and!; simpl.
      * done.
      * eexists. by rewrite lookup_insert_eq.
      * intros b e' Hb. rewrite lookup_insert_ne by done. intros He'. by exists e'.
      * rewrite Hm. intros b Hb. by apply not_elem_of_nil in Hb.
      * split; [done|lia].
Qed.

Lemma LRU_Insert_ok (c : Cache) (held : Z -> Z) (k : bytes) (v : V) (chg : Z) :
  inv c held [] -> Z.of_nat (length (members (table_ c))) + 1 <= 2 ^ 31 ->
  exists a c', LRU_Insert alloc c k (H k) v chg = Some (a, c') /\ heap c !! a = None /\
    inv c' (held_set held a 1) [] /\ inserted c c' a k v /\ (usage_ c' <= capacity_ c' \/ lru_ c' = []).
Proof.
  intros Hi Hs. set (a := alloc (dom (heap c))). exists a.
  assert (heap c !! a = None) as Ha by (apply not_elem_of_dom, Halloc). unfold LRU_Insert. fold a.
  destruct (insert_entry_ok c held a k v chg Hi Hs Ha) as (c1 & -> & Hi1 & Hins). cbn [mbind option_bind].
  destruct (inserted_evict c c1 _ a k v Hi1) as (c' & -> & ? & ? & ?); [rewrite held_set_eq; lia|done|]. by exists c'.
Qed.

Lemma LRUCache_new_ok (capacity : Z) : inv (LRUCache_new capacity) (fun _ => 0) [].
Proof.
  constructor; simpl; try done.
  - constructor; simpl; try done.
    + exists 2. by split.
    + intros i l a Hi Ha. do 4 (destruct i as [|i]; [simpl in Hi; simplify_eq; by apply not_elem_of_nil in Ha|]). done.
    + constructor.
    + intros a b k Ha. by apply not_elem_of_nil in Ha.
  - constructor.
  - intros a Ha. by apply not_elem_of_nil in Ha.
  - intros a Ha. by apply not_elem_of_nil in Ha.
Qed.
End shard.

(** ** Runs *)

Section runs.
Context {V : Type} (H : bytes -> Z) (HH : forall k, 0 <= H k < 2 ^ 32).
Context (alloc : gset Z -> Z) (Halloc : forall s, alloc s ∉ s).
Abbreviation Cache := (LRUCache (V := V)).

Inductive op := OpInsert (k : bytes) (v : V) (chg : Z) | OpLookup (k : bytes) | OpRelease (a : Z) | OpErase (k : bytes) | OpPrune.

(** An operation, with the handle it returns. *)
Definition exec (c : Cache) (o : op) : option (option Z * Cache) :=
  match o with
  | OpInsert k v chg => '(a, c) ← LRU_Insert alloc c k (H k) v chg; Some (Some a, c)
  | OpLookup k => LRU_Lookup c k (H k)
  | OpRelease a => c ← LRU_Release c a; Some (None, c)
  | OpErase k => c ← LRU_Erase c k (H k); Some (None, c)
  | OpPrune => c ← LRU_Prune c; Some (None, c)
  end.

(** What the clients know: the handles they have not released, and the value
    last inserted under each key and not erased since. *)
Record Client := MkClient { cl_held : Z -> Z; cl_latest : bytes -> option V }.

Definition client_new : Client := MkClient (fun _ => 0) (fun _ => None).

Definition client_step (s : Client) (o : op) (r : option Z) : Client :=
  let hold a n := held_set (cl_held s) a (cl_held s a + n) in
  let set k v := fun x => if bool_decide (x = k) then v else cl_latest s x in
  match o, r with
  | OpInsert k v _, Some a => MkClient (hold a 1) (set k (Some v))
  | OpLookup _, Some a => MkClient (hold a 1) (cl_latest s)
  | OpRelease a, _ => MkClient (hold a (-1)) (cl_latest s)
  | OpErase k, _ => MkClient (cl_held s) (set k None)
  | _, _ => s
  end.

Definition legal (s : Client) (o : op) : Prop := match o with OpRelease a => 0 < cl_held s a | _ => True end.

Inductive lru_step : Cache * Client -> Cache * Client -> Prop :=
  | lru_step_op c s o r c' : legal s o -> exec c o = Some (r, c') -> lru_step (c, s) (c', client_step s o r).

(** The invariant after [n] steps. *)
Record good (n : nat) (c : Cache) (s : Client) : Prop := MkGood {
  g_inv : inv H c (cl_held s) [];
  g_held : forall a, cl_held s a <= Z.of_nat n;
  g_members : (length (members (table_ c)) <= n)%nat;
  g_latest : forall a e, a ∈ members (table_ c) -> heap c !! a = Some e -> cl_latest s (key e) = Some (value e) }.

Lemma members_length (c c' : Cache) (held held' : Z -> Z) (l : list Z) :
  inv H c' held' [] -> (forall b, b ∈ members (table_ c') -> b ∈ l) -> (length (members (table_ c')) <= length l)%nat.
Proof.
  intros Hi Hs. apply submseteq_length, NoDup_submseteq; [|done]. apply (to_nodup H _ _ (iv_table _ _ _ _ Hi)).
Qed.

(** The entries of the table are old ones. *)
Lemma good_keeps (n : nat) (c c' : Cache) (s : Client) (held' : Z -> Z) :
  good n c s -> inv H c' held' [] -> keeps c c' -> (forall b, b ∈ members (table_ c') -> b ∈ members (table_ c)) ->
  (forall a, held' a <= Z.of_nat (S n)) -> good (S n) c' (MkClient held' (cl_latest s)).
Proof.
  intros [Hi Hh Hm Hl] Hi' [_ Hk] Hs Hh'. constructor; simpl; [done|done| |].
  - pose proof (members_length c c' (cl_held s) held' _ Hi' Hs). lia.
  - intros a e' Ha He'. destruct (Hk a e' He') as (e & He & -> & _ & _ & ->). by apply (Hl a e); [apply Hs|].
Qed.

Lemma held_set_le (held : Z -> Z) (n m : Z) (a d : Z) :
  (forall b, held b <= n) -> d <= m -> n <= m -> forall b, held_set held a d b <= m.
Proof. intros Hh Hd Hnm b. unfold held_set. case_bool_decide; [done|]. specialize (Hh b). lia. Qed.

Lemma client_eta (s : Client) : MkClient (cl_held s) (cl_latest s) = s.
Proof. by destruct s. Qed.

(** What an operation gives. *)
Definition result_ok (c' : Cache) (s : Client) (o : op) (r : option Z) : Prop :=
  match o, r with
  | OpInsert k v _, Some a => (exists e, heap c' !! a = Some e /\ key e = k /\ value e = v) /\
      (usage_ c' <= capacity_ c' \/ lru_ c' = [])
  | OpInsert _ _ _, None => False
  | OpLookup k, Some a => exists e, heap c' !! a = Some e /\ key e = k /\ cl_latest s k = Some (value e)
  | OpPrune, _ => lru_ c' = []
  | _, _ => True
  end.

Lemma lookup_step (n : nat) (c : Cache) (s : Client) (k : bytes) :
  good n c s -> Z.of_nat n + 1 < 2 ^ 31 ->
  exists r c', exec c (OpLookup k) = Some (r, c') /\ good (S n) c' (client_step s (OpLookup k) r) /\ result_ok c' s (OpLookup k) r.
Proof.
  intros Hg Hn. pose proof Hg as [Hi Hh Hm Hl].
  destruct (LRU_Lookup_ok H HH c (cl_held s) k Hi) as (r & c' & He & Hk & Ht & Hr); [intros a; specialize (Hh a); lia|].
  exists r, c'. split; [done|]. destruct r as [a|]; simpl.
  - destruct Hr as (Ha & Hka & Hi'). split.
    + apply (good_keeps n c); [done|done|done|by rewrite Ht|]. apply (held_set_le _ (Z.of_nat n)); [done| |lia].
      specialize (Hh a). lia.
    + destruct Hka as (e & Hea & <-). destruct (iv_held _ _ _ _ Hi' a) as [e' He']; [rewrite held_set_eq; pose proof (iv_range _ _ _ _ Hi a); lia|].
      destruct Hk as [_ Hk]. destruct (Hk a e' He') as (e0 & He0 & Hv & _ & _ & Hke). simplify_eq. exists e'.
      rewrite Hv. split; [done|]. split; [done|]. by apply (Hl a).
  - destruct Hr as [-> _]. split; [|done]. rewrite <- (client_eta s). apply (good_keeps n c); [done|done|apply keeps_refl|done|].
    intros a. specialize (Hh a). lia.
Qed.

Lemma insert_step (n : nat) (c : Cache) (s : Client) (k : bytes) (v : V) (chg : Z) :
  good n c s -> Z.of_nat n + 1 < 2 ^ 31 ->
  exists r c', exec c (OpInsert k v chg) = Some (r, c') /\ good (S n) c' (client_step s (OpInsert k v chg) r) /\
    result_ok c' s (OpInsert k v chg) r.
Proof.
  intros Hg Hn. pose proof Hg as [Hi Hh Hm Hl].
  destruct (LRU_Insert_ok H HH alloc Halloc c (cl_held s) k v chg Hi) as (a & c' & He & Ha & Hi' & Hins & Hcap); [lia|].
  exists (Some a), c'. unfold exec. rewrite He. cbn [mbind option_bind]. split; [done|].
  destruct Hins as (_ & Hea & Hold & Hmem & _). split; [|by split].
  assert (cl_held s a = 0) as H0.
  { destruct (Z.eq_dec (cl_held s a) 0) as [|Hne]; [done|]. pose proof (iv_range _ _ _ _ Hi a).
    destruct (iv_held _ _ _ _ Hi a) as [e' ?]; [lia|]. congruence. }
  constructor; simpl.
  - by rewrite H0.
  - apply (held_set_le _ (Z.of_nat n)); [done|lia|lia].
  - pose proof (members_length c c' (cl_held s) _ (a :: members (table_ c)) Hi') as Hlen. simpl in Hlen.
    assert ((length (members (table_ c')) <= S (length (members (table_ c))))%nat); [|lia]. apply Hlen.
    intros b [->|[Hb _]]%Hmem; [constructor|by constructor].
  - intros b e' Hb He'. destruct Hea as (ea & Hea & <- & <-). destruct (Hmem b Hb) as [->|[Hbc Hnk]].
    + simplify_eq. by rewrite bool_decide_true.
    + destruct (decide (b = a)) as [->|Hba]; [simplify_eq; by rewrite bool_decide_true|].
      destruct (Hold b e' Hba He') as (e & Heb & Hv & _ & _ & Hk). rewrite Hv, Hk.
      rewrite bool_decide_false by (intros E; apply Hnk; by exists e). by apply (Hl b).
Qed.

Lemma erase_step (n : nat) (c : Cache) (s : Client) (k : bytes) :
  good n c s -> exists r c', exec c (OpErase k) = Some (r, c') /\ good (S n) c' (client_step s (OpErase k) r) /\ result_ok c' s (OpErase k) r.
Proof.
  intros Hg. pose proof Hg as [Hi Hh Hm Hl]. destruct (LRU_Erase_ok H HH c (cl_held s) k Hi) as (c' & He & Hi' & [Hcap Hk] & Hmem).
  exists None, c'. unfold exec. rewrite He. cbn [mbind option_bind]. split; [done|]. split; [|done]. constructor; simpl.
  - done.
  - intros a. specialize (Hh a). lia.
  - pose proof (members_length c c' (cl_held s) _ (members (table_ c)) Hi') as Hlen.
    assert (length (members (table_ c')) <= length (members (table_ c)))%nat; [|lia]. apply Hlen. by intros b [? _]%Hmem.
  - intros b e' [Hb Hnk]%Hmem He'. destruct (Hk b e' He') as (e & Heb & Hv & _ & _ & Hke). rewrite Hv, Hke.
    rewrite bool_decide_false by (intros E; apply Hnk; by exists e). by apply (Hl b).
Qed.

Lemma good_step (n : nat) (c : Cache) (s : Client) (o : op) :
  good n c s -> Z.of_nat n + 1 < 2 ^ 31 -> legal s o ->
  exists r c', exec c o = Some (r, c') /\ good (S n) c' (client_step s o r) /\ result_ok c' s o r.
Proof.
  intros Hg Hn Hlegal. pose proof Hg as [Hi Hh Hm Hl]. destruct o as [k v chg|k|a|k|].
  - by apply insert_step.
  - by apply lookup_step.
  - destruct (LRU_Release_ok H HH c (cl_held s) a Hi Hlegal) as (c' & He & Hi' & Hk & Ht & _).
    exists None, c'. unfold exec. rewrite He. cbn [mbind option_bind]. split; [done|]. split; [|done]. simpl.
    apply (good_keeps n c); [done|done|done|by rewrite Ht|]. apply (held_set_le _ (Z.of_nat n)); [done| |lia]. specialize (Hh a). lia.
  - by apply erase_step.
  - destruct (LRU_Prune_ok H HH c (cl_held s) Hi) as (c' & He & Hi' & Hk & Hlru & Huse).
    exists None, c'. unfold exec. rewrite He. cbn [mbind option_bind]. split; [done|]. split; [|done].
    change (client_step s OpPrune None) with s. rewrite <- (client_eta s). apply (good_keeps n c); [done|done|done| |].
    + intros b. apply (keeps_members H c c' _ _ b Hi Hi'); [|done]. rewrite Hlru. intros x Hx. by apply not_elem_of_nil in Hx.
    + intros a. specialize (Hh a). lia.
Qed.

Lemma good_run (n : nat) (capacity : Z) (c : Cache) (s : Client) :
  nsteps lru_step n (LRUCache_new capacity, client_new) (c, s) -> Z.of_nat n < 2 ^ 31 -> good n c s.
Proof.
  revert c s. induction n as [|n IH]; intros c s Hr Hn.
  - inversion Hr; subst. constructor; simpl; [apply LRUCache_new_ok|done|done|].
    intros a e Ha. by apply not_elem_of_nil in Ha.
  - apply nsteps_inv_r in Hr as ([c1 s1] & Hr & Hst). specialize (IH c1 s1 Hr ltac:(lia)).
    inversion Hst as [c0 s0 o r c' Hleg He]; subst.
    destruct (good_step n c1 s1 o IH ltac:(lia) Hleg) as (r2 & c2 & He2 & Hg & _). by simplify_eq.
Qed.
End runs.

(** ** The hash function of the sharded cache *)

Lemma lxor_range (n a b : Z) : 0 <= n -> 0 <= a < 2 ^ n -> 0 <= b < 2 ^ n -> 0 <= Z.lxor a b < 2 ^ n.
Proof.
  intros Hn Ha Hb. assert (Z.lxor a b = Z.lxor a b mod 2 ^ n) as ->; [|apply Z.mod_pos_bound; lia].
  rewrite lxor_mod_pow2 by done. by rewrite !Z.mod_small.
Qed.

Lemma shift_mix_range (h k : Z) : 0 <= k -> 0 <= Z.lxor (u32 h) (Z.shiftr (u32 h) k) < 2 ^ 32.
Proof.
  intros Hk. assert (0 <= u32 h < 2 ^ 32) as Hu by (apply Z.mod_pos_bound; lia).
  apply lxor_range; [lia|done|]. rewrite Z.shiftr_div_pow2 by done. split; [apply Z.div_pos; lia|].
  apply Z.le_lt_trans with (u32 h); [|lia]. apply Z.div_le_upper_bound; [lia|]. nia.
Qed.

Lemma Hash_loop_range (n : nat) (data : bytes) (h : Z) :
  (length data < n)%nat -> 0 <= h < 2 ^ 32 -> 0 <= Hash_loop data h < 2 ^ 32.
Proof.
  revert data h. induction n as [|n IH]; intros data h Hn Hh; [lia|].
  destruct data as [|b0 [|b1 [|b2 [|b3 data]]]]; cbn [Hash_loop]; [done|..]; try (by apply shift_mix_range).
  apply IH; [simpl in Hn; lia|]. by apply shift_mix_range.
Qed.

Lemma HashSlice_range (k : bytes) : 0 <= HashSlice k < 2 ^ 32.
Proof. unfold HashSlice, Hash. eapply Hash_loop_range; [apply Nat.lt_succ_diag_r|]. apply Z.mod_pos_bound. lia. Qed.

(** ** Properties *)

(** C20. In every run of a shard, whatever the hash function and the chains:
    the next operation returns, a handle a client holds is never freed, an
    insertion leaves the usage within the capacity unless every entry is in
    use, and a lookup gives the value last inserted under the key. *)
Theorem LRUCache_run {V : Type} (H : bytes -> Z) (alloc : gset Z -> Z) (capacity : Z) (n : nat)
    (c : LRUCache (V := V)) (s : Client) (o : op) :
  (forall k, 0 <= H k < 2 ^ 32) -> (forall l, alloc l ∉ l) ->
  nsteps (lru_step H alloc) n (LRUCache_new capacity, client_new) (c, s) -> Z.of_nat n + 1 < 2 ^ 31 -> legal s o ->
  exists r c', exec H alloc c o = Some (r, c') /\ result_ok c' s o r /\
    usage_ c' = u64 (charges (heap c') (members (table_ c'))) /\
    forall a, 0 < cl_held (client_step s o r) a -> is_Some (heap c' !! a).
Proof.
  intros HH Halloc Hr Hn Hleg. pose proof (good_run H HH alloc Halloc n capacity c s Hr ltac:(lia)) as Hg.
  destruct (good_step H HH alloc Halloc n c s o Hg Hn Hleg) as (r & c' & He & [Hi' _ _ _] & Hres).
  exists r, c'. split; [done|]. split; [done|]. pose proof (iv_members _ _ _ _ Hi') as Hm. rewrite app_nil_r in Hm.
  split; [rewrite Hm; apply (iv_usage _ _ _ _ Hi')|]. apply (iv_held _ _ _ _ Hi').
Qed.


(** The run of some operations, as [lru_step]s. *)
Fixpoint run_ops {V : Type} (H : bytes -> Z) (alloc : gset Z -> Z) (c : LRUCache (V := V)) (s : Client) (l : list op)
    : option (LRUCache (V := V) * Client) :=
  match l with
  | [] => Some (c, s)
  | o :: l' => '(r, c') ← exec H alloc c o; run_ops H alloc c' (client_step s o r) l'
  end.

Lemma run_ops_steps {V : Type} (H : bytes -> Z) (alloc : gset Z -> Z) (l : list op) (c c' : LRUCache (V := V)) (s s' : Client) :
  (forall s o, o ∈ l -> legal s o) -> run_ops H alloc c s l = Some (c', s') -> nsteps (lru_step H alloc) (length l) (c, s) (c', s').
Proof.
  revert c s. induction l as [|o l IH]; intros c s Hl; simpl; [intros [= <- <-]; constructor|].
  destruct (exec H alloc c o) as [[r c1]|] eqn:E; [|done]. cbn [mbind option_bind]. intros Hr.
  eapply nsteps_l; [apply (lru_step_op _ _ c s o r c1); [apply Hl; constructor|done]|].
  apply IH; [|done]. intros s0 o0 Ho. apply Hl. by constructor.
Qed.

Definition lru_example : list (op (V := Z)) := [OpInsert [Byte.x61] 10 1; OpInsert [Byte.x62] 20 1; OpInsert [Byte.x61] 30 1].

Lemma LRUCache_run_witness :
  exists c s r c', run_ops HashSlice bump_alloc (LRUCache_new 2) client_new lru_example = Some (c, s) /\
    exec HashSlice bump_alloc c (OpLookup [Byte.x61]) = Some (r, c') /\ result_ok c' s (OpLookup [Byte.x61]) r /\
    usage_ c' = u64 (charges (heap c') (members (table_ c'))) /\
    forall a, 0 < cl_held (client_step s (OpLookup [Byte.x61]) r) a -> is_Some (heap c' !! a).
Proof.
  destruct (run_ops HashSlice bump_alloc (LRUCache_new 2) client_new lru_example) as [[c s]|] eqn:E; [|by vm_compute in E].
  exists c, s.
  destruct (LRUCache_run HashSlice bump_alloc 2 3 c s (OpLookup [Byte.x61]) HashSlice_range bump_alloc_fresh) as (r & c' & ?).
  - apply (run_ops_steps _ _ lru_example); [|exact E]. intros s0 o Ho. unfold lru_example in Ho. by set_solver.
  - done.
  - done.
  - by exists r, c'.
Defined.
