(* ===== verification/CacheBlocks.v ===== *)
(** * The sharded cache as a block cache

    The sharded cache of [Cache.v] gives tables what they rely on
    ([BlockCacheSpec]): whatever its state, an operation only adds the entry
    that is inserted. *)

From S2P Require Import Prelude Status Coding Comparator Bloom Block Table TableReadSpec Cache CacheSpec.
Import LRU.

(** ** Operations add nothing *)

Section shard.
Context {V : Type}.
Abbreviation Cache := (LRUCache (V := V)).
Abbreviation heap_t := (gmap Z (@LRUHandle V)).

(** Every entry of [c'], and every entry of its table, is one of [c]. *)
Definition no_more (c c' : Cache) : Prop :=
  keeps c c' /\ forall a, a ∈ members (table_ c') -> a ∈ members (table_ c).

Lemma no_more_refl (c : Cache) : no_more c c.
Proof. split; [apply keeps_refl|done]. Qed.

Lemma no_more_trans (c1 c2 c3 : Cache) : no_more c1 c2 -> no_more c2 c3 -> no_more c1 c3.
Proof. intros [K1 M1] [K2 M2]. split; [by eapply keeps_trans|auto]. Qed.

Lemma no_more_lists (c : Cache) (l1 l2 : list Z) : no_more c (set_lists c l1 l2).
Proof. split; [|done]. split; [done|]. intros a e He. by exists e. Qed.

Lemma LRU_Remove_no_more (c c' : Cache) (a : Z) : LRU_Remove c a = Some c' -> no_more c c'.
Proof. unfold LRU_Remove. repeat case_bool_decide; intros E; simplify_eq; apply no_more_lists. Qed.

Lemma set_heap_no_more (c : Cache) (a : Z) (e e' : LRUHandle) :
  heap c !! a = Some e -> same_entry e e' -> no_more c (set_heap c (<[a := e']> (heap c))).
Proof. intros He Hs. split; [|done]. by apply (keeps_insert _ _ a e e'). Qed.

Lemma Ref_no_more (c c' : Cache) (a : Z) : Ref c a = Some c' -> no_more c c'.
Proof.
  unfold Ref. destruct (heap c !! a) as [e|] eqn:He; [|done]. cbn [mbind option_bind].
  destruct (_ && _); [destruct (LRU_Remove c a) as [c1|] eqn:E; [|done]|]; cbn [mbind option_bind]; intros [= <-].
  - apply (no_more_trans c c1); [by eapply LRU_Remove_no_more|]. apply (no_more_trans _ (append_in_use c1 a)); [apply no_more_lists|].
    apply (set_heap_no_more (append_in_use c1 a) a e); [|done]. simpl. unfold LRU_Remove in E. repeat case_bool_decide; by simplify_eq.
  - by apply (set_heap_no_more _ _ e).
Qed.

Lemma Unref_no_more (c c' : Cache) (a : Z) : Unref c a = Some c' -> no_more c c'.
Proof.
  unfold Unref. destruct (heap c !! a) as [e|] eqn:He; [|done]. cbn [mbind option_bind].
  pose proof (set_heap_no_more c a e (set_refs e (u32 (refs e - 1))) He ltac:(done)) as Hs.
  destruct (_ =? 0); [intros [= <-]|destruct (_ && _)].
  - apply (no_more_trans _ _ _ Hs). split; [|done]. split; [done|]. simpl. intros b e2 [_ Hb]%lookup_delete_Some. by exists e2.
  - destruct (LRU_Remove _ a) as [c1|] eqn:E; [|done]. cbn [mbind option_bind]. intros [= <-].
    apply (no_more_trans _ _ _ Hs). apply (no_more_trans _ c1); [by eapply LRU_Remove_no_more|apply no_more_lists].
  - by intros [= <-].
Qed.

Lemma FinishErase_no_more (c c' : Cache) (r : option Z) : FinishErase c r = Some c' -> no_more c c'.
Proof.
  destruct r as [a|]; simpl; [|intros [= <-]; apply no_more_refl].
  destruct (LRU_Remove c a) as [c1|] eqn:E; [|done]. cbn [mbind option_bind].
  destruct (heap c1 !! a) as [e|] eqn:He; [|done]. cbn [mbind option_bind]. intros Hu.
  apply (no_more_trans _ c1); [by eapply LRU_Remove_no_more|].
  apply (no_more_trans _ (set_heap c1 (<[a := set_in_cache e false]> (heap c1)))); [by apply (set_heap_no_more _ _ e)|].
  apply Unref_no_more in Hu. destruct Hu as [[Hc Hk] Hm]. done.
Qed.

(** ** The table *)

Lemma members_insert (ls : list (list Z)) (i : nat) (l l' : list Z) (x : Z) :
  ls !! i = Some l -> x ∈ concat (<[i := l']> ls) -> x ∈ l' \/ x ∈ concat ls.
Proof.
  intros Hi Hx. destruct (concat_middle ls i l Hi) as (rest & H1 & H2). rewrite (H2 l') in Hx. rewrite H1.
  apply elem_of_app in Hx as [|]; [by left|right]. apply elem_of_app. by right.
Qed.

Lemma FindPointer_bucket (hp : heap_t) (t : HandleTable) (k : bytes) (h : Z) (i j : nat) (l : list Z) :
  FindPointer hp t k h = Some (i, l, j) -> list_ t !! i = Some l.
Proof.
  unfold FindPointer. destruct (list_ t !! _) as [l0|] eqn:E; [|done]. cbn [mbind option_bind].
  destruct (find_slot hp l0 k h); [|done]. by intros [= <- <- <-].
Qed.

Lemma find_slot_key (hp : heap_t) (l : list Z) (k : bytes) (h : Z) (j : nat) (a : Z) :
  find_slot hp l k h = Some j -> l !! j = Some a -> has_key hp k a.
Proof.
  revert j. induction l as [|b l IH]; intros j; simpl; [done|].
  destruct (hp !! b) as [e|] eqn:He; [|done]. cbn [mbind option_bind]. destruct (_ || _) eqn:E.
  - destruct (find_slot hp l k h) as [j'|]; [|done]. intros [= <-]. by apply IH.
  - intros [= <-] [= <-]. apply orb_false_iff in E as [_ E]. apply negb_false_iff, Bytewise.slice_eqb_spec in E. by exists e.
Qed.

Lemma Table_Remove_no_more (hp : heap_t) (t t' : HandleTable) (k : bytes) (h : Z) (r : option Z) :
  Table_Remove hp t k h = Some (r, t') -> forall a, a ∈ members t' -> a ∈ members t.
Proof.
  unfold Table_Remove. destruct (FindPointer hp t k h) as [[[i l] j]|] eqn:E; [|done]. cbn [mbind option_bind].
  destruct (l !! j); intros [= <- <-]; [|done]. intros a Ha. unfold members in *. simpl in Ha.
  apply FindPointer_bucket in E. destruct (members_insert _ _ _ _ _ E Ha) as [Hx%chain_elem|]; [|done].
  by apply (bucket_members t i l).
Qed.

Lemma rehash_all_members (hp : heap_t) (n : Z) (l : list Z) (ls ls' : list (list Z)) (x : Z) :
  rehash_all hp n ls l = Some ls' -> x ∈ concat ls' -> x ∈ l \/ x ∈ concat ls.
Proof.
  revert ls. induction l as [|a l IH]; intros ls; simpl; [intros [= <-]; by right|]. unfold rehash.
  destruct (hp !! a); [|done]. cbn [mbind option_bind]. destruct (ls !! _) as [c|] eqn:E; [|done]. cbn [mbind option_bind].
  intros Hr Hx. destruct (IH _ Hr Hx) as [?|Hin]; [left; by constructor|].
  destruct (members_insert _ _ _ _ _ E Hin) as [[->|Hc]%elem_of_cons|]; [left; constructor| |by right].
  right. apply (elem_of_concat x c); [done|]. by eapply list_elem_of_lookup_2.
Qed.

Lemma Resize_members (hp : heap_t) (t t' : HandleTable) (x : Z) : Resize hp t = Some t' -> x ∈ members t' -> x ∈ members t.
Proof.
  unfold Resize. destruct (new_length 32 4 (elems_ t)) as [n|]; [|done]. cbn [mbind option_bind].
  destruct (rehash_all _ _ _ _) as [ls|] eqn:E; [|done]. cbn [mbind option_bind]. intros [= <-] Hx.
  destruct (rehash_all_members _ _ _ _ _ x E Hx) as [|Hr]; [done|]. rewrite concat_replicate_nil in Hr. by apply not_elem_of_nil in Hr.
Qed.

Lemma Table_Insert_members (hp : heap_t) (t t' : HandleTable) (a : Z) (r : option Z) (x : Z) :
  Table_Insert hp t a = Some (r, t') -> x ∈ members t' -> x = a \/ x ∈ members t.
Proof.
  unfold Table_Insert. destruct (hp !! a) as [e|]; [|done]. cbn [mbind option_bind].
  destruct (FindPointer hp t (key e) (hash e)) as [[[i l] j]|] eqn:E; [|done]. cbn [mbind option_bind].
  apply FindPointer_bucket in E. set (ls := <[i := take j l ++ a :: drop (S j) l]> (list_ t)).
  assert (x ∈ concat ls -> x = a \/ x ∈ members t) as Hls.
  { intros Hx. destruct (members_insert _ _ _ _ _ E Hx) as [Hx'|]; [|by right].
    rewrite <- Permutation_middle in Hx'. apply elem_of_cons in Hx' as [|Hx'%chain_elem]; [by left|].
    right. by apply (bucket_members t i l). }
  destruct (l !! j); [by intros [= <- <-]|]. cbn [length_ elems_]. destruct (_ <? _).
  - destruct (Resize _ _) as [t2|] eqn:ER; [|done]. cbn [mbind option_bind]. intros [= <- <-] Hx. apply Hls.
    by apply (Resize_members _ _ _ x ER).
  - by intros [= <- <-].
Qed.

(** ** Lookups and insertions *)

Definition cached (c : Cache) (k : bytes) (v : V) : Prop :=
  exists a e, a ∈ members (table_ c) /\ heap c !! a = Some e /\ key e = k /\ value e = v.

Lemma no_more_cached (c c' : Cache) (k : bytes) (v : V) : no_more c c' -> cached c' k v -> cached c k v.
Proof.
  intros [[_ Hk] Hm] (a & e' & Ha & He' & <- & <-). destruct (Hk a e' He') as (e & He & Hv & _ & _ & Hke). exists a, e. auto.
Qed.

Lemma evict_no_more (c c' : Cache) (a : Z) : evict c a = Some c' -> no_more c c'.
Proof.
  unfold evict. destruct (heap c !! a) as [e|]; [|done]. cbn [mbind option_bind].
  destruct (Table_Remove _ _ _ _) as [[r t]|] eqn:E; [|done]. cbn [mbind option_bind]. intros Hf%FinishErase_no_more.
  apply (no_more_trans _ (set_table c t)); [|done]. split; [split; [done|]; intros b e2 Hb; by exists e2|].
  by eapply Table_Remove_no_more.
Qed.

Lemma evict_loop_no_more (fuel : nat) (c c' : Cache) : evict_loop fuel c = Some c' -> no_more c c'.
Proof.
  revert c. induction fuel as [|fuel IH]; intros c; simpl; destruct (lru_ c) as [|a l].
  - intros [= <-]. apply no_more_refl.
  - destruct (_ <? _); [done|]. intros [= <-]. apply no_more_refl.
  - intros [= <-]. apply no_more_refl.
  - destruct (_ <? _); [|intros [= <-]; apply no_more_refl].
    destruct (evict c a) as [c1|] eqn:E; [|done]. cbn [mbind option_bind]. intros Hl.
    apply (no_more_trans _ c1); [by eapply evict_no_more|by apply IH].
Qed.

Lemma LRU_Lookup_cached (c c' : Cache) (k : bytes) (h : Z) (r : option Z) :
  LRU_Lookup c k h = Some (r, c') ->
  no_more c c' /\ forall a, r = Some a -> a ∈ members (table_ c) /\ has_key (heap c) k a.
Proof.
  unfold LRU_Lookup, Table_Lookup. destruct (FindPointer _ _ _ _) as [[[i l] j]|] eqn:E; [|done]. cbn [mbind option_bind].
  destruct (l !! j) as [a|] eqn:Ej; [|intros [= <- <-]; split; [apply no_more_refl|done]].
  destruct (Ref c a) as [c1|] eqn:Er; [|done]. cbn [mbind option_bind]. intros [= <- <-]. split; [by eapply Ref_no_more|].
  intros b [= <-]. unfold FindPointer in E. destruct (list_ (table_ c) !! _) as [l0|] eqn:El; [|done]. cbn [mbind option_bind] in E.
  destruct (find_slot _ _ _ _) as [j0|] eqn:Ef; [|done]. simplify_eq/=. split; [|by eapply find_slot_key].
  apply (bucket_members _ _ l a El). by eapply list_elem_of_lookup_2.
Qed.

Lemma LRU_Insert_cached (alloc : gset Z -> Z) (c c' : Cache) (k k' : bytes) (h : Z) (v v' : V) (chg a : Z) :
  (forall s, alloc s ∉ s) -> LRU_Insert alloc c k h v chg = Some (a, c') -> cached c' k' v' ->
  cached c k' v' \/ (k' = k /\ v' = v).
Proof.
  intros Halloc. unfold LRU_Insert. set (a0 := alloc (dom (heap c))).
  destruct (insert_entry c a0 k h v chg) as [c1|] eqn:E1; [|done]. cbn [mbind option_bind].
  destruct (evict_loop _ c1) as [c2|] eqn:E2; [|done]. cbn [mbind option_bind]. intros [= <- <-].
  intros Hc%(no_more_cached c1); [|by eapply evict_loop_no_more].
  unfold insert_entry in E1. destruct (0 <? capacity_ c).
  - cbn zeta in E1. destruct (Table_Insert _ _ a0) as [[old t]|] eqn:Et; [|done]. cbn [mbind option_bind] in E1.
    apply FinishErase_no_more in E1. apply (no_more_cached _ _ _ _ E1) in Hc as (b & e & Hb & He & <- & <-). simpl in Hb, He.
    apply lookup_insert_Some in He as [[<- <-]|[Hne He]]; [by right|]. left. exists b, e. split_and!; try done.
    destruct (Table_Insert_members _ _ _ _ _ b Et Hb) as [->|]; done.
  - injection E1 as <-. destruct Hc as (b & e & Hb & He & <- & <-). simpl in Hb, He.
    apply lookup_insert_Some in He as [[<- <-]|[Hne He]]; [by right|]. left. by exists b, e.
Qed.
End shard.

(** ** The sharded cache *)

Section sharded.
Context (alloc : gset Z -> Z) (Halloc : forall s, alloc s ∉ s).
Abbreviation Sharded := (ShardedLRUCache (V := Block)).

#[local] Opaque Shard HashSlice.

Definition scached (c : Sharded) (k : bytes) (b : Block) : Prop := exists i s, shard_ c !! i = Some s /\ cached s k b.

(** How [Table] uses the cache: a handle is released when the iterator over its
    block is deleted, here at once. *)
Definition released (c : Sharded) (h : Z * Z) : Sharded := default c (Sharded_Release c h).

#[export] Instance Sharded_block_cache : BlockCache Sharded := {|
  bc_NewId := NewId;
  bc_Lookup c k :=
    match Sharded_Lookup c k with
    | Some (Some h, c') => (Sharded_Value c' h, released c' h)
    | Some (None, c') => (None, c')
    | None => (None, c)
    end;
  bc_Insert c k b n :=
    match Sharded_Insert alloc c k b n with
    | Some (h, c') => released c' h
    | None => c
    end |}.

Lemma on_shard_inv {R : Type} (c c' : Sharded) (h : Z) (f : LRUCache -> option (R * LRUCache)) (r : R) :
  on_shard c h f = Some (r, c') ->
  exists s s', shard_ c !! Z.to_nat (Shard h) = Some s /\ f s = Some (r, s') /\
    c' = MkSharded (<[Z.to_nat (Shard h) := s']> (shard_ c)) (last_id_ c).
Proof.
  unfold on_shard. destruct (shard_ c !! _) as [s|] eqn:E; [|done]. cbn [mbind option_bind].
  destruct (f s) as [[r' s']|] eqn:Ef; [|done]. cbn [mbind option_bind]. intros E2. simplify_eq. by exists s, s'.
Qed.

(** A shard is exchanged for [s']. *)
Lemma scached_insert (c : Sharded) (i : nat) (s s' : LRUCache) (k : bytes) (b : Block) :
  shard_ c !! i = Some s -> scached (MkSharded (<[i := s']> (shard_ c)) (last_id_ c)) k b ->
  cached s' k b \/ scached c k b.
Proof.
  intros Hi (j & s0 & Hj & Hc). simpl in Hj. destruct (decide (j = i)) as [->|Hne].
  - rewrite list_lookup_insert_eq in Hj by (by eapply lookup_lt_Some). simplify_eq. by left.
  - rewrite list_lookup_insert_ne in Hj by done. right. by exists j, s0.
Qed.

Lemma released_no_more (c : Sharded) (h : Z * Z) (k : bytes) (b : Block) : scached (released c h) k b -> scached c k b.
Proof.
  unfold released, Sharded_Release, without_result. destruct (on_shard c h.1 _) as [[r c']|] eqn:E; [|done]. simpl.
  apply on_shard_inv in E as (s & s' & Hs & Hf & ->). intros [Hc|Hc]%(scached_insert _ _ s); [|done|done].
  unfold LRU_Release in Hf. destruct (Unref s h.2) as [s2|] eqn:Eu; [|done]. simplify_eq/=.
  exists (Z.to_nat (Shard h.1)), s. split; [done|]. eapply no_more_cached; [by eapply Unref_no_more|done].
Qed.

Lemma Sharded_Lookup_inv (c c' : Sharded) (k : bytes) (r : option (Z * Z)) :
  Sharded_Lookup c k = Some (r, c') ->
  (forall k' b, scached c' k' b -> scached c k' b) /\
  forall h b, r = Some h -> Sharded_Value c' h = Some b -> scached c k b.
Proof.
  unfold Sharded_Lookup. intros (s & s' & Hs & Hf & ->)%on_shard_inv.
  destruct (LRU_Lookup s k (HashSlice k)) as [[ra s2]|] eqn:E; [|done]. simplify_eq/=.
  apply LRU_Lookup_cached in E as [Hn Hr]. split.
  - intros k' b [Hc|Hc]%(scached_insert _ _ s); [|done|done]. exists (Z.to_nat (Shard (HashSlice k))), s.
    split; [done|]. by eapply no_more_cached.
  - intros h b Hh Hv. destruct ra as [a|]; [|done]. simplify_eq/=. destruct (Hr a eq_refl) as (Ha & e & He & Hk).
    unfold Sharded_Value in Hv. simpl in Hv. rewrite list_lookup_insert_eq in Hv by (by eapply lookup_lt_Some). simpl in Hv.
    destruct (heap s' !! a) as [e'|] eqn:He'; [|done]. simplify_eq/=. destruct Hn as [[_ Hkeep] _].
    destruct (Hkeep a e' He') as (e0 & He0 & Hve & _). simplify_eq. exists (Z.to_nat (Shard (HashSlice (key e)))), s.
    split; [done|]. by exists a, e.
Qed.

Lemma Sharded_Insert_inv (c c' : Sharded) (k k' : bytes) (b b' : Block) (n : Z) (h : Z * Z) :
  Sharded_Insert alloc c k b n = Some (h, c') -> scached c' k' b' -> scached c k' b' \/ (k' = k /\ b' = b).
Proof.
  unfold Sharded_Insert. intros (s & s' & Hs & Hf & ->)%on_shard_inv.
  destruct (LRU_Insert alloc s k (HashSlice k) b n) as [[a s2]|] eqn:E; [|done]. simplify_eq/=.
  intros [Hc|Hc]%(scached_insert _ _ s); [|by left|done].
  apply (LRU_Insert_cached _ _ _ _ k' _ _ b') in E as [Hold|?]; [|by right|done|done].
  left. by exists (Z.to_nat (Shard (HashSlice k))), s.
Qed.

#[export] Instance Sharded_block_cache_spec : BlockCacheSpec Sharded_block_cache scached.
Proof.
  split; cbn [bc_Lookup bc_NewId bc_Insert Sharded_block_cache].
  - intros c k b c'. destruct (Sharded_Lookup c k) as [[[h|] c1]|] eqn:E; intros [= Hv _].
    apply Sharded_Lookup_inv in E as [_ E]. by apply (E h).
  - intros c k r c' k' b. destruct (Sharded_Lookup c k) as [[[h|] c1]|] eqn:E; intros [= <- <-] Hb; [| |done].
    + apply released_no_more in Hb. by apply Sharded_Lookup_inv in E as [E _]; apply E.
    + by apply Sharded_Lookup_inv in E as [E _]; apply E.
  - by intros c id c' k b [= <- <-].
  - intros c k b n k' b'. destruct (Sharded_Insert alloc c k b n) as [[h c1]|] eqn:E; [|by left].
    intros Hb%released_no_more. by eapply Sharded_Insert_inv.
Qed.

(** Nothing is cached under an identifier that has not been given yet, in a
    new cache. *)
Lemma Sharded_new_empty (capacity : Z) (k : bytes) (b : Block) : ~ scached (ShardedLRUCache_new capacity) k b.
Proof.
  intros (i & s & Hi & a & e & Ha & _). apply lookup_replicate in Hi as [-> _]. simpl in Ha. by apply not_elem_of_nil in Ha.
Qed.
End sharded.
