(* ===== verification/TableProps.v ===== *)
(** * Tables, end to end

    Writing a table through a file, opening it again and reading it, with the
    block cache and the filter: the theorems of [TableSpec.v] and
    [TableReadSpec.v] put together, and instances on POSIX files with internal
    keys, bloom filters and the sharded cache. *)

From Stdlib Require Import String.
From S2P Require Import Prelude Status Coding Bloom Crc32c Comparator Files PosixEnv PosixSpec DbFormat Iterator Block BlockSpec FilterBlock TableFormat TwoLevel TableBuilder Table TableSpec TableReadSpec Cache CacheSpec CacheBlocks.

(** ** Separators are sharp *)

Lemma eq_sep_sharp (C : Comparator) (ok : bytes -> Prop) : ComparatorSpec C ok -> sep_sharp C ok eq.
Proof.
  intros HC s l t k Hs Hl _ Hlt Ht <- _. destruct (sep_between s l Hs Hl Hlt) as (t' & Ht' & _ & _ & Htl). congruence.
Qed.

(** A separator of internal keys is below every internal key with the user key
    of the limit that is above the start. *)
Lemma internal_sep_sharp (U : Comparator) (ok : bytes -> Prop) :
  ComparatorSpec U ok -> sep_sharp (InternalKeyComparator U) (ikey_ok (ok := ok)) (same_user eq).
Proof.
  intros HU a b sep c (u & t & -> & Ht & Hu) (v & s & -> & Hs & Hv) (w & q & -> & Hq & Hw) Hlt Hsep.
  intros (v' & w' & s' & q' & Ev & Ew & <-) Huc.
  assert (v = w) as <-.
  { pose proof (f_equal ExtractUserKey Ev) as E1. pose proof (f_equal ExtractUserKey Ew) as E2.
    rewrite !ExtractUserKey_ikey in E1, E2. congruence. }
  simpl in Hsep. unfold InternalFindShortestSeparator in Hsep. autorewrite with dbformat in Hsep. cbn [mbind option_bind] in Hsep.
  destruct (FindShortestSeparator u v) as [tmp|] eqn:Etmp; [|done]. cbn [mbind option_bind] in Hsep.
  destruct (cmp_cases u v Hu Hv) as [(_ & _ & _ & Huv)|[[_ ->]|(_ & _ & _ & Hvu)]].
  - destruct (sep_between u v Hu Hv Huv) as (tmp' & E & Hok & Hle & Htv). rewrite Etmp in E. injection E as <-.
    destruct (shortened u tmp t Ht Hu Hok Hle) as (k' & E & [->|[Hl ->]]); rewrite E in Hsep; injection Hsep as <-; [done|].
    apply icmp_lt; [apply max_tag_range|done|done|done|by left].
  - rewrite (sep_same v) in Etmp by done. injection Etmp as <-. rewrite Nat.ltb_irrefl in Hsep. by injection Hsep as <-.
  - apply icmp_lt in Hlt; [|done..]. destruct Hlt as [Huv|[-> _]]; [by destruct (cmp_lt_asym u v Hu Hv Huv)|by destruct (cmp_lt_irrefl v Hv)].
Qed.

(** ** Writing and reading *)

Section table.
(** The file that is written, and the file that is read. *)
Context {F : Type} {W : WritableFile F} {contents : F -> bytes} {file_ok : F -> Prop}.
Context {HW : WritableFileSpec F contents file_ok}.
Context {G : Type} {R : RandomAccessFile G} {rcontents : G -> bytes} {rfile_ok : G -> Prop}.
Context {HR : RandomAccessFileSpec G rcontents rfile_ok}.
Context {K : Type} {BC : BlockCache K} {has : K -> bytes -> Block -> Prop} {HB : BlockCacheSpec BC has}.
Context {X : Type} {IX : Index X}.
Context {C : Comparator} {ok : bytes -> Prop} {HC : ComparatorSpec C ok}.
Context {CP : CrcPort} {HP : CrcPortSpec CP} {SP : SnappyPort} {HS : SnappyPortSpec SP}.
Context (addr : bytes -> Z) (opt : TableOptions) (filter_policy : option FilterPolicy) (number : Z).
Context (keys_ok : list bytes -> Prop) (key_ok : bytes -> Prop) (same : bytes -> bytes -> Prop).
Context (HF : forall P, filter_policy = Some P -> FilterPolicySpec P keys_ok same).
Context (HFT : forall P, filter_policy = Some P -> FilterPolicyTotal P key_ok).
Context (Hsharp : sep_sharp C ok same) (Hinterval : 1 <= block_restart_interval opt).

(** The entries. *)
Context (es : list (bytes * bytes)).
Context (Hsorted : StronglySorted (fun a b : bytes * bytes => cmp_lt a.1 b.1) es).
Context (Hok : Forall (fun e : bytes * bytes => ok e.1 /\ is_Some (ExtractUserKey e.1)) es).
Context (Hall : filter_policy <> None -> forall l, sublist l (es.*1) -> keys_ok l).

(** A builder on [f] is given the entries and finished. *)
Definition write_table (f : F) (index : X) (edit : option (list Z)) (for_gc : bool) : option (Status * TableRep F * X) :=
  r ← TableBuilder_new filter_policy f number;
  r ← tb_Adds addr opt filter_policy r es;
  tb_Finish addr opt filter_policy r index edit for_gc.

Lemma write_table_ok (f : F) (index : X) (edit : option (list Z)) (for_gc : bool) :
  file_ok f -> contents f = [] ->
  exists r, write_table f index edit for_gc = Some (OK, r, (Index_AddQueue index (queued number <$> es) edit for_gc).1) /\
    num_entries r = Z.of_nat (length es) /\
    (Z.of_nat (length (contents (tb_file r))) < 2 ^ 32 ->
     tb_offset r = Z.of_nat (length (contents (tb_file r))) /\
     exists segs, table_file (ok := ok) opt filter_policy same es (contents (tb_file r)) segs).
Proof.
  intros Hf Hc. unfold write_table.
  destruct (TableBuilder_new_ok (ok := ok) opt filter_policy number keys_ok same HF es Hall f Hf Hc) as (r0 & -> & Hi0). cbn [mbind option_bind].
  destruct (tb_Adds_ok addr opt filter_policy number keys_ok same HF Hsharp es Hsorted Hok Hall es r0 [] Hi0) as (r1 & -> & Hi1); [done|].
  cbn [mbind option_bind].
  destruct (tb_Finish_ok addr opt filter_policy number keys_ok same HF Hsharp es Hsorted Hok Hall r1 index edit for_gc Hi1)
    as (r & -> & Hn & _ & Hfile). by exists r.
Qed.

Lemma es_keys_ok : Forall (fun e : bytes * bytes => ok e.1) es.
Proof. eapply Forall_impl; [exact Hok|]. by intros e [? _]. Qed.

(** Nothing is cached under the identifier that the cache gives next. *)
Definition fresh_id (cache : option K) : Prop :=
  forall c, (opened_cache cache).2 = Some c -> forall h b, ~ has c (block_key (opened_cache cache).1 h) b.

(** C18. A table built from sorted entries, opened on the file that was written,
    has an iterator over exactly these entries: forwards, backwards and after
    every seek it visits them in order and reports no error, whether the
    blocks come from the file or from the block cache, with compression or
    without. *)
Theorem Table_roundtrip (f : F) (index : X) (edit : option (list Z)) (for_gc : bool) (ropt : ReadOptions) :
  file_ok f -> contents f = [] ->
  exists r index', write_table f index edit for_gc = Some (OK, r, index') /\ num_entries r = Z.of_nat (length es) /\
    (Z.of_nat (length (contents (tb_file r))) < 2 ^ 32 ->
     forall g cache, rfile_ok g -> rcontents g = contents (tb_file r) -> fresh_id cache ->
     exists t it at_, Open addr opt filter_policy g (tb_offset r) cache = Some (inl t, (opened_cache cache).2) /\
       Table_NewIterator t ropt (opened_cache cache).2 = Some it /\ at_ it None /\
       IteratorSpec (Table_iterator addr t ropt) ok cmp_lt es at_).
Proof.
  intros Hf Hc. destruct (write_table_ok f index edit for_gc Hf Hc) as (r & Hw & Hn & Hfile). exists r. eexists.
  split; [exact Hw|]. split; [done|]. intros Hlen g cache Hg Hgc Hfresh. destruct (Hfile Hlen) as (Ho & segs & Htf).
  destruct (Open_ok addr opt filter_policy same Hinterval es _ segs Htf Hlen g cache (conj Hg Hgc)) as (t & Hopen & Hid & Ht).
  rewrite Ho. pose proof (opened_cache_ok (has := has) opt segs cache Hfresh) as Hco. rewrite <- Hid in Hco.
  destruct (Table_NewIterator_ok opt filter_policy same es _ segs es_keys_ok Htf t ropt _ Ht Hco) as (it & Hit & Hat).
  exists t, it. eexists. split; [done|]. split; [done|]. split; [exact Hat|].
  by apply (Table_iterator_spec (has := has) addr opt filter_policy same Hinterval es _ segs Hsorted es_keys_ok Htf Hlen).
Qed.

(** Opening a file that holds a table of the entries, and looking keys up. *)
Lemma open_lookup (d : bytes) (segs : list Seg) (ropt : ReadOptions) (g : G) (cache : option K) :
  table_file (ok := ok) opt filter_policy same es d segs -> Z.of_nat (length d) < 2 ^ 32 -> rfile_ok g -> rcontents g = d -> fresh_id cache ->
  exists t cache_inv, Open addr opt filter_policy g (Z.of_nat (length d)) cache = Some (inl t, (opened_cache cache).2) /\
    cache_inv (opened_cache cache).2 /\
    forall c k, cache_inv c -> ok k -> key_ok k ->
    exists saved c' n, InternalGet addr filter_policy t ropt c k = Some (OK, saved, c') /\ cache_inv c' /\
      first_not_below es k n /\ (saved = None \/ saved = es !! n) /\
      forall e, es !! n = Some e -> same e.1 k -> saved = Some e.
Proof.
  intros Htf Hlen Hg Hgc Hfresh.
  destruct (Open_ok addr opt filter_policy same Hinterval es _ segs Htf Hlen g cache (conj Hg Hgc)) as (t & Hopen & Hid & Ht).
  pose proof (opened_cache_ok (has := has) opt segs cache Hfresh) as Hco. rewrite <- Hid in Hco.
  exists t, (cache_ok (has := has) opt segs (cache_id t)). split; [done|]. split; [done|]. intros c k Hcc Hk Hkk.
  apply (InternalGet_ok addr opt filter_policy same Hinterval es _ segs Hsorted es_keys_ok Htf Hlen t ropt c k key_ok Ht Hcc Hk).
  intros P HPf. split; [by apply HFT|done].
Qed.

(** C19. A point lookup in a table built from sorted entries calls the saver
    with the first entry not below the key, or with none; with none only if
    that entry is not the same key for the filter, so that a key of the table
    is always found.  Any number of lookups may share the block cache. *)
Theorem Table_lookup (f : F) (index : X) (edit : option (list Z)) (for_gc : bool) (ropt : ReadOptions) :
  file_ok f -> contents f = [] ->
  exists r index', write_table f index edit for_gc = Some (OK, r, index') /\
    (Z.of_nat (length (contents (tb_file r))) < 2 ^ 32 ->
     forall g cache, rfile_ok g -> rcontents g = contents (tb_file r) -> fresh_id cache ->
     exists t cache_inv, Open addr opt filter_policy g (tb_offset r) cache = Some (inl t, (opened_cache cache).2) /\
       cache_inv (opened_cache cache).2 /\
       forall c k, cache_inv c -> ok k -> key_ok k ->
       exists saved c' n, InternalGet addr filter_policy t ropt c k = Some (OK, saved, c') /\ cache_inv c' /\
         first_not_below es k n /\ (saved = None \/ saved = es !! n) /\
         forall e, es !! n = Some e -> same e.1 k -> saved = Some e).
Proof.
  intros Hf Hc. destruct (write_table_ok f index edit for_gc Hf Hc) as (r & Hw & Hn & Hfile). exists r. eexists.
  split; [exact Hw|]. intros Hlen g cache Hg Hgc Hfresh. destruct (Hfile Hlen) as (Ho & segs & Htf).
  rewrite Ho. by apply (open_lookup _ segs).
Qed.
End table.

(** ** An instance *)

(** An index that keeps nothing. *)
Definition null_index : Index unit := {| Index_AddQueue x _ _ _ := (x, []) |}.

Definition ex_opt : TableOptions := MkTableOptions 40 2 kNoCompression true.
Definition ex_policy : FilterPolicy := InternalFilterPolicy (Bloom.NewBloomFilterPolicy 10).
Definition ex_cmp : Comparator := InternalKeyComparator Bytewise.BytewiseComparator.
Definition ex_key (u : string) (s : Z) : bytes := ikey (bs u) (PackSequenceAndType s kTypeValue).

Definition ex_entries : list (bytes * bytes) :=
  [(ex_key "0001" 9, bs "a"); (ex_key "0001" 4, bs "b"); (ex_key "0007" 5, []); (ex_key "0012" 6, bs "c"); (ex_key "0100" 7, bs "d")].

(** A new file of a system where a call of [write] is interrupted once. *)
Definition ex_file : PosixFile :=
  match Posix.NewWritableFile (fun _ => []) (Sim.Sys_empty 1) (bs "db/000005.ldb") with
  | (inl f, k) => MkPosixFile f k
  | (inr _, k) => MkPosixFile (Posix.Writable_new [] 0) k
  end.

(** The contents, mapped. *)
Definition ex_readable (d : bytes) : PosixReadable (K := Sim.Sys) :=
  MkReadable (Posix.RAMmap (Posix.MkMmap (bs "db/000005.ldb") d (Z.of_nat (length d)))) (Sim.Sys_empty 0).

Definition ex_write : option (Status * TableRep PosixFile * unit) :=
  @write_table _ (PosixFile_writable (fun _ => []) 1) _ null_index ex_cmp port_posix no_snappy (fun _ => 0) ex_opt (Some ex_policy) 5
    ex_entries ex_file tt None false.

Lemma ex_file_ok :
  pf_named (writer := Sim.sim_writer) (intr := Sim.s_intr) (healthy := Sim.sim_healthy) 1 (bs "db/000005.ldb") ex_file.
Proof.
  destruct (PosixFile_new_ok (HS := Sim.Sys_spec) (fun _ => []) 1 (Sim.Sys_empty 1) (bs "db/000005.ldb") (Sim.Sys_empty_healthy 1))
    as (f & k & E & Hf & _); [simpl; lia|].
  unfold ex_file. rewrite E. exact Hf.
Qed.

Lemma ex_sorted : StronglySorted (fun a b : bytes * bytes => @cmp_lt ex_cmp a.1 b.1) ex_entries.
Proof. repeat constructor; (eexists; split; [vm_compute; reflexivity|lia]). Qed.

Lemma ex_ok : Forall (fun e : bytes * bytes => ikey_ok (ok := fun _ => True) e.1 /\ is_Some (ExtractUserKey e.1)) ex_entries.
Proof.
  repeat (apply Forall_cons; split; [split; [apply ikey_ok_intro; [vm_compute; split; [discriminate|reflexivity]|done]|eexists; vm_compute; reflexivity]|]).
  constructor.
Qed.

Definition ex_keys_ok : list bytes -> Prop := ikeys_ok (fun keys => 0 <= Z.of_nat (length keys) * 10 < 2 ^ 63).

Lemma sublist_map {A B} (f : A -> B) (k : list A) (l : list B) :
  sublist l (map f k) -> exists k', l = map f k' /\ sublist k' k.
Proof.
  revert l. induction k as [|x k IH]; intros l; simpl.
  - intros ->%sublist_nil_r. by exists [].
  - intros [Hs|(k' & -> & Hs)]%sublist_cons_r.
    + destruct (IH l Hs) as (k2 & -> & ?). exists k2. split; [done|]. by apply sublist_cons.
    + destruct (IH k' Hs) as (k2 & -> & ?). exists (x :: k2). split; [done|]. by apply sublist_skip.
Qed.

Lemma ex_sublists : forall l, sublist l (ex_entries.*1) -> ex_keys_ok l.
Proof.
  intros l Hl.
  change (ex_entries.*1) with (map (fun ut : bytes * Z => ikey ut.1 ut.2) ((fun us : string * Z => (bs us.1, PackSequenceAndType us.2 kTypeValue))
    <$> [("0001", 9); ("0001", 4); ("0007", 5); ("0012", 6); ("0100", 7)]%string)) in Hl.
  apply sublist_map in Hl as (uts & -> & Hs%sublist_length). exists uts. split; [done|]. rewrite length_map. simpl in Hs. lia.
Qed.

Lemma ex_length : match ex_write with
  | Some (_, r, _) => Z.of_nat (length (pf_contents (data := Sim.sim_data) (tb_file r))) <? 2 ^ 32
  | None => false end = true.
Proof. vm_compute. reflexivity. Qed.

Lemma ex_readable_ok (d : bytes) : Z.of_nat (length d) < 2 ^ 32 ->
  pr_ok (data := Sim.sim_data) (reader := Sim.sim_reader) (healthy := Sim.sim_healthy) (ex_readable d).
Proof. intros Hd. split; simpl; [done|lia]. Qed.

Definition ex_cache : option (LRU.ShardedLRUCache (V := Block)) := Some (LRU.ShardedLRUCache_new 1000).

Lemma ex_fresh : fresh_id (BC := Sharded_block_cache bump_alloc) (has := scached) ex_cache.
Proof. intros c [= <-] h b. exact (Sharded_new_empty 1000 _ b). Qed.

Abbreviation ex_Open r := (@Open _ _ (PosixReadable_random (fun _ => [])) (Sharded_block_cache bump_alloc) port_posix no_snappy
  (fun _ => 0) ex_opt (Some ex_policy) (ex_readable (pf_contents (data := Sim.sim_data) (tb_file r))) (tb_offset r) ex_cache).

Lemma Table_roundtrip_witness :
  exists r t cache it at_, ex_write = Some (OK, r, tt) /\ num_entries r = 5 /\
    ex_Open r = Some (inl t, cache) /\
    Table_NewIterator (C := ex_cmp) t ReadOptions_new cache = Some it /\ at_ it None /\
    IteratorSpec (@Table_iterator _ _ (PosixReadable_random (fun _ => [])) (Sharded_block_cache bump_alloc) ex_cmp port_posix no_snappy
      (fun _ => 0) t ReadOptions_new) (ikey_ok (ok := fun _ => True)) (@cmp_lt ex_cmp) ex_entries at_.
Proof.
  destruct (Table_roundtrip (HW := PosixFile_spec (HS := Sim.Sys_spec) (fun _ => []) 1 (bs "db/000005.ldb"))
    (HR := PosixReadable_spec (HS := Sim.Sys_spec) (fun _ => [])) (HB := Sharded_block_cache_spec bump_alloc bump_alloc_fresh)
    (IX := null_index) (HC := InternalKeyComparator_spec (HU := Bytewise.BytewiseComparator_spec)) (HP := port_posix_spec) (HS := no_snappy_spec)
    (fun _ => 0) ex_opt (Some ex_policy) 5 ex_keys_ok (same_user eq)
    ltac:(intros P [= <-]; exact (InternalFilterPolicy_spec _ _ _ (HP := Bloom.Bloom_FilterPolicySpec 10)))
    (internal_sep_sharp Bytewise.BytewiseComparator _ Bytewise.BytewiseComparator_spec) ltac:(vm_compute; discriminate)
    ex_entries ex_sorted ex_ok ltac:(intros _; exact ex_sublists) ex_file tt None false ReadOptions_new ex_file_ok ltac:(done))
    as (r & [] & Hw & Hn & H).
  assert (Z.of_nat (length (pf_contents (data := Sim.sim_data) (tb_file r))) < 2 ^ 32) as Hlen.
  { pose proof ex_length as E. rewrite (Hw : ex_write = _) in E. by apply Z.ltb_lt in E. }
  destruct (H Hlen (ex_readable _) ex_cache (ex_readable_ok _ Hlen) eq_refl ex_fresh) as (t & it & at_ & Ho & Hit & Hat & HI).
  exists r, t. eexists. exists it, at_. split; [exact Hw|]. split; [exact Hn|]. split; [exact Ho|]. split; [exact Hit|]. by split.
Defined.

Lemma Table_lookup_witness :
  exists r t cache, ex_write = Some (OK, r, tt) /\ ex_Open r = Some (inl t, cache) /\
    forall u s, u ∈ [bs "0001"; bs "0050"]%string -> seq_ok s ->
    exists saved cache' n, @InternalGet _ _ (PosixReadable_random (fun _ => [])) (Sharded_block_cache bump_alloc) ex_cmp port_posix no_snappy
        (fun _ => 0) (Some ex_policy) t ReadOptions_new cache (ikey u (PackSequenceAndType s kTypeValue)) = Some (OK, saved, cache') /\
      first_not_below (C := ex_cmp) ex_entries (ikey u (PackSequenceAndType s kTypeValue)) n /\
      (saved = None \/ saved = ex_entries !! n) /\
      forall e, ex_entries !! n = Some e -> same_user eq e.1 (ikey u (PackSequenceAndType s kTypeValue)) -> saved = Some e.
Proof.
  destruct (Table_lookup (HW := PosixFile_spec (HS := Sim.Sys_spec) (fun _ => []) 1 (bs "db/000005.ldb"))
    (HR := PosixReadable_spec (HS := Sim.Sys_spec) (fun _ => [])) (HB := Sharded_block_cache_spec bump_alloc bump_alloc_fresh)
    (IX := null_index) (HC := InternalKeyComparator_spec (HU := Bytewise.BytewiseComparator_spec)) (HP := port_posix_spec) (HS := no_snappy_spec)
    (fun _ => 0) ex_opt (Some ex_policy) 5 ex_keys_ok (fun k => exists u t, k = ikey u t /\ True) (same_user eq)
    ltac:(intros P [= <-]; exact (InternalFilterPolicy_spec _ _ _ (HP := Bloom.Bloom_FilterPolicySpec 10)))
    ltac:(intros P [= <-]; exact (InternalFilterPolicy_total _ _ (HP := Bloom.Bloom_FilterPolicyTotal 10)))
    (internal_sep_sharp Bytewise.BytewiseComparator _ Bytewise.BytewiseComparator_spec) ltac:(vm_compute; discriminate)
    ex_entries ex_sorted ex_ok ltac:(intros _; exact ex_sublists) ex_file tt None false ReadOptions_new ex_file_ok ltac:(done))
    as (r & [] & Hw & H).
  assert (Z.of_nat (length (pf_contents (data := Sim.sim_data) (tb_file r))) < 2 ^ 32) as Hlen.
  { pose proof ex_length as E. rewrite (Hw : ex_write = _) in E. by apply Z.ltb_lt in E. }
  destruct (H Hlen (ex_readable _) ex_cache (ex_readable_ok _ Hlen) eq_refl ex_fresh) as (t & cinv & Ho & Hc & Hget).
  exists r, t. eexists. split; [exact Hw|]. split; [exact Ho|]. intros u s _ Hs.
  destruct (Hget _ (ikey u (PackSequenceAndType s kTypeValue)) Hc) as (saved & c' & n & Hg & _ & Hres).
  - apply ikey_ok_intro; [apply PackSequenceAndType_range; exact Hs|exact I].
  - exists u, (PackSequenceAndType s kTypeValue). split; [reflexivity|exact I].
  - exists saved, c', n. split; [exact Hg|exact Hres].
Defined.
