(* ===== verification/DbTablesSpec.v ===== *)
(** * A flushed memtable answers as the memtable did

    The table that [BuildTable] writes of a memtable has the newest entry of
    every user key, and a lookup in it gives what a lookup in the memtable
    gave, at every snapshot that is not older than the memtable. *)

From Stdlib Require Import String.
From S2P Require Import Prelude Status Coding Bloom Crc32cTables Crc32c Comparator FileName Files PosixEnv PosixSpec DbFormat VersionEdit Random Arena SkipList SkipListSpec Iterator MemTable WriteBatch DbIterSpec DbWrite DbWriteSpec Block BlockSpec FilterBlock TableFormat TwoLevel TableBuilder Table TableSpec TableReadSpec Cache CacheSpec CacheBlocks TableProps DbTables.

(** ** The entries that are written *)

(** The first entry of every run of entries with the same user key; [prev] is
    the user key before. *)
Fixpoint firsts (prev : option bytes) (es : list Entry) : list Entry :=
  match es with
  | [] => []
  | e :: es => if decide (prev = Some (e_key e)) then firsts prev es else e :: firsts (Some (e_key e)) es
  end.

Lemma firsts_sublist (es : list Entry) : forall prev, sublist (firsts prev es) es.
Proof.
  induction es as [|e es IH]; intros prev; simpl; [done|]. case_decide; [by apply sublist_cons|by apply sublist_skip].
Qed.

Lemma sublist_Forall {A} (P : A -> Prop) (l k : list A) : sublist l k -> Forall P k -> Forall P l.
Proof. intros Hl Hk. rewrite Forall_forall in *. intros x Hx. apply Hk. by eapply elem_of_submseteq; [|apply sublist_submseteq]. Qed.

Lemma sublist_sorted {A} (R : A -> A -> Prop) (l k : list A) : sublist l k -> StronglySorted R k -> StronglySorted R l.
Proof.
  induction 1 as [|x l k Hl IH|x l k Hl IH]; intros Hs; [constructor|..]; apply StronglySorted_inv in Hs as [Hs Hx].
  - constructor; [by apply IH|]. by eapply sublist_Forall.
  - by apply IH.
Qed.

(** *** Entries as a table has them *)

Lemma entries_keys (l : list Entry) : (map e_entry l).*1 = map e_ikey l.
Proof. rewrite <- list_fmap_compose. done. Qed.

Lemma entries_sorted {U : Comparator} (l : list Entry) :
  StronglySorted (fun a b => @cmp_lt (InternalKeyComparator U) (e_ikey a) (e_ikey b)) l ->
  StronglySorted (fun a b : bytes * bytes => @cmp_lt (InternalKeyComparator U) a.1 b.1) (map e_entry l).
Proof. induction 1 as [|e l Hl IH Hx]; simpl; constructor; [done|]. by apply Forall_map. Qed.

Lemma entries_ikey_ok {ok : bytes -> Prop} (l : list Entry) :
  Forall (entry_ok (ok := ok)) l ->
  Forall (fun e : bytes * bytes => ikey_ok (ok := ok) e.1 /\ is_Some (ExtractUserKey e.1)) (map e_entry l).
Proof.
  intros Hl. apply Forall_map. eapply Forall_impl; [exact Hl|]. intros e He. split; [by apply e_ikey_ok|].
  eexists. apply ExtractUserKey_ikey.
Qed.

Section newest.
Context {U : Comparator} {ok : bytes -> Prop} {HU : ComparatorSpec U ok}.
Abbreviation entry_lt := (fun a b => @cmp_lt (InternalKeyComparator U) (e_ikey a) (e_ikey b)).

Lemma entry_lt_iff (a b : Entry) :
  entry_ok (ok := ok) a -> entry_ok (ok := ok) b ->
  entry_lt a b <-> cmp_lt (e_key a) (e_key b) \/
    (e_key a = e_key b /\ e_seq b * 256 + ValueType_to_Z (e_type b) < e_seq a * 256 + ValueType_to_Z (e_type a)).
Proof.
  intros [Ha Hka _ _] [Hb Hkb _ _]. unfold e_ikey. rewrite icmp_lt by (done || by apply PackSequenceAndType_range).
  by rewrite !PackSequenceAndType_value.
Qed.

Lemma entry_lt_seq (a b : Entry) :
  entry_ok (ok := ok) a -> entry_ok (ok := ok) b -> entry_lt a b -> e_key a = e_key b -> e_seq b <= e_seq a.
Proof.
  intros Ha Hb Hlt Hk. apply entry_lt_iff in Hlt; [|done..]. rewrite Hk in Hlt.
  destruct Hlt as [Hlt|[_ Hlt]]; [by destruct (cmp_lt_irrefl _ (eo_key _ Hb))|].
  destruct (e_type a), (e_type b); simpl in Hlt; lia.
Qed.

(** An entry is the first of its run if and only if it is in front of every
    other entry of its key. *)
Lemma firsts_spec (e : Entry) (es : list Entry) : forall prev,
  Forall (entry_ok (ok := ok)) es -> StronglySorted entry_lt es ->
  (forall p, prev = Some p -> ok p /\ Forall (fun x => e_key x = p \/ cmp_lt p (e_key x)) es) ->
  e ∈ firsts prev es <->
    e ∈ es /\ prev <> Some (e_key e) /\ forall x, x ∈ es -> e_key x = e_key e -> x = e \/ entry_lt e x.
Proof.
  induction es as [|a es IH]; intros prev Hes Hs Hp; [set_solver|].
  apply Forall_cons in Hes as [Ha Hes]. apply StronglySorted_inv in Hs as [Hs Hx]. rewrite Forall_forall in Hx.
  assert (forall x, x ∈ es -> ~ entry_lt x a) as Hnot.
  { intros x Hin. apply cmp_lt_asym; try apply e_ikey_ok; [done|by eapply Forall_forall|by apply Hx]. }
  simpl. case_decide as Hd.
  - rewrite (IH prev Hes Hs) by (intros p ->; destruct (Hp p eq_refl) as [? H]; apply Forall_cons in H; tauto).
    subst prev. setoid_rewrite elem_of_cons. naive_solver congruence.
  - rewrite elem_of_cons, (IH (Some (e_key a)) Hes Hs).
    2:{ intros p [= <-]. split; [apply (eo_key _ Ha)|]. apply Forall_forall. intros x Hin.
        pose proof (Hx x Hin) as Hlt. apply entry_lt_iff in Hlt; [|done|by eapply Forall_forall]. naive_solver. }
    setoid_rewrite elem_of_cons. split.
    + intros [->|(Hin & Hk & Hf)]; [split_and!; [by left|done|naive_solver]|]. split_and!; [by right| |naive_solver congruence].
      intros ->. destruct (Hp _ eq_refl) as [Hok H]. apply Forall_cons in H as [[?|Hlt] _]; [congruence|].
      pose proof (Hx e Hin) as Hae. assert (entry_ok (ok := ok) e) as He by (by eapply Forall_forall).
      apply entry_lt_iff in Hae; [|done..]. destruct Hae as [Hae|[? _]]; [|congruence].
      by apply (cmp_lt_asym _ _ Hok (eo_key _ Ha) Hlt).
    + intros (Hin & Hk & Hf). destruct Hin as [->|Hin]; [by left|right].
      split_and!; [done| |naive_solver]. intros [= Heq]. apply (Hnot e Hin).
      destruct (Hf a (or_introl eq_refl) Heq) as [->|Hlt]; [by apply Hx|done].
Qed.

(** A reader that sees all entries finds the newest of a key among the first
    ones. *)
Lemma firsts_newest (u : bytes) (s : Z) (es : list Entry) (e : Entry) :
  Forall (entry_ok (ok := ok)) es -> StronglySorted entry_lt es -> NoDup (map e_seq es) -> Forall (fun x => e_seq x <= s) es ->
  newest u s es = Some e <-> e ∈ firsts None es /\ e_key e = u.
Proof.
  intros Hes Hs Hnd Hle. rewrite firsts_spec by done. rewrite Forall_forall in Hle. split.
  - intros Hn. pose proof (newest_some _ _ _ _ Hn) as (Hin & [Hk Hse] & Hall). split; [|done]. split_and!; [done|done|].
    intros x Hx Hkx. rewrite Forall_forall in Hall.
    assert (e_seq x <= e_seq e) as Hxe by (apply Hall; [done|split; [congruence|by apply Hle]]).
    apply list_elem_of_lookup in Hin as [i Hi]. apply list_elem_of_lookup in Hx as [j Hj].
    destruct (Nat.lt_trichotomy i j) as [Hij|[->|Hij]]; [|left; congruence|].
    + right. by apply (sorted_lookup _ _ i j e x Hs).
    + assert (entry_lt x e) as Hlt by (by apply (sorted_lookup _ _ j i x e Hs)).
      apply entry_lt_seq in Hlt; [|by eapply Forall_lookup_1..|done].
      assert (i = j); [|lia]. eapply NoDup_lookup; [exact Hnd|..]; rewrite list_lookup_fmap, ?Hi, ?Hj; simpl; [done|f_equal; lia].
  - intros [(Hin & _ & Hf) Hk]. apply newest_unique; [done|done|split; [done|by apply Hle]|].
    apply Forall_forall. intros x Hx [Hkx _]. destruct (Hf x Hx ltac:(congruence)) as [->|Hlt]; [done|].
    apply entry_lt_seq in Hlt; [done|by eapply Forall_forall..|congruence].
Qed.

(** The first entries have distinct keys. *)
Lemma firsts_distinct (es : list Entry) :
  Forall (entry_ok (ok := ok)) es -> StronglySorted entry_lt es -> NoDup (map e_key (firsts None es)).
Proof.
  intros Hes Hs. pose proof (sublist_sorted _ _ _ (firsts_sublist es None) Hs) as Hk.
  pose proof (sublist_Forall _ _ _ (firsts_sublist es None) Hes) as Hko. rewrite Forall_forall in Hko.
  assert (forall i j a b, (i < j)%nat -> firsts None es !! i = Some a -> firsts None es !! j = Some b -> e_key a <> e_key b) as Hne.
  { intros i j a b Hij Ha Hb Heq. pose proof (sorted_lookup _ _ i j a b Hk Hij Ha Hb) as Hlt. simpl in Hlt.
    apply list_elem_of_lookup_2 in Ha, Hb. pose proof (Hko a Ha) as Hao. pose proof (Hko b Hb) as Hbo.
    apply firsts_spec in Ha as (Ha & _ & _); [|done..]. apply firsts_spec in Hb as (_ & _ & Hf); [|done..].
    destruct (Hf a Ha Heq) as [->|Hba]; [exact (cmp_lt_irrefl (C := InternalKeyComparator U) _ (e_ikey_ok _ Hbo) Hlt)|].
    exact (cmp_lt_asym (C := InternalKeyComparator U) _ _ (e_ikey_ok _ Hao) (e_ikey_ok _ Hbo) Hlt Hba). }
  apply NoDup_alt. intros i j u Hi Hj. apply list_lookup_fmap_Some in Hi as (a & -> & Ha), Hj as (b & Hab & Hb).
  destruct (Nat.lt_trichotomy i j) as [Hij|[|Hij]]; [exfalso; by apply (Hne i j a b)|done|exfalso; by apply (Hne j i b a)].
Qed.
End newest.

Lemma firsts_of_distinct (k : list Entry) : forall prev,
  NoDup (map e_key k) -> (forall p, prev = Some p -> p ∉ map e_key k) -> firsts prev k = k.
Proof.
  induction k as [|e k IH]; intros prev Hnd Hp; [done|]. apply NoDup_cons in Hnd as [Hn Hnd]. simpl. case_decide as Hd.
  - destruct (Hp _ Hd). set_solver.
  - f_equal. apply IH; [done|]. by intros p [= <-].
Qed.

(** ** What is written, and what a lookup finds *)

Section flush.
Context {S : Type} {I : Iterator S} {U : Comparator} {ok iok : bytes -> Prop} {iat : S -> option nat -> Prop}.
Context {HU : ComparatorSpec U ok} (es : list Entry).
Context {HI : IteratorSpec I iok (@cmp_lt (InternalKeyComparator U)) (map e_entry es) iat}.
Context {F : Type} {W : WritableFile F} {CP : CrcPort} {SP : SnappyPort}.
Context (addr : bytes -> Z) (opt : TableOptions) (filter_policy : option FilterPolicy).
Context (Hes : Forall (entry_ok (ok := ok)) es) (Hwide : Forall (fun e => ikey_ok (ok := ok) (e_key e)) es).

Abbreviation build_loop := (Build_loop (C := InternalKeyComparator U) addr opt filter_policy).
Abbreviation adds := (tb_Adds (C := InternalKeyComparator U) addr opt filter_policy).

(** The key of the last entry. *)
Definition final_key (prev : bytes) (l : list Entry) : bytes :=
  match last l with Some e => e_ikey e | None => prev end.

Lemma final_key_cons (prev : bytes) (e : Entry) (l : list Entry) : final_key prev (e :: l) = final_key (e_ikey e) l.
Proof. unfold final_key. rewrite last_cons. by destruct (last l). Qed.

Lemma e_ikey_nonempty (e : Entry) : e_ikey e <> [].
Proof. intros E%(f_equal length). unfold e_ikey in E. rewrite length_ikey in E. simpl in E. lia. Qed.

(** The test of the loop, on an entry after the one of [prev]. *)
Lemma differs_ok (prev : option Entry) (e : Entry) :
  (forall p, prev = Some p -> p ∈ es) -> e ∈ es ->
  (if bool_decide (default [] (e_ikey <$> prev) = []) then Some true
   else u ← ExtractUserKey (default [] (e_ikey <$> prev)); k ← ExtractUserKey (e_ikey e);
        c ← @Compare (InternalKeyComparator U) u k; Some (negb (c =? 0)))
  = Some (negb (bool_decide (e_key <$> prev = Some (e_key e)))).
Proof.
  intros Hp He. destruct prev as [p|]; simpl; [|done]. rewrite bool_decide_false by apply e_ikey_nonempty.
  unfold e_ikey. rewrite !ExtractUserKey_ikey. cbn [mbind option_bind]. rewrite Forall_forall in Hwide.
  pose proof (Hwide p (Hp p eq_refl)) as Hpk. pose proof (Hwide e He) as Hek.
  destruct (cmp_total (ComparatorSpec := InternalKeyComparator_spec (HU := HU)) _ _ Hpk Hek) as [c Hc].
  pose proof (cmp_eq (ComparatorSpec := InternalKeyComparator_spec (HU := HU)) _ _ Hpk Hek) as Heq. rewrite Hc in Heq.
  simpl in Hc. rewrite Hc. cbn [mbind option_bind]. do 2 f_equal.
  destruct (Z.eqb_spec c 0) as [->|Hn]; symmetry.
  - apply bool_decide_eq_true. f_equal. by apply Heq.
  - apply bool_decide_eq_false. intros [= E]. by apply Heq in E as [= ->].
Qed.

Lemma Build_loop_ok (l : list Entry) : forall i it prev r r' fuel,
  l = drop i es -> iat it (pos_of (length es) i) -> (length l < fuel)%nat -> (forall p, prev = Some p -> p ∈ es) ->
  adds r (map e_entry (firsts (e_key <$> prev) l)) = Some r' ->
  exists it', build_loop fuel it (default [] (e_ikey <$> prev)) r
      = Some (final_key (default [] (e_ikey <$> prev)) (firsts (e_key <$> prev) l), r', it') /\ iat it' None.
Proof.
  induction l as [|e l IH]; intros i it prev r r' [|fuel] Hl Hit Hfuel Hprev Hadd; simpl in Hfuel; try lia.
  - exists it. unfold pos_of in Hit. pose proof (f_equal length Hl) as Hlen. rewrite length_drop in Hlen. simpl in Hlen.
    rewrite (proj2 (Nat.ltb_ge _ _)) in Hit by lia. simpl in *. rewrite (it_valid_at _ _ Hit). by injection Hadd as <-.
  - assert (es !! i = Some e) as He by (rewrite <- (Nat.add_0_r i), <- lookup_drop, <- Hl; done).
    pose proof (lookup_lt_Some _ _ _ He) as Hi. unfold pos_of in Hit. rewrite (proj2 (Nat.ltb_lt _ _)) in Hit by lia.
    cbn [Build_loop]. rewrite (it_valid_at _ _ Hit), bool_decide_true by eauto.
    destruct (it_entry_at _ _ Hit) as (k & v & Hkv & -> & ->). rewrite list_lookup_fmap, He in Hkv. injection Hkv as <- <-.
    cbn [mbind option_bind]. destruct (it_next_at _ _ Hit) as (it1 & Hnext & Hat). rewrite length_map in Hat.
    rewrite differs_ok by (done || by eapply list_elem_of_lookup_2). cbn [mbind option_bind].
    assert (l = drop (i + 1) es) as Hl' by (rewrite <- drop_drop, <- Hl; done). simpl in Hadd |- *.
    case_decide as Hd.
    + rewrite bool_decide_true by done. simpl. rewrite Hnext. cbn [mbind option_bind]. apply (IH (i + 1)%nat it1 prev); (done || lia).
    + rewrite bool_decide_false by done. simpl in Hadd |- *. destruct (tb_Add addr opt filter_policy r (e_ikey e) (e_value e)) as [r1|]; [|done].
      simpl in Hadd |- *. rewrite Hnext. cbn [mbind option_bind]. rewrite final_key_cons.
      apply (IH (i + 1)%nat it1 (Some e)); [done|done|lia| |done]. intros p [= <-]. by eapply list_elem_of_lookup_2.
Qed.

(** ** Lookups *)

Context (Hsorted : StronglySorted (fun a b => @cmp_lt (InternalKeyComparator U) (e_ikey a) (e_ikey b)) es).
Context (Hnd : NoDup (map e_seq es)).
Abbreviation kept := (firsts None es).
Abbreviation look u s := (ikey u (PackSequenceAndType s kValueTypeForSeek)).

Lemma kept_ok (e : Entry) : e ∈ kept -> entry_ok (ok := ok) e.
Proof. apply Forall_forall. by eapply sublist_Forall, Hes; apply firsts_sublist. Qed.

Lemma kept_sorted : StronglySorted (fun a b => @cmp_lt (InternalKeyComparator U) (e_ikey a) (e_ikey b)) kept.
Proof. by eapply sublist_sorted, Hsorted; apply firsts_sublist. Qed.

Lemma below_look (e : Entry) (u : bytes) (s : Z) :
  e ∈ kept -> e_seq e <= s -> seq_ok s -> ok u ->
  @cmp_lt (InternalKeyComparator U) (e_ikey e) (look u s) <-> cmp_lt (e_key e) u.
Proof.
  intros He Hs Hseq Hu. destruct (kept_ok e He) as [Hse Hk _ _]. unfold e_ikey.
  rewrite icmp_lt by (done || by apply PackSequenceAndType_range). rewrite !PackSequenceAndType_value by done.
  split; [|by left]. intros [|[-> Hlt]]; [done|]. destruct (e_type e); simpl in Hlt; lia.
Qed.

(** The entry of a key is the first that is not below the lookup key. *)
Lemma look_position (u : bytes) (s : Z) (n : nat) (e : Entry) :
  ok u -> seq_ok s -> Forall (fun e => e_seq e <= s) es ->
  first_not_below (C := InternalKeyComparator U) (map e_entry kept) (look u s) n -> newest u s es = Some e -> kept !! n = Some e.
Proof.
  intros Hu Hs Hle (_ & Hbelow & Hnot) Hn. assert (Forall (fun e => e_seq e <= s) kept) as Hlk.
  { by eapply sublist_Forall, Hle; apply firsts_sublist. }
  rewrite Forall_forall in Hlk. pose proof Hn as [Hin Hk]%(firsts_newest u s es e Hes Hsorted Hnd Hle). subst u.
  apply list_elem_of_lookup in Hin as [i Hi]. pose proof (list_elem_of_lookup_2 _ _ _ Hi) as Hin.
  destruct (Nat.lt_trichotomy i n) as [Hin'|[->|Hni]]; [exfalso|done|exfalso].
  - rewrite Forall_lookup in Hbelow. specialize (Hbelow i (e_entry e)). rewrite lookup_take_lt, list_lookup_fmap, Hi in Hbelow by lia.
    specialize (Hbelow eq_refl). apply below_look in Hbelow; [|by (done || apply Hlk)..]. by apply (cmp_lt_irrefl _ Hu).
  - destruct (lookup_lt_is_Some_2 kept n) as [x Hx]; [apply lookup_lt_Some in Hi; lia|].
    pose proof (list_elem_of_lookup_2 _ _ _ Hx) as Hxin. rewrite Forall_lookup in Hnot. specialize (Hnot 0%nat (e_entry x)).
    rewrite lookup_drop, Nat.add_0_r, list_lookup_fmap, Hx in Hnot. specialize (Hnot eq_refl). simpl in Hnot.
    rewrite below_look in Hnot by (done || by apply Hlk). pose proof (sorted_lookup _ _ n i x e kept_sorted Hni Hx Hi) as Hlt. simpl in Hlt.
    apply entry_lt_iff in Hlt; [|by apply kept_ok..]. destruct Hlt as [|[Hkx Hlt]]; [done|].
    assert (newest (e_key e) s es = Some x) as Hnx by (by apply firsts_newest). rewrite Hn in Hnx. injection Hnx as ->. lia.
Qed.

Lemma SaveValue_ok (u : bytes) (e : Entry) :
  ok u -> entry_ok (ok := ok) e ->
  SaveValue U u (e_ikey e) (e_value e) =
    Some (if bool_decide (e_key e = u) then match e_type e with kTypeValue => (kFound, Some (e_value e)) | kTypeDeletion => (kDeleted, None) end
          else (kNotFound, None)).
Proof.
  intros Hu [Hs Hk _ _]. unfold SaveValue, e_ikey. rewrite ParseInternalKey_ikey by done. cbn [p_user_key type].
  destruct (cmp_total _ _ Hk Hu) as [c Hc]. pose proof (cmp_eq _ _ Hk Hu) as Heq. rewrite Hc in Heq |- *. cbn [mbind option_bind].
  case_bool_decide as Hd; [apply Heq in Hd as [= ->]; done|]. destruct (Z.eqb_spec c 0) as [->|]; [|done]. by destruct Hd; apply Heq.
Qed.

Lemma answer_ok (u : bytes) (s : Z) (n : nat) (saved : option (bytes * bytes)) :
  ok u -> seq_ok s -> Forall (fun e => e_seq e <= s) es ->
  first_not_below (C := InternalKeyComparator U) (map e_entry kept) (look u s) n ->
  saved = None \/ saved = map e_entry kept !! n ->
  (forall e, map e_entry kept !! n = Some e -> same_user eq e.1 (look u s) -> saved = Some e) ->
  answer U u OK saved = Some (mem_answer (mem_get u s es)).
Proof.
  intros Hu Hs Hle Hn Hsaved Hsame. unfold mem_get. destruct (newest u s es) as [e|] eqn:E.
  - pose proof (look_position u s n e Hu Hs Hle Hn E) as Hnth. rewrite list_lookup_fmap, Hnth in Hsame.
    apply firsts_newest in E as [Hin <-]; [|done..]. rewrite (Hsame _ eq_refl) by (by repeat eexists).
    unfold answer. simpl. rewrite SaveValue_ok by (done || by apply kept_ok). rewrite bool_decide_true by done. by destruct (e_type e).
  - destruct Hsaved as [->| ->]; [done|]. rewrite list_lookup_fmap. destruct (kept !! n) as [x|] eqn:Hx; [|done].
    apply list_elem_of_lookup_2 in Hx. unfold answer. simpl. rewrite SaveValue_ok by (done || by apply kept_ok).
    rewrite bool_decide_false; [done|]. intros Hk. assert (newest u s es = Some x) by (by apply firsts_newest). congruence.
Qed.
End flush.

(** ** Reading *)

Section reading.
Context {U : Comparator} {ok : bytes -> Prop} {HU : ComparatorSpec U ok}.
Context {G : Type} {R : RandomAccessFile G} {rcontents : G -> bytes} {rfile_ok : G -> Prop} {HR : RandomAccessFileSpec G rcontents rfile_ok}.
Context {K : Type} {BC : BlockCache K} {has : K -> bytes -> Block -> Prop} {HB : BlockCacheSpec BC has}.
Context {CP : CrcPort} {HP : CrcPortSpec CP} {SP : SnappyPort} {HS : SnappyPortSpec SP}.
Context (addr : bytes -> Z) (opt : TableOptions) (filter_policy : option FilterPolicy) (key_ok : bytes -> Prop).
Context (HFT : forall P, filter_policy = Some P -> FilterPolicyTotal P key_ok).
Context (Hinterval : 1 <= block_restart_interval opt).

(** A file with the contents [d] opens as a table that answers every lookup, at
    snapshots that see all of [k], as a memtable with the entries [k] does. *)
Definition answers (d : bytes) (k : list Entry) : Prop :=
  forall ropt g cache, rfile_ok g -> rcontents g = d -> fresh_id (has := has) cache ->
  exists t cache_inv, Open addr opt filter_policy g (Z.of_nat (length d)) cache = Some (inl t, (opened_cache cache).2) /\
    cache_inv (opened_cache cache).2 /\
    forall c u s, cache_inv c -> ok u -> seq_ok s -> key_ok (ikey u (PackSequenceAndType s kValueTypeForSeek)) ->
      Forall (fun e => e_seq e <= s) k ->
      exists saved c', InternalGet (C := InternalKeyComparator U) addr filter_policy t ropt c (ikey u (PackSequenceAndType s kValueTypeForSeek))
          = Some (OK, saved, c') /\ cache_inv c' /\ answer U u OK saved = Some (mem_answer (mem_get u s k)).

Lemma table_answers (d : bytes) (segs : list Seg) (k : list Entry) :
  Forall (entry_ok (ok := ok)) k -> StronglySorted (fun a b => @cmp_lt (InternalKeyComparator U) (e_ikey a) (e_ikey b)) k ->
  NoDup (map e_seq k) -> NoDup (map e_key k) ->
  table_file (C := InternalKeyComparator U) (ok := ikey_ok (ok := ok)) opt filter_policy (same_user eq) (map e_entry k) d segs ->
  Z.of_nat (length d) < 2 ^ 32 -> answers d k.
Proof.
  intros Hk Hs Hseq Hkey Htf Hlen ropt g cache Hg Hgc Hfresh.
  destruct (open_lookup (C := InternalKeyComparator U) addr opt filter_policy key_ok (same_user eq) HFT Hinterval (map e_entry k)
    (entries_sorted k Hs) (entries_ikey_ok k Hk) d segs ropt g cache Htf Hlen Hg Hgc Hfresh) as (t & cinv & Hopen & Hc & Hget).
  exists t, cinv. split_and!; [done|done|]. intros c u s Hcc Hu Hsq Hku Hle.
  destruct (Hget c _ Hcc (ikey_ok_intro u _ (PackSequenceAndType_range s _ Hsq) Hu) Hku) as (saved & c' & n & Hig & Hc' & Hn & Hsv & Hsame).
  exists saved, c'. split_and!; [done|done|]. rewrite <- (firsts_of_distinct k None) in Hn, Hsv, Hsame by done.
  by apply (answer_ok k Hk Hs Hseq u s n).
Qed.
End reading.

(** ** Flush and lookup *)

Section flushed.
Context {S : Type} {I : Iterator S} {U : Comparator} {ok iok : bytes -> Prop} {iat : S -> option nat -> Prop} {HU : ComparatorSpec U ok}.
(** The file that is written, and the file that is read. *)
Context {F : Type} {W : WritableFile F} {contents : F -> bytes} {file_ok : F -> Prop} {HW : WritableFileSpec F contents file_ok}.
Context {G : Type} {R : RandomAccessFile G} {rcontents : G -> bytes} {rfile_ok : G -> Prop} {HR : RandomAccessFileSpec G rcontents rfile_ok}.
Context {K : Type} {BC : BlockCache K} {has : K -> bytes -> Block -> Prop} {HB : BlockCacheSpec BC has}.
Context {T : Type} {TS : TableStore T G} {X : Type} {IX : Index X}.
Context {CP : CrcPort} {HP : CrcPortSpec CP} {SP : SnappyPort} {HS : SnappyPortSpec SP}.
Context (addr : bytes -> Z) (opt : TableOptions) (filter_policy : option FilterPolicy).
Context (keys_ok : list bytes -> Prop) (key_ok : bytes -> Prop).
Context (HF : forall P, filter_policy = Some P -> FilterPolicySpec P keys_ok (same_user eq)).
Context (HFT : forall P, filter_policy = Some P -> FilterPolicyTotal P key_ok).
Context (Hinterval : 1 <= block_restart_interval opt).
(** The entries of the memtable; user keys are wide enough to be compared as
    internal keys. *)
Context (es : list Entry) (HI : IteratorSpec I iok (@cmp_lt (InternalKeyComparator U)) (map e_entry es) iat).
Context (Hes : Forall (entry_ok (ok := ok)) es) (Hwide : Forall (fun e => ikey_ok (ok := ok) (e_key e)) es).
Context (Hsorted : StronglySorted (fun a b => @cmp_lt (InternalKeyComparator U) (e_ikey a) (e_ikey b)) es).
Context (Hall : filter_policy <> None -> forall l, sublist l (map e_ikey es) -> keys_ok l).

Abbreviation kept := (firsts None es).
Abbreviation stored := (map e_entry kept).

Lemma stored_sorted : StronglySorted (fun a b : bytes * bytes => @cmp_lt (InternalKeyComparator U) a.1 b.1) stored.
Proof. apply entries_sorted, kept_sorted, Hsorted. Qed.

Lemma stored_ok : Forall (fun e : bytes * bytes => ikey_ok (ok := ok) e.1 /\ is_Some (ExtractUserKey e.1)) stored.
Proof. apply entries_ikey_ok, Forall_forall. intros e. apply kept_ok, Hes. Qed.

Lemma stored_filter : filter_policy <> None -> forall l, sublist l (stored.*1) -> keys_ok l.
Proof.
  intros Hf l Hl. apply (Hall Hf). rewrite entries_keys in Hl. etrans; [exact Hl|].
  apply (fmap_sublist e_ikey), firsts_sublist.
Qed.

(** [BuildTable] on the memtable. *)
Lemma BuildTable_ok (fuel : nat) (f : F) (table_status : Z -> Z -> Status) (it : S) (q : option nat) (meta : FileMetaData)
    (index : X) (edit : option (list Z)) :
  es <> [] -> (length es < fuel)%nat -> iat it q -> file_ok f -> contents f = [] ->
  exists B file, BuildTable (C := InternalKeyComparator U) addr opt filter_policy fuel (inl f) table_status it meta index edit = Some B /\
    bt_file B = Some file /\ bt_status B = table_status (number meta) (file_size (bt_meta B)) /\
    bt_meta B = built_meta meta (file_size (bt_meta B)) (Z.of_nat (length kept)) (default [] (e_ikey <$> head es)) (final_key [] kept) /\
    bt_index B = (Index_AddQueue index (queued (number meta) <$> stored) edit false).1 /\
    (Z.of_nat (length (contents file)) < 2 ^ 32 -> file_size (bt_meta B) = Z.of_nat (length (contents file)) /\
      exists segs, table_file (C := InternalKeyComparator U) (ok := ikey_ok (ok := ok)) opt filter_policy (same_user eq) stored (contents file) segs).
Proof.
  intros Hne Hfuel Hit Hf Hc. unfold BuildTable.
  destruct (it_first_at _ _ Hit) as (it0 & -> & Hat). rewrite length_map in Hat. cbn [mbind option_bind number].
  assert (0 < length es)%nat as Hpos by (destruct es; [done|simpl; lia]).
  destruct (lookup_lt_is_Some_2 es 0 Hpos) as [e0 He0].
  assert (iat it0 (Some 0%nat)) as Hat0 by (unfold pos_of in Hat; by rewrite (proj2 (Nat.ltb_lt _ _)) in Hat).
  rewrite (it_valid_at _ _ Hat0). simpl (bool_decide _).
  destruct (TableBuilder_new_ok (ok := ikey_ok (ok := ok)) (C := InternalKeyComparator U) opt filter_policy (number meta) keys_ok (same_user eq) HF
    stored stored_filter f Hf Hc) as (r0 & -> & Hi0).
  destruct (tb_Adds_ok addr opt filter_policy (number meta) keys_ok (same_user eq) HF (internal_sep_sharp U ok HU) stored stored_sorted
    stored_ok stored_filter stored r0 [] Hi0) as (r1 & Hadd & Hi1); [done|].
  destruct (it_entry_at _ _ Hat0) as (k & v & Hkv & -> & _). rewrite list_lookup_fmap, He0 in Hkv. injection Hkv as <- <-. cbn [mbind option_bind].
  destruct (Build_loop_ok es addr opt filter_policy Hwide es 0 it0 None r0 r1 fuel eq_refl Hat Hfuel) as (it1 & Hl & Hat1); [done|done|].
  simpl in Hl. rewrite Hl. cbn [mbind option_bind].
  destruct (tb_Finish_ok addr opt filter_policy (number meta) keys_ok (same_user eq) HF (internal_sep_sharp U ok HU) stored stored_sorted
    stored_ok stored_filter r1 index edit false Hi1) as (r & -> & _ & _ & Hfile). cbn [mbind option_bind].
  rewrite (it_status_at _ _ Hat1). change (Status.ok OK) with true. cbn [negb].
  eexists _, _. split; [done|]. cbn [bt_file bt_status bt_meta bt_index file_size built_meta number]. split_and!; try done.
  unfold NumEntries. rewrite (ti_num _ _ _ _ _ _ Hi1), head_lookup, He0. simpl. by rewrite length_map.
Qed.

Section lookups.
Context (dbname : bytes) (open_file : bytes -> G + Status) (file_size_of : bytes -> Status * Z).

End lookups.
End flushed.

(** ** An instance *)

Module Example.
Import TableProps.

(** A key is written, deleted, and another one written. *)
Definition k1 : bytes := bs "00000001".
Definition k2 : bytes := bs "00000022".
Definition entries : list Entry :=
  [MkEntry 1 kTypeValue k1 (bs "a"); MkEntry 2 kTypeValue k2 (bs "b"); MkEntry 3 kTypeDeletion k1 []].

Definition build : option (Built (F := PosixFile) (X := unit)) :=
  m ← MemTable_new Arena.new_after;
  m ← Adds Arena.new_after Bytewise.BytewiseComparator m entries;
  @BuildTable _ (MemTableIterator_iterator Bytewise.BytewiseComparator) _ (PosixFile_writable (fun _ => []) 1) ex_cmp port_posix no_snappy
    _ null_index (fun _ => 0) ex_opt (Some ex_policy) 4 (inl ex_file) (fun _ _ => OK) (NewIterator m) (MkFile 5 None 0 0 0 [] []) tt None.

(** The contents of the file. *)
Definition written : bytes := default [] (B ← build; f ← bt_file B; Some (pf_contents (data := Sim.sim_data) f)).

Lemma written_length : (Z.of_nat (length written) <? 2 ^ 32) = true.
Proof. vm_compute. reflexivity. Qed.

(** A cache of tables that never evicts. *)
#[local] Instance tables (G : Type) : TableStore (list (bytes * Table G)) G := {|
  ts_Lookup l k := (snd <$> (snd <$> list_find (fun e : bytes * Table G => e.1 = k) l), l);
  ts_Insert l k t := (k, t) :: l;
  ts_Erase l k := filter (fun e : bytes * Table G => e.1 <> k) l |}.

Lemma tables_hit {G : Type} (k : bytes) (t : Table G) : ts_Lookup [(k, t)] k = (Some t, [(k, t)]).
Proof. simpl. by rewrite decide_True. Qed.

Lemma entries_ok : Forall (entry_ok (ok := fun _ => True)) entries.
Proof. repeat (constructor; [constructor; vm_compute; repeat split; discriminate|]). constructor. Qed.

Lemma entries_wide : Forall (fun e => ikey_ok (ok := fun _ => True) (e_key e)) entries.
Proof.
  assert (ikey_ok (ok := fun _ => True) k1 /\ ikey_ok (ok := fun _ => True) k2) as [H1 H2].
  { split; [exists [], (default 0 (DecodeFixed64 true k1))|exists [], (default 0 (DecodeFixed64 true k2))];
      (split; [vm_compute; reflexivity|split; [vm_compute; split; [discriminate|reflexivity]|done]]). }
  repeat constructor; assumption.
Qed.

Lemma entries_sublists (es : list Entry) : es ≡ₚ entries -> forall l, sublist l (map e_ikey es) -> ex_keys_ok l.
Proof.
  intros Hp l Hl. assert (map e_ikey es = map (fun ut : bytes * Z => ikey ut.1 ut.2)
    (map (fun e => (e_key e, PackSequenceAndType (e_seq e) (e_type e))) es)) as E by (rewrite map_map; done).
  rewrite E in Hl. apply sublist_map in Hl as (uts & -> & Hs%sublist_length). exists uts. split; [done|].
  rewrite !length_map in *. rewrite Hp in Hs. simpl in Hs. lia.
Qed.

Abbreviation version_get d tc c u s := (@Version_Get _ _ _ (tables _) (PosixReadable_random (fun _ => [])) (Sharded_block_cache bump_alloc)
  ex_cmp port_posix no_snappy (fun _ => 0) ex_opt (Some ex_policy) (bs "db") (fun _ => inl (ex_readable d)) (fun _ => (OK, Z.of_nat (length d)))
  Bytewise.BytewiseComparator (fun _ => 5) ReadOptions_new tc c (LookupKey_new u s)).

End Example.
