(* ===== verification/DbCompactSpec.v ===== *)
(** * A compaction keeps the newest entries

    The outputs of a compaction hold the newest entry of every key for which
    the index named an input, and the index names the output that holds it. *)

From Stdlib Require Import String.
From S2P Require Import Prelude Status Coding Bloom Crc32cTables Crc32c Comparator Files PosixEnv PosixSpec Log DbFormat VersionEdit Version Arena SkipList SkipListSpec Iterator MemTable DbIterSpec DbWriteSpec Block BlockSpec FilterBlock TableFormat TwoLevel TableBuilder Table TableSpec TableReadSpec Cache CacheSpec CacheBlocks TableProps DbTables DbTablesSpec DbCompact.

Import Compaction Work.

Section compact.
Context {S : Type} {I : Iterator S} {U : Comparator} {ok iok : bytes -> Prop} {iat : S -> option nat -> Prop} {HU : ComparatorSpec U ok}.
Context {F : Type} {W : WritableFile F} {contents : F -> bytes} {file_ok : F -> Prop} {HW : WritableFileSpec F contents file_ok}.
Context {CP : CrcPort} {HP : CrcPortSpec CP} {SP : SnappyPort} {HS : SnappyPortSpec SP}.
Context {X : Type} {IX : Index X} (index_get : X -> bytes -> Z).
Context (addr : bytes -> Z) (opt : TableOptions) (filter_policy : option FilterPolicy).
Context (open_table : Z -> F + Status) (table_status : Z -> Z -> Status) (max_output_file_size : Z).
Context (other : nat -> X -> VersionControl F -> X * VersionControl F) (stop : nat -> bool).
Context (keys_ok : list bytes -> Prop) (HF : forall P, filter_policy = Some P -> FilterPolicySpec P keys_ok (same_user eq)).
Context (Hopen : forall n f, open_table n = inl f -> file_ok f /\ contents f = []).
Context (Hfail : forall n s, open_table n = inr s -> Status.ok s = false).

(** The entries of the inputs, merged. *)
Context (es : list Entry) (HI : IteratorSpec I iok (@cmp_lt (InternalKeyComparator U)) (map e_entry es) iat).
Context (Hes : Forall (entry_ok (ok := ok)) es).
Context (Hsorted : StronglySorted (fun a b => @cmp_lt (InternalKeyComparator U) (e_ikey a) (e_ikey b)) es).
Context (Hall : filter_policy <> None -> forall l, sublist l (map e_ikey es) -> keys_ok l).

(** The index: a queue gives its keys their numbers and leaves other keys alone,
    which are told apart by their numerical value; nobody else changes the
    answers for the keys of the inputs. *)
Context (Hput : forall x q ed gc u n, (forall m, (fast_atoi u, m) ∈ q -> m = n) -> fast_atoi u ∈ q.*1 ->
  index_get (Index_AddQueue x q ed gc).1 u = n).
Context (Hkeep : forall x q ed gc u, fast_atoi u ∉ q.*1 -> index_get (Index_AddQueue x q ed gc).1 u = index_get x u).
Context (Hother : forall i x vc e, e ∈ es -> index_get (other i x vc).1 (e_key e) = index_get x (e_key e)).
Context (Hinj : forall a b, a ∈ es -> b ∈ es -> fast_atoi (e_key a) = fast_atoi (e_key b) -> e_key a = e_key b).

Context (numbers : list Z) (index0 : X) (smallest_snapshot : Z).
Context (Hsnap : Forall (fun e => e_seq e <= smallest_snapshot) es) (Hmax : smallest_snapshot < kMaxSequenceNumber).

Abbreviation state := (CompactionState (F := F) (X := X)).
Abbreviation output := (Output (F := F)).
Abbreviation entry_lt := (fun a b => @cmp_lt (InternalKeyComparator U) (e_ikey a) (e_ikey b)).
Implicit Types c : state.

(** The index named an input for the key at the start. *)
Definition live (u : bytes) : bool := IsInput numbers (u32 (index_get index0 u)).
Definition kept (prev : option bytes) (l : list Entry) : list Entry := filter (fun e => live (e_key e) = true) (firsts prev l).

(** A finished output [o] with the entries [k]. *)
Definition out_ok (o : output) (k : list Entry) : Prop :=
  k <> [] /\ o_smallest o = default [] (e_ikey <$> head k) /\ o_largest o = default [] (e_ikey <$> last k) /\
  exists size f, o_result o = Some (size, Z.of_nat (length k), f) /\
    (Z.of_nat (length (contents f)) < 2 ^ 32 -> size = Z.of_nat (length (contents f)) /\
     exists segs, table_file (C := InternalKeyComparator U) (ok := ikey_ok (ok := ok)) opt filter_policy (same_user eq) (map e_entry k) (contents f) segs).

(** The output that is being written, and its entries. *)
Definition open_ok (c : state) (closed : list (output * list Entry)) (cur : list Entry) : Prop :=
  match builder c with
  | None => cur = [] /\ outputs c = closed.*1
  | Some b => exists o, outputs c = closed.*1 ++ [o] /\ cur <> [] /\
      o_smallest o = default [] (e_ikey <$> head cur) /\ o_largest o = default [] (e_ikey <$> last cur) /\
      tb_inv (C := InternalKeyComparator U) (contents := contents) (file_ok := file_ok) (ok := ikey_ok (ok := ok)) opt filter_policy (o_number o) (same_user eq) b (map e_entry cur)
  end.

(** The answers of the index. *)
Definition index_ok (x : X) (closed : list (output * list Entry)) : Prop :=
  forall e, e ∈ es ->
    (exists o k, (o, k) ∈ closed /\ e_key e ∈ map e_key k /\ index_get x (e_key e) = u32 (o_number o)) \/
    ((e_key e ∉ map e_key (concat (closed.*2))) /\ index_get x (e_key e) = index_get index0 (e_key e)).

Record st_ok (c : state) (closed : list (output * list Entry)) (cur : list Entry) : Prop := MkStOk {
  so_open : open_ok c closed cur;
  so_closed : Forall (fun x => out_ok x.1 x.2) closed;
  so_index : index_ok (cs_index c) closed }.

(** *** Entries that a table is made of *)

Section sub.
Context (k : list Entry) (Hk : sublist k es).

Lemma sub_sorted : StronglySorted (fun a b : bytes * bytes => @cmp_lt (InternalKeyComparator U) a.1 b.1) (map e_entry k).
Proof. apply entries_sorted. by eapply sublist_sorted, Hsorted. Qed.

Lemma sub_ok : Forall (fun e : bytes * bytes => ikey_ok (ok := ok) e.1 /\ is_Some (ExtractUserKey e.1)) (map e_entry k).
Proof. apply (entries_ikey_ok (ok := ok)). by eapply sublist_Forall, Hes. Qed.

Lemma sub_filter : filter_policy <> None -> forall l, sublist l ((map e_entry k).*1) -> keys_ok l.
Proof. intros Hf l Hl. apply (Hall Hf). rewrite entries_keys in Hl. etrans; [exact Hl|]. by apply (fmap_sublist e_ikey). Qed.
End sub.

Abbreviation finish := (FinishCompactionOutputFile U addr opt filter_policy table_status).
Abbreviation add := (add_entry U addr opt filter_policy open_table table_status max_output_file_size).

Lemma queued_keys (n : Z) (k : list Entry) : (queued n <$> map e_entry k).*1 = map (fun e => fast_atoi (e_key e)) k.
Proof.
  induction k as [|e k IH]; [done|]. cbn [map fmap list_fmap]. f_equal; [|exact IH].
  unfold queued, e_entry, e_ikey. simpl. by rewrite ExtractUserKey_ikey.
Qed.

Lemma queued_number (n : Z) (k : list Entry) (a m : Z) : (a, m) ∈ queued n <$> map e_entry k -> m = u32 n.
Proof. intros Hin. apply list_elem_of_fmap in Hin as (e & [= _ ->] & _). done. Qed.

(** Handing the entries of an output over. *)
Lemma index_ok_queue (x : X) (closed : list (output * list Entry)) (o : output) (k : list Entry) (ed : option (list Z)) (gc : bool) (n : Z) :
  sublist k es -> index_ok x closed -> n = o_number o ->
  index_ok (Index_AddQueue x (queued n <$> map e_entry k) ed gc).1 (closed ++ [(o, k)]).
Proof.
  intros Hk Hi -> e He. destruct (decide (e_key e ∈ map e_key k)) as [Hin|Hin].
  - left. exists o, k. split; [set_solver|]. split; [done|]. apply Hput; [intros m; apply queued_number|].
    rewrite queued_keys. apply list_elem_of_fmap in Hin as (a & Ha & Hin). apply list_elem_of_fmap. exists a. by rewrite Ha.
  - rewrite Hkeep.
    + destruct (Hi e He) as [(o' & k' & Hc & Hke & Hx)|[Hn Hx]]; [left; exists o', k'; set_solver|right]. split; [|done].
      rewrite fmap_app, concat_app, map_app. simpl. rewrite app_nil_r. set_solver.
    + rewrite queued_keys. intros Hq. apply Hin. apply list_elem_of_fmap in Hq as (a & Ha & Hak). apply list_elem_of_fmap.
      exists a. split; [|done]. symmetry. apply Hinj; [|done|done]. by eapply elem_of_submseteq; [|apply sublist_submseteq].
Qed.

Lemma on_current_last c (f : output -> output) (os : list output) (o : output) :
  outputs c = os ++ [o] -> outputs (on_current f c) = os ++ [f o].
Proof.
  intros E. unfold on_current. cbn [outputs]. rewrite E, length_app. simpl.
  by rewrite Nat.add_sub, alter_app_r_alt, Nat.sub_diag by lia.
Qed.

(** Finishing an output. *)
Lemma finish_ok c (closed : list (output * list Entry)) (cur : list Entry) (input : S) :
  st_ok c closed cur -> cur <> [] -> sublist cur es -> it_status input = OK ->
  exists s c' o, finish c input = Some (s, c') /\ st_ok c' (closed ++ [(o, cur)]) [].
Proof.
  intros [Ho Hc Hi] Hne Hsub Hst. unfold open_ok in Ho. destruct (builder c) as [b|] eqn:Eb; [|by destruct Ho].
  destruct Ho as (o & Eo & _ & Hsm & Hla & Hb). unfold FinishCompactionOutputFile. rewrite Eo, last_snoc, Eb, Hst.
  cbn [mbind option_bind]. change (Status.ok OK) with true. cbn match.
  destruct (tb_Finish_ok addr opt filter_policy (o_number o) keys_ok (same_user eq) HF (internal_sep_sharp U ok HU) (map e_entry cur)
    (sub_sorted cur Hsub) (sub_ok cur Hsub) (sub_filter cur Hsub) b (cs_index c) (Some []) true Hb) as (r & -> & _ & _ & Hfile).
  cbn [mbind option_bind]. eexists _, _, (MkOutput (o_number o) (o_smallest o) (o_largest o) (Some (FileSize r, NumEntries b, tb_file r))).
  split; [done|]. split; cbn [cs_index].
  - unfold open_ok. cbn [builder outputs]. split; [done|]. by rewrite (on_current_last _ _ _ _ Eo), fmap_app.
  - apply Forall_app. split; [done|]. apply Forall_singleton. split_and!; [done|done|done|]. simpl.
    exists (FileSize r), (tb_file r). split; [|exact Hfile]. unfold NumEntries. rewrite (ti_num _ _ _ _ _ _ Hb). by rewrite length_map.
  - by apply index_ok_queue.
Qed.

(** Adding an entry to the open output. *)
Lemma open_ok_add c (closed : list (output * list Entry)) (cur : list Entry) (b : TableRep F) (o : output) (e : Entry) :
  outputs c = closed.*1 ++ [o] -> (cur <> [] -> o_smallest o = default [] (e_ikey <$> head cur)) -> sublist (cur ++ [e]) es ->
  tb_inv (C := InternalKeyComparator U) (contents := contents) (file_ok := file_ok) (ok := ikey_ok (ok := ok)) opt filter_policy (o_number o)
    (same_user eq) b (map e_entry cur) ->
  exists b', tb_Add (C := InternalKeyComparator U) addr opt filter_policy b (e_ikey e) (e_value e) = Some b' /\
    open_ok (set_builder (on_current (fun o => MkOutput (o_number o) (if NumEntries b =? 0 then e_ikey e else o_smallest o) (e_ikey e) (o_result o)) c)
      (Some b')) closed (cur ++ [e]).
Proof.
  intros Eo Hsm Hsub Hb.
  destruct (tb_Add_ok addr opt filter_policy (o_number o) keys_ok (same_user eq) HF (internal_sep_sharp U ok HU) (map e_entry (cur ++ [e]))
    (sub_sorted _ Hsub) (sub_ok _ Hsub) (sub_filter _ Hsub) b (map e_entry cur) (e_ikey e) (e_value e) Hb) as (b' & Hadd & Hb' & _).
  { rewrite map_app. done. }
  exists b'. split; [exact Hadd|]. unfold open_ok, set_builder. cbn [builder outputs].
  eexists. split; [apply (on_current_last _ _ _ _ Eo)|]. cbn [o_smallest o_largest o_number]. split_and!.
  - by destruct cur.
  - unfold NumEntries. rewrite (ti_num _ _ _ _ _ _ Hb), length_map. destruct cur as [|a cur]; [done|]. simpl. by apply Hsm.
  - by rewrite last_snoc.
  - by rewrite map_app.
Qed.

Lemma add_ok c (closed : list (output * list Entry)) (cur : list Entry) (input : S) (e : Entry) :
  st_ok c closed cur -> sublist (cur ++ [e]) es -> it_status input = OK ->
  exists go s c', add c input (e_ikey e) (e_value e) = Some (go, s, c') /\
    if go : bool then exists closed' cur', st_ok c' closed' cur' /\
                   concat (closed'.*2) ++ cur' = concat (closed.*2) ++ cur ++ [e] /\ (cur' = [] \/ cur' = cur ++ [e])
    else Status.ok s = false.
Proof.
  intros [Ho Hc Hi] Hsub Hst. unfold add_entry.
  assert (exists s c1, match builder c with Some _ => Some (OK, c) | None => OpenCompactionOutputFile filter_policy open_table c end = Some (s, c1) /\
    if Status.ok s then exists b o, builder c1 = Some b /\ cs_index c1 = cs_index c /\ outputs c1 = closed.*1 ++ [o] /\
      (cur <> [] -> o_smallest o = default [] (e_ikey <$> head cur)) /\
      tb_inv (C := InternalKeyComparator U) (contents := contents) (file_ok := file_ok) (ok := ikey_ok (ok := ok)) opt filter_policy (o_number o)
        (same_user eq) b (map e_entry cur)
    else True) as (s & c1 & -> & H1).
  { unfold open_ok in Ho. destruct (builder c) as [b|] eqn:Eb.
    - exists OK, c. split; [done|]. change (Status.ok OK) with true. cbn match. destruct Ho as (o & ? & _ & ? & _ & ?). exists b, o. done.
    - destruct Ho as [-> Eo]. unfold OpenCompactionOutputFile, NewFileNumber.
      destruct (open_table (vc_next_file_number_ (cs_vc c))) as [f|s] eqn:Ef.
      + destruct (Hopen _ _ Ef) as [Hf Hf0].
        destruct (TableBuilder_new_ok (ok := ikey_ok (ok := ok)) (C := InternalKeyComparator U) opt filter_policy (vc_next_file_number_ (cs_vc c))
          keys_ok (same_user eq) HF [] (sub_filter [] (sublist_nil_l _)) f Hf Hf0) as (b & -> & Hb).
        exists OK. eexists. split; [done|]. change (Status.ok OK) with true. cbn match.
        eexists b, _. cbn [set_builder builder cs_index outputs]. rewrite Eo. split_and!; try done.
      + exists s. eexists. split; [done|]. by rewrite (Hfail _ _ Ef). }
  cbn [mbind option_bind]. destruct (Status.ok s) eqn:Es; [|by eexists _, _, _]. cbn [negb].
  destruct H1 as (b & o & Eb & Ex & Eo & Hsm & Hb). rewrite Eb. cbn [mbind option_bind].
  destruct (open_ok_add c1 closed cur b o e Eo Hsm Hsub Hb) as (b' & -> & Ho'). cbn [mbind option_bind].
  set (c2 := set_builder _ (Some b')) in *. assert (st_ok c2 closed (cur ++ [e])) as H2 by (split; [done|done|]; unfold c2; simpl; by rewrite Ex).
  destruct (max_output_file_size <=? FileSize b').
  - destruct (finish_ok c2 closed (cur ++ [e]) input H2 ltac:(by destruct cur) Hsub Hst) as (s' & c3 & o' & -> & H3). cbn [mbind option_bind].
    exists (Status.ok s'), s', c3. split; [done|]. destruct (Status.ok s'); [|done].
    exists (closed ++ [(o', cur ++ [e])]), []. split; [done|]. split; [|by left].
    rewrite fmap_app, concat_app. simpl. by rewrite !app_nil_r.
  - exists true, OK, c2. split; [done|]. exists closed, (cur ++ [e]). split; [done|]. split; [done|by right].
Qed.

(** *** The loop *)

Definition seq_of (prev : option Entry) : Z := default kMaxSequenceNumber (e_seq <$> prev).

(** An entry is hidden if it has the key of the one before. *)
Lemma hides_ok (prev : option Entry) (e : Entry) :
  (forall p, prev = Some p -> p ∈ es) -> e ∈ es ->
  hides U smallest_snapshot (e_key <$> prev) (seq_of prev) (e_ikey e)
  = Some (bool_decide (e_key <$> prev = Some (e_key e)), Some (e_key e), e_seq e).
Proof.
  intros Hp He. rewrite Forall_forall in Hes, Hsnap. destruct (Hes e He) as [Hs Hk _ _]. unfold hides, e_ikey.
  rewrite ParseInternalKey_ikey by done. cbn [p_user_key sequence].
  destruct prev as [p|]; simpl; [|by rewrite (proj2 (Z.leb_gt _ _)) by done].
  destruct (Hes p (Hp p eq_refl)) as [_ Hkp _ _]. destruct (cmp_total _ _ Hk Hkp) as [r Hr].
  pose proof (cmp_eq _ _ Hk Hkp) as Heq. rewrite Hr in Heq |- *. cbn [mbind option_bind]. case_bool_decide as Hd.
  - injection Hd as Hd. symmetry in Hd. apply Heq in Hd as [= ->]. simpl. by rewrite (proj2 (Z.leb_le _ _)) by (by apply Hsnap, Hp).
  - destruct (Z.eqb_spec r 0) as [->|]; simpl; [destruct Hd; f_equal; symmetry; by apply Heq|].
    by rewrite (proj2 (Z.leb_gt _ _)) by done.
Qed.

Abbreviation key_le a b := (e_key a = e_key b \/ cmp_lt (e_key a) (e_key b)).

(** The entries written so far have keys up to the last one read, [prev], and the
    entries to come, [l], keys from it on. *)
Definition around (prev : option Entry) (written l : list Entry) : Prop :=
  (forall a, a ∈ written -> exists p, prev = Some p /\ key_le a p) /\
  (forall p, prev = Some p -> p ∈ es /\ Forall (fun x => key_le p x) l).

Lemma key_le_trans (a b c : Entry) : a ∈ es -> b ∈ es -> c ∈ es -> key_le a b -> key_le b c -> key_le a c.
Proof.
  intros Ha Hb Hc. rewrite Forall_forall in Hes. pose proof (eo_key _ (Hes a Ha)). pose proof (eo_key _ (Hes b Hb)). pose proof (eo_key _ (Hes c Hc)).
  intros [->|Hab] [<-|Hbc]; [by left|by right|by right|right]. by apply (cmp_trans _ (e_key b)).
Qed.

Lemma around_next (prev : option Entry) (written l : list Entry) (e : Entry) :
  around prev written (e :: l) -> sublist (written ++ e :: l) es ->
  around (Some e) written l /\ around (Some e) (written ++ [e]) l.
Proof.
  intros [Hw Hp] Hsub.
  assert (forall x, x ∈ written ++ e :: l -> x ∈ es) as Hin by (intros x Hx; by eapply elem_of_submseteq; [|apply sublist_submseteq]).
  pose proof (sublist_sorted _ _ _ Hsub Hsorted) as Hs. apply StronglySorted_app in Hs as (_ & _ & Hs). apply StronglySorted_inv in Hs as [_ Hs].
  assert (forall p, Some e = Some p -> p ∈ es /\ Forall (fun x => key_le p x) l) as Hnext.
  { intros p [= <-]. split; [apply Hin; set_solver|]. rewrite Forall_forall in Hs |- *. intros x Hx. rewrite Forall_forall in Hes.
    specialize (Hs x Hx). apply entry_lt_iff in Hs; [tauto|apply Hes, Hin; set_solver..]. }
  assert (forall a, a ∈ written -> key_le a e) as Hle.
  { intros a Ha. destruct (Hw a Ha) as (p & Ep & Hap). destruct (Hp p Ep) as [Hpe Hpx]. apply Forall_cons in Hpx as [Hpx _].
    apply (key_le_trans a p e); [apply Hin; set_solver|done|apply Hin; set_solver|done|done]. }
  split; (split; [|done]); intros a Ha; exists e; (split; [done|]); [by apply Hle|].
  apply elem_of_app in Ha as [Ha|Ha%list_elem_of_singleton]; [by apply Hle|left; by subst].
Qed.

(** A key that is read for the first time has not been written. *)
Lemma around_new (prev : option Entry) (written l : list Entry) (e : Entry) :
  around prev written (e :: l) -> sublist (written ++ e :: l) es -> e_key <$> prev <> Some (e_key e) -> e_key e ∉ map e_key written.
Proof.
  intros [Hw Hp] Hsub Hne Hin. apply list_elem_of_fmap in Hin as (a & Ha & Hin). destruct (Hw a Hin) as (p & -> & Hap).
  destruct (Hp p eq_refl) as [Hpe Hpx]. apply Forall_cons in Hpx as [Hpx _]. simpl in Hne. destruct Hpx as [Hpx|Hpx]; [congruence|].
  assert (forall x, x ∈ written ++ e :: l -> x ∈ es) as Hsubin by (intros x Hx; by eapply elem_of_submseteq; [|apply sublist_submseteq]).
  rewrite Forall_forall in Hes. pose proof (eo_key _ (Hes p Hpe)) as Hkp. assert (ok (e_key e)) as Hke by (apply eo_key, Hes, Hsubin; set_solver).
  destruct Hap as [Hap|Hap]; [congruence|]. rewrite <- Ha in Hap. by apply (cmp_lt_asym _ _ Hke Hkp).
Qed.

Abbreviation work_loop fuel := (Work_loop U index_get addr opt filter_policy open_table table_status max_output_file_size other stop fuel numbers
  smallest_snapshot).

Lemma index_ok_other (i : nat) (x : X) (vc : VersionControl F) (closed : list (output * list Entry)) :
  index_ok x closed -> index_ok (other i x vc).1 closed.
Proof. intros H e He. rewrite Hother by done. by apply H. Qed.

(** What the index says of an entry whose key has not been written. *)
Lemma index_ok_new (x : X) (closed : list (output * list Entry)) (e : Entry) :
  index_ok x closed -> e ∈ es -> e_key e ∉ map e_key (concat (closed.*2)) -> index_get x (e_key e) = index_get index0 (e_key e).
Proof.
  intros Hi He Hn. destruct (Hi e He) as [(o & k & Hc & Hk & _)|[_ H]]; [|done]. destruct Hn.
  apply list_elem_of_fmap in Hk as (a & Ha & Hk). apply list_elem_of_fmap. exists a. split; [done|]. apply list_elem_of_In, in_concat.
  exists k. split; apply list_elem_of_In; [|done]. apply list_elem_of_fmap. by exists (o, k).
Qed.

Lemma sublist_mid {A} (l1 l2 l3 k : list A) : sublist (l1 ++ l2 ++ l3) k -> sublist l2 k.
Proof. intros H. etrans; [|exact H]. apply sublist_inserts_l, sublist_inserts_r. done. Qed.

Lemma sublist_drop_one {A} (l1 l2 k : list A) (x : A) : sublist (l1 ++ x :: l2) k -> sublist (l1 ++ l2) k.
Proof. intros H. etrans; [|exact H]. apply sublist_app; [done|]. by apply sublist_cons. Qed.

Lemma Work_loop_ok (l : list Entry) : forall i input prev c closed cur fuel,
  l = drop i es -> iat input (pos_of (length es) i) -> (length l < fuel)%nat -> st_ok c closed cur ->
  around prev (concat (closed.*2) ++ cur) l -> sublist ((concat (closed.*2) ++ cur) ++ l) es ->
  exists s c' input', work_loop fuel i input (e_key <$> prev) (seq_of prev) c = Some (s, c', input') /\
    (Status.ok s = true -> iat input' None /\ exists closed' cur', st_ok c' closed' cur' /\ sublist cur' es /\
      concat (closed'.*2) ++ cur' = (concat (closed.*2) ++ cur) ++ kept (e_key <$> prev) l).
Proof.
  induction l as [|e l IH]; intros i input prev c closed cur [|fuel] Hl Hit Hfuel Hst Har Hsub; simpl in Hfuel; try lia.
  - pose proof (f_equal length Hl) as Hlen. rewrite length_drop in Hlen. simpl in Hlen. unfold pos_of in Hit.
    rewrite (proj2 (Nat.ltb_ge _ _)) in Hit by lia. cbn [Work_loop]. rewrite (it_valid_at _ _ Hit). simpl.
    eexists _, _, _. split; [done|]. intros Hs. split; [done|]. exists closed, cur. split_and!; [done| |by rewrite app_nil_r].
    rewrite app_nil_r in Hsub. etrans; [|exact Hsub]. by apply sublist_inserts_l.
  - assert (es !! i = Some e) as He by (rewrite <- (Nat.add_0_r i), <- lookup_drop, <- Hl; done).
    pose proof (lookup_lt_Some _ _ _ He) as Hi. unfold pos_of in Hit. rewrite (proj2 (Nat.ltb_lt _ _)) in Hit by lia.
    pose proof (list_elem_of_lookup_2 _ _ _ He) as Hin. cbn [Work_loop]. rewrite (it_valid_at _ _ Hit), bool_decide_true by eauto.
    destruct (stop i); [by eexists _, _, _|]. cbn [andb negb]. destruct (other i (cs_index c) (cs_vc c)) as [x vc] eqn:Eother.
    destruct (it_entry_at _ _ Hit) as (k & v & Hkv & -> & ->). rewrite list_lookup_fmap, He in Hkv. injection Hkv as <- <-.
    cbn [mbind option_bind]. rewrite hides_ok by (done || intros p Ep; apply (proj2 Har p Ep)). cbn [mbind option_bind].
    rewrite (ExtractUserKey_ikey _ _ : ExtractUserKey (e_ikey e) = _). cbn [mbind option_bind].
    set (c1 := MkState _ _ _ x vc _).
    assert (st_ok c1 closed cur) as H1.
    { destruct Hst as [Ho Hc Hx]. split; [done|done|]. simpl. pose proof (index_ok_other i _ (cs_vc c) _ Hx) as H. by rewrite Eother in H. }
    destruct (it_next_at _ _ Hit) as (input1 & Hnext & Hat). rewrite length_map in Hat.
    assert (l = drop (i + 1) es) as Hl' by (rewrite <- drop_drop, <- Hl; done).
    destruct (around_next prev _ l e Har Hsub) as [Ha1 Ha2]. unfold kept. cbn [firsts]. case_decide as Hd.
    + rewrite bool_decide_true by done. cbn [orb mbind option_bind]. rewrite Hnext. cbn [mbind option_bind]. rewrite Hd.
      change (Some (e_key e)) with (e_key <$> Some e). change (e_seq e) with (seq_of (Some e)).
      apply (IH (i + 1)%nat input1 (Some e) c1 closed cur fuel); try done; [lia|by eapply sublist_drop_one].
    + rewrite bool_decide_false by done. cbn [orb].
      assert (e_key e ∉ map e_key (concat closed.*2)) as Hnew.
      { pose proof (around_new prev _ l e Har Hsub Hd) as H. rewrite map_app in H. set_solver. }
      rewrite (index_ok_new x closed e (so_index _ _ _ H1) Hin Hnew). fold (live (e_key e)).
      destruct (live (e_key e)) eqn:Elive; cbn [negb].
      * rewrite filter_cons_True by done.
        destruct (add_ok c1 closed cur input e H1) as (go & s & c2 & Hadd & Hgo); [|by apply (it_status_at _ _ Hit)|].
        { rewrite <- app_assoc in Hsub. apply (sublist_mid (concat closed.*2) (cur ++ [e]) l). by rewrite <- app_assoc. }
        rewrite Hadd. cbn [mbind option_bind]. destruct go; [|eexists _, _, _; split; [done|]; by rewrite Hgo].
        destruct Hgo as (closed' & cur' & H2 & Happ & Hcur). rewrite Hnext. cbn [mbind option_bind].
        change (Some (e_key e)) with (e_key <$> Some e). change (e_seq e) with (seq_of (Some e)).
        rewrite app_assoc in Happ.
        destruct (IH (i + 1)%nat input1 (Some e) c2 closed' cur' fuel) as (s' & c3 & input' & Hloop & Hres); try done; [lia|by rewrite Happ| |].
        { rewrite Happ, <- app_assoc. exact Hsub. }
        exists s', c3, input'. split; [exact Hloop|]. intros Hs. destruct (Hres Hs) as (? & closed'' & cur'' & ? & ? & Heq).
        split; [done|]. exists closed'', cur''. split_and!; [done|done|]. rewrite Heq, Happ, <- app_assoc. done.
      * rewrite filter_cons_False by (by rewrite Elive). cbn [mbind option_bind]. rewrite Hnext. cbn [mbind option_bind].
        change (Some (e_key e)) with (e_key <$> Some e). change (e_seq e) with (seq_of (Some e)).
        apply (IH (i + 1)%nat input1 (Some e) c1 closed cur fuel); try done; [lia|by eapply sublist_drop_one].
Qed.

(** *** The outcome *)

Abbreviation work_run fuel := (Work_run U index_get addr opt filter_policy open_table table_status max_output_file_size other stop fuel numbers
  smallest_snapshot).

Lemma Work_run_ok (fuel : nat) (input : S) (q : option nat) (vc : VersionControl F) (pending : gset Z) :
  iat input q -> (length es < fuel)%nat ->
  exists s c', work_run fuel input (MkState [] None 0 index0 vc pending) = Some (s, c') /\
    (Status.ok s = true -> builder c' = None /\ exists closed, outputs c' = closed.*1 /\ Forall (fun x => out_ok x.1 x.2) closed /\
      index_ok (cs_index c') closed /\ concat (closed.*2) = kept None es).
Proof.
  intros Hit Hfuel. unfold Work_run. destruct (it_first_at _ _ Hit) as (it0 & -> & Hat). rewrite length_map in Hat. cbn [mbind option_bind].
  destruct (Work_loop_ok es 0 it0 None (MkState [] None 0 index0 vc pending) [] [] fuel eq_refl Hat Hfuel) as (s & c & it1 & Hl & Hres).
  { split; [done|constructor|]. intros e He. right. split; [set_solver|done]. }
  { split; [set_solver|done]. }
  { done. }
  simpl in Hl. change (seq_of None) with kMaxSequenceNumber in Hl. rewrite Hl. cbn [mbind option_bind]. destruct (Status.ok s) eqn:Es; cbn [andb].
  2:{ eexists _, _. split; [done|]. rewrite Es. congruence. }
  destruct (Hres eq_refl) as (Hat1 & closed & cur & Hst & Hsub & Heq). simpl in Heq.
  pose proof (it_status_at _ _ Hat1) as Hit1. case_bool_decide as Hb.
  - assert (cur <> []) as Hne.
    { destruct Hst as [Ho _ _]. unfold open_ok in Ho. destruct (builder c); [|by destruct Hb]. by destruct Ho as (o & _ & ? & _). }
    destruct (finish_ok c closed cur it1 Hst Hne Hsub Hit1) as (s' & c' & o & -> & [Ho Hc Hx]). cbn [mbind option_bind].
    eexists _, c'. split; [done|]. intros _. unfold open_ok in Ho. destruct (builder c'); [by destruct Ho as (? & _ & ? & _)|].
    destruct Ho as [_ Ho]. split; [done|]. exists (closed ++ [(o, cur)]). split_and!; try done.
    rewrite fmap_app, concat_app. simpl. by rewrite app_nil_r.
  - destruct Hst as [Ho Hc Hx]. unfold open_ok in Ho. destruct (builder c) eqn:Eb; [by destruct Hb|]. destruct Ho as [-> Ho].
    cbn [mbind option_bind]. eexists _, c. split; [done|]. intros _. split; [done|]. exists closed. split_and!; try done.
    by rewrite app_nil_r in Heq.
Qed.

Lemma concat_sublist (o : output) (k : list Entry) (closed : list (output * list Entry)) :
  (o, k) ∈ closed -> sublist k (concat (closed.*2)).
Proof.
  intros (l1 & l2 & ->)%list_elem_of_split. rewrite fmap_app, concat_app. simpl. by apply sublist_inserts_l, sublist_inserts_r.
Qed.

(** A part of the first entries answers for its keys as all entries do. *)
Lemma part_newest (k : list Entry) (a : Entry) (snap : Z) :
  NoDup (map e_seq es) -> Forall (fun e => e_seq e <= snap) es -> sublist k (firsts None es) -> a ∈ k ->
  mem_get (e_key a) snap k = mem_get (e_key a) snap es.
Proof.
  intros Hnd Hle Hk Ha. pose proof (elem_of_sublist _ _ _ Ha Hk) as Hfa. unfold mem_get.
  rewrite (proj2 (firsts_newest (e_key a) snap es a Hes Hsorted Hnd Hle) (conj Hfa eq_refl)).
  assert (newest (e_key a) snap k = Some a) as ->; [|done]. pose proof (firsts_sublist es None) as Hf. rewrite Forall_forall in Hle.
  apply newest_unique; [|done|split; [done|]|].
  - eapply sublist_NoDup; [exact Hnd|]. apply (fmap_sublist e_seq). by etrans.
  - apply Hle. by eapply elem_of_sublist.
  - apply Forall_forall. intros b Hb [Hkb _]. pose proof (elem_of_sublist _ _ _ Hb Hk) as Hfb. replace b with a; [done|].
    apply list_elem_of_lookup in Hfa as [i Hia], Hfb as [j Hjb]. assert (i = j) as ->; [|congruence].
    apply (NoDup_lookup _ i j (e_key a) (firsts_distinct es Hes Hsorted)); rewrite list_lookup_fmap, ?Hia, ?Hjb; simpl; congruence.
Qed.

Lemma closed_part (closed : list (output * list Entry)) (o : output) (k : list Entry) :
  concat (closed.*2) = kept None es -> (o, k) ∈ closed -> sublist k (kept None es).
Proof. intros <-. apply concat_sublist. Qed.

(** The newest entry of a key is in the output that the index names. *)
Lemma kept_newest (closed : list (output * list Entry)) (x : X) (e : Entry) :
  NoDup (map e_seq es) -> concat (closed.*2) = kept None es -> index_ok x closed -> e ∈ es ->
  if live (e_key e) then exists o k, (o, k) ∈ closed /\ index_get x (e_key e) = u32 (o_number o) /\
    forall snap, Forall (fun e => e_seq e <= snap) es -> mem_get (e_key e) snap k = mem_get (e_key e) snap es
  else index_get x (e_key e) = index_get index0 (e_key e).
Proof.
  intros Hnd Hcat Hi He. destruct (Hi e He) as [(o & k & Hok & Hk & Hx)|[Hn Hx]].
  - pose proof (closed_part _ _ _ Hcat Hok) as Hsub. apply list_elem_of_fmap in Hk as (a & Ea & Ha).
    pose proof (elem_of_sublist _ _ _ Ha Hsub) as Hka. apply list_elem_of_filter in Hka as [Hla _]. rewrite Ea, Hla. exists o, k.
    split; [done|]. split; [by rewrite <- Ea|]. intros snap Hle. apply part_newest; try done. etrans; [exact Hsub|]. apply sublist_filter.
  - destruct (live (e_key e)) eqn:El; [|done]. destruct Hn. rewrite Hcat.
    destruct (newest (e_key e) smallest_snapshot es) as [a|] eqn:En.
    + apply firsts_newest in En as [Ha Hka]; [|done..]. apply list_elem_of_fmap. exists a. split; [done|].
      apply list_elem_of_filter. by rewrite Hka.
    + apply newest_none in En. rewrite Forall_forall in En, Hsnap. destruct (En e He). split; [done|by apply Hsnap].
Qed.

(** The edit. *)
Lemma add_outputs_ok (closed : list (output * list Entry)) : forall e,
  Forall (fun x => out_ok x.1 x.2) closed ->
  exists e', add_outputs e (closed.*1) = Some e' /\ deleted_files_ e' = deleted_files_ e /\
    map number (new_files_ e') = map number (new_files_ e) ++ map o_number (closed.*1).
Proof.
  induction closed as [|[o k] closed IH]; intros e Hc; [exists e; by rewrite app_nil_r|].
  apply Forall_cons in Hc as [(_ & _ & _ & size & f & Hr & _) Hc]. rewrite fmap_cons. cbn [fst snd add_outputs map] in *.
  unfold add_output. rewrite Hr. cbn [mbind option_bind].
  destruct (IH (AddFile (o_number o) size (Z.of_nat (length k)) (Z.of_nat (length k)) (o_smallest o) (o_largest o) e) Hc) as (e' & He & Hd & Hn).
  exists e'. split_and!; [done|done|]. rewrite Hn. simpl. rewrite map_app, <- app_assoc. done.
Qed.

Lemma install_edit_ok (closed : list (output * list Entry)) :
  Forall (fun x => out_ok x.1 x.2) closed ->
  exists edit, install_edit numbers (closed.*1) = Some edit /\ deleted_files_ edit = numbers /\
    map number (new_files_ edit) = map o_number (closed.*1).
Proof.
  intros Hc. assert (forall ns e, new_files_ (AddInputDeletions ns e) = new_files_ e /\
    deleted_files_ (AddInputDeletions ns e) = deleted_files_ e ++ ns) as Hdel.
  { induction ns as [|m ns IH]; intros e; [split; [done|by rewrite app_nil_r]|]. unfold AddInputDeletions in *. simpl.
    destruct (IH (DeleteFile m e)) as [-> ->]. split; [done|]. simpl. by rewrite <- app_assoc. }
  destruct (Hdel numbers VersionEdit_new) as [Hn Hd].
  destruct (add_outputs_ok closed (AddInputDeletions numbers VersionEdit_new) Hc) as (e & He & Hde & Hne).
  exists e. split; [exact He|]. rewrite Hde, Hne, Hn, Hd. done.
Qed.

(** ** Property *)

Section compaction.
Context {G : Type} {R : RandomAccessFile G} {rcontents : G -> bytes} {rfile_ok : G -> Prop} {HR : RandomAccessFileSpec G rcontents rfile_ok}.
Context {K : Type} {BC : BlockCache K} {has : K -> bytes -> Block -> Prop} {HB : BlockCacheSpec BC has}.
Context (key_ok : bytes -> Prop) (HFT : forall P, filter_policy = Some P -> FilterPolicyTotal P key_ok).
Context (Hinterval : 1 <= block_restart_interval opt) (Hnd : NoDup (map e_seq es)).

(** The output [o] is a table that answers as a memtable with the entries [k]. *)
Definition output_answers (o : output) (k : list Entry) : Prop :=
  k <> [] /\ o_smallest o = default [] (e_ikey <$> head k) /\ o_largest o = default [] (e_ikey <$> last k) /\
  exists size f, o_result o = Some (size, Z.of_nat (length k), f) /\
    (Z.of_nat (length (contents f)) < 2 ^ 32 -> size = Z.of_nat (length (contents f)) /\
     answers (U := U) (ok := ok) (R := R) (BC := BC) (rcontents := rcontents) (rfile_ok := rfile_ok) (has := has) addr opt filter_policy key_ok (contents f) k).

Lemma out_answers (o : output) (k : list Entry) : sublist k (kept None es) -> out_ok o k -> output_answers o k.
Proof.
  intros Hk (Hne & Hs & Hl & size & f & Hr & Hf). split_and!; [done..|]. exists size, f. split; [done|]. intros Hlen.
  destruct (Hf Hlen) as (-> & segs & Htf). split; [done|].
  assert (sublist k (firsts None es)) as Hkf by (etrans; [exact Hk|apply sublist_filter]).
  assert (sublist k es) as Hke by (etrans; [exact Hkf|apply firsts_sublist]).
  apply (table_answers addr opt filter_policy key_ok HFT Hinterval (contents f) segs); try done.
  - by eapply sublist_Forall, Hes.
  - by eapply sublist_sorted, Hsorted.
  - eapply sublist_NoDup; [exact Hnd|]. by apply (fmap_sublist e_seq).
  - eapply sublist_NoDup; [exact (firsts_distinct es Hes Hsorted)|]. by apply (fmap_sublist e_key).
Qed.

End compaction.
End compact.

(** ** An instance *)

Module Example.
Import TableProps DbTablesSpec.Example.

(** An index that is a map. *)
Definition get (x : gmap Z Z) (u : bytes) : Z := default (-1) (x !! fast_atoi u).
#[local] Instance map_index : Index (gmap Z Z) := {| Index_AddQueue x q _ _ := (list_to_map q ∪ x, []) |}.

Lemma get_put (x : gmap Z Z) (q : list (Z * Z)) (ed : option (list Z)) (gc : bool) (u : bytes) (n : Z) :
  (forall m, (fast_atoi u, m) ∈ q -> m = n) -> fast_atoi u ∈ q.*1 -> get (Index_AddQueue x q ed gc).1 u = n.
Proof.
  intros Hn Hin. unfold get. simpl. rewrite lookup_union. destruct ((list_to_map q : gmap Z Z) !! fast_atoi u) as [m|] eqn:E.
  - apply elem_of_list_to_map_2, Hn in E as ->. by destruct (x !! fast_atoi u).
  - by apply not_elem_of_list_to_map_2 in E.
Qed.

Lemma get_keep (x : gmap Z Z) (q : list (Z * Z)) (ed : option (list Z)) (gc : bool) (u : bytes) :
  fast_atoi u ∉ q.*1 -> get (Index_AddQueue x q ed gc).1 u = get x u.
Proof.
  intros Hn. unfold get. simpl. rewrite lookup_union, (not_elem_of_list_to_map_1 q) by done. by destruct (x !! fast_atoi u).
Qed.

(** The index names input 7 for the first key, and file 9, which is no input,
    for the second. *)
Definition index1 : gmap Z Z := {[1 := 7; 22 := 9]}.

Definition vc1 : VersionControl (PosixFile (K := Sim.Sys)) :=
  MkVC 10 0 3 0 0 false {[1 := MkFile 7 None 0 0 0 [] []; 2 := MkFile 8 None 0 0 0 [] []]} VC.Version_new None.

Abbreviation example_run m := (@Work_run _ (MemTableIterator_iterator Bytewise.BytewiseComparator) _ (PosixFile_writable (fun _ => []) 1)
  Bytewise.BytewiseComparator port_posix no_snappy _ map_index get (fun _ => 0) ex_opt (Some ex_policy) (fun _ => inl ex_file) (fun _ _ => OK) 1000
  (fun _ x vc => (x, vc)) (fun _ => false) 4 [7; 8] 3 (NewIterator m) (MkState [] None 0 index1 vc1 ∅)).

Definition example_status : option Status :=
  m ← MemTable_new Arena.new_after;
  m ← Adds Arena.new_after Bytewise.BytewiseComparator m entries;
  '(s, _) ← example_run m;
  Some s.

Lemma example_ok : example_status = Some OK.
Proof. vm_compute. reflexivity. Qed.

End Example.
