(* ===== verification/NvmTable.v ===== *)
(** * NvmSingleTable

    [multi-cuckoo-index/nvmsingletable.h]: the bucket array of one cuckoo
    filter, kept in persistent memory.  Each bucket holds four 64-bit slots; a
    slot is a 32-bit fingerprint (high half) and a 32-bit file number (low
    half), and the value 0 marks an empty slot.

    An access outside the mapped array is undefined behaviour in the source;
    here it is [None], so a theorem that an operation returns [Some _] also
    shows that it stays in bounds.  [rand()] is an argument. *)

From Stdlib Require Import String.
From S2P Require Import Prelude Status.

Definition FP_MASK64 : Z := 0xffffffff00000000.
Definition FP_MASK32 : Z := 0xfffc0000.
Definition VALID_MASK64 : Z := 0x80000000.

(** [~m] on a 64-bit word. *)
Definition not64 (m : Z) : Z := Z.lxor m (2 ^ 64 - 1).

(** The macro [COLLISION]. *)
Definition COLLISION (s1 s2 : Z) : bool := Z.land s1 FP_MASK64 =? Z.land s2 FP_MASK64.

Definition kSlotPerBucket_ : Z := 4.
Definition kBitsPerSlot_ : Z := 32 + 32.
Definition kBytesPerBucket_ : Z := Z.shiftr (kBitsPerSlot_ * kSlotPerBucket_ + 7) 3.
Definition kPaddingBuckets_ : Z :=
  (Z.shiftl (Z.shiftr (kBytesPerBucket_ + 7) 3) 3 - 1) / kBytesPerBucket_.

(** The slot indices [0 .. kSlotPerBucket_ - 1] of the bucket loops. *)
Definition slots : list Z := seqZ 0 kSlotPerBucket_.

Record NvmSingleTable := MkTable {
  buckets_ : list (list Z);
  num_buckets_ : Z;
  id_ : Z
}.

(** The constructor: the mapped region is cleared. *)
Definition NvmSingleTable_new (num id local_id : Z) : NvmSingleTable :=
  {| buckets_ := replicate (Z.to_nat (num + kPaddingBuckets_))
                   (replicate (Z.to_nat kSlotPerBucket_) 0);
     num_buckets_ := num;
     id_ := id |}.

(** The result type is [uint32_t]: the count is truncated. *)
Definition NumBuckets (t : NvmSingleTable) : Z := u32 (num_buckets_ t).
Definition NumSlots (t : NvmSingleTable) : Z := u64 (num_buckets_ t * kSlotPerBucket_).

Definition ReadSlot64 (t : NvmSingleTable) (i j : Z) : option Z :=
  b ← buckets_ t !! Z.to_nat i; b !! Z.to_nat j.

Definition ReadSlot64Acquire (t : NvmSingleTable) (i j : Z) : option Z :=
  b ← buckets_ t !! Z.to_nat i; b !! Z.to_nat j.

(** An atomic 8-byte store, flushed to persistent memory at once. *)
Definition WriteToSlot64 (t : NvmSingleTable) (i j v : Z) : option NvmSingleTable :=
  b ← buckets_ t !! Z.to_nat i;
  _ ← b !! Z.to_nat j;
  Some {| buckets_ := <[Z.to_nat i := <[Z.to_nat j := v]> b]> (buckets_ t);
          num_buckets_ := num_buckets_ t;
          id_ := id_ t |}.

(** The 32-bit accessors have lost their bodies in the source. *)
Definition ReadSlot32 (t : NvmSingleTable) (i j : Z) : option Z := Some 0.
Definition WriteToSlot32 (t : NvmSingleTable) (i j v : Z) : option NvmSingleTable := Some t.

Definition IsValid (slot : Z) : bool := negb (Z.land slot VALID_MASK64 =? 0).

(** [r] is the value [rand()] returns; [oldslot] the caller's variable. *)
Definition InsertTagToBucketAndCheckDup64 (t : NvmSingleTable) (i slot : Z)
    (kickout : bool) (oldslot r : Z) : option (Status * NvmSingleTable * Z) :=
  res ← for_ret slots (fun j =>
    slotInBucket ← ReadSlot64 t i j;
    if slotInBucket =? 0 then
      t' ← WriteToSlot64 t i j slot;
      Some (Some (OK, t', oldslot))
    else if COLLISION slotInBucket slot then
      Some (Some (AlreadyExist (bs "hash collision happened"), t, oldslot))
    else Some None);
  match res with
  | Some ret => Some ret
  | None =>
      if kickout then
        let r := r mod kSlotPerBucket_ in
        oldslot ← ReadSlot64 t i r;
        t' ← WriteToSlot64 t i r slot;
        Some (NotSupported (bs "not enough space"), t', oldslot)
      else Some (NotSupported (bs "not enough space"), t, oldslot)
  end.

Definition InsertTagToBucket64 (t : NvmSingleTable) (i slot : Z)
    (kickout : bool) (oldslot r : Z) : option (bool * NvmSingleTable * Z) :=
  res ← for_ret slots (fun j =>
    s ← ReadSlot64 t i j;
    if s =? 0 then
      t' ← WriteToSlot64 t i j slot; Some (Some (true, t', oldslot))
    else Some None);
  match res with
  | Some ret => Some ret
  | None =>
      if kickout then
        let r := r mod kSlotPerBucket_ in
        oldslot ← ReadSlot64 t i r;
        t' ← WriteToSlot64 t i r slot;
        Some (false, t', oldslot)
      else Some (false, t, oldslot)
  end.

Definition InsertTagToBucket32 (t : NvmSingleTable) (i slot : Z)
    (kickout : bool) (oldslot r : Z) : option (bool * NvmSingleTable * Z) :=
  res ← for_ret slots (fun j =>
    s ← ReadSlot32 t i j;
    if s =? 0 then
      t' ← WriteToSlot32 t i j slot; Some (Some (true, t', oldslot))
    else Some None);
  match res with
  | Some ret => Some ret
  | None =>
      if kickout then
        let r := r mod kSlotPerBucket_ in
        oldslot ← ReadSlot32 t i r;
        t' ← WriteToSlot32 t i r slot;
        Some (false, t', oldslot)
      else Some (false, t, oldslot)
  end.

(** One of the two bucket loops of [FindSlotInBuckets64]. *)
Definition FindSlotInBucket64_loop (t : NvmSingleTable) (i slot : Z) : option (option Z) :=
  for_ret slots (fun j =>
    res ← ReadSlot64Acquire t i j;
    if Z.land res FP_MASK64 =? slot
    then Some (Some (u32 (Z.land res (not64 FP_MASK64))))
    else Some None).

(** The overload that returns the file number through [vec]; [Some None] is
    the result [false]. *)
Definition FindSlotInBuckets64 (t : NvmSingleTable) (i1 i2 slot : Z) : option (option Z) :=
  r1 ← FindSlotInBucket64_loop t i1 slot;
  match r1 with
  | Some vec => Some (Some vec)
  | None => FindSlotInBucket64_loop t i2 slot
  end.

(** The overload without the file number. *)
Definition FindSlotInBuckets64_mem (t : NvmSingleTable) (i1 i2 slot : Z) : option bool :=
  let loop i := for_ret slots (fun j =>
    res ← ReadSlot64 t i j;
    if Z.land res FP_MASK64 =? slot then Some (Some true) else Some None) in
  r1 ← loop i1;
  match r1 with
  | Some b => Some b
  | None => r2 ← loop i2;
            match r2 with Some b => Some b | None => Some false end
  end.

(** [(res << 14) >> 14] on a 32-bit word. *)
Definition FindSlotInBuckets32 (t : NvmSingleTable) (i1 i2 slot : Z) : option (option Z) :=
  let loop i := for_ret slots (fun j =>
    res ← ReadSlot32 t i j;
    if Z.land res FP_MASK32 =? slot
    then Some (Some (Z.shiftr (u32 (Z.shiftl res 14)) 14))
    else Some None) in
  r1 ← loop i1;
  match r1 with
  | Some fno => Some (Some fno)
  | None => loop i2
  end.

Definition FindSlotInBuckets32_mem (t : NvmSingleTable) (i1 i2 slot : Z) : option bool :=
  let loop i := for_ret slots (fun j =>
    res ← ReadSlot32 t i j;
    if Z.land res FP_MASK32 =? slot then Some (Some true) else Some None) in
  r1 ← loop i1;
  match r1 with
  | Some b => Some b
  | None => r2 ← loop i2;
            match r2 with Some b => Some b | None => Some false end
  end.

(** One of the two bucket loops of [FindSlotInBucketAndUpdate]. *)
Definition FindSlotInBucketAndUpdate_loop (t : NvmSingleTable) (i fp fn : Z)
    : option (option NvmSingleTable) :=
  for_ret slots (fun j =>
    res ← ReadSlot64 t i j;
    if Z.land res FP_MASK64 =? fp then
      t' ← WriteToSlot64 t i j (Z.lor fp fn); Some (Some t')
    else Some None).

Definition FindSlotInBucketAndUpdate (t : NvmSingleTable) (i1 i2 fp fn : Z)
    : option (bool * NvmSingleTable) :=
  r1 ← FindSlotInBucketAndUpdate_loop t i1 fp fn;
  match r1 with
  | Some t' => Some (true, t')
  | None =>
      r2 ← FindSlotInBucketAndUpdate_loop t i2 fp fn;
      match r2 with
      | Some t' => Some (true, t')
      | None => Some (false, t)
      end
  end.

(** The second loop reads bucket [i1] again and writes bucket [i2]. *)
Definition FindSlotInBucketAndUpdate32 (t : NvmSingleTable) (i1 i2 slot : Z)
    : option (bool * NvmSingleTable) :=
  let loop i := for_ret slots (fun j =>
    res ← ReadSlot32 t i1 j;
    if Z.land res FP_MASK32 =? Z.land slot FP_MASK32 then
      t' ← WriteToSlot32 t i j slot; Some (Some t')
    else Some None) in
  r1 ← loop i1;
  match r1 with
  | Some t' => Some (true, t')
  | None =>
      r2 ← loop i2;
      match r2 with Some t' => Some (true, t') | None => Some (false, t) end
  end.

Definition DeleteFromBucket64 (t : NvmSingleTable) (i slot : Z) : option (bool * NvmSingleTable) :=
  res ← for_ret slots (fun j =>
    s ← ReadSlot64 t i j;
    if s =? slot then t' ← WriteToSlot64 t i j 0; Some (Some t') else Some None);
  match res with
  | Some t' => Some (true, t')
  | None => Some (false, t)
  end.

Definition Slot (t : NvmSingleTable) (i j : Z) : option Z := ReadSlot64 t i j.
Definition WriteSlot (t : NvmSingleTable) (i j slot : Z) : option NvmSingleTable :=
  WriteToSlot64 t i j slot.

(** ** Well-formed tables and their contents *)

(** The bucket count is a power of two that fits [uint32_t] arithmetic, every
    bucket has four slots and every slot is a 64-bit word. *)
Definition wf_table (t : NvmSingleTable) : Prop :=
  (exists k, 0 <= k <= 32 /\ num_buckets_ t = 2 ^ k)
  /\ Z.of_nat (length (buckets_ t)) = num_buckets_ t
  /\ Forall (fun b => Z.of_nat (length b) = kSlotPerBucket_
                      /\ Forall (fun s => 0 <= s < 2 ^ 64) b) (buckets_ t).

(** The non-empty slots, each with the bucket it is in. *)
Definition cell (i s : Z) : list (Z * Z) := if s =? 0 then [] else [(i, s)].
Definition cells (i : Z) (b : list Z) : list (Z * Z) := b ≫= cell i.
Definition items (t : NvmSingleTable) : list (Z * Z) :=
  mjoin (imap (fun i b => cells (Z.of_nat i) b) (buckets_ t)).

Lemma elem_of_slots (j : Z) : j ∈ slots <-> 0 <= j < 4.
Proof. unfold slots, kSlotPerBucket_. rewrite elem_of_seqZ. lia. Qed.

Lemma slot_choice (r : Z) : 0 <= r mod kSlotPerBucket_ < 4.
Proof. apply Z.mod_pos_bound. done. Qed.

Lemma read_some (t : NvmSingleTable) (i j : Z) :
  wf_table t -> 0 <= i < num_buckets_ t -> 0 <= j < 4 ->
  exists s, ReadSlot64 t i j = Some s /\ 0 <= s < 2 ^ 64.
Proof.
  intros (_ & Hlen & Hb) Hi Hj. unfold ReadSlot64.
  destruct (lookup_lt_is_Some_2 (buckets_ t) (Z.to_nat i)) as [b Eb]; [lia|].
  rewrite Eb; simpl.
  eapply Forall_lookup_1 in Hb as [Hlb Hs]; [|exact Eb]. unfold kSlotPerBucket_ in Hlb.
  destruct (lookup_lt_is_Some_2 b (Z.to_nat j)) as [s Es]; [lia|].
  exists s. split; [done|]. by eapply Forall_lookup_1 in Hs.
Qed.

Lemma read_range (t : NvmSingleTable) (i j s : Z) :
  wf_table t -> ReadSlot64 t i j = Some s -> 0 <= s < 2 ^ 64.
Proof.
  intros (_ & _ & Hb). unfold ReadSlot64.
  destruct (buckets_ t !! Z.to_nat i) as [b|] eqn:Eb; simpl; [|done]. intros Es.
  eapply Forall_lookup_1 in Hb as [_ Hs]; [|exact Eb]. by eapply Forall_lookup_1 in Hs.
Qed.

Lemma write_some (t : NvmSingleTable) (i j s v : Z) :
  wf_table t -> 0 <= v < 2 ^ 64 -> ReadSlot64 t i j = Some s ->
  exists t', WriteToSlot64 t i j v = Some t' /\ wf_table t'
    /\ num_buckets_ t' = num_buckets_ t.
Proof.
  intros (Hk & Hlen & Hb) Hv. unfold ReadSlot64, WriteToSlot64.
  destruct (buckets_ t !! Z.to_nat i) as [b|] eqn:Eb; simpl; [|done]. intros Es.
  rewrite Es; simpl. eexists. split; [done|]. split; [|done].
  split; [done|]. simpl. rewrite length_insert. split; [done|].
  apply Forall_insert; [done|].
  eapply Forall_lookup_1 in Hb as [Hlb Hs]; [|exact Eb].
  rewrite length_insert. split; [done|]. by apply Forall_insert.
Qed.

Lemma cells_insert (i : Z) (b : list Z) (j : nat) (s v : Z) :
  b !! j = Some s -> cell i s ++ cells i (<[j := v]> b) ≡ₚ cell i v ++ cells i b.
Proof.
  intros Ej. unfold cells. rewrite insert_take_drop by (by eapply lookup_lt_Some).
  rewrite <- (take_drop_middle b j s Ej) at 3.
  rewrite !bind_app, !bind_cons. apply perm_middle_change, Permutation_app_comm.
Qed.

Lemma items_write (t t' : NvmSingleTable) (i j s v : Z) :
  0 <= i -> ReadSlot64 t i j = Some s -> WriteToSlot64 t i j v = Some t' ->
  cell i s ++ items t' ≡ₚ cell i v ++ items t.
Proof.
  intros Hi. unfold ReadSlot64, WriteToSlot64, items.
  destruct (buckets_ t !! Z.to_nat i) as [b|] eqn:Eb; simpl; [|done]. intros Es.
  rewrite Es; simpl. intros [= <-]; simpl.
  rewrite insert_take_drop by (by eapply lookup_lt_Some).
  rewrite <- (take_drop_middle _ _ _ Eb) at 3.
  assert (Z.to_nat i < length (buckets_ t))%nat by (by eapply lookup_lt_Some).
  rewrite !imap_app, !join_app; simpl.
  rewrite length_take_le by lia. rewrite Nat.add_0_r, Z2Nat.id by done.
  by apply perm_middle_change, cells_insert.
Qed.

Lemma elem_of_cells (i i' : Z) (b : list Z) (s : Z) :
  (i', s) ∈ cells i b <-> i' = i /\ s <> 0 /\ s ∈ b.
Proof.
  unfold cells. rewrite list_elem_of_bind. split.
  - intros (v & Hv & Hb). unfold cell in Hv. destruct (Z.eqb_spec v 0); set_solver.
  - intros (-> & Hs & Hb). exists s. unfold cell.
    destruct (Z.eqb_spec s 0); [done|]. set_solver.
Qed.

Lemma elem_of_items (t : NvmSingleTable) (i s : Z) :
  0 <= i -> (i, s) ∈ items t <-> s <> 0 /\ exists j, 0 <= j /\ ReadSlot64 t i j = Some s.
Proof.
  intros Hi. unfold items. rewrite list_elem_of_join. split.
  - intros (l & Hin & Hl). apply list_elem_of_lookup in Hl as [n Hn].
    rewrite list_lookup_imap in Hn.
    destruct (buckets_ t !! n) as [b|] eqn:Eb; [|done]. injection Hn as <-.
    apply elem_of_cells in Hin as (-> & Hs & Hb). split; [done|].
    apply list_elem_of_lookup in Hb as [j Ej]. exists (Z.of_nat j).
    unfold ReadSlot64. rewrite !Nat2Z.id, Eb; simpl. split; [lia|done].
  - intros (Hs & j & Hj & Hr). unfold ReadSlot64 in Hr.
    destruct (buckets_ t !! Z.to_nat i) as [b|] eqn:Eb; simpl in Hr; [|done].
    exists (cells i b). split.
    + apply elem_of_cells. split_and!; [done..|]. by eapply list_elem_of_lookup_2.
    + apply list_elem_of_lookup. exists (Z.to_nat i).
      rewrite list_lookup_imap, Eb; simpl. by rewrite Z2Nat.id.
Qed.

(** ** Behaviour of the bucket operations *)

Definition s_collision : Status := AlreadyExist (bs "hash collision happened").
Definition s_nospace : Status := NotSupported (bs "not enough space").

(** What [InsertTagToBucketAndCheckDup64] may do, in terms of the contents. *)
Definition insert_outcome (t : NvmSingleTable) (i slot : Z) (kickout : bool) (old : Z)
    (st : Status) (t' : NvmSingleTable) (old' : Z) : Prop :=
  (st = OK /\ old' = old /\ items t' ≡ₚ cell i slot ++ items t)
  \/ (st = s_collision /\ old' = old /\ t' = t
      /\ exists s, (i, s) ∈ items t /\ COLLISION s slot = true)
  \/ (st = s_nospace /\ kickout = true /\ 0 < old' < 2 ^ 64 /\ (i, old') ∈ items t
      /\ (i, old') :: items t' ≡ₚ cell i slot ++ items t)
  \/ (st = s_nospace /\ kickout = false /\ old' = old /\ t' = t).

Section ops.
Context (t : NvmSingleTable) (i : Z).
Context (Hwf : wf_table t) (Hi : 0 <= i < num_buckets_ t).

Lemma bucket_write (j v : Z) :
  0 <= j < 4 -> 0 <= v < 2 ^ 64 ->
  exists s t', ReadSlot64 t i j = Some s /\ 0 <= s < 2 ^ 64
    /\ WriteToSlot64 t i j v = Some t' /\ wf_table t'
    /\ num_buckets_ t' = num_buckets_ t /\ cell i s ++ items t' ≡ₚ cell i v ++ items t.
Proof.
  intros Hj Hv. destruct (read_some t i j Hwf Hi Hj) as (s & Hr & Hs).
  destruct (write_some t i j s v Hwf Hv Hr) as (t' & Hw & Hwf' & Hn).
  exists s, t'. split_and!; try done; try lia. eapply items_write; [lia|done..].
Qed.

Lemma insert_dup_outcome (slot : Z) (kickout : bool) (old r : Z) :
  0 <= slot < 2 ^ 64 ->
  exists st t' old',
    InsertTagToBucketAndCheckDup64 t i slot kickout old r = Some (st, t', old')
    /\ wf_table t' /\ num_buckets_ t' = num_buckets_ t
    /\ insert_outcome t i slot kickout old st t' old'.
Proof.
  intros Hslot. unfold InsertTagToBucketAndCheckDup64.
  match goal with |- context [for_ret slots ?b] => set (body := b) end.
  destruct (for_ret_total slots body) as [res Hres].
  { intros j Hj%elem_of_slots. unfold body.
    destruct (bucket_write j slot Hj Hslot) as (s & t' & Hr & _ & Hw & _).
    rewrite Hr; simpl. destruct (s =? 0); [rewrite Hw; simpl; eauto|].
    destruct (COLLISION s slot); eauto. }
  rewrite Hres; simpl. destruct res as [ret|].
  - apply for_ret_some in Hres as (j & Hj%elem_of_slots & Hb).
    destruct (bucket_write j slot Hj Hslot) as (s & t' & Hr & _ & Hw & Hwf' & Hn & Hit).
    unfold body in Hb. rewrite Hr in Hb; simpl in Hb.
    destruct (Z.eqb_spec s 0) as [Hz|Hs].
    + subst s. rewrite Hw in Hb. injection Hb as <-. exists OK, t', old.
      split_and!; [done..|]. by left.
    + destruct (COLLISION s slot) eqn:Hc; [|done]. injection Hb as <-.
      exists s_collision, t, old. split_and!; [done..|]. right; left.
      split_and!; [done..|]. exists s. split; [|done].
      apply elem_of_items; [lia|]. split; [done|]. exists j. by split; [lia|].
  - pose proof (proj1 (for_ret_none slots body) Hres) as Hall.
    destruct kickout.
    + destruct (bucket_write (r mod kSlotPerBucket_) slot) as (s & t' & Hr & Hs & Hw & Hwf' & Hn & Hit);
        [apply slot_choice|done|].
      rewrite Hr; simpl. rewrite Hw; simpl.
      assert (s <> 0).
      { intros ->. specialize (Hall (r mod kSlotPerBucket_)).
        unfold body in Hall. rewrite Hr in Hall; simpl in Hall. rewrite Hw in Hall; simpl in Hall.
        assert (Some (Some (OK, t', old)) = Some None); [|done].
        apply Hall, elem_of_slots, slot_choice. }
      exists s_nospace, t', s. split_and!; [done..|]. right; right; left.
      split_and!; [done..|lia|lia| |].
      * apply elem_of_items; [lia|]. split; [done|]. eexists. split; [|exact Hr].
        apply slot_choice.
      * unfold cell at 1 in Hit. destruct (Z.eqb_spec s 0); [done|]. exact Hit.
    + exists s_nospace, t, old. split_and!; [done..|]. do 3 right. done.
Qed.

(** The lookup loop over one bucket. *)
Lemma find_loop_some (fp v : Z) :
  FindSlotInBucket64_loop t i fp = Some (Some v) -> fp <> 0 ->
  exists s, (i, s) ∈ items t /\ Z.land s FP_MASK64 = fp
            /\ v = u32 (Z.land s (not64 FP_MASK64)).
Proof.
  intros H Hfp. apply for_ret_some in H as (j & Hj%elem_of_slots & Hb).
  unfold ReadSlot64Acquire in Hb. fold (ReadSlot64 t i j) in Hb.
  destruct (ReadSlot64 t i j) as [s|] eqn:Hr; simpl in Hb; [|done].
  destruct (Z.eqb_spec (Z.land s FP_MASK64) fp) as [Hs|]; [|done]. injection Hb as <-.
  exists s. split_and!; [|done..]. apply elem_of_items; [lia|].
  split; [by intros ->|]. exists j. by split; [lia|].
Qed.

Lemma find_loop_none (fp : Z) :
  fp <> 0 -> FindSlotInBucket64_loop t i fp = Some None <->
  forall s, (i, s) ∈ items t -> Z.land s FP_MASK64 <> fp.
Proof.
  intros Hfp. unfold FindSlotInBucket64_loop. rewrite for_ret_none. split.
  - intros Hall s (Hs & j & Hj & Hr)%elem_of_items Heq; [|lia].
    assert (0 <= j < 4).
    { split; [done|]. unfold ReadSlot64 in Hr.
      destruct (buckets_ t !! Z.to_nat i) as [b|] eqn:Eb; simpl in Hr; [|done].
      destruct Hwf as (_ & _ & Hb). eapply Forall_lookup_1 in Hb as [Hlb _]; [|exact Eb].
      apply lookup_lt_Some in Hr. unfold kSlotPerBucket_ in Hlb. lia. }
    specialize (Hall j). rewrite elem_of_slots in Hall. unfold ReadSlot64Acquire in Hall.
    fold (ReadSlot64 t i j) in Hall. rewrite Hr in Hall; simpl in Hall.
    rewrite (proj2 (Z.eqb_eq _ _) Heq) in Hall. naive_solver.
  - intros Hall j Hj%elem_of_slots.
    destruct (read_some t i j Hwf Hi Hj) as (s & Hr & _).
    unfold ReadSlot64Acquire. fold (ReadSlot64 t i j). rewrite Hr; simpl.
    destruct (Z.eqb_spec (Z.land s FP_MASK64) fp) as [Hs|]; [|done].
    exfalso. apply (Hall s); [|done]. apply elem_of_items; [lia|].
    split; [by intros ->|]. exists j. by split; [lia|].
Qed.

Lemma find_loop_total (fp : Z) : is_Some (FindSlotInBucket64_loop t i fp).
Proof.
  apply for_ret_total. intros j Hj%elem_of_slots.
  destruct (read_some t i j Hwf Hi Hj) as (s & Hr & _).
  unfold ReadSlot64Acquire. fold (ReadSlot64 t i j). rewrite Hr; simpl.
  destruct (_ =? _); eauto.
Qed.

(** The update loop finds a slot exactly when the lookup loop does. *)
Lemma update_loop (fp fn : Z) :
  0 < fp < 2 ^ 64 -> 0 <= fn < 2 ^ 32 ->
  match FindSlotInBucket64_loop t i fp with
  | Some (Some _) => exists s t',
      FindSlotInBucketAndUpdate_loop t i fp fn = Some (Some t')
      /\ (i, s) ∈ items t /\ Z.land s FP_MASK64 = fp /\ wf_table t'
      /\ num_buckets_ t' = num_buckets_ t
      /\ (i, s) :: items t' ≡ₚ (i, Z.lor fp fn) :: items t
  | _ => FindSlotInBucketAndUpdate_loop t i fp fn = Some None
  end.
Proof.
  intros Hfp Hfn.
  assert (0 < Z.lor fp fn < 2 ^ 64) as Hor.
  { assert (0 <= Z.lor fp fn) by (apply Z.lor_nonneg; lia).
    assert (Z.lor fp fn <> 0) by (intros [? ?]%Z.lor_eq_0_iff; lia).
    split; [lia|]. apply Z.log2_lt_pow2; [lia|]. rewrite Z.log2_lor by lia.
    apply Z.max_lub_lt.
    - apply Z.log2_lt_pow2; lia.
    - destruct (Z.eq_dec fn 0) as [->|]; [done|]. apply Z.log2_lt_pow2; lia. }
  unfold FindSlotInBucket64_loop, FindSlotInBucketAndUpdate_loop.
  assert (forall j, j ∈ slots -> 0 <= j < 4) as Hsl by (intros j; apply elem_of_slots).
  induction slots as [|j js IH]; simpl; [done|].
  destruct (bucket_write j (Z.lor fp fn)) as (s & t' & Hr & Hs & Hw & Hwf' & Hn & Hit);
    [apply Hsl; set_solver|lia|].
  unfold ReadSlot64Acquire. fold (ReadSlot64 t i j). rewrite Hr; simpl.
  destruct (Z.eqb_spec (Z.land s FP_MASK64) fp) as [Heq|]; simpl.
  - rewrite Hw; simpl. exists s, t'.
    assert (s <> 0) by (intros ->; rewrite Z.land_0_l in Heq; lia).
    unfold cell in Hit. rewrite !(proj2 (Z.eqb_neq _ _)) in Hit by lia.
    split_and!; try done. apply elem_of_items; [lia|]. split; [done|].
    exists j. split; [apply Hsl; set_solver|done].
  - apply IH. intros j' Hj'. apply Hsl. set_solver.
Qed.

End ops.

(** The two overloads of [FindSlotInBuckets64] agree. *)
Lemma find_mem_find (t : NvmSingleTable) (i1 i2 fp : Z) :
  FindSlotInBuckets64_mem t i1 i2 fp =
  (fun r => match r with Some _ => true | None => false end) <$> FindSlotInBuckets64 t i1 i2 fp.
Proof.
  unfold FindSlotInBuckets64_mem, FindSlotInBuckets64, FindSlotInBucket64_loop.
  assert (forall i js,
    for_ret js (fun j => ReadSlot64 t i j ≫= fun res =>
      if Z.land res FP_MASK64 =? fp then Some (Some true) else Some None)
    = fmap (M:=option) (fun _ => true) <$>
      for_ret js (fun j => ReadSlot64Acquire t i j ≫= fun res =>
        if Z.land res FP_MASK64 =? fp
        then Some (Some (u32 (Z.land res (not64 FP_MASK64)))) else Some None)) as Hloop.
  { intros i js. induction js as [|j js IH]; simpl; [done|].
    change (ReadSlot64Acquire t i j) with (ReadSlot64 t i j).
    destruct (ReadSlot64 t i j) as [s|]; simpl; [|done]. by destruct (_ =? _). }
  rewrite !Hloop. fold (FindSlotInBucket64_loop t i1 fp) (FindSlotInBucket64_loop t i2 fp).
  destruct (FindSlotInBucket64_loop t i1 fp) as [[?|]|]; [done| |done].
  by destruct (FindSlotInBucket64_loop t i2 fp) as [[?|]|].
Qed.

(** ** Properties *)

(** The 32-bit variant of the insertion reports success for every slot and
    stores nothing: the accessors it uses have empty bodies. *)
Theorem InsertTagToBucket32_stores_nothing (t : NvmSingleTable) (i slot oldslot r : Z) (kickout : bool) :
  InsertTagToBucket32 t i slot kickout oldslot r = Some (true, t, oldslot).
Proof. done. Qed.

(** The insertion of a slot into a bucket of a well-formed table stays in
    bounds, keeps the table well formed, and ends in one of four ways: the
    slot is added; a slot with its fingerprint is there already and nothing
    changes; the bucket is full and the slot takes the place of another, which
    is handed back; the bucket is full and nothing changes. *)
Theorem insert_dup_spec (t : NvmSingleTable) (i slot : Z) (kickout : bool) (oldslot r : Z) :
  wf_table t -> 0 <= i < num_buckets_ t -> 0 <= slot < 2 ^ 64 ->
  exists s t' old, InsertTagToBucketAndCheckDup64 t i slot kickout oldslot r = Some (s, t', old)
    /\ wf_table t' /\ num_buckets_ t' = num_buckets_ t
    /\ insert_outcome t i slot kickout oldslot s t' old.
Proof. intros Hwf Hi Hs. by apply insert_dup_outcome. Qed.

Lemma insert_dup_spec_witness :
  let t := NvmSingleTable_new 2 0 0 in
  exists s t' old, InsertTagToBucketAndCheckDup64 t 1 77 false 0 3 = Some (s, t', old)
    /\ wf_table t' /\ num_buckets_ t' = num_buckets_ t
    /\ insert_outcome t 1 77 false 0 s t' old.
Proof.
  apply insert_dup_spec; [|simpl; lia|lia].
  split; [exists 1; simpl; lia|]. split; [done|]. repeat constructor; lia.
Defined.
