(* ===== verification/Hashing.v ===== *)
(** * Hashing

    [util/hashutil.h]: the two-independent multiply-shift hash that picks a
    key's bucket and fingerprint in a cuckoo filter. *)

From S2P Require Import Prelude.

(** The two [unsigned __int128] members. *)
Record TwoIndependentMultiplyShift := MkHasher { multiply_ : Z; add_ : Z }.

(** The constructor's inner loop: a first 32-bit draw, then four more, each
    shifted in from the right of a 128-bit accumulator. *)
Definition draw128 (r0 : Z) (rs : list Z) : Z :=
  fold_left (fun v r => Z.lor ((Z.shiftl v 32) mod 2 ^ 128) r) rs r0.

(** [ds] are the successive values of [std::random_device]. *)
Definition TwoIndependentMultiplyShift_new (m0 : Z) (ms : list Z) (a0 : Z) (as_ : list Z)
    : TwoIndependentMultiplyShift :=
  {| multiply_ := draw128 m0 ms; add_ := draw128 a0 as_ |}.

(** [operator()]: 128-bit arithmetic, the high half is the hash. *)
Definition hash_key (h : TwoIndependentMultiplyShift) (key : Z) : Z :=
  u64 (Z.shiftr ((add_ h + multiply_ h * key) mod 2 ^ 128) 64).

Lemma hash_key_range (h : TwoIndependentMultiplyShift) (key : Z) :
  0 <= hash_key h key < 2 ^ 64.
Proof. apply Z.mod_pos_bound. lia. Qed.
