(* ===== verification/Cuckoo.v ===== *)
(** * CuckooFilter

    [multi-cuckoo-index/cuckoo.h] and [multi-cuckoo-index/cuckoo.cc]: a cuckoo
    filter over an [NvmSingleTable].  A key is hashed to a 32-bit value that
    is both its fingerprint and, masked, its home bucket; the alternate bucket
    is computed from the bucket and the fingerprint alone, so a slot can move
    between its two buckets without its key.

    The build defines [NDEBUG]: the assertions of the source are compiled out
    and are not part of the definitions.  The successive values of [rand()]
    are an argument, a function of the iteration that draws them. *)

From Stdlib Require Import String.
From coqutil Require Import Z.bitblast.
From S2P Require Import Prelude Status NvmTable Hashing.

(** ** Definitions *)

Definition upperpower2 (x : Z) : Z :=
  let x := u64 (x - 1) in
  let x := Z.lor x (Z.shiftr x 1) in
  let x := Z.lor x (Z.shiftr x 2) in
  let x := Z.lor x (Z.shiftr x 4) in
  let x := Z.lor x (Z.shiftr x 8) in
  let x := Z.lor x (Z.shiftr x 16) in
  let x := Z.lor x (Z.shiftr x 32) in
  u64 (x + 1).

Definition kMaxCuckoo : nat := 500.

(** The double nearest to 0.96 is [8646911284551352 / 2^53]. *)
Definition maximum_frac_num : Z := 8646911284551352.

(** [(double) n / d / assoc > maximum_frac] for [d * assoc] a power of two and
    [n < 2^53]: both divisions are then exact in double arithmetic. *)
Definition frac_gt_maximum (n d assoc : Z) : bool :=
  maximum_frac_num * (d * assoc) <? n * 2 ^ 53.

Record CuckooFilter := MkFilter {
  table_ : NvmSingleTable;
  alt_table_ : option NvmSingleTable;
  num_items_ : Z;
  max_keys_ : Z;
  num_kicks_ : Z;
  local_id_ : Z;
  global_id_ : Z;
  bits_per_item_ : Z;
  hasher_ : TwoIndependentMultiplyShift;
  is_rehashing_ : bool;
  is_deleting_ : bool
}.

(** The bucket count chosen for [max_keys] keys, in the constructor and in
    [Rehash]. *)
Definition buckets_for (max_keys : Z) : Z :=
  let assoc := 4 in
  let num_buckets := upperpower2 (Z.max 1 (max_keys / assoc)) in
  if frac_gt_maximum max_keys num_buckets assoc
  then u64 (Z.shiftl num_buckets 1) else num_buckets.

Definition CuckooFilter_new (max_num_keys id : Z) (h : TwoIndependentMultiplyShift) : CuckooFilter :=
  {| table_ := NvmSingleTable_new (buckets_for max_num_keys) id 0;
     alt_table_ := None; num_items_ := 0; max_keys_ := max_num_keys;
     num_kicks_ := 0; local_id_ := 1; global_id_ := id; bits_per_item_ := 14;
     hasher_ := h; is_rehashing_ := false; is_deleting_ := false |}.

Definition IndexHash (hashv : Z) (table : NvmSingleTable) : Z :=
  Z.land hashv (u32 (NumBuckets table - 1)).

Definition SlotHash32 (f : CuckooFilter) (hashv : Z) : Z :=
  let fp := u32 (Z.land hashv (2 ^ bits_per_item_ f - 1)) in
  u32 (fp + (if fp =? 0 then 1 else 0)).

Definition SlotHash64 (hashv : Z) : Z :=
  let hashv := Z.shiftr hashv 32 in
  let hashv := hashv + (if hashv =? 0 then 1 else 0) in
  u64 (Z.shiftl hashv 32).

Definition AltIndex (index slot : Z) (table : NvmSingleTable) : Z :=
  IndexHash (u32 (Z.lxor index (u32 (Z.shiftr slot 16 * 0x5bd1e995)))) table.

(** [fp += (fp == 0)] on the high half of the hash. *)
Definition fingerprint (h32 : Z) : Z := u32 (h32 + (if h32 =? 0 then 1 else 0)).

Definition GenerateIndexSlotHash (f : CuckooFilter) (item : Z) : Z * Z :=
  let hash := hash_key (hasher_ f) item in
  let h32 := u32 (Z.shiftr hash 32) in
  (IndexHash h32 (table_ f), fingerprint h32).

(** The counters [AddImpl] updates, with the table it works on. *)
Record AddState := MkAdd { a_table : NvmSingleTable; a_items : Z; a_kicks : Z }.

(** The kick-out loop; [n] iterations are left, [count] is the loop variable. *)
Fixpoint AddImpl_loop (n : nat) (count : Z) (rs : Z -> Z) (st : AddState)
    (cur_index cur_slot : Z) : option (Status * AddState) :=
  match n with
  | O => Some (IOError (bs "failed to insert!"), st)
  | S n' =>
      let kickout := 0 <? count in
      '(s, table, old_slot) ←
        InsertTagToBucketAndCheckDup64 (a_table st) cur_index cur_slot kickout 0 (rs count);
      if ok s then
        Some (OK, {| a_table := table; a_items := u64 (a_items st + 1); a_kicks := a_kicks st |})
      else if IsNotSupportedError s then
        let kicks := if kickout then u64 (a_kicks st + 1) else a_kicks st in
        let cur_slot := if kickout then old_slot else cur_slot in
        let cur_index := AltIndex cur_index (Z.shiftr cur_slot 32) table in
        AddImpl_loop n' (count + 1) rs
          {| a_table := table; a_items := a_items st; a_kicks := kicks |} cur_index cur_slot
      else Some (s, {| a_table := table; a_items := a_items st; a_kicks := a_kicks st |})
  end.

#[global] Arguments kMaxCuckoo : simpl never.

Definition AddImpl (i slot : Z) (rs : Z -> Z) (st : AddState) : option (Status * AddState) :=
  AddImpl_loop kMaxCuckoo 0 rs st i slot.

(** Field updates. *)
Definition set_table (f : CuckooFilter) (t : NvmSingleTable) (items kicks : Z) : CuckooFilter :=
  {| table_ := t; alt_table_ := alt_table_ f; num_items_ := items; max_keys_ := max_keys_ f;
     num_kicks_ := kicks; local_id_ := local_id_ f; global_id_ := global_id_ f;
     bits_per_item_ := bits_per_item_ f; hasher_ := hasher_ f;
     is_rehashing_ := is_rehashing_ f; is_deleting_ := is_deleting_ f |}.

(** The 64-bit slot: fingerprint in the high half, file number in the low. *)
Definition make_slot (fp file_no : Z) : Z := Z.lor (u64 (Z.shiftl fp 32)) file_no.

Definition Add (f : CuckooFilter) (key file_no : Z) (rs : Z -> Z) : option (Status * CuckooFilter) :=
  let '(i, fp) := GenerateIndexSlotHash f key in
  '(s, st) ← AddImpl i (make_slot fp file_no) rs
    {| a_table := table_ f; a_items := num_items_ f; a_kicks := num_kicks_ f |};
  Some (s, set_table f (a_table st) (a_items st) (a_kicks st)).

(** [Contain(key, res)]: [Some (Some res)] is the result [true]. *)
Definition Contain_res (f : CuckooFilter) (key : Z) : option (option Z) :=
  let '(i1, slot) := GenerateIndexSlotHash f key in
  let i2 := AltIndex i1 slot (table_ f) in
  FindSlotInBuckets64 (table_ f) i1 i2 (u64 (Z.shiftl slot 32)).

(** [Contain(key)], once [is_deleting_] is down. *)
Definition Contain (f : CuckooFilter) (key : Z) : option bool :=
  let '(i1, fp) := GenerateIndexSlotHash f key in
  let i2 := AltIndex i1 fp (table_ f) in
  FindSlotInBuckets64_mem (table_ f) i1 i2 (u64 (Z.shiftl fp 32)).

Definition NumKicks (f : CuckooFilter) : Z := num_kicks_ f.

Definition Update (f : CuckooFilter) (key file_no : Z) : option (Status * CuckooFilter) :=
  let '(i1, fp) := GenerateIndexSlotHash f key in
  let i2 := AltIndex i1 fp (table_ f) in
  '(found, t) ← FindSlotInBucketAndUpdate (table_ f) i1 i2 (u64 (Z.shiftl fp 32)) file_no;
  if (found : bool) then Some (OK, set_table f t (num_items_ f) (num_kicks_ f))
  else Some (NotFound (bs "key not found" ++ [Byte.x0a]), f).

Definition IsRehashing (f : CuckooFilter) : bool := is_rehashing_ f.
Definition IsDeleting (f : CuckooFilter) : bool := is_deleting_ f.

Definition SetRehash (f : CuckooFilter) (flag : bool) : CuckooFilter :=
  {| table_ := table_ f; alt_table_ := alt_table_ f; num_items_ := num_items_ f;
     max_keys_ := max_keys_ f; num_kicks_ := num_kicks_ f; local_id_ := local_id_ f;
     global_id_ := global_id_ f; bits_per_item_ := bits_per_item_ f; hasher_ := hasher_ f;
     is_rehashing_ := flag; is_deleting_ := is_deleting_ f |}.

(** The loop nest of [TransferData] over [(bucket, slot index)] pairs; the
    inner loop runs over the buckets.  A failed insertion only trips an
    assertion, which is compiled out.  [rs n] are the values drawn while [n]
    pairs are left. *)
Fixpoint TransferData_loop (old : NvmSingleTable) (total : Z) (ps : list (Z * Z))
    (rs : nat -> Z -> Z) (st : AddState) : option AddState :=
  match ps with
  | [] => Some st
  | (j, i) :: ps' =>
      slot ← Slot old j i;
      if slot =? 0 then TransferData_loop old total ps' rs st
      else
        let index := u32 (IndexHash (u32 (Z.shiftr slot 32)) (a_table st)) in
        '(_, st') ← AddImpl index slot (rs (length ps')) st;
        if a_items st' =? total then Some st'
        else TransferData_loop old total ps' rs st'
  end.

(** The pairs in the order of the two loops. *)
Definition transfer_pairs (t : NvmSingleTable) : list (Z * Z) :=
  i ← seqZ 0 4; j ← seqZ 0 (NumBuckets t); [(j, i)].

Definition TransferData (f : CuckooFilter) (alt : NvmSingleTable) (rs : nat -> Z -> Z)
    : option AddState :=
  TransferData_loop (table_ f) (num_items_ f) (transfer_pairs (table_ f)) rs
    {| a_table := alt; a_items := 0; a_kicks := 0 |}.

Definition Rehash (f : CuckooFilter) (rs : nat -> Z -> Z) : option (Status * CuckooFilter) :=
  let max_keys := u64 (Z.shiftl (max_keys_ f) 1) in
  let alt := NvmSingleTable_new (buckets_for max_keys) (global_id_ f) (local_id_ f) in
  st ← TransferData f alt rs;
  Some (OK, {| table_ := a_table st; alt_table_ := None; num_items_ := a_items st;
               max_keys_ := max_keys; num_kicks_ := a_kicks st;
               local_id_ := u64 (local_id_ f + 1); global_id_ := global_id_ f;
               bits_per_item_ := bits_per_item_ f; hasher_ := hasher_ f;
               is_rehashing_ := false; is_deleting_ := false |}).

(** The double nearest to 0.85 is [7656119366529843 / 2^53]; the number of
    slots is a power of two, so the quotient [GetLoadFactor] is exact for
    fewer than [2^53] items. *)
Definition load_factor_gt_085 (f : CuckooFilter) : bool :=
  7656119366529843 * NumSlots (table_ f) <? num_items_ f * 2 ^ 53.

(** [GetLoadFactor() >= maximal_load_factor_], which is [1.00]. *)
Definition NeedRehash (f : CuckooFilter) : bool := NumSlots (table_ f) <=? num_items_ f.

(** ** [upperpower2] *)

(** [smeared y m z]: bit [i] of [z] is set when [y] has a bit among the [m]
    ones starting at [i]. *)
Definition smeared (y m z : Z) : Prop :=
  forall i, 0 <= i -> Z.testbit z i = true <-> exists d, 0 <= d < m /\ Z.testbit y (i + d) = true.

Lemma smeared_one (y : Z) : smeared y 1 y.
Proof.
  intros i Hi. split.
  - intros H. exists 0. rewrite Z.add_0_r. split; [lia|done].
  - intros (d & Hd & H). by replace (i + d) with i in H by lia.
Qed.

Lemma smeared_step (y m z : Z) :
  0 < m -> smeared y m z -> smeared y (2 * m) (Z.lor z (Z.shiftr z m)).
Proof.
  intros Hm Hz i Hi. rewrite Z.lor_spec, Z.shiftr_spec, orb_true_iff by lia.
  rewrite (Hz i), (Hz (i + m)) by lia. split.
  - intros [(d & Hd & H)|(d & Hd & H)].
    + exists d. split; [lia|done].
    + exists (m + d). split; [lia|]. by rewrite Z.add_assoc.
  - intros (d & Hd & H). destruct (Z.lt_ge_cases d m).
    + left. exists d. split; [lia|done].
    + right. exists (d - m). split; [lia|]. by replace (i + m + (d - m)) with (i + d) by lia.
Qed.

Lemma smeared_full (y z : Z) :
  0 < y < 2 ^ 64 -> 0 <= z -> smeared y 64 z -> z = 2 ^ (Z.log2 y + 1) - 1.
Proof.
  intros Hy Hz Hs. pose proof (Z.log2_nonneg y).
  assert (Z.log2 y < 64) by (apply Z.log2_lt_pow2; lia).
  rewrite Z.sub_1_r, <- Z.ones_equiv.
  apply Z.bits_inj'. intros i Hi. apply eq_true_iff_eq. rewrite (Hs i Hi).
  rewrite Z.testbit_ones_nonneg by lia. rewrite Z.ltb_lt. split.
  - intros (d & Hd & Hb). destruct (Z.lt_ge_cases (Z.log2 y) (i + d)); [|lia].
    by rewrite Z.bits_above_log2 in Hb by lia.
  - intros Hi'. exists (Z.log2 y - i). split; [lia|].
    replace (i + (Z.log2 y - i)) with (Z.log2 y) by lia. apply Z.bit_log2. lia.
Qed.

Lemma upperpower2_pow (x : Z) : 1 < x <= 2 ^ 63 -> upperpower2 x = 2 ^ (Z.log2 (x - 1) + 1).
Proof.
  intros Hx. unfold upperpower2, u64. rewrite (Z.mod_small (x - 1)) by lia.
  match goal with |- (?z + 1) mod _ = _ => assert (z = 2 ^ (Z.log2 (x - 1) + 1) - 1) as -> end.
  { apply smeared_full; [lia| |].
    - repeat first [apply Z.lor_nonneg; split | apply Z.shiftr_nonneg]; lia.
    - apply (smeared_step _ 32), (smeared_step _ 16), (smeared_step _ 8),
        (smeared_step _ 4), (smeared_step _ 2), (smeared_step _ 1), smeared_one; done. }
  assert (Z.log2 (x - 1) < 63) by (apply Z.log2_lt_pow2; lia).
  pose proof (Z.log2_nonneg (x - 1)).
  assert (2 ^ (Z.log2 (x - 1) + 1) <= 2 ^ 63) by (apply Z.pow_le_mono_r; lia).
  assert (0 < 2 ^ (Z.log2 (x - 1) + 1)) by (apply Z.pow_pos_nonneg; lia).
  rewrite Z.mod_small; lia.
Qed.

Lemma upperpower2_bounds (x : Z) :
  1 <= x <= 2 ^ 63 -> exists k, 0 <= k <= 63 /\ upperpower2 x = 2 ^ k /\ x <= 2 ^ k < 2 * x.
Proof.
  intros Hx. destruct (Z.eq_dec x 1) as [->|].
  { exists 0. split_and!; try lia. reflexivity. }
  exists (Z.log2 (x - 1) + 1). rewrite upperpower2_pow by lia.
  pose proof (Z.log2_nonneg (x - 1)).
  destruct (Z.log2_spec (x - 1)) as [Hl Hu]; [lia|].
  assert (Z.log2 (x - 1) < 63) by (apply Z.log2_lt_pow2; lia).
  rewrite Z.pow_succ_r in Hu by lia. rewrite Z.pow_add_r, Z.pow_1_r by lia.
  split_and!; try done; lia.
Qed.

(** ** Bucket counts *)

Lemma buckets_for_spec (mk : Z) :
  0 <= mk <= 2 ^ 33 ->
  (exists k, 0 <= k <= 32 /\ buckets_for mk = 2 ^ k)
  /\ frac_gt_maximum mk (buckets_for mk) 4 = false.
Proof.
  intros Hmk. unfold buckets_for.
  assert (4 * (mk / 4) <= mk < 4 * (mk / 4) + 4) as Hdiv.
  { pose proof (Z.div_mod mk 4). pose proof (Z.mod_pos_bound mk 4). lia. }
  destruct (upperpower2_bounds (Z.max 1 (mk / 4))) as (k & Hk & -> & Hle & Hlt); [lia|].
  assert (k <= 31).
  { assert (k < 32); [|lia]. apply (Z.pow_lt_mono_r_iff 2); [lia..|]. lia. }
  assert (0 < 2 ^ k) by (apply Z.pow_pos_nonneg; lia).
  assert (2 ^ k <= 2 ^ 31) by (apply Z.pow_le_mono_r; lia).
  destruct (frac_gt_maximum mk (2 ^ k) 4) eqn:E.
  - assert (u64 (Z.shiftl (2 ^ k) 1) = 2 ^ (k + 1)) as ->.
    { unfold u64. rewrite Z.shiftl_mul_pow2, <- Z.pow_add_r by lia.
      apply Z.mod_small. rewrite Z.pow_add_r, Z.pow_1_r by lia. lia. }
    split; [exists (k + 1); lia|].
    unfold frac_gt_maximum, maximum_frac_num. apply Z.ltb_ge.
    rewrite Z.pow_add_r, Z.pow_1_r by lia. lia.
  - split; [exists k; lia|done].
Qed.

Lemma new_table_wf (n id l k : Z) :
  0 <= k <= 32 -> n = 2 ^ k -> wf_table (NvmSingleTable_new n id l).
Proof.
  intros Hk ->. assert (0 < 2 ^ k) by (apply Z.pow_pos_nonneg; lia).
  split; [by exists k|]. simpl. rewrite length_replicate.
  change kPaddingBuckets_ with 0. split; [lia|].
  apply Forall_replicate. by repeat constructor.
Qed.

Lemma new_table_items (n id l : Z) : items (NvmSingleTable_new n id l) = [].
Proof.
  unfold items; simpl.
  match goal with |- mjoin (imap ?f _) = _ => set (g := f) end.
  assert (forall m (h : nat -> list Z -> list (Z * Z)),
    (forall i, h i (replicate (Z.to_nat kSlotPerBucket_) 0) = []) ->
    mjoin (imap h (replicate m (replicate (Z.to_nat kSlotPerBucket_) 0))) = []) as H.
  { induction m as [|m IH]; intros h Hh; simpl; [done|]. rewrite Hh; simpl. apply IH. intros i. apply Hh. }
  by apply H.
Qed.

(** ** Indices *)

Section index.
Context (t : NvmSingleTable) (Hwf : wf_table t).

Lemma num_buckets_pos : 0 < num_buckets_ t.
Proof. destruct Hwf as [(k & Hk & ->) _]. apply Z.pow_pos_nonneg; lia. Qed.

Lemma IndexHash_mod (h : Z) : IndexHash h t = h mod num_buckets_ t.
Proof.
  destruct Hwf as [(k & Hk & E) _]. unfold IndexHash, NumBuckets, u32. rewrite E.
  rewrite <- (land_mask_mod h) by lia. f_equal.
  assert (0 < 2 ^ k) by (apply Z.pow_pos_nonneg; lia).
  assert (2 ^ k <= 2 ^ 32) by (apply Z.pow_le_mono_r; lia).
  destruct (Z.eq_dec k 32) as [->|]; [reflexivity|].
  assert (2 ^ k < 2 ^ 32) by (apply Z.pow_lt_mono_r; lia).
  rewrite (Z.mod_small (2 ^ k)) by lia. rewrite Z.mod_small; lia.
Qed.

Lemma IndexHash_range (h : Z) : 0 <= IndexHash h t < num_buckets_ t.
Proof. rewrite IndexHash_mod. apply Z.mod_pos_bound, num_buckets_pos. Qed.

(** The alternate bucket is the bucket xor-ed with a mask of the fingerprint. *)
Definition alt_mask (slot : Z) : Z := u32 (Z.shiftr slot 16 * 0x5bd1e995) mod num_buckets_ t.

Lemma AltIndex_lxor (i slot : Z) :
  0 <= i < num_buckets_ t -> AltIndex i slot t = Z.lxor i (alt_mask slot).
Proof.
  intros Hi. unfold AltIndex, alt_mask. rewrite IndexHash_mod.
  destruct Hwf as [(k & Hk & E) _]. rewrite E in *. unfold u32 at 1.
  replace (2 ^ 32) with (2 ^ k * 2 ^ (32 - k)) by (rewrite <- Z.pow_add_r by lia; f_equal; lia).
  assert (0 < 2 ^ k) by (apply Z.pow_pos_nonneg; lia).
  assert (0 < 2 ^ (32 - k)) by (apply Z.pow_pos_nonneg; lia).
  rewrite Z.rem_mul_r by lia.
  rewrite (Z.mul_comm (2 ^ k)), Z.mod_add, Z.mod_mod by lia.
  rewrite lxor_mod_pow2 by lia. by rewrite (Z.mod_small i) by lia.
Qed.

Lemma alt_mask_range (slot : Z) : 0 <= alt_mask slot < num_buckets_ t.
Proof. apply Z.mod_pos_bound, num_buckets_pos. Qed.

Lemma AltIndex_range (i slot : Z) : 0 <= AltIndex i slot t < num_buckets_ t.
Proof. apply IndexHash_range. Qed.

Lemma AltIndex_twice (i slot : Z) :
  0 <= i < num_buckets_ t -> AltIndex (AltIndex i slot t) slot t = i.
Proof.
  intros Hi. rewrite (AltIndex_lxor (AltIndex i slot t)) by apply AltIndex_range.
  rewrite AltIndex_lxor by done. by rewrite Z.lxor_assoc, Z.lxor_nilpotent, Z.lxor_0_r.
Qed.

(** The unordered pair of buckets a fingerprint may be in, by its least
    element. *)
Definition orbit (i fp : Z) : Z := Z.min i (AltIndex i fp t).

Lemma orbit_alt (i fp : Z) :
  0 <= i < num_buckets_ t -> orbit (AltIndex i fp t) fp = orbit i fp.
Proof. intros Hi. unfold orbit. rewrite AltIndex_twice by done. apply Z.min_comm. Qed.

Lemma orbit_eq (i i' fp : Z) :
  0 <= i < num_buckets_ t -> 0 <= i' < num_buckets_ t ->
  orbit i fp = orbit i' fp -> i' = i \/ i' = AltIndex i fp t.
Proof.
  intros Hi Hi' Ho. unfold orbit in Ho.
  pose proof (AltIndex_twice i fp Hi). pose proof (AltIndex_twice i' fp Hi').
  destruct (Z.min_spec i (AltIndex i fp t)) as [[? E1]|[? E1]];
  destruct (Z.min_spec i' (AltIndex i' fp t)) as [[? E2]|[? E2]];
    rewrite E1, E2 in Ho; naive_solver congruence.
Qed.
End index.

(** ** Slots *)

Lemma slot_split (s : Z) :
  0 <= s < 2 ^ 64 ->
  0 <= Z.shiftr s 32 < 2 ^ 32
  /\ Z.land s FP_MASK64 = Z.shiftl (Z.shiftr s 32) 32
  /\ u32 (Z.land s (not64 FP_MASK64)) = s mod 2 ^ 32.
Proof.
  intros Hs. split_and!.
  - rewrite Z.shiftr_nonneg. lia.
  - rewrite Z.shiftr_div_pow2 by lia. apply Z.div_lt_upper_bound; lia.
  - change FP_MASK64 with (Z.shiftl (Z.ones 32) 32).
    apply Z.bits_inj'. intros n Hn. rewrite Z.land_spec, !Z.shiftl_spec by lia.
    destruct (Z.lt_ge_cases n 32).
    { rewrite !(Z.testbit_neg_r _ (n - 32)) by lia. apply andb_false_r. }
    rewrite Z.shiftr_spec, Z.testbit_ones_nonneg by lia.
    replace (n - 32 + 32) with n by lia.
    destruct (Z.ltb_spec (n - 32) 32); [apply andb_true_r|].
    rewrite andb_false_r. replace s with (s mod 2 ^ 64) by (apply Z.mod_small; lia).
    by rewrite Z.mod_pow2_bits_high by lia.
  - change (not64 FP_MASK64) with (2 ^ 32 - 1). rewrite land_mask_mod by lia.
    apply Z.mod_mod. lia.
Qed.

Lemma shiftl32_inj (a b : Z) : Z.shiftl a 32 = Z.shiftl b 32 -> a = b.
Proof. rewrite !Z.shiftl_mul_pow2 by lia. lia. Qed.

Lemma COLLISION_fp (s s' : Z) :
  0 <= s < 2 ^ 64 -> 0 <= s' < 2 ^ 64 ->
  COLLISION s s' = true -> Z.shiftr s 32 = Z.shiftr s' 32.
Proof.
  intros Hs Hs'. unfold COLLISION. rewrite Z.eqb_eq.
  destruct (slot_split s Hs) as (_ & -> & _). destruct (slot_split s' Hs') as (_ & -> & _).
  apply shiftl32_inj.
Qed.

Lemma u64_shiftl32 (fp : Z) : 0 <= fp < 2 ^ 32 -> u64 (Z.shiftl fp 32) = fp * 2 ^ 32.
Proof. intros H. unfold u64. rewrite Z.shiftl_mul_pow2 by lia. rewrite Z.mod_small; lia. Qed.

Lemma land_fp (s fp : Z) :
  0 <= s < 2 ^ 64 -> 0 <= fp < 2 ^ 32 ->
  Z.land s FP_MASK64 = u64 (Z.shiftl fp 32) <-> Z.shiftr s 32 = fp.
Proof.
  intros Hs Hfp. destruct (slot_split s Hs) as (_ & -> & _).
  rewrite u64_shiftl32, <- Z.shiftl_mul_pow2 by lia. split; [apply shiftl32_inj|by intros ->].
Qed.

Lemma make_slot_spec (fp fn : Z) :
  0 < fp < 2 ^ 32 -> 0 <= fn < 2 ^ 32 ->
  0 < make_slot fp fn < 2 ^ 64 /\ Z.shiftr (make_slot fp fn) 32 = fp
  /\ make_slot fp fn mod 2 ^ 32 = fn.
Proof.
  intros Hfp Hfn. assert (make_slot fp fn = fp * 2 ^ 32 + fn) as ->.
  { unfold make_slot. rewrite u64_shiftl32 by lia.
    rewrite <- lor_shiftl_add by lia. by rewrite Z.shiftl_mul_pow2 by lia. }
  split_and!.
  - lia.
  - lia.
  - rewrite Z.shiftr_div_pow2, Z.div_add_l, Z.div_small by lia. lia.
  - rewrite Z.add_comm, Z.mod_add, Z.mod_small by lia. done.
Qed.

(** ** Contents of a table as a finite map

    A stored slot stands for the entry that maps its bucket pair and
    fingerprint to its file number; this is what a lookup can observe, and
    what moving the slot between its two buckets leaves unchanged. *)

Definition entry (t : NvmSingleTable) (p : Z * Z) : (Z * Z) * Z :=
  ((orbit t p.1 (Z.shiftr p.2 32), Z.shiftr p.2 32), p.2 mod 2 ^ 32).

Definition contents (t : NvmSingleTable) : list ((Z * Z) * Z) := entry t <$> items t.
Definition table_map (t : NvmSingleTable) : gmap (Z * Z) Z := list_to_map (contents t).

(** No two slots share a bucket pair and a fingerprint. *)
Definition unique (t : NvmSingleTable) : Prop := NoDup (contents t).*1.

Lemma entry_same (t t' : NvmSingleTable) :
  num_buckets_ t = num_buckets_ t' -> entry t = entry t'.
Proof. intros E. unfold entry, orbit, AltIndex, IndexHash, NumBuckets. by rewrite E. Qed.

Lemma items_range (t : NvmSingleTable) (i s : Z) :
  wf_table t -> (i, s) ∈ items t -> 0 <= i < num_buckets_ t /\ 0 < s < 2 ^ 64.
Proof.
  intros Hwf Hin. assert (0 <= i) as Hi.
  { unfold items in Hin. apply list_elem_of_join in Hin as (l & Hin & Hl).
    apply list_elem_of_lookup in Hl as [n Hn]. rewrite list_lookup_imap in Hn.
    destruct (buckets_ t !! n); [|done]. injection Hn as <-.
    apply elem_of_cells in Hin as (-> & _). lia. }
  apply elem_of_items in Hin as (Hs & j & Hj & Hr); [|done].
  pose proof (read_range t i j s Hwf Hr). split; [|lia].
  unfold ReadSlot64 in Hr. destruct (buckets_ t !! Z.to_nat i) eqn:E; simpl in Hr; [|done].
  apply lookup_lt_Some in E. destruct Hwf as (_ & Hlen & _). lia.
Qed.

Lemma elem_of_contents (t : NvmSingleTable) (o fp v : Z) :
  ((o, fp), v) ∈ contents t <->
  exists i s, (i, s) ∈ items t /\ o = orbit t i fp /\ fp = Z.shiftr s 32 /\ v = s mod 2 ^ 32.
Proof.
  unfold contents. rewrite list_elem_of_fmap. split.
  - intros ([i s] & E & Hin). unfold entry in E; simpl in E. injection E as -> -> ->. by exists i, s.
  - intros (i & s & Hin & -> & -> & ->). by exists (i, s).
Qed.

(** ** The kick-out loop

    Throughout the loop, the table and the slot in flight together hold the
    entries of the initial table and the new one. *)

Definition s_failed : Status := IOError (bs "failed to insert!").

Definition add_outcome (st : AddState) (e : (Z * Z) * Z) (s : Status) (st' : AddState) : Prop :=
  (s = OK /\ contents (a_table st') ≡ₚ e :: contents (a_table st)
   /\ a_items st' = u64 (a_items st + 1))
  \/ (s = s_failed /\ a_items st' = a_items st
      /\ exists victim, victim :: contents (a_table st') ≡ₚ e :: contents (a_table st)).

Lemma AddImpl_loop_outcome (n : nat) (count : Z) (rs : Z -> Z) (st : AddState) (i slot : Z) :
  wf_table (a_table st) -> 0 <= i < num_buckets_ (a_table st) -> 0 < slot < 2 ^ 64 ->
  NoDup ((entry (a_table st) (i, slot) :: contents (a_table st)).*1) ->
  exists s st', AddImpl_loop n count rs st i slot = Some (s, st')
    /\ wf_table (a_table st') /\ num_buckets_ (a_table st') = num_buckets_ (a_table st)
    /\ add_outcome st (entry (a_table st) (i, slot)) s st'.
Proof.
  revert count st i slot. induction n as [|n IH]; intros count [t items_ kicks] i slot;
    cbn [a_table a_items a_kicks]; intros Hwf Hi Hslot Hnd.
  { eexists _, _. split; [reflexivity|]. split_and!; [done..|]. right. eauto. }
  cbn [AddImpl_loop a_table a_items a_kicks].
  destruct (insert_dup_outcome t i Hwf Hi slot (0 <? count) 0 (rs count)) as
    (s & t' & old & -> & Hwf' & Hn & Hout); [lia|]. cbn [mbind option_bind].
  assert (cell i slot = [(i, slot)]) as Hcell.
  { unfold cell. by destruct (Z.eqb_spec slot 0); [lia|]. }
  pose proof (entry_same t' t Hn) as Hent.
  destruct Hout as [(-> & -> & Hit)|[(-> & -> & -> & s' & Hin & Hc)|[(-> & Hk & Hold & Hin & Hit)|(-> & Hk & -> & ->)]]].
  - simpl. eexists _, _. split; [reflexivity|]. split_and!; [done..|]. left.
    split_and!; [done| |done]. simpl. unfold contents. by rewrite Hent, Hit, Hcell.
  - exfalso. destruct (items_range t i s' Hwf Hin) as [_ Hs'].
    apply COLLISION_fp in Hc; [|lia..].
    rewrite fmap_cons, NoDup_cons in Hnd. destruct Hnd as [Hnd _]. apply Hnd.
    apply list_elem_of_fmap. exists (entry t (i, s')). split.
    + unfold entry; simpl. by rewrite Hc.
    + apply list_elem_of_fmap. by exists (i, s').
  - change (ok s_nospace) with false. change (IsNotSupportedError s_nospace) with true.
    cbv beta iota zeta. rewrite Hk.
    assert (entry t' (AltIndex i (Z.shiftr old 32) t', old) = entry t (i, old)) as Hmove.
    { rewrite <- Hent. unfold entry; simpl. rewrite orbit_alt by (done || lia). done. }
    assert (entry t (i, old) :: contents t' ≡ₚ entry t (i, slot) :: contents t) as Hperm.
    { unfold contents. rewrite Hent, <- !fmap_cons, Hit, Hcell. done. }
    edestruct (IH (count + 1) {| a_table := t'; a_items := items_; a_kicks := u64 (kicks + 1) |}
      (AltIndex i (Z.shiftr old 32) t') old) as (s & st' & -> & Hwf'' & Hn'' & Hout);
      cbn [a_table a_items a_kicks].
    + done.
    + by apply AltIndex_range.
    + done.
    + by rewrite Hmove, Hperm.
    + eexists _, _. split; [reflexivity|]. split_and!; [done|by rewrite Hn''|].
      cbn [a_table] in Hout. rewrite Hmove in Hout.
      destruct Hout as [(-> & Hc & Ha)|(-> & Ha & v & Hv)]; [left|right]; simpl in *.
      * split_and!; [done| |done]. by rewrite Hc.
      * split_and!; [done..|]. exists v. by rewrite Hv.
  - change (ok s_nospace) with false. change (IsNotSupportedError s_nospace) with true.
    cbv beta iota zeta. rewrite Hk.
    assert (entry t (AltIndex i (Z.shiftr slot 32) t, slot) = entry t (i, slot)) as Hmove.
    { unfold entry; simpl. by rewrite orbit_alt. }
    edestruct (IH (count + 1) {| a_table := t; a_items := items_; a_kicks := kicks |}
      (AltIndex i (Z.shiftr slot 32) t) slot) as (s & st' & -> & Hwf'' & Hn'' & Hout);
      cbn [a_table a_items a_kicks].
    + done.
    + by apply AltIndex_range.
    + done.
    + by rewrite Hmove.
    + eexists _, _. split; [reflexivity|]. split_and!; [done..|].
      cbn [a_table] in Hout. by rewrite Hmove in Hout.
Qed.

(** ** Lookups and updates against the map *)

Section lookup.
Context (t : NvmSingleTable) (i fp : Z).
Context (Hwf : wf_table t) (Huniq : unique t).
Context (Hi : 0 <= i < num_buckets_ t) (Hfp : 0 < fp < 2 ^ 32).

Lemma table_map_found (i' s : Z) :
  (i' = i \/ i' = AltIndex i fp t) -> (i', s) ∈ items t -> Z.shiftr s 32 = fp ->
  table_map t !! (orbit t i fp, fp) = Some (s mod 2 ^ 32).
Proof.
  intros Hi' Hin Hs. unfold table_map. apply elem_of_list_to_map_1; [done|].
  apply elem_of_contents. exists i', s. split_and!; [done| |done|done].
  destruct Hi' as [->| ->]; [done|]. by rewrite orbit_alt.
Qed.

Lemma table_map_missing :
  (forall i' s, (i' = i \/ i' = AltIndex i fp t) -> (i', s) ∈ items t -> Z.shiftr s 32 <> fp) ->
  table_map t !! (orbit t i fp, fp) = None.
Proof.
  intros Hno. apply not_elem_of_list_to_map_1. rewrite list_elem_of_fmap.
  intros ([[o fp'] v] & E & Hin). simpl in E. injection E as <- <-.
  apply elem_of_contents in Hin as (i' & s & Hin & Ho & Hs & _).
  apply (Hno i' s); [|done|done]. eapply orbit_eq; [done|done| |done].
  by eapply items_range.
Qed.

Lemma find_bucket (i' : Z) :
  0 <= i' < num_buckets_ t ->
  (exists s, FindSlotInBucket64_loop t i' (u64 (Z.shiftl fp 32)) = Some (Some (s mod 2 ^ 32))
     /\ (i', s) ∈ items t /\ Z.shiftr s 32 = fp)
  \/ (FindSlotInBucket64_loop t i' (u64 (Z.shiftl fp 32)) = Some None
      /\ forall s, (i', s) ∈ items t -> Z.shiftr s 32 <> fp).
Proof.
  intros Hi'.
  assert (u64 (Z.shiftl fp 32) <> 0) by (rewrite u64_shiftl32; lia).
  destruct (find_loop_total t i' Hwf Hi' (u64 (Z.shiftl fp 32))) as [[v|] Hr].
  - left. destruct (find_loop_some t i' Hi' _ _ Hr) as (s & Hin & Hs & ->); [done|].
    destruct (items_range t i' s Hwf Hin) as [_ Hrs].
    exists s. destruct (slot_split s) as (_ & _ & <-); [lia|].
    split_and!; [done..|]. apply land_fp; [lia|lia|done].
  - right. split; [done|]. intros s Hin Hs.
    pose proof (proj1 (find_loop_none t i' Hwf Hi' _ ltac:(done)) Hr s Hin) as Hne.
    destruct (items_range t i' s Hwf Hin) as [_ Hrs].
    apply Hne, land_fp; [lia|lia|done].
Qed.

Lemma find_lookup :
  FindSlotInBuckets64 t i (AltIndex i fp t) (u64 (Z.shiftl fp 32))
  = Some (table_map t !! (orbit t i fp, fp)).
Proof.
  unfold FindSlotInBuckets64.
  destruct (find_bucket i Hi) as [(s & -> & Hin & Hs)|[-> Hno]]; simpl.
  { by rewrite (table_map_found i s) by auto. }
  destruct (find_bucket (AltIndex i fp t)) as [(s & -> & Hin & Hs)|[-> Hno']].
  - by apply AltIndex_range.
  - by rewrite (table_map_found (AltIndex i fp t) s) by auto.
  - rewrite table_map_missing; [done|]. naive_solver.
Qed.

(** Replacing the slot of a stored fingerprint replaces its file number. *)
Lemma table_map_replace (t' : NvmSingleTable) (i' s fn : Z) :
  num_buckets_ t' = num_buckets_ t -> 0 <= fn < 2 ^ 32 ->
  (i' = i \/ i' = AltIndex i fp t) -> (i', s) ∈ items t -> Z.shiftr s 32 = fp ->
  (i', s) :: items t' ≡ₚ (i', make_slot fp fn) :: items t ->
  unique t' /\ table_map t' = <[(orbit t i fp, fp) := fn]> (table_map t).
Proof.
  intros Hn Hfn Hi' Hin Hs Hperm.
  destruct (make_slot_spec fp fn Hfp Hfn) as (_ & Hhi & Hlo).
  assert (orbit t i' fp = orbit t i fp) as Ho by (destruct Hi' as [->| ->]; [done|by rewrite orbit_alt]).
  apply elem_of_Permutation in Hin as [rest Hrest].
  assert (items t' ≡ₚ (i', make_slot fp fn) :: rest) as Hit'.
  { rewrite Hrest in Hperm. apply (Permutation_cons_inv (a := (i', s))). rewrite Hperm. by constructor. }
  assert (contents t' ≡ₚ ((orbit t i fp, fp), fn) :: (entry t <$> rest)) as Hc'.
  { unfold contents. rewrite (entry_same t' t Hn), Hit', fmap_cons.
    unfold entry at 1; simpl. by rewrite Hhi, Hlo, Ho. }
  assert (contents t ≡ₚ ((orbit t i fp, fp), s mod 2 ^ 32) :: (entry t <$> rest)) as Hc.
  { unfold contents. rewrite Hrest, fmap_cons. unfold entry at 1; simpl. by rewrite Hs, Ho. }
  unfold unique in *. rewrite Hc in Huniq. rewrite Hc'. split; [done|].
  assert (table_map t' = list_to_map (((orbit t i fp, fp), fn) :: (entry t <$> rest))) as ->.
  { apply list_to_map_proper; [by rewrite Hc'|done]. }
  assert (table_map t = list_to_map (((orbit t i fp, fp), s mod 2 ^ 32) :: (entry t <$> rest))) as ->.
  { apply list_to_map_proper; [by rewrite Hc|done]. }
  simpl. by rewrite insert_insert_eq.
Qed.

Lemma update_lookup (fn : Z) :
  0 <= fn < 2 ^ 32 ->
  exists found t',
    FindSlotInBucketAndUpdate t i (AltIndex i fp t) (u64 (Z.shiftl fp 32)) fn = Some (found, t')
    /\ wf_table t' /\ unique t' /\ num_buckets_ t' = num_buckets_ t
    /\ length (items t') = length (items t)
    /\ match table_map t !! (orbit t i fp, fp) with
       | Some _ => found = true /\ table_map t' = <[(orbit t i fp, fp) := fn]> (table_map t)
       | None => found = false /\ t' = t
       end.
Proof.
  intros Hfn. unfold FindSlotInBucketAndUpdate.
  assert (0 < u64 (Z.shiftl fp 32) < 2 ^ 64) as Hm by (rewrite u64_shiftl32; lia).
  pose proof (update_loop t i Hwf Hi _ fn Hm Hfn) as Hu1.
  pose proof (update_loop t (AltIndex i fp t) Hwf (AltIndex_range t Hwf i fp) _ fn Hm Hfn) as Hu2.
  assert (forall i' s t', (i' = i \/ i' = AltIndex i fp t) -> (i', s) ∈ items t ->
    Z.land s FP_MASK64 = u64 (Z.shiftl fp 32) -> wf_table t' -> num_buckets_ t' = num_buckets_ t ->
    (i', s) :: items t' ≡ₚ (i', Z.lor (u64 (Z.shiftl fp 32)) fn) :: items t ->
    wf_table t' /\ unique t' /\ num_buckets_ t' = num_buckets_ t
    /\ length (items t') = length (items t)
    /\ match table_map t !! (orbit t i fp, fp) with
       | Some _ => true = true /\ table_map t' = <[(orbit t i fp, fp) := fn]> (table_map t)
       | None => true = false /\ t' = t
       end) as Hfound.
  { intros i' s t' Hi' Hin Hs Hwf' Hn Hperm.
    destruct (items_range t i' s Hwf Hin) as [_ Hrs]. apply land_fp in Hs; [|lia..].
    destruct (table_map_replace t' i' s fn) as [? ?]; [done..|].
    rewrite (table_map_found i' s) by auto. split_and!; try done.
    apply Permutation_length in Hperm. simpl in Hperm. lia. }
  destruct (find_bucket i Hi) as [(s & Hf & Hin & Hs)|[Hf Hno]]; rewrite Hf in Hu1.
  { destruct Hu1 as (s' & t' & -> & Hin' & Hs' & Hwf' & Hn & Hperm); simpl.
    exists true, t'. split; [done|]. by apply (Hfound i s'); [left|..]. }
  rewrite Hu1; simpl.
  destruct (find_bucket (AltIndex i fp t)) as [(s & Hf' & Hin & Hs)|[Hf' Hno']];
    [by apply AltIndex_range|..]; rewrite Hf' in Hu2.
  - destruct Hu2 as (s' & t' & -> & Hin' & Hs' & Hwf' & Hn & Hperm); simpl.
    exists true, t'. split; [done|]. by apply (Hfound (AltIndex i fp t) s'); [right|..].
  - rewrite Hu2; simpl. exists false, t. rewrite table_map_missing by naive_solver.
    by split_and!.
Qed.
End lookup.

(** ** The filter as a finite map *)

Definition h32 (f : CuckooFilter) (key : Z) : Z := u32 (Z.shiftr (hash_key (hasher_ f) key) 32).

(** What the filter knows of a key: its bucket pair and its fingerprint. *)
Definition key_class (f : CuckooFilter) (key : Z) : Z * Z :=
  (orbit (table_ f) (IndexHash (h32 f key) (table_ f)) (fingerprint (h32 f key)),
   fingerprint (h32 f key)).

Definition filter_map (f : CuckooFilter) : gmap (Z * Z) Z := table_map (table_ f).

Definition wf_filter (f : CuckooFilter) : Prop :=
  wf_table (table_ f) /\ unique (table_ f)
  /\ num_items_ f = Z.of_nat (length (items (table_ f))).

Lemma h32_range (f : CuckooFilter) (key : Z) : 0 <= h32 f key < 2 ^ 32.
Proof. apply Z.mod_pos_bound. lia. Qed.

Lemma fingerprint_range (h : Z) : 0 <= h < 2 ^ 32 -> 0 < fingerprint h < 2 ^ 32.
Proof.
  intros Hh. unfold fingerprint, u32.
  destruct (Z.eqb_spec h 0) as [->|]; [by vm_compute|]. rewrite Z.add_0_r, Z.mod_small; lia.
Qed.

Lemma fingerprint_nonzero (h : Z) : 0 < h < 2 ^ 32 -> fingerprint h = h.
Proof.
  intros Hh. unfold fingerprint, u32. destruct (Z.eqb_spec h 0); [lia|].
  rewrite Z.add_0_r, Z.mod_small; lia.
Qed.

Lemma key_fp_range (f : CuckooFilter) (key : Z) : 0 < fingerprint (h32 f key) < 2 ^ 32.
Proof. apply fingerprint_range, h32_range. Qed.

#[local] Hint Resolve key_fp_range h32_range IndexHash_range AltIndex_range : core.

Lemma length_items (t : NvmSingleTable) :
  wf_table t -> Z.of_nat (length (items t)) <= 4 * num_buckets_ t.
Proof.
  intros (_ & <- & Hb). unfold items.
  assert (forall i b, (length (cells i b) <= length b)%nat) as Hcells.
  { intros i b. induction b as [|s b IH]; [done|]. unfold cells in *.
    rewrite bind_cons, length_app, length_cons. unfold cell at 1. destruct (s =? 0); simpl; lia. }
  enough (forall g : nat -> Z,
    Z.of_nat (length (mjoin (imap (fun i b => cells (g i) b) (buckets_ t))))
    <= 4 * Z.of_nat (length (buckets_ t))) as H by apply (H Z.of_nat).
  induction Hb as [|b l [Hlen _] _ IH]; intros g; simpl; [lia|].
  rewrite length_app. specialize (Hcells (g 0%nat) b). specialize (IH (g ∘ S)).
  unfold kSlotPerBucket_ in Hlen. unfold compose in *. lia.
Qed.

Lemma wf_filter_items (f : CuckooFilter) : wf_filter f -> 0 <= num_items_ f < 2 ^ 36.
Proof.
  intros (Hwf & _ & ->). pose proof (length_items _ Hwf).
  destruct Hwf as [(k & Hk & E) _]. rewrite E in H.
  assert (2 ^ k <= 2 ^ 32) by (apply Z.pow_le_mono_r; lia). lia.
Qed.

Lemma Contain_res_lookup (f : CuckooFilter) (key : Z) :
  wf_filter f -> Contain_res f key = Some (filter_map f !! key_class f key).
Proof.
  intros (Hwf & Hu & _).
  apply find_lookup; [done|done|by apply IndexHash_range|apply (key_fp_range f key)].
Qed.

Lemma Contain_lookup (f : CuckooFilter) (key : Z) :
  wf_filter f ->
  Contain f key = Some (bool_decide (is_Some (filter_map f !! key_class f key))).
Proof.
  intros Hf. pose proof (Contain_res_lookup f key Hf) as Hr.
  unfold Contain, Contain_res, GenerateIndexSlotHash in *. cbv zeta iota beta in *.
  rewrite find_mem_find, Hr. simpl. f_equal.
  by destruct (filter_map f !! key_class f key) eqn:E; rewrite ?E.
Qed.

Lemma Update_lookup (f : CuckooFilter) (key fn : Z) :
  wf_filter f -> 0 <= fn < 2 ^ 32 ->
  exists s f', Update f key fn = Some (s, f') /\ wf_filter f' /\ hasher_ f' = hasher_ f
    /\ num_buckets_ (table_ f') = num_buckets_ (table_ f) /\ max_keys_ f' = max_keys_ f
    /\ match filter_map f !! key_class f key with
       | Some _ => s = OK /\ filter_map f' = <[key_class f key := fn]> (filter_map f)
       | None => IsNotFound s = true /\ f' = f
       end.
Proof.
  intros (Hwf & Hu & Hn) Hfn. unfold Update, GenerateIndexSlotHash.
  destruct (update_lookup (table_ f) (IndexHash (h32 f key) (table_ f)) (fingerprint (h32 f key))
    Hwf Hu ltac:(auto) ltac:(auto) fn Hfn) as (found & t' & Hr & Hwf' & Hu' & Hnb & Hlen & Hm).
  fold (h32 f key). rewrite Hr; simpl.
  fold (key_class f key) (filter_map f) in Hm.
  destruct (filter_map f !! key_class f key); destruct Hm as [-> Hm].
  - eexists _, _. split; [done|]. split_and!; try done. unfold wf_filter; simpl. by rewrite Hlen.
  - eexists _, _. split; [done|]. by split_and!.
Qed.

(** ** Insertion *)

Lemma table_map_cons (t t' : NvmSingleTable) (c : Z * Z) (v : Z) :
  unique t -> table_map t !! c = None -> contents t' ≡ₚ (c, v) :: contents t ->
  unique t' /\ table_map t' = <[c := v]> (table_map t).
Proof.
  intros Hu Hc Hp.
  assert (NoDup ((c, v) :: contents t).*1) as Hnd.
  { rewrite fmap_cons. apply NoDup_cons. split; [|done]. by apply not_elem_of_list_to_map_2. }
  unfold unique. rewrite Hp. split; [done|].
  unfold table_map. rewrite (list_to_map_proper (contents t') ((c, v) :: contents t)); [done| |done].
  by rewrite Hp.
Qed.

Lemma table_map_victim (t t' : NvmSingleTable) (c vc : Z * Z) (v vv : Z) :
  unique t -> table_map t !! c = None -> (vc, vv) :: contents t' ≡ₚ (c, v) :: contents t ->
  unique t' /\ <[c := v]> (table_map t) !! vc = Some vv
  /\ table_map t' = delete vc (<[c := v]> (table_map t)).
Proof.
  intros Hu Hc Hp.
  assert (NoDup ((c, v) :: contents t).*1) as Hnd.
  { rewrite fmap_cons. apply NoDup_cons. split; [|done]. by apply not_elem_of_list_to_map_2. }
  assert (NoDup ((vc, vv) :: contents t').*1) as Hnd' by (by rewrite Hp).
  assert (<[c := v]> (table_map t) = <[vc := vv]> (table_map t')) as ->.
  { unfold table_map. rewrite <- !list_to_map_cons.
    by apply list_to_map_proper. }
  rewrite fmap_cons in Hnd'. apply NoDup_cons in Hnd' as [Hv Hu']. split; [done|].
  rewrite lookup_insert_eq. split; [done|]. rewrite delete_insert_id; [done|].
  by apply not_elem_of_list_to_map_1.
Qed.

(** The two ways an insertion ends. *)
Definition filter_added (f f' : CuckooFilter) (c : Z * Z) (fn : Z) (s : Status) : Prop :=
  (s = OK /\ filter_map f' = <[c := fn]> (filter_map f))
  \/ (s = s_failed /\ exists vc, is_Some (<[c := fn]> (filter_map f) !! vc)
      /\ filter_map f' = delete vc (<[c := fn]> (filter_map f))).

Lemma Add_lookup (f : CuckooFilter) (key fn : Z) (rs : Z -> Z) :
  wf_filter f -> 0 <= fn < 2 ^ 32 -> filter_map f !! key_class f key = None ->
  exists s f', Add f key fn rs = Some (s, f') /\ wf_filter f' /\ hasher_ f' = hasher_ f
    /\ num_buckets_ (table_ f') = num_buckets_ (table_ f)
    /\ is_rehashing_ f' = is_rehashing_ f /\ max_keys_ f' = max_keys_ f
    /\ filter_added f f' (key_class f key) fn s.
Proof.
  intros Hf Hfn Hnone. pose proof (wf_filter_items f Hf) as Hbound.
  destruct Hf as (Hwf & Hu & Hn).
  destruct (make_slot_spec (fingerprint (h32 f key)) fn) as (Hs & Hhi & Hlo); [auto|done|].
  set (i := IndexHash (h32 f key) (table_ f)).
  set (slot := make_slot (fingerprint (h32 f key)) fn) in *.
  assert (entry (table_ f) (i, slot) = (key_class f key, fn)) as Hent.
  { unfold entry, key_class; simpl. by rewrite Hhi, Hlo. }
  destruct (AddImpl_loop_outcome kMaxCuckoo 0 rs
    {| a_table := table_ f; a_items := num_items_ f; a_kicks := num_kicks_ f |} i slot)
    as (s & st' & Hr & Hwf' & Hnb & Hout); cbn [a_table a_items a_kicks].
  - done.
  - by apply IndexHash_range.
  - done.
  - rewrite Hent, fmap_cons. apply NoDup_cons. split; [|done]. by apply not_elem_of_list_to_map_2.
  - unfold Add, GenerateIndexSlotHash, AddImpl. fold (h32 f key) i slot. rewrite Hr; simpl.
    eexists _, _. split; [done|]. cbn [a_table] in Hout, Hnb. rewrite Hent in Hout.
    unfold add_outcome in Hout. cbn [a_table a_items] in Hout.
    unfold wf_filter, filter_added, filter_map; simpl.
    destruct Hout as [(-> & Hp & Ha)|(-> & Ha & [vc vv] & Hp)]; rewrite Ha.
    + destruct (table_map_cons _ _ _ _ Hu Hnone Hp) as [? ?].
      split_and!; try done; [|by left]. apply Permutation_length in Hp. simpl in Hp.
      unfold contents in Hp. rewrite !length_fmap in Hp. rewrite Hp, Nat2Z.inj_succ, <- Hn.
      unfold u64. rewrite Z.mod_small; lia.
    + destruct (table_map_victim _ _ _ _ _ _ Hu Hnone Hp) as (? & Hv & ?).
      split_and!; try done; [|right; split; [done|]; exists vc; eauto].
      apply Permutation_length in Hp. simpl in Hp. unfold contents in Hp.
      rewrite !length_fmap in Hp. rewrite Hn. lia.
Qed.

(** ** Properties *)

(** [upperpower2] of a non-zero 64-bit value is the least power of two
    that is not below it. *)
Theorem upperpower2_least (x : Z) :
  1 <= x <= 2 ^ 63 ->
  exists k, 0 <= k <= 63 /\ upperpower2 x = 2 ^ k /\ x <= 2 ^ k /\
    forall j, 0 <= j -> x <= 2 ^ j -> k <= j.
Proof.
  intros Hx. destruct (upperpower2_bounds x Hx) as (k & Hk & -> & Hle & Hlt).
  exists k. split_and!; try done; try lia. intros j Hj Hxj.
  destruct (Z.le_gt_cases k j); [done|].
  assert (2 ^ (j + 1) <= 2 ^ k) by (apply Z.pow_le_mono_r; lia).
  rewrite Z.pow_add_r, Z.pow_1_r in * by lia. lia.
Qed.

Lemma upperpower2_least_witness :
  exists k, 0 <= k <= 63 /\ upperpower2 25000 = 2 ^ k /\ 25000 <= 2 ^ k /\
    forall j, 0 <= j -> 25000 <= 2 ^ j -> k <= j.
Proof. apply upperpower2_least. lia. Defined.

Lemma frac_gt_false (n d a : Z) :
  frac_gt_maximum n d a = false <-> n * 2 ^ 53 <= maximum_frac_num * (d * a).
Proof. unfold frac_gt_maximum. apply Z.ltb_ge. Qed.

(** The number of buckets chosen for [mk] keys is a power of two, so that
    indices can be masked, and with four slots in each bucket the keys fill at
    most the fraction [maximum_frac] (0.96) of the slots. *)
Theorem buckets_capacity (mk : Z) :
  0 <= mk <= 2 ^ 33 ->
  (exists k, 0 <= k <= 32 /\ buckets_for mk = 2 ^ k) /\
  mk * 2 ^ 53 <= maximum_frac_num * (buckets_for mk * 4).
Proof.
  intros Hmk. destruct (buckets_for_spec mk Hmk) as [Hp Hf]. split; [done|].
  by apply frac_gt_false.
Qed.

Lemma buckets_capacity_witness :
  (exists k, 0 <= k <= 32 /\ buckets_for 100000 = 2 ^ k) /\
  100000 * 2 ^ 53 <= maximum_frac_num * (buckets_for 100000 * 4).
Proof. apply buckets_capacity. lia. Defined.

(** The alternate bucket of a slot is in range, and its alternate is the
    bucket one started from, so a slot can be moved without knowing its key. *)
Theorem AltIndex_involution (t : NvmSingleTable) (i fp : Z) :
  wf_table t -> 0 <= i < num_buckets_ t ->
  0 <= AltIndex i fp t < num_buckets_ t /\ AltIndex (AltIndex i fp t) fp t = i.
Proof. intros Hwf Hi. split; [by apply AltIndex_range|by apply AltIndex_twice]. Qed.

Lemma AltIndex_involution_witness :
  0 <= AltIndex 5 0x12345678 (NvmSingleTable_new 8 0 0) < 8 /\
  AltIndex (AltIndex 5 0x12345678 (NvmSingleTable_new 8 0 0)) 0x12345678 (NvmSingleTable_new 8 0 0) = 5.
Proof.
  apply (AltIndex_involution (NvmSingleTable_new 8 0 0)); [|simpl; lia].
  by apply (new_table_wf 8 0 0 3).
Defined.

Lemma filter_new_wf (mk id : Z) (h : TwoIndependentMultiplyShift) :
  0 <= mk <= 2 ^ 33 -> wf_filter (CuckooFilter_new mk id h).
Proof.
  intros Hmk. destruct (buckets_for_spec mk) as [(k & Hk & Ek) _]; [lia|].
  pose proof (new_table_items (buckets_for mk) id 0) as Hit. split_and!; simpl.
  - by eapply new_table_wf.
  - unfold unique, contents. rewrite Hit. constructor.
  - by rewrite Hit.
Qed.

(** A lookup never leaves the table and finds exactly what the filter's
    contents have for the key's class (bucket pair and fingerprint). *)
Theorem Contain_refines (f : CuckooFilter) (key : Z) :
  wf_filter f ->
  Contain_res f key = Some (filter_map f !! key_class f key) /\
  Contain f key = Some (bool_decide (is_Some (filter_map f !! key_class f key))).
Proof. intros Hf. split; [by apply Contain_res_lookup|by apply Contain_lookup]. Qed.

Lemma Contain_refines_witness :
  let f := CuckooFilter_new 8 0 (MkHasher (2 ^ 96) 0) in
  Contain_res f 5 = Some (filter_map f !! key_class f 5) /\
  Contain f 5 = Some (bool_decide (is_Some (filter_map f !! key_class f 5))).
Proof. apply Contain_refines, filter_new_wf. lia. Defined.

(** C10. [Add] of a key whose class is free always terminates within the table,
    keeps the table well formed, and ends in one of two ways: with [OK], and
    the contents have gained exactly the new entry; or with [IOError] after
    [kMaxCuckoo] rounds, and exactly one entry (the one in flight) is
    missing. *)
Theorem Add_refines (f : CuckooFilter) (key fn : Z) (rs : Z -> Z) :
  wf_filter f -> 0 <= fn < 2 ^ 32 -> filter_map f !! key_class f key = None ->
  exists s f', Add f key fn rs = Some (s, f') /\ wf_filter f' /\
    key_class f' key = key_class f key /\
    filter_added f f' (key_class f key) fn s.
Proof.
  intros Hf Hfn Hnone.
  destruct (Add_lookup f key fn rs Hf Hfn Hnone) as (s & f' & Ha & Hf' & Hh & Hn & _ & _ & Hout).
  exists s, f'. split_and!; try done.
  unfold key_class, orbit, AltIndex, h32, IndexHash, NumBuckets. by rewrite Hh, Hn.
Qed.

Lemma Add_refines_witness :
  let f := CuckooFilter_new 8 0 (MkHasher (2 ^ 96) 0) in
  exists s f', Add f 5 7 (fun _ => 0) = Some (s, f') /\ wf_filter f' /\
    key_class f' 5 = key_class f 5 /\ filter_added f f' (key_class f 5) 7 s.
Proof. apply Add_refines; [apply filter_new_wf; lia|lia|by vm_compute]. Defined.

(** [Update] of a stored class replaces its file number and nothing else;
    otherwise it reports [NotFound] and changes nothing. *)
Theorem Update_refines (f : CuckooFilter) (key fn : Z) :
  wf_filter f -> 0 <= fn < 2 ^ 32 ->
  exists s f', Update f key fn = Some (s, f') /\ wf_filter f' /\
    match filter_map f !! key_class f key with
    | Some _ => s = OK /\ filter_map f' = <[key_class f key := fn]> (filter_map f)
    | None => IsNotFound s = true /\ f' = f
    end.
Proof.
  intros Hf Hfn. destruct (Update_lookup f key fn Hf Hfn) as (s & f' & Hu & Hf' & _ & _ & _ & Hout).
  by exists s, f'.
Qed.

Lemma Update_refines_witness :
  let f := CuckooFilter_new 8 0 (MkHasher (2 ^ 96) 0) in
  exists s f', Update f 5 7 = Some (s, f') /\ wf_filter f' /\
    match filter_map f !! key_class f 5 with
    | Some _ => s = OK /\ filter_map f' = <[key_class f 5 := 7]> (filter_map f)
    | None => IsNotFound s = true /\ f' = f
    end.
Proof. apply Update_refines; [apply filter_new_wf; lia|lia]. Defined.

(** A filter with one bucket, and the hash that maps a key to itself. *)
Definition tiny_filter : CuckooFilter := CuckooFilter_new 1 0 (MkHasher (2 ^ 96) 0).

(** The keys [1 .. n] inserted one after the other, with the file number 10
    times the key. *)
Fixpoint add_keys (n : nat) (f : CuckooFilter) : option CuckooFilter :=
  match n with
  | O => Some f
  | S n' => f ← add_keys n' f; '(_, f) ← Add f (Z.of_nat n) (10 * Z.of_nat n) (fun _ => 0); Some f
  end.

(** Inserting into a full filter fails by losing a key that was inserted
    before: four keys fill the single bucket and key 1 is found; the fifth
    insertion reports an error, and afterwards key 1 is no longer found. *)
Theorem Add_failure_drops_stored_key :
  (f ← add_keys 4 tiny_filter;
   '(s, f') ← Add f 5 50 (fun _ => 0);
   before ← Contain_res f 1;
   after ← Contain_res f' 1;
   Some (ok s, before, after)) = Some (false, Some 10, None).
Proof. vm_compute. reflexivity. Qed.
