(* ===== verification/CuckooRehash.v ===== *)
(** * Rehashing a cuckoo filter

    Properties of [CuckooFilter::TransferData] and [CuckooFilter::Rehash]
    (defined in [Cuckoo]): the slots of the old table are re-inserted into a
    larger one, each at the home bucket recomputed from its fingerprint. *)

From S2P Require Import Prelude Status NvmTable Hashing Cuckoo.

(** The non-empty slots the loop nest reads at the given positions. *)
Definition cell_slot (s : Z) : list Z := if s =? 0 then [] else [s].
Definition todo (t : NvmSingleTable) (ps : list (Z * Z)) : list Z :=
  p ← ps; match Slot t p.1 p.2 with Some s => cell_slot s | None => [] end.

(** Where [TransferData] puts a slot: the home bucket of its fingerprint. *)
Definition home_entry (t : NvmSingleTable) (s : Z) : (Z * Z) * Z :=
  entry t (IndexHash (Z.shiftr s 32) t, s).

Definition entry_fp (e : (Z * Z) * Z) : Z := e.1.2.

(** Every slot is in the bucket pair of its fingerprint's home bucket.  This
    holds unless a key with a zero hash value was inserted. *)
Definition homed (t : NvmSingleTable) : Prop :=
  forall i s, (i, s) ∈ items t ->
    orbit t i (Z.shiftr s 32) = orbit t (IndexHash (Z.shiftr s 32) t) (Z.shiftr s 32).

Lemma NoDup_fps (l : list ((Z * Z) * Z)) : NoDup (entry_fp <$> l) -> NoDup l.*1.
Proof.
  intros H. apply (NoDup_fmap_1 snd). by rewrite <- list_fmap_compose.
Qed.

(** One re-insertion: the slot and the table's entries are in the new table or
    lost, and the counter counts those that are in. *)
Lemma transfer_one (rs : Z -> Z) (st : AddState) (s : Z) :
  wf_table (a_table st) -> 0 < s < 2 ^ 64 -> 0 <= a_items st < 2 ^ 64 - 1 ->
  NoDup (Z.shiftr s 32 :: (entry_fp <$> contents (a_table st))) ->
  exists r st1 lost, AddImpl (IndexHash (Z.shiftr s 32) (a_table st)) s rs st = Some (r, st1)
    /\ wf_table (a_table st1) /\ num_buckets_ (a_table st1) = num_buckets_ (a_table st)
    /\ lost ++ contents (a_table st1) ≡ₚ home_entry (a_table st) s :: contents (a_table st)
    /\ a_items st1 + Z.of_nat (length lost) = a_items st + 1 /\ a_items st <= a_items st1.
Proof.
  intros Hwf Hs Hit Hnd. unfold AddImpl, home_entry.
  destruct (AddImpl_loop_outcome kMaxCuckoo 0 rs st (IndexHash (Z.shiftr s 32) (a_table st)) s)
    as (r & st1 & -> & Hwf1 & Hn1 & Hout); [done|by apply IndexHash_range|lia|by apply NoDup_fps|].
  destruct Hout as [(_ & Hc & Ha)|(_ & Ha & v & Hv)].
  - exists r, st1, []. unfold u64 in Ha. rewrite Z.mod_small in Ha by lia.
    split_and!; try done; simpl; lia.
  - exists r, st1, [v]. split_and!; try done; simpl; lia.
Qed.

Lemma home_entry_same (t t' : NvmSingleTable) :
  num_buckets_ t = num_buckets_ t' -> home_entry t = home_entry t'.
Proof. intros E. unfold home_entry, IndexHash, NumBuckets. by rewrite E, (entry_same _ _ E). Qed.

Lemma u32_index (t : NvmSingleTable) (h : Z) :
  wf_table t -> u32 (IndexHash h t) = IndexHash h t.
Proof.
  intros Hwf. pose proof (IndexHash_range t Hwf h). destruct Hwf as [(k & Hk & E) _].
  assert (2 ^ k <= 2 ^ 32) by (apply Z.pow_le_mono_r; lia).
  unfold u32. rewrite Z.mod_small; [done|lia].
Qed.

(** Conservation: what is read from the old table and what was in the new one
    is, in the end, in the new table or lost; the counter counts what is in. *)
Lemma TransferData_loop_outcome (old : NvmSingleTable) (total : Z) (ps : list (Z * Z))
    (rs : nat -> Z -> Z) (st : AddState) :
  wf_table (a_table st) ->
  Forall (fun p => exists s, Slot old p.1 p.2 = Some s /\ 0 <= s < 2 ^ 64) ps ->
  NoDup (((fun s => Z.shiftr s 32) <$> todo old ps) ++ (entry_fp <$> contents (a_table st))) ->
  0 <= a_items st -> a_items st + Z.of_nat (length (todo old ps)) <= total < 2 ^ 64 ->
  exists st' lost, TransferData_loop old total ps rs st = Some st'
    /\ wf_table (a_table st') /\ num_buckets_ (a_table st') = num_buckets_ (a_table st)
    /\ lost ++ contents (a_table st')
       ≡ₚ (home_entry (a_table st) <$> todo old ps) ++ contents (a_table st)
    /\ a_items st' + Z.of_nat (length lost) = a_items st + Z.of_nat (length (todo old ps)).
Proof.
  revert st. induction ps as [|[j i] ps IH]; intros st Hwf Hps Hnd Hpos Htot.
  { exists st, []. split_and!; done || lia. }
  apply Forall_cons in Hps as [(s & Hr & Hs) Hps]. cbn [fst snd] in Hr.
  cbn [TransferData_loop]. rewrite Hr. cbn [mbind option_bind].
  assert (todo old ((j, i) :: ps) = cell_slot s ++ todo old ps) as Htd.
  { unfold todo. rewrite bind_cons. cbn [fst snd]. by rewrite Hr. }
  rewrite Htd in *. unfold cell_slot in *.
  destruct (Z.eqb_spec s 0) as [Hs0|Hs0]; [by apply IH|].
  destruct (slot_split s Hs) as (Hfp & _ & _).
  assert (u32 (Z.shiftr s 32) = Z.shiftr s 32) as -> by (unfold u32; by rewrite Z.mod_small).
  rewrite u32_index by done. rewrite length_app in Htot. simpl in Hnd, Htot.
  assert (NoDup (Z.shiftr s 32 :: (entry_fp <$> contents (a_table st)))) as Hnd0.
  { apply NoDup_cons in Hnd as [? ?]. apply NoDup_cons. split; [set_solver|].
    by eapply NoDup_app. }
  destruct (transfer_one (rs (length ps)) st s) as (r & st1 & lost & -> & Hwf1 & Hn1 & Hc1 & Ha1 & Hle1);
    [done|lia|lia|done|]. cbn [mbind option_bind].
  assert (NoDup (((fun s => Z.shiftr s 32) <$> todo old ps) ++ (entry_fp <$> contents (a_table st1)))) as Hnd1.
  { apply (NoDup_drop_middle _ (entry_fp <$> lost)). rewrite <- fmap_app, Hc1, fmap_cons.
    by rewrite <- Permutation_middle. }
  destruct (Z.eqb_spec (a_items st1) total) as [Heq|Hne].
  - assert (todo old ps = []) as -> by (apply length_zero_iff_nil; lia).
    exists st1, lost. by split_and!.
  - destruct (IH st1) as (st' & lost' & -> & Hwf' & Hn' & Hc' & Ha');
      [done|done|done|lia|lia|].
    exists st', (lost ++ lost'). rewrite length_app in *. split_and!; try done; try (simpl; lia).
    rewrite (home_entry_same _ _ Hn1) in Hc'.
    rewrite <- app_assoc, Hc', Permutation_app_swap_app, Hc1. simpl.
    by rewrite <- Permutation_middle.
Qed.

(** The loop nest visits every non-empty slot of the old table once. *)
Lemma todo_transfer_pairs (t : NvmSingleTable) :
  wf_table t -> num_buckets_ t < 2 ^ 32 -> todo t (transfer_pairs t) ≡ₚ (items t).*2.
Proof.
  intros (Hk & Hlen & Hb) Hlt. unfold todo, transfer_pairs.
  assert (NumBuckets t = Z.of_nat (length (buckets_ t))) as ->.
  { unfold NumBuckets, u32. rewrite Z.mod_small; lia. }
  rewrite bind_bind. etrans; [|etrans; [apply (bind_swap_perm (seqZ 0 4)
    (seqZ 0 (Z.of_nat (length (buckets_ t))))
    (fun i j => match Slot t j i with Some s => cell_slot s | None => [] end))|]].
  { apply reflexive_eq, Forall_bind_ext, Forall_true. intros i.
    rewrite bind_bind. apply Forall_bind_ext, Forall_true. intros j. apply bind_singleton. }
  unfold items.
  assert (forall (g : nat -> Z) l, (mjoin (imap (fun i b => cells (g i) b) l)).*2 = b ← l; b ≫= cell_slot) as Hit.
  { intros g l. revert g. induction l as [|b l IH]; intros g; [done|].
    rewrite imap_cons, bind_cons. cbn [mjoin list_join]. rewrite fmap_app. f_equal.
    - unfold cells. induction b as [|s b IHb]; [done|].
      rewrite !bind_cons, fmap_app, IHb. unfold cell, cell_slot. by destruct (s =? 0).
    - apply (IH (g ∘ S)). }
  rewrite (Hit Z.of_nat), <- (bind_seqZ_lookup (buckets_ t)). apply reflexive_eq.
  apply Forall_bind_ext, Forall_forall. intros j Hj%elem_of_seqZ.
  unfold Slot, ReadSlot64.
  destruct (buckets_ t !! Z.to_nat j) as [b|] eqn:E; cbn [mbind option_bind].
  - eapply Forall_lookup_1 in Hb as [Hlb _]; [|exact E].
    rewrite <- (bind_seqZ_lookup b). by rewrite Hlb.
  - induction (seqZ 0 4); [done|]. by rewrite bind_cons.
Qed.

Lemma homed_NoDup_fps (t : NvmSingleTable) :
  unique t -> homed t -> NoDup ((fun s => Z.shiftr s 32) <$> (items t).*2).
Proof.
  intros Hu Hh. rewrite <- list_fmap_compose.
  assert (((fun s => Z.shiftr s 32) ∘ snd) <$> items t = snd <$> (contents t).*1) as ->.
  { unfold contents. by rewrite <- !list_fmap_compose. }
  apply NoDup_fmap_2_strong; [|done].
  intros [o fp] [o' fp'] Hx Hy Heq. simpl in Heq. subst fp'. f_equal.
  apply list_elem_of_fmap in Hx as ([[? ?] v] & [= <- <-] & Hx).
  apply list_elem_of_fmap in Hy as ([[? ?] v'] & [= <- <-] & Hy).
  apply elem_of_contents in Hx as (i & s & Hx & -> & -> & _).
  apply elem_of_contents in Hy as (i' & s' & Hy & -> & Hs & _).
  rewrite (Hh i s Hx), Hs. symmetry. by apply Hh.
Qed.

Lemma transfer_reads (t : NvmSingleTable) :
  wf_table t -> num_buckets_ t < 2 ^ 32 ->
  Forall (fun p => exists s, Slot t p.1 p.2 = Some s /\ 0 <= s < 2 ^ 64) (transfer_pairs t).
Proof.
  intros Hwf Hlt. apply Forall_forall. intros [j i] Hin. unfold transfer_pairs in Hin.
  apply list_elem_of_bind in Hin as (i' & Hin & Hi%elem_of_seqZ).
  apply list_elem_of_bind in Hin as (j' & Hin & Hj%elem_of_seqZ).
  apply list_elem_of_singleton in Hin as [= -> ->].
  apply read_some; [done| |simpl; lia].
  unfold NumBuckets, u32 in Hj. pose proof (num_buckets_pos t Hwf).
  rewrite Z.mod_small in Hj by lia. simpl. lia.
Qed.

(** A bucket pair and fingerprint of the new table all come from the home
    bucket of a slot of the old one. *)
Lemma homed_from (t : NvmSingleTable) (ss : list Z) (lost : list ((Z * Z) * Z)) :
  lost ++ contents t ≡ₚ home_entry t <$> ss -> homed t.
Proof.
  intros Hp i s Hin.
  assert (entry t (i, s) ∈ home_entry t <$> ss) as Hin'.
  { rewrite <- Hp. apply elem_of_app. right. by apply list_elem_of_fmap_2. }
  apply list_elem_of_fmap in Hin' as (s' & Heq & _).
  unfold home_entry, entry in Heq. simpl in Heq. injection Heq as Ho Hfp _. by rewrite Ho, Hfp.
Qed.

Lemma new_table_buckets (n id l : Z) : num_buckets_ (NvmSingleTable_new n id l) = n.
Proof. done. Qed.

Lemma Rehash_outcome (f : CuckooFilter) (rs : nat -> Z -> Z) :
  wf_filter f -> homed (table_ f) -> num_buckets_ (table_ f) < 2 ^ 32 ->
  0 <= max_keys_ f <= 2 ^ 32 ->
  exists f' lost, Rehash f rs = Some (OK, f') /\ wf_filter f' /\ homed (table_ f')
    /\ hasher_ f' = hasher_ f /\ is_rehashing_ f' = false /\ max_keys_ f' = 2 * max_keys_ f
    /\ num_buckets_ (table_ f') = buckets_for (2 * max_keys_ f)
    /\ lost ++ contents (table_ f') ≡ₚ home_entry (table_ f') <$> (items (table_ f)).*2
    /\ num_items_ f' + Z.of_nat (length lost) = num_items_ f.
Proof.
  intros Hf Hh Hlt Hmk. pose proof (wf_filter_items f Hf) as Hb.
  destruct Hf as (Hwf & Hu & Hn). unfold Rehash.
  assert (u64 (Z.shiftl (max_keys_ f) 1) = 2 * max_keys_ f) as ->.
  { unfold u64. rewrite Z.shiftl_mul_pow2, Z.mod_small by lia. lia. }
  destruct (buckets_for_spec (2 * max_keys_ f)) as [(k & Hk & Ek) _]; [lia|].
  set (alt := NvmSingleTable_new _ _ _).
  assert (wf_table alt) as Hwfa by (by eapply new_table_wf).
  assert (contents alt = []) as Hca by (unfold contents, alt; by rewrite new_table_items).
  pose proof (todo_transfer_pairs _ Hwf Hlt) as Htd.
  destruct (TransferData_loop_outcome (table_ f) (num_items_ f) (transfer_pairs (table_ f)) rs
    {| a_table := alt; a_items := 0; a_kicks := 0 |}) as (st' & lost & Hr & Hwf' & Hnb & Hc & Ha);
    cbn [a_table a_items] in *.
  - done.
  - by apply transfer_reads.
  - rewrite Hca, app_nil_r, Htd. by apply homed_NoDup_fps.
  - done.
  - rewrite Htd, Hn, length_fmap. lia.
  - unfold TransferData. rewrite Hr. cbn [mbind option_bind].
    rewrite Hca, app_nil_r, Htd in Hc. rewrite <- (home_entry_same _ _ Hnb) in Hc.
    rewrite Htd, length_fmap, <- Hn in Ha.
    eexists _, lost. split; [done|]. cbn [table_ num_items_ hasher_ is_rehashing_ max_keys_].
    split; [|split; [exact (homed_from _ _ _ Hc)|split_and!; [reflexivity..|unfold alt in Hnb; by rewrite new_table_buckets in Hnb|exact Hc|exact Ha]]].
    split_and!; cbn [table_ num_items_].
    + done.
    + unfold unique. apply NoDup_fps.
      assert (NoDup (entry_fp <$> (lost ++ contents (a_table st')))) as Hnd.
      { rewrite Hc, <- list_fmap_compose. by apply homed_NoDup_fps. }
      rewrite fmap_app in Hnd. by apply NoDup_app in Hnd as (_ & _ & ?).
    + apply Permutation_length in Hc. rewrite length_app in Hc. unfold contents in Hc.
      rewrite !length_fmap in Hc. lia.
Qed.

(** When nothing is lost, every key with a non-zero hash value is found with
    the same file number as before. *)
Lemma Rehash_lookup (f f' : CuckooFilter) (key : Z) :
  wf_filter f -> wf_filter f' -> homed (table_ f) -> hasher_ f' = hasher_ f ->
  contents (table_ f') ≡ₚ home_entry (table_ f') <$> (items (table_ f)).*2 ->
  h32 f key <> 0 ->
  filter_map f' !! key_class f' key = filter_map f !! key_class f key.
Proof.
  intros (Hwf & Hu & _) (Hwf' & Hu' & _) Hh Hhash Hc Hz.
  assert (h32 f' key = h32 f key) as Eh by (unfold h32; by rewrite Hhash).
  unfold key_class. rewrite Eh, !fingerprint_nonzero by (pose proof (h32_range f key); lia).
  set (h := h32 f key) in *. apply option_eq. intros v. unfold filter_map, table_map.
  rewrite <- !elem_of_list_to_map by done. rewrite Hc, elem_of_contents, list_elem_of_fmap. split.
  - intros (s & Heq & Hin). unfold home_entry, entry in Heq. simpl in Heq.
    injection Heq as _ Hfp Hv. apply list_elem_of_fmap in Hin as ([i s'] & Es & Hin).
    simpl in Es. subst s'. exists i, s. split_and!; try done.
    rewrite Hfp. symmetry. by apply Hh.
  - intros (i & s & Hin & _ & Hfp & Hv). exists s. split.
    + unfold home_entry, entry; simpl. by rewrite <- Hfp, Hv.
    + by apply (list_elem_of_fmap_2 snd _ (i, s)).
Qed.

(** ** Properties *)

Lemma homed_empty (mk id : Z) (h : TwoIndependentMultiplyShift) :
  homed (table_ (CuckooFilter_new mk id h)).
Proof. intros i s Hin. simpl in Hin. rewrite new_table_items in Hin. by apply not_elem_of_nil in Hin. Qed.



(** A key whose hash value is zero does not survive a rehash: it is stored
    in bucket 0 under the fingerprint 1, and the rehash takes the fingerprint
    for its hash value.  With the hash that maps every key to zero, key 7 is
    found before the rehash, the rehash loses nothing, and key 7 is not found
    afterwards. *)
Theorem Rehash_loses_zero_hash :
  ('(s, f) ← Add (CuckooFilter_new 4 0 (MkHasher 0 0)) 7 42 (fun _ => 0);
   '(s', f') ← Rehash f (fun _ _ => 0);
   before ← Contain_res f 7;
   after ← Contain_res f' 7;
   Some (ok s, ok s', num_items_ f, num_items_ f', before, after))
  = Some (true, true, 1, 1, Some 42, None).
Proof. vm_compute. reflexivity. Qed.
