(* ===== verification/FFPage.v ===== *)
(** * FAST-FAIR B+-tree pages

    [multi-cuckoo-index/ff_btreee.h], class [Page]: one 512-byte node of the
    persistent B+-tree that holds the keys whose fingerprint is already taken
    in a cuckoo filter.  A page is an array of (key, pointer) records ended by
    a null pointer, kept sorted by shifting records in place.

    Pointers are addresses in [Z]; 0 is the null pointer.  A read or write
    outside the record array is [None].  The lock-free readers' retry loops
    compare [switch_counter] with itself when no writer runs, so each body is
    executed once.  Cache-line flushes and the [memory_cost] statistics are
    not part of the model. *)

From S2P Require Import Prelude.

(** ** Definitions *)

Definition PAGESIZE : Z := 512.
Definition sizeof_Header : Z := 24.
Definition sizeof_Entry : Z := 16.

Record Entry := MkEntry { key : Z; ptr : Z }.

Definition cardinality : Z := (PAGESIZE - sizeof_Header) / sizeof_Entry.

(** The header fields and the record array. *)
Record Page := MkPage {
  leftmost_ptr : Z;
  sibling_ptr : Z;
  level : Z;
  switch_counter : Z;
  is_deleted : bool;
  last_index : Z;
  records : list Entry
}.

Definition IS_FORWARD (c : Z) : bool := c mod 2 =? 0.

Definition no_records : list Entry := replicate (Z.to_nat cardinality) (MkEntry 0 0).

(** [Page(uint32_t level)]. *)
Definition Page_new (lvl : Z) : Page :=
  {| leftmost_ptr := 0; sibling_ptr := 0; level := lvl; switch_counter := 0;
     is_deleted := false; last_index := -1; records := no_records |}.

(** [Page(Page* left, key, Page* right, uint32_t level)]. *)
Definition Page_new_root (left k right lvl : Z) : Page :=
  {| leftmost_ptr := left; sibling_ptr := 0; level := lvl; switch_counter := 0;
     is_deleted := false; last_index := 0;
     records := <[0%nat := MkEntry k right]> no_records |}.

Definition set_records (p : Page) (rs : list Entry) : Page :=
  {| leftmost_ptr := leftmost_ptr p; sibling_ptr := sibling_ptr p; level := level p;
     switch_counter := switch_counter p; is_deleted := is_deleted p;
     last_index := last_index p; records := rs |}.

Definition set_last_index (p : Page) (i : Z) : Page :=
  {| leftmost_ptr := leftmost_ptr p; sibling_ptr := sibling_ptr p; level := level p;
     switch_counter := switch_counter p; is_deleted := is_deleted p;
     last_index := i; records := records p |}.

Definition set_switch (p : Page) (c : Z) : Page :=
  {| leftmost_ptr := leftmost_ptr p; sibling_ptr := sibling_ptr p; level := level p;
     switch_counter := u8 c; is_deleted := is_deleted p;
     last_index := last_index p; records := records p |}.

Definition set_sibling (p : Page) (s : Z) : Page :=
  {| leftmost_ptr := leftmost_ptr p; sibling_ptr := s; level := level p;
     switch_counter := switch_counter p; is_deleted := is_deleted p;
     last_index := last_index p; records := records p |}.

Definition set_leftmost (p : Page) (a : Z) : Page :=
  {| leftmost_ptr := a; sibling_ptr := sibling_ptr p; level := level p;
     switch_counter := switch_counter p; is_deleted := is_deleted p;
     last_index := last_index p; records := records p |}.

Definition set_deleted (p : Page) : Page :=
  {| leftmost_ptr := leftmost_ptr p; sibling_ptr := sibling_ptr p; level := level p;
     switch_counter := switch_counter p; is_deleted := true;
     last_index := last_index p; records := records p |}.

(** [records[i]] and the assignments to its fields. *)
Definition rec (rs : list Entry) (i : Z) : option Entry :=
  if i <? 0 then None else rs !! Z.to_nat i.

Definition set_ptr (rs : list Entry) (i v : Z) : option (list Entry) :=
  e ← rec rs i; Some (<[Z.to_nat i := MkEntry (key e) v]> rs).

Definition set_key (rs : list Entry) (i k : Z) : option (list Entry) :=
  e ← rec rs i; Some (<[Z.to_nat i := MkEntry k (ptr e)]> rs).

(** The scan of [count] for the end of the records, from [c]; [fuel] bounds
    the number of records read. *)
Fixpoint count_loop (fuel : nat) (rs : list Entry) (forward : bool) (c : Z) : option Z :=
  match fuel with
  | O => None
  | S fuel' =>
      if c <? 0 then Some c
      else
        e ← rec rs c;
        if ptr e =? 0 then Some c
        else count_loop fuel' rs forward (if forward then c + 1 else c - 1)
  end.

Definition count (p : Page) : option Z :=
  let fuel := S (S (length (records p))) in
  c ← count_loop fuel (records p) (IS_FORWARD (switch_counter p)) (last_index p + 1);
  if c <? 0 then count_loop fuel (records p) true 0 else Some c.

(** The search for a duplicate key, from record [i - 1] down to record 0. *)
Fixpoint dup_loop (i : nat) (rs : list Entry) (k : Z) : option (option Z) :=
  match i with
  | O => Some None
  | S i' =>
      e ← rec rs (Z.of_nat i');
      if k =? key e then Some (Some (Z.of_nat i')) else dup_loop i' rs k
  end.

(** The shift loop, from record [i - 1] down to record 0. *)
Fixpoint shift_loop (i : nat) (rs : list Entry) (k v : Z) : option (list Entry) :=
  match i with
  | O => rs ← set_key rs 0 k; set_ptr rs 0 v
  | S i' =>
      e ← rec rs (Z.of_nat i');
      if k <? key e then
        rs ← set_ptr rs (Z.of_nat i) (ptr e);
        rs ← set_key rs (Z.of_nat i) (key e);
        shift_loop i' rs k v
      else
        rs ← set_key rs (Z.of_nat i) k;
        set_ptr rs (Z.of_nat i) v
  end.

(** [insert_key(key, ptr, num_entries, flush, update_last_index)]: the page,
    the returned pointer and the updated [*num_entries]. *)
Definition insert_key (p : Page) (k v n : Z) (update_last_index : bool) : option (Page * Z * Z) :=
  let p := if IS_FORWARD (switch_counter p) then p else set_switch p (switch_counter p + 1) in
  let finish (rs : list Entry) :=
    let p := set_records p rs in
    let p := if update_last_index then set_last_index p n else p in
    Some (p, 0, n + 1) in
  if n =? 0 then
    rs ← set_key (records p) 0 k;
    rs ← set_ptr rs 0 v;
    rs ← set_ptr rs 1 0;
    finish rs
  else
    e ← rec (records p) n;
    rs ← set_ptr (records p) (n + 1) (ptr e);
    dup ← (if leftmost_ptr p =? 0 then dup_loop (Z.to_nat n) rs k else Some None);
    match dup with
    | Some i =>
        e ← rec rs i;
        rs ← set_ptr rs i v;
        Some (set_records p rs, ptr e, n)
    | None =>
        rs ← shift_loop (Z.to_nat n) rs k v;
        finish rs
    end.

(** The loop of [remove_key] over the records from [i] on. *)
Fixpoint remove_loop (fuel : nat) (leftmost : Z) (rs : list Entry) (k i : Z) (shift : bool)
    : option (list Entry * bool) :=
  match fuel with
  | O => None
  | S fuel' =>
      e ← rec rs i;
      if ptr e =? 0 then Some (rs, shift)
      else
        '(rs, shift) ←
          (if negb shift && (key e =? k) then
             left ← (if i =? 0 then Some leftmost else ptr <$> rec rs (i - 1));
             rs ← set_ptr rs i left;
             Some (rs, true)
           else Some (rs, shift));
        rs ←
          (if (shift : bool) then
             e' ← rec rs (i + 1);
             rs ← set_key rs i (key e');
             set_ptr rs i (ptr e')
           else Some rs);
        remove_loop fuel' leftmost rs k (i + 1) shift
  end.

Definition remove_key (p : Page) (k : Z) : option (Page * bool) :=
  let p := if IS_FORWARD (switch_counter p) then set_switch p (switch_counter p + 1) else p in
  '(rs, shift) ← remove_loop (S (length (records p))) (leftmost_ptr p) (records p) k 0 false;
  let p := set_records p rs in
  Some (if (shift : bool) then (set_last_index p (last_index p - 1), true) else (p, false)).
