(* ===== verification/FFEntries.v ===== *)
(** * Sorted lists of entries

    The specification side of the B+-tree: strictly sorted association lists
    of [Entry]s with insertion and lookup, and the position in such a list
    that a descent for a key leads to. *)

From S2P Require Import Prelude FFPage.

#[export] Instance Entry_eq_dec : EqDecision Entry.
Proof. solve_decision. Defined.

(** ** Insertion and lookup *)

(** Insert or replace. *)
Fixpoint ins (k v : Z) (l : list Entry) : list Entry :=
  match l with
  | [] => [MkEntry k v]
  | e :: l' =>
      if k <? key e then MkEntry k v :: l
      else if k =? key e then MkEntry k v :: l'
      else e :: ins k v l'
  end.

(** The pointer stored for a key, 0 if there is none. *)
Fixpoint find (k : Z) (l : list Entry) : Z :=
  match l with
  | [] => 0
  | e :: l' => if k =? key e then ptr e else find k l'
  end.

Definition ltk (a b : Entry) : Prop := key a < key b.
Abbreviation sorted := (StronglySorted ltk).

Definition below (k : Z) (l : list Entry) : Prop := Forall (fun e => key e < k) l.
Definition above (k : Z) (l : list Entry) : Prop := Forall (fun e => k < key e) l.
Definition absent (k : Z) (l : list Entry) : Prop := Forall (fun e => key e <> k) l.

Lemma sorted_app (l1 l2 : list Entry) :
  sorted (l1 ++ l2) <->
  sorted l1 /\ sorted l2 /\ forall a b, a ∈ l1 -> b ∈ l2 -> key a < key b.
Proof.
  induction l1 as [|a l1 IH]; simpl.
  - split; [|tauto]. intros H. split_and!; [constructor|done|]. set_solver.
  - split.
    + intros [Hs Hf]%StronglySorted_inv. apply IH in Hs as (H1 & H2 & H3).
      apply Forall_app in Hf as [Hf1 Hf2]. split_and!; [by constructor|done|].
      intros x y [->|Hx]%elem_of_cons Hy; [|by apply H3].
      by eapply Forall_forall in Hf2.
    + intros ([Hs Hf]%StronglySorted_inv & H2 & H3). constructor.
      * apply IH. split_and!; [done..|]. intros x y Hx Hy. apply H3; [by right|done].
      * apply Forall_app. split; [done|]. apply Forall_forall. intros y Hy.
        apply H3; [by left|done].
Qed.

Lemma below_le (k k' : Z) (l : list Entry) : k <= k' -> below k l -> below k' l.
Proof. intros Hk H. eapply Forall_impl; [exact H|]. intros e. simpl. lia. Qed.

Lemma above_le (k k' : Z) (l : list Entry) : k' <= k -> above k l -> above k' l.
Proof. intros Hk H. eapply Forall_impl; [exact H|]. intros e. simpl. lia. Qed.

Lemma below_absent (k : Z) (l : list Entry) : below k l -> absent k l.
Proof. intros H. eapply Forall_impl; [exact H|]. intros e. simpl. lia. Qed.

Lemma above_absent (k : Z) (l : list Entry) : above k l -> absent k l.
Proof. intros H. eapply Forall_impl; [exact H|]. intros e. simpl. lia. Qed.

Lemma find_absent (k : Z) (l : list Entry) : absent k l -> find k l = 0.
Proof.
  induction 1 as [|e l He _ IH]; simpl; [done|]. destruct (Z.eqb_spec k (key e)); [congruence|done].
Qed.

Lemma find_app (k : Z) (l1 l2 : list Entry) :
  absent k l1 -> find k (l1 ++ l2) = find k l2.
Proof.
  induction 1 as [|e l1 He _ IH]; simpl; [done|].
  destruct (Z.eqb_spec k (key e)); [congruence|done].
Qed.

Lemma find_app_absent (k : Z) (l1 l2 : list Entry) :
  absent k l2 -> find k (l1 ++ l2) = find k l1.
Proof.
  intros H. induction l1 as [|e l1 IH]; simpl; [by apply find_absent|].
  by destruct (k =? key e).
Qed.

Lemma find_mid (k : Z) (l1 l l2 : list Entry) :
  below k l1 -> above k l2 -> find k (l1 ++ l ++ l2) = find k l.
Proof.
  intros H1 H2. rewrite find_app by (by apply below_absent).
  by apply find_app_absent, above_absent.
Qed.

Lemma ins_above (k v : Z) (l : list Entry) : above k l -> ins k v l = MkEntry k v :: l.
Proof. destruct 1 as [|e l He]; simpl; [done|]. by rewrite (proj2 (Z.ltb_lt _ _) He). Qed.

Lemma ins_app_below (k v : Z) (l1 l2 : list Entry) :
  below k l1 -> ins k v (l1 ++ l2) = l1 ++ ins k v l2.
Proof.
  induction 1 as [|e l1 He _ IH]; simpl; [done|].
  destruct (Z.ltb_spec k (key e)); [lia|]. destruct (Z.eqb_spec k (key e)); [lia|].
  by rewrite IH.
Qed.

Lemma ins_app_above (k v : Z) (l1 l2 : list Entry) :
  above k l2 -> ins k v (l1 ++ l2) = ins k v l1 ++ l2.
Proof.
  intros H. induction l1 as [|e l1 IH]; simpl; [by apply ins_above|].
  destruct (k <? key e); [done|]. destruct (k =? key e); [done|]. by rewrite IH.
Qed.

Lemma ins_mid (k v : Z) (l1 l l2 : list Entry) :
  below k l1 -> above k l2 -> ins k v (l1 ++ l ++ l2) = l1 ++ ins k v l ++ l2.
Proof. intros H1 H2. by rewrite ins_app_below, ins_app_above. Qed.

Lemma elem_of_ins (k v : Z) (l : list Entry) (e : Entry) :
  sorted l -> e ∈ ins k v l <-> e = MkEntry k v \/ (e ∈ l /\ key e <> k).
Proof.
  induction l as [|a l IH]; intros Hs; simpl; [set_solver|].
  apply StronglySorted_inv in Hs as [Hs Hf].
  destruct (Z.ltb_spec k (key a)); [|destruct (Z.eqb_spec k (key a)) as [->|]].
  - rewrite !elem_of_cons. split; [|naive_solver]. intros [->|[->|Hin]]; [by left|right..].
    + split; [by left|lia].
    + split; [by right|]. eapply Forall_forall in Hf; [|done]. unfold ltk in Hf. lia.
  - rewrite !elem_of_cons. split; [|naive_solver]. intros [->|Hin]; [by left|right].
    split; [by right|]. eapply Forall_forall in Hf; [|done]. unfold ltk in Hf. lia.
  - rewrite !elem_of_cons, IH by done. naive_solver lia.
Qed.

Lemma ins_sorted (k v : Z) (l : list Entry) : sorted l -> sorted (ins k v l).
Proof.
  induction 1 as [|a l Hs IH Hf]; simpl; [by repeat constructor|].
  destruct (Z.ltb_spec k (key a)); [|destruct (Z.eqb_spec k (key a)) as [->|]].
  - constructor; [by constructor|]. constructor; [done|].
    eapply Forall_impl; [exact Hf|]. unfold ltk; simpl. lia.
  - constructor; [done|]. exact Hf.
  - constructor; [done|]. apply Forall_forall. intros e He.
    apply elem_of_ins in He as [->|[He _]]; [|by eapply Forall_forall in Hf|done].
    unfold ltk; simpl. lia.
Qed.

Lemma find_ins_eq (k v : Z) (l : list Entry) : find k (ins k v l) = v.
Proof.
  induction l as [|a l IH]; simpl; [by rewrite Z.eqb_refl|].
  destruct (k <? key a); simpl; [by rewrite Z.eqb_refl|].
  destruct (Z.eqb_spec k (key a)) as [|Hne]; simpl; [by rewrite Z.eqb_refl|].
  by destruct (Z.eqb_spec k (key a)).
Qed.

Lemma find_ins_ne (k k' v : Z) (l : list Entry) : k' <> k -> find k' (ins k v l) = find k' l.
Proof.
  intros Hne. induction l as [|a l IH]; simpl; [by destruct (Z.eqb_spec k' k)|].
  destruct (k <? key a); simpl; [by destruct (Z.eqb_spec k' k)|].
  destruct (Z.eqb_spec k (key a)) as [->|]; simpl.
  - by destruct (Z.eqb_spec k' (key a)).
  - by rewrite IH.
Qed.

(** ** The entry that covers a key *)

(** [e] is the last entry of the list with a key at most [k]. *)
Definition covers (k : Z) (l1 : list Entry) (e : Entry) (l2 : list Entry) : Prop :=
  key e <= k /\ above k l2.

Lemma covers_exists (k : Z) (e : Entry) (l : list Entry) :
  sorted (e :: l) -> key e <= k ->
  exists l1 e' l2, e :: l = l1 ++ e' :: l2 /\ covers k l1 e' l2.
Proof.
  revert e. induction l as [|b l IH]; intros e Hs He.
  { exists [], e, []. repeat split; [done|constructor]. }
  destruct (Z.le_gt_cases (key b) k).
  - apply StronglySorted_inv in Hs as [Hs _].
    destruct (IH b Hs H) as (l1 & e' & l2 & -> & Hc). by exists (e :: l1), e', l2.
  - exists [], e, (b :: l). repeat split; [done|].
    apply StronglySorted_inv in Hs as [Hs _]. apply StronglySorted_inv in Hs as [_ Hf].
    constructor; [lia|]. eapply Forall_impl; [exact Hf|]. unfold ltk. simpl. lia.
Qed.

Lemma covers_unique (k : Z) (l1 l1' l2 l2' : list Entry) (e e' : Entry) :
  sorted (l1 ++ e :: l2) -> l1 ++ e :: l2 = l1' ++ e' :: l2' ->
  covers k l1 e l2 -> covers k l1' e' l2' -> l1 = l1' /\ e = e' /\ l2 = l2'.
Proof.
  intros Hs Heq [He Ha] [He' Ha'].
  assert (below (k + 1) l1 /\ below (k + 1) l1') as [Hb Hb'].
  { split; apply Forall_forall; intros x Hx.
    - apply sorted_app in Hs as (_ & _ & Hs). specialize (Hs x e Hx). set_solver by lia.
    - rewrite Heq in Hs. apply sorted_app in Hs as (_ & _ & Hs).
      specialize (Hs x e' Hx). set_solver by lia. }
  clear Hs. revert l1' Heq Hb'. induction l1 as [|a l1 IH]; intros [|a' l1'] Heq Hb'; simpl in *.
  - by injection Heq as -> ->.
  - injection Heq as <- ->. apply Forall_app in Ha as [_ Ha]. inversion Ha; subst. lia.
  - injection Heq as -> <-. apply Forall_app in Ha' as [_ Ha']. inversion Ha'; subst. lia.
  - injection Heq as <- Heq. inversion Hb; subst. inversion Hb'; subst.
    destruct (IH ltac:(done) l1' Heq ltac:(done)) as (-> & -> & ->). done.
Qed.
