(* ===== verification/FFBtree.v ===== *)
(** * FAST-FAIR B+-tree

    [multi-cuckoo-index/ff_btreee.h] (the members of [Page] that follow
    pointers) and [multi-cuckoo-index/ff_btreee.cc] (class [FFBtree]): a
    B-link tree of pages in persistent memory.  The heap maps the address of
    every allocated page to its contents.

    [pmalloc] stands for the allocator: given the addresses in use it returns
    one that is not.  [live] are the addresses of the client's own objects.
    Fuel bounds the loops and the recursion that follow pointers; [height] is
    what a well-formed tree needs. *)

From S2P Require Import Prelude FFPage.

(** ** Searching a page *)

Abbreviation heap_t := (gmap Z Page).

(** Forward scan of a leaf from record [i], [i >= 1]. *)
Fixpoint leaf_fwd (fuel : nat) (rs : list Entry) (k i : Z) : option Z :=
  match fuel with
  | O => None
  | S fuel' =>
      e ← rec rs i;
      if ptr e =? 0 then Some 0
      else if key e =? k then
        e' ← rec rs (i - 1);
        if ptr e' =? ptr e then leaf_fwd fuel' rs k (i + 1) else Some (ptr e)
      else leaf_fwd fuel' rs k (i + 1)
  end.

(** Backward scan of a leaf from record [i] down to record 1. *)
Fixpoint leaf_bwd (i : nat) (rs : list Entry) (k : Z) : option Z :=
  match i with
  | O => Some 0
  | S i' =>
      e ← rec rs (Z.of_nat i);
      if key e =? k then
        e' ← rec rs (Z.of_nat i');
        if (ptr e' =? ptr e) || (ptr e =? 0) then leaf_bwd i' rs k else Some (ptr e)
      else leaf_bwd i' rs k
  end.

(** Forward scan of an internal page from record [i], [i >= 1]. *)
Fixpoint internal_fwd (fuel : nat) (rs : list Entry) (k i : Z) : option Z :=
  match fuel with
  | O => None
  | S fuel' =>
      e ← rec rs i;
      e' ← rec rs (i - 1);
      if ptr e =? 0 then Some (ptr e')
      else if (k <? key e) && negb (ptr e' =? ptr e) then Some (ptr e')
      else internal_fwd fuel' rs k (i + 1)
  end.

(** Backward scan of an internal page from record [i - 1] down to record 0;
    0 when no record qualifies. *)
Fixpoint internal_bwd (i : nat) (leftmost : Z) (rs : list Entry) (k : Z) : option Z :=
  match i with
  | O => Some 0
  | S i' =>
      e ← rec rs (Z.of_nat i');
      if key e <=? k then
        left ← (if Z.of_nat i' =? 0 then Some leftmost else ptr <$> rec rs (Z.of_nat i' - 1));
        if left =? ptr e then internal_bwd i' leftmost rs k else Some (ptr e)
      else internal_bwd i' leftmost rs k
  end.

(** [sibling_ptr && key >= sibling_ptr->records[0].key]. *)
Definition beyond (h : heap_t) (p : Page) (k : Z) : option bool :=
  if sibling_ptr p =? 0 then Some false
  else
    s ← h !! sibling_ptr p;
    e ← rec (records s) 0;
    Some (key e <=? k).

(** [linear_search]. *)
Definition linear_search (h : heap_t) (p : Page) (k : Z) : option Z :=
  let rs := records p in
  let fuel := S (length rs) in
  e0 ← rec rs 0;
  if leftmost_ptr p =? 0 then
    ret ←
      (if IS_FORWARD (switch_counter p) then
         if (key e0 =? k) && negb (ptr e0 =? 0) then Some (ptr e0) else leaf_fwd fuel rs k 1
       else
         n ← count p;
         r ← leaf_bwd (Z.to_nat (n - 1)) rs k;
         if negb (r =? 0) then Some r
         else if (key e0 =? k) && negb (ptr e0 =? 0) then Some (ptr e0) else Some 0);
    if negb (ret =? 0) then Some ret
    else
      b ← beyond h p k;
      Some (if (b : bool) then sibling_ptr p else 0)
  else
    ret ←
      (if IS_FORWARD (switch_counter p) then
         if (k <? key e0) && negb (leftmost_ptr p =? ptr e0) then Some (leftmost_ptr p)
         else internal_fwd fuel rs k 1
       else
         n ← count p;
         internal_bwd (Z.to_nat n) (leftmost_ptr p) rs k);
    b ← beyond h p k;
    Some (if (b : bool) then sibling_ptr p
          else if negb (ret =? 0) then ret else leftmost_ptr p).

(** ** The tree *)

Record FFBtree := MkTree { root : Z; height : Z; heap : heap_t }.

Definition set_page (bt : FFBtree) (a : Z) (p : Page) : FFBtree :=
  {| root := root bt; height := height bt; heap := <[a := p]> (heap bt) |}.

(** [setNewRoot]. *)
Definition setNewRoot (bt : FFBtree) (a : Z) : FFBtree :=
  {| root := a; height := height bt + 1; heap := heap bt |}.

(** [while (p->hdr.leftmost_ptr != NULL) p = p->linear_search(key)]. *)
Fixpoint descend_leaf (fuel : nat) (h : heap_t) (k a : Z) : option Z :=
  match fuel with
  | O => None
  | S fuel' =>
      p ← h !! a;
      if leftmost_ptr p =? 0 then Some a
      else c ← linear_search h p k; descend_leaf fuel' h k c
  end.

(** [while (p->hdr.level > level) p = p->linear_search(key)]. *)
Fixpoint descend_level (fuel : nat) (h : heap_t) (k a lvl : Z) : option Z :=
  match fuel with
  | O => None
  | S fuel' =>
      p ← h !! a;
      if lvl <? level p then c ← linear_search h p k; descend_level fuel' h k c lvl
      else Some a
  end.

(** The second loop of [Search], along the leaves. *)
Fixpoint search_loop (fuel : nat) (h : heap_t) (k a : Z) : option Z :=
  match fuel with
  | O => None
  | S fuel' =>
      p ← h !! a;
      t ← linear_search h p k;
      if t =? sibling_ptr p then
        if t =? 0 then Some t else search_loop fuel' h k t
      else Some t
  end.

Definition Search (bt : FFBtree) (k : Z) : option Z :=
  a ← descend_leaf (S (Z.to_nat (height bt))) (heap bt) k (root bt);
  search_loop (S (size (heap bt))) (heap bt) k a.

(** The migration loop of [store]: records [i .. i + n - 1] go to [sib]. *)
Fixpoint migrate (n : nat) (rs : list Entry) (i : Z) (sib : Page) (cnt : Z) : option (Page * Z) :=
  match n with
  | O => Some (sib, cnt)
  | S n' =>
      e ← rec rs i;
      '(sib, _, cnt) ← insert_key sib (key e) (ptr e) cnt true;
      migrate n' rs (i + 1) sib cnt
  end.

(** The split of a full page [p] with [num] records in [store]: the page and
    its new right sibling, which is at address [sib_addr], with the new record
    in one of them. *)
Definition split_page (p : Page) (num k right sib_addr : Z) : option (Page * Page * Z) :=
  let m := num / 2 in
  em ← rec (records p) m;
  let split_key := key em in
  '(sib, sibling_cnt) ←
    (if leftmost_ptr p =? 0 then
       migrate (Z.to_nat (num - m)) (records p) m (Page_new (level p)) 0
     else
       '(sib, c) ← migrate (Z.to_nat (num - m - 1)) (records p) (m + 1) (Page_new (level p)) 0;
       Some (set_leftmost sib (ptr em), c));
  let sib := set_sibling sib (sibling_ptr p) in
  let p := set_sibling p sib_addr in
  let p := set_switch p (switch_counter p + (if IS_FORWARD (switch_counter p) then 2 else 1)) in
  rs ← set_ptr (records p) m 0;
  let p := set_last_index (set_records p rs) (m - 1) in
  let num_entries := last_index p + 1 in
  if k <? split_key then
    '(p, _, _) ← insert_key p k right num_entries true;
    Some (p, sib, split_key)
  else
    '(sib, _, _) ← insert_key sib k right sibling_cnt true;
    Some (p, sib, split_key).

Section tree.
Context (pmalloc : gset Z -> Z).

Definition new_page (live : gset Z) (bt : FFBtree) (p : Page) : FFBtree * Z :=
  let a := pmalloc (dom (heap bt) ∪ live) in (set_page bt a p, a).

(** [FFBtree()]. *)
Definition FFBtree_new (live : gset Z) : FFBtree :=
  let a := pmalloc live in
  {| root := a; height := 1; heap := {[ a := Page_new 0 ]} |}.

(** [Page::store] and [FFBtree::InsertInternal].  [upd] tells whether the
    caller passed a non-null [upd_ptr]; the results are the tree, the page
    returned and [*upd_ptr]. *)
Fixpoint store (n : nat) (live : gset Z) (bt : FFBtree) (a k right : Z) (upd : bool)
    : option (FFBtree * Z * Z) :=
  match n with
  | O => None
  | S n' =>
      p ← heap bt !! a;
      hop ← (if sibling_ptr p =? 0 then Some false
             else
               s ← heap bt !! sibling_ptr p;
               e ← rec (records s) 0;
               Some (key e <? k));
      if (hop : bool) then store n' live bt (sibling_ptr p) k right false
      else
        num ← count p;
        if num <? cardinality - 1 then
          '(p', old, _) ← insert_key p k right num true;
          if upd then Some (set_page bt a p', a, old) else None
        else if (leftmost_ptr p =? 0) && negb upd then None
        else
          let sib_addr := pmalloc (dom (heap bt) ∪ live) in
          '(p', sib, split_key) ← split_page p num k right sib_addr;
          let bt := set_page (set_page bt sib_addr sib) a p' in
          let ret := if k <? split_key then a else sib_addr in
          if root bt =? a then
            let '(bt, r) := new_page live bt (Page_new_root a split_key sib_addr (level p + 1)) in
            Some (setNewRoot bt r, ret, 0)
          else
            '(bt, _) ← InsertInternal n' live bt split_key sib_addr (level p + 1);
            Some (bt, ret, 0)
  end
with InsertInternal (n : nat) (live : gset Z) (bt : FFBtree) (k right lvl : Z)
    : option (FFBtree * Z) :=
  match n with
  | O => None
  | S n' =>
      r ← heap bt !! root bt;
      if level r <? lvl then Some (bt, 0)
      else
        a ← descend_level (S (Z.to_nat (height bt))) (heap bt) k (root bt) lvl;
        '(bt', ret, v) ← store n' live bt a k right true;
        if ret =? 0 then InsertInternal n' live bt' k right lvl else Some (bt', v)
  end.

(** [FFBtree::Insert]; a null result of [store] restarts it. *)
Fixpoint Insert_fuel (n : nat) (live : gset Z) (bt : FFBtree) (k right : Z) : option (FFBtree * Z) :=
  match n with
  | O => None
  | S n' =>
      a ← descend_leaf (S (Z.to_nat (height bt))) (heap bt) k (root bt);
      '(bt', ret, v) ← store (2 * S (Z.to_nat (height bt))) live bt a k right true;
      if ret =? 0 then Insert_fuel n' live bt' k right else Some (bt', v)
  end.

Definition Insert (live : gset Z) (bt : FFBtree) (k right : Z) : option (FFBtree * Z) :=
  Insert_fuel 1 live bt k right.
End tree.
