(* ===== verification/FFPageSpec.v ===== *)
(** * What the operations of a page do

    [holds p es]: page [p] stores exactly the entries [es].  The in-place
    shifts of [insert_key] implement [ins] on that list, the scans of
    [linear_search] implement [find] and [covers]. *)

From S2P Require Import Prelude FFPage FFEntries FFBtree.

(** ** Records of an array written as a concatenation *)

Section records.
Context (l1 l2 : list Entry) (e : Entry) (i : Z).
Hypothesis (Hi : i = Z.of_nat (length l1)).

Lemma rec_app : rec (l1 ++ e :: l2) i = Some e.
Proof.
  unfold rec. subst i. rewrite (proj2 (Z.ltb_ge _ _)) by lia.
  by rewrite Nat2Z.id, list_lookup_middle.
Qed.

Lemma set_ptr_app (v : Z) : set_ptr (l1 ++ e :: l2) i v = Some (l1 ++ MkEntry (key e) v :: l2).
Proof.
  unfold set_ptr. rewrite rec_app. simpl. subst i. by rewrite Nat2Z.id, insert_app_r_alt, Nat.sub_diag.
Qed.

Lemma set_key_app (k : Z) : set_key (l1 ++ e :: l2) i k = Some (l1 ++ MkEntry k (ptr e) :: l2).
Proof.
  unfold set_key. rewrite rec_app. simpl. subst i. by rewrite Nat2Z.id, insert_app_r_alt, Nat.sub_diag.
Qed.
End records.

Lemma rec_head (e : Entry) (l : list Entry) : rec (e :: l) 0 = Some e.
Proof. done. Qed.

(** ** The entries a page holds *)

Record holds (p : Page) (es : list Entry) : Prop := MkHolds {
  holds_records : exists z rest, records p = es ++ MkEntry z 0 :: rest;
  holds_length : length (records p) = Z.to_nat cardinality;
  holds_last : last_index p = Z.of_nat (length es) - 1;
  holds_forward : IS_FORWARD (switch_counter p) = true;
  holds_ptrs : Forall (fun e => ptr e <> 0) es;
  holds_sorted : sorted es
}.

(** The header fields that insertion leaves alone. *)
Definition same_header (p p' : Page) : Prop :=
  leftmost_ptr p' = leftmost_ptr p /\ sibling_ptr p' = sibling_ptr p /\ level p' = level p.

Lemma holds_bound (p : Page) (es : list Entry) :
  holds p es -> Z.of_nat (length es) <= cardinality - 1.
Proof.
  intros [(z & rest & Hr) Hl _ _ _ _]. rewrite Hr, length_app in Hl. simpl in Hl.
  change (Z.to_nat cardinality) with 30%nat in Hl. change cardinality with 30. lia.
Qed.

Lemma Page_new_holds (lvl : Z) : holds (Page_new lvl) [].
Proof.
  split; try done; [by exists 0, (replicate 29 (MkEntry 0 0))|apply SSorted_nil].
Qed.

Lemma Page_new_root_holds (left k right lvl : Z) :
  right <> 0 -> holds (Page_new_root left k right lvl) [MkEntry k right].
Proof.
  intros Hr. split; try done; [|by repeat constructor..].
  by exists 0, (replicate 28 (MkEntry 0 0)).
Qed.

Lemma count_holds (p : Page) (es : list Entry) :
  holds p es -> count p = Some (Z.of_nat (length es)).
Proof.
  intros [(z & rest & Hr) _ Hl Hf _ _]. unfold count. rewrite Hf, Hl, Hr.
  replace (Z.of_nat (length es) - 1 + 1) with (Z.of_nat (length es)) by lia.
  assert ((Z.of_nat (length es) <? 0) = false) as Hn by (apply Z.ltb_ge; lia).
  cbn [count_loop]. rewrite Hn, (rec_app es _ _ (Z.of_nat (length es))) by done.
  cbn [mbind option_bind ptr]. rewrite Z.eqb_refl. simpl. by rewrite Hn.
Qed.

(** ** Insertion *)

Lemma dup_loop_absent (es l : list Entry) (k : Z) :
  absent k es -> dup_loop (length es) (es ++ l) k = Some None.
Proof.
  revert l. induction es as [|e es IH] using rev_ind; intros l Ha; [done|].
  apply Forall_app in Ha as [Ha He]. inversion He; subst.
  rewrite length_app, Nat.add_1_r. cbn [dup_loop]. rewrite <- app_assoc. simpl.
  rewrite rec_app by done. simpl. destruct (Z.eqb_spec k (key e)); [congruence|]. by apply IH.
Qed.

Lemma dup_loop_present (l1 l2 l : list Entry) (e : Entry) (k : Z) :
  key e = k -> absent k l2 ->
  dup_loop (length (l1 ++ e :: l2)) ((l1 ++ e :: l2) ++ l) k = Some (Some (Z.of_nat (length l1))).
Proof.
  intros He. revert l. induction l2 as [|e' l2 IH] using rev_ind; intros l Ha.
  - rewrite length_app, Nat.add_1_r. cbn [dup_loop]. rewrite <- app_assoc. simpl.
    rewrite rec_app by done. simpl. by destruct (Z.eqb_spec k (key e)).
  - apply Forall_app in Ha as [Ha He']. inversion He'; subst.
    rewrite app_comm_cons, app_assoc, length_app, Nat.add_1_r. cbn [dup_loop].
    rewrite <- app_assoc. simpl. rewrite rec_app by done. simpl.
    destruct (Z.eqb_spec (key e) (key e')); [congruence|]. by apply IH.
Qed.

(** The shift makes room at the gap [x] behind [es] and fills it. *)
Lemma shift_loop_ins (es l : list Entry) (x : Entry) (k v : Z) :
  sorted es -> absent k es ->
  shift_loop (length es) (es ++ x :: l) k v = Some (ins k v es ++ l).
Proof.
  revert x l. induction es as [|e es IH] using rev_ind; intros x l Hs Ha.
  - cbn [shift_loop length]. rewrite (set_key_app []) by done. cbn [mbind option_bind].
    by rewrite (set_ptr_app []).
  - apply Forall_app in Ha as [Ha He]. inversion He; subst.
    apply sorted_app in Hs as (Hs & _ & Hlt).
    rewrite length_app, Nat.add_1_r. cbn [shift_loop].
    assert (Z.of_nat (S (length es)) = Z.of_nat (length (es ++ [e]))) as Hlen
      by (rewrite length_app; simpl; lia).
    rewrite <- app_assoc at 1. cbn [app]. rewrite rec_app by done. cbn [mbind option_bind].
    destruct (Z.ltb_spec k (key e)) as [Hlt'|Hge].
    + rewrite set_ptr_app by done. cbn [mbind option_bind].
      rewrite set_key_app by done. cbn [mbind option_bind]. rewrite <- app_assoc. simpl.
      rewrite IH by done. rewrite ins_app_above, <- app_assoc by (by repeat constructor).
      by destruct e.
    + rewrite set_key_app by done. cbn [mbind option_bind].
      rewrite set_ptr_app by done. simpl.
      rewrite <- (app_nil_r (es ++ [e])) at 2. rewrite ins_app_below.
      * by rewrite <- !app_assoc.
      * apply Forall_app. split; [|constructor; [lia|done]].
        apply Forall_forall. intros a Hin. specialize (Hlt a e Hin ltac:(set_solver)). lia.
Qed.

Lemma sorted_split_key (k : Z) (es : list Entry) :
  sorted es -> absent k es \/
  exists l1 e l2, es = l1 ++ e :: l2 /\ key e = k /\ below k l1 /\ above k l2.
Proof.
  intros Hs. destruct (decide (absent k es)) as [|Hn]; [by left|right].
  apply not_Forall_Exists, Exists_exists in Hn as (e & (l1 & l2 & ->)%list_elem_of_split & He);
    [|intros x; apply _].
  apply dec_stable in He. exists l1, e, l2. subst k.
  apply sorted_app in Hs as (_ & [_ H2]%StronglySorted_inv & H3).
  split_and!; [done..|apply Forall_forall; intros x Hx; apply H3; set_solver|exact H2].
Qed.

Lemma ins_present (k v : Z) (l1 l2 : list Entry) (e : Entry) :
  key e = k -> below k l1 -> ins k v (l1 ++ e :: l2) = l1 ++ MkEntry k v :: l2.
Proof.
  intros <- Hb. rewrite ins_app_below by done. simpl. by rewrite Z.ltb_irrefl, Z.eqb_refl.
Qed.

Lemma find_present (k : Z) (l1 l2 : list Entry) (e : Entry) :
  key e = k -> below k l1 -> find k (l1 ++ e :: l2) = ptr e.
Proof.
  intros <- Hb. rewrite find_app by (by apply below_absent). simpl. by rewrite Z.eqb_refl.
Qed.

Lemma length_ins_absent (k v : Z) (es : list Entry) :
  absent k es -> length (ins k v es) = S (length es).
Proof.
  induction 1 as [|e es He _ IH]; simpl; [done|]. destruct (k <? key e); [done|].
  destruct (Z.eqb_spec k (key e)); [congruence|]. simpl. by rewrite IH.
Qed.

Lemma ins_ptrs (k v : Z) (es : list Entry) :
  sorted es -> v <> 0 -> Forall (fun e => ptr e <> 0) es ->
  Forall (fun e => ptr e <> 0) (ins k v es).
Proof.
  intros Hs Hv Hp. apply Forall_forall. intros e [->|[Hin _]]%elem_of_ins; [done| |done].
  by eapply Forall_forall in Hp.
Qed.

Lemma ins_nonempty (k v : Z) (es : list Entry) : ins k v es <> [].
Proof. destruct es as [|e es]; simpl; [done|]. by destruct (k <? key e), (k =? key e). Qed.

(** A page with room has a free record behind the terminator. *)
Lemma holds_room (p : Page) (es : list Entry) :
  holds p es -> Z.of_nat (length es) < cardinality - 1 ->
  exists z y rest, records p = es ++ MkEntry z 0 :: y :: rest.
Proof.
  intros [(z & [|y rest] & Hr) Hl _ _ _ _] Hroom; [|by exists z, y, rest].
  rewrite Hr, length_app in Hl. change (Z.to_nat cardinality) with 30%nat in Hl.
  change cardinality with 30 in Hroom. simpl in Hl. lia.
Qed.

(** The finished page. *)
Lemma holds_inserted (p p' : Page) (es l : list Entry) (k v z : Z) :
  holds p es -> v <> 0 ->
  records p' = ins k v es ++ MkEntry z 0 :: l -> length (records p') = length (records p) ->
  last_index p' = Z.of_nat (length (ins k v es)) - 1 -> switch_counter p' = switch_counter p ->
  holds p' (ins k v es).
Proof.
  intros [_ Hl _ Hf Hn Hs] Hv Hr Hlen Hi Hsw. split; cbn; try congruence.
  - by exists z, l.
  - by apply ins_ptrs.
  - by apply ins_sorted.
Qed.

Lemma insert_key_absent (p : Page) (es : list Entry) (k v : Z) :
  holds p es -> v <> 0 -> Z.of_nat (length es) < cardinality - 1 -> absent k es ->
  exists p', insert_key p k v (Z.of_nat (length es)) true
               = Some (p', 0, Z.of_nat (length (ins k v es))) /\
    holds p' (ins k v es) /\ same_header p p'.
Proof.
  intros Hp Hv Hroom Ha. destruct (holds_room _ _ Hp Hroom) as (z & y & rest & Hr).
  pose proof (length_ins_absent k v es Ha) as Hlen. pose proof (holds_sorted _ _ Hp) as Hs.
  unfold insert_key. rewrite (holds_forward _ _ Hp), Hr.
  destruct (Z.eqb_spec (Z.of_nat (length es)) 0) as [H0|H0].
  - destruct es as [|e es']; [|simpl in H0; lia]. eexists. split; [done|]. split; [|done].
    eapply holds_inserted; try done. simpl. by rewrite Hr.
  - rewrite rec_app by done. cbn [mbind option_bind ptr].
    rewrite (cons_middle _ es), app_assoc, set_ptr_app by (rewrite length_app; simpl; lia).
    rewrite <- app_assoc. cbn [mbind option_bind app]. rewrite Nat2Z.id.
    rewrite dup_loop_absent by done.
    assert ((if leftmost_ptr p =? 0 then Some None else Some None) = Some (@None Z)) as ->
      by (by destruct (leftmost_ptr p =? 0)).
    cbn [mbind option_bind]. rewrite shift_loop_ins, Hlen by done. cbn [mbind option_bind].
    eexists. split; [by rewrite Nat2Z.inj_succ|]. split; [|done].
    eapply holds_inserted; try done; simpl.
    + rewrite Hr, !length_app, Hlen. simpl. lia.
    + rewrite Hlen. lia.
Qed.

Lemma insert_key_present (p : Page) (l1 l2 : list Entry) (e : Entry) (k v : Z) :
  let es := l1 ++ e :: l2 in
  holds p es -> v <> 0 -> Z.of_nat (length es) < cardinality - 1 -> leftmost_ptr p = 0 ->
  key e = k -> below k l1 -> above k l2 ->
  exists p', insert_key p k v (Z.of_nat (length es)) true
               = Some (p', ptr e, Z.of_nat (length (ins k v es))) /\
    holds p' (ins k v es) /\ same_header p p'.
Proof.
  intros es Hp Hv Hroom Hlm He Hb1 Hb2.
  destruct (holds_room _ _ Hp Hroom) as (z & y & rest & Hr).
  assert (length (ins k v es) = length es) as Hlen
    by (unfold es; rewrite ins_present, !length_app by done; done).
  unfold insert_key. rewrite (holds_forward _ _ Hp), Hr.
  destruct (Z.eqb_spec (Z.of_nat (length es)) 0) as [H0|H0].
  { unfold es in H0. rewrite length_app in H0. simpl in H0. lia. }
  rewrite rec_app by done. cbn [mbind option_bind ptr].
  rewrite (cons_middle _ es), app_assoc, set_ptr_app by (rewrite length_app; simpl; lia).
  rewrite <- app_assoc. cbn [mbind option_bind app]. rewrite Nat2Z.id, Hlm, Z.eqb_refl.
  pose proof (dup_loop_present l1 l2 (MkEntry z 0 :: MkEntry (key y) 0 :: rest) e k He
                (above_absent _ _ Hb2)) as Hd.
  fold es in Hd. rewrite Hd. cbn [mbind option_bind].
  assert (es ++ MkEntry z 0 :: MkEntry (key y) 0 :: rest
          = l1 ++ e :: l2 ++ MkEntry z 0 :: MkEntry (key y) 0 :: rest) as ->
    by (unfold es; by rewrite <- app_assoc).
  rewrite rec_app by done. cbn [mbind option_bind]. rewrite set_ptr_app by done.
  cbn [mbind option_bind]. rewrite Hlen. eexists. split; [done|]. split; [|done].
  eapply holds_inserted; try done; simpl.
  - unfold es. by rewrite ins_present, <- app_assoc, He.
  - rewrite Hr. unfold es. rewrite !length_app. simpl. rewrite !length_app. simpl. lia.
  - rewrite Hlen. apply (holds_last _ _ Hp).
Qed.

(** Insertion in a page with room: the old pointer of a replaced key is
    returned; an internal page is never given a key it has. *)
Lemma insert_key_holds (p : Page) (es : list Entry) (k v : Z) :
  holds p es -> v <> 0 ->
  Z.of_nat (length es) < cardinality - 1 -> (leftmost_ptr p <> 0 -> absent k es) ->
  exists p', insert_key p k v (Z.of_nat (length es)) true
               = Some (p', find k es, Z.of_nat (length (ins k v es))) /\
    holds p' (ins k v es) /\ same_header p p'.
Proof.
  intros Hp Hv Hroom Hint.
  destruct (sorted_split_key k es (holds_sorted _ _ Hp)) as [Ha|(l1 & e & l2 & -> & He & Hb1 & Hb2)].
  - rewrite find_absent by done. by apply insert_key_absent.
  - rewrite find_present by done. apply insert_key_present; try done.
    destruct (Z.eq_dec (leftmost_ptr p) 0) as [|Hn]; [done|].
    specialize (Hint Hn). apply Forall_app in Hint as [_ Hint]. inversion Hint; congruence.
Qed.

(** ** Search within a page *)

(** The scan of a leaf from the records [l2] on, [e'] the record before. *)
Lemma leaf_fwd_find (fuel : nat) (l1 l2 rest : list Entry) (e' : Entry) (z k : Z) :
  (length l2 < fuel)%nat -> NoDup (ptr <$> e' :: l2) -> Forall (fun e => ptr e <> 0) l2 ->
  leaf_fwd fuel (l1 ++ e' :: l2 ++ MkEntry z 0 :: rest) k (Z.of_nat (length l1) + 1)
  = Some (find k l2).
Proof.
  revert fuel l1 e'. induction l2 as [|e l2 IH]; intros [|fuel] l1 e' Hf Hn Hp; simpl in Hf; try lia.
  - cbn [leaf_fwd app]. rewrite (cons_middle e' l1), app_assoc.
    by rewrite (rec_app (l1 ++ [e']) _ _ (Z.of_nat (length l1) + 1))
      by (rewrite length_app; simpl; lia).
  - inversion Hp; subst. cbn [fmap list_fmap] in Hn. apply NoDup_cons in Hn as [Hne Hn].
    cbn [leaf_fwd find].
    assert (l1 ++ e' :: (e :: l2) ++ MkEntry z 0 :: rest
            = (l1 ++ [e']) ++ e :: l2 ++ MkEntry z 0 :: rest) as Hl by (by rewrite <- app_assoc).
    assert (Z.of_nat (length l1) + 1 = Z.of_nat (length (l1 ++ [e']))) as Hi
      by (rewrite length_app; simpl; lia).
    rewrite Hl at 1. rewrite (rec_app (l1 ++ [e']) _ _ _ Hi). cbn [mbind option_bind].
    destruct (Z.eqb_spec (ptr e) 0); [done|].
    rewrite (rec_app l1) by lia. cbn [mbind option_bind].
    rewrite Hl, Hi, (IH fuel (l1 ++ [e'])) by (done || lia).
    rewrite (Z.eqb_sym (key e)). destruct (k =? key e); [|done].
    destruct (Z.eqb_spec (ptr e') (ptr e)) as [Heq|]; [|done]. set_solver.
Qed.

(** The scan of an internal page that has passed [e']. *)
Lemma internal_fwd_covers (fuel : nat) (l1 l2 rest : list Entry) (e' : Entry) (z k : Z) :
  (length l2 < fuel)%nat -> NoDup (ptr <$> e' :: l2) -> Forall (fun e => ptr e <> 0) l2 ->
  sorted (e' :: l2) -> key e' <= k ->
  exists m1 c m2, e' :: l2 = m1 ++ c :: m2 /\ covers k m1 c m2 /\
    internal_fwd fuel (l1 ++ e' :: l2 ++ MkEntry z 0 :: rest) k (Z.of_nat (length l1) + 1)
    = Some (ptr c).
Proof.
  revert fuel l1 e'.
  induction l2 as [|e l2 IH]; intros [|fuel] l1 e' Hf Hn Hp Hs He; simpl in Hf; try lia.
  all: assert (Z.of_nat (length l1) + 1 = Z.of_nat (length (l1 ++ [e']))) as Hi
      by (rewrite length_app; simpl; lia).
  - exists [], e', []. split; [done|]. split; [split; [done|constructor]|].
    cbn [internal_fwd app]. rewrite (rec_app l1 _ _ (_ - 1)) by lia.
    rewrite (cons_middle e' l1), app_assoc. by rewrite (rec_app (l1 ++ [e']) _ _ _ Hi).
  - inversion Hp; subst. apply NoDup_cons in Hn as [Hne Hn].
    pose proof (StronglySorted_inv Hs) as [Hs' Hlt].
    assert (l1 ++ e' :: (e :: l2) ++ MkEntry z 0 :: rest
            = (l1 ++ [e']) ++ e :: l2 ++ MkEntry z 0 :: rest) as Hl by (by rewrite <- app_assoc).
    assert (forall l i, internal_fwd (S fuel) l k i
            = (e ← rec l i; e' ← rec l (i - 1);
               if ptr e =? 0 then Some (ptr e')
               else if (k <? key e) && negb (ptr e' =? ptr e) then Some (ptr e')
               else internal_fwd fuel l k (i + 1))) as Hstep by done.
    rewrite Hstep, Hl, (rec_app (l1 ++ [e']) _ _ _ Hi), <- Hl, (rec_app l1) by lia.
    cbn [mbind option_bind]. destruct (Z.eqb_spec (ptr e) 0); [done|].
    destruct (Z.eqb_spec (ptr e') (ptr e)) as [Heq|_]; [set_solver|]. rewrite andb_true_r.
    destruct (Z.ltb_spec k (key e)) as [Hk|Hk].
    + exists [], e', (e :: l2). split; [done|]. split; [|done]. split; [done|].
      apply StronglySorted_inv in Hs' as [_ Hlt']. constructor; [done|].
      eapply Forall_impl; [exact Hlt'|]. unfold ltk. simpl. lia.
    + destruct (IH fuel (l1 ++ [e']) e) as (m1 & c & m2 & Heq & Hc & Hr); [lia|done..|].
      exists (e' :: m1), c, m2. split; [by rewrite Heq|]. split; [done|]. by rewrite Hl, Hi.
Qed.

(** [linear_search] in a leaf whose range has the key. *)
Lemma leaf_search (h : heap_t) (p : Page) (es : list Entry) (k : Z) :
  holds p es -> leftmost_ptr p = 0 -> NoDup (ptr <$> es) ->
  (es = [] -> records p = no_records) -> beyond h p k = Some false ->
  linear_search h p k = Some (find k es).
Proof.
  intros Hp Hlm Hn Hemp Hb. destruct (holds_records _ _ Hp) as (z & rest & Hr).
  unfold linear_search. rewrite Hlm, Z.eqb_refl, (holds_forward _ _ Hp), Hb.
  destruct es as [|e es].
  { rewrite Hemp by done. change (rec no_records 0) with (Some (MkEntry 0 0)).
    change (leaf_fwd (S (length no_records)) no_records k 1) with (Some 0).
    simpl. by rewrite andb_false_r. }
  rewrite Hr. cbn [app]. rewrite rec_head. cbn [mbind option_bind].
  pose proof (holds_ptrs _ _ Hp) as Hps. inversion Hps; subst.
  destruct (Z.eqb_spec (ptr e) 0); [done|]. rewrite andb_true_r. cbn [find].
  rewrite (Z.eqb_sym (key e)). destruct (k =? key e).
  - simpl. by destruct (Z.eqb_spec (ptr e) 0).
  - pose proof (leaf_fwd_find (S (length (e :: es ++ MkEntry z 0 :: rest))) [] es rest e z k) as Hf.
    change (Z.of_nat (length (@nil Entry)) + 1) with 1 in Hf. cbn [app] in Hf.
    rewrite Hf by (done || (simpl; rewrite length_app; simpl; lia)).
    cbn [mbind option_bind]. by destruct (Z.eqb_spec (find k es) 0) as [->|].
Qed.

(** [linear_search] in an internal page whose range has the key. *)
Lemma internal_search (h : heap_t) (p : Page) (es : list Entry) (lo k : Z) :
  holds p es -> es <> [] -> leftmost_ptr p <> 0 -> NoDup (leftmost_ptr p :: (ptr <$> es)) ->
  sorted (MkEntry lo (leftmost_ptr p) :: es) -> lo <= k -> beyond h p k = Some false ->
  exists m1 c m2, MkEntry lo (leftmost_ptr p) :: es = m1 ++ c :: m2 /\ covers k m1 c m2 /\
    linear_search h p k = Some (ptr c).
Proof.
  intros Hp Hne Hlm Hn Hs Hlo Hb. destruct (holds_records _ _ Hp) as (z & rest & Hr).
  destruct es as [|e es]; [done|]. pose proof (holds_ptrs _ _ Hp) as Hps.
  inversion Hps; subst. apply NoDup_cons in Hn as [Hni Hn].
  pose proof (StronglySorted_inv Hs) as [Hs' Hlt].
  unfold linear_search. rewrite (holds_forward _ _ Hp), Hb, Hr. cbn [app].
  rewrite rec_head. destruct (Z.eqb_spec (leftmost_ptr p) 0); [done|].
  cbn [mbind option_bind].
  destruct (Z.eqb_spec (leftmost_ptr p) (ptr e)) as [Heq|_]; [set_solver|]. rewrite andb_true_r.
  destruct (Z.ltb_spec k (key e)) as [Hk|Hk].
  - exists [], (MkEntry lo (leftmost_ptr p)), (e :: es). split; [done|]. split.
    + split; [done|]. apply StronglySorted_inv in Hs' as [_ Hlt']. constructor; [done|].
      eapply Forall_impl; [exact Hlt'|]. unfold ltk. simpl. lia.
    + simpl. by destruct (Z.eqb_spec (leftmost_ptr p) 0).
  - destruct (internal_fwd_covers (S (length (e :: es ++ MkEntry z 0 :: rest))) [] es rest e z k)
      as (m1 & c & m2 & Heq & Hc & Hf); try done; [simpl; rewrite length_app; simpl; lia|].
    change (Z.of_nat (length (@nil Entry)) + 1) with 1 in Hf. cbn [app] in Hf.
    exists (MkEntry lo (leftmost_ptr p) :: m1), c, m2. split; [by rewrite Heq|]. split; [done|].
    rewrite Hf. cbn [mbind option_bind]. destruct (Z.eqb_spec (ptr c) 0) as [Hz|]; [|done].
    rewrite Heq in Hps. apply Forall_app in Hps as [_ Hps]. by inversion Hps.
Qed.

(** ** Splitting a full page *)

Lemma ins_behind (es : list Entry) (e : Entry) :
  below (key e) es -> ins (key e) (ptr e) es = es ++ [e].
Proof.
  intros H. rewrite <- (app_nil_r es) at 1. rewrite ins_app_below by done. by destruct e.
Qed.

Lemma migrate_holds (l1 l2 rest es : list Entry) (sib : Page) :
  holds sib es -> leftmost_ptr sib = 0 -> sorted (es ++ l2) ->
  Forall (fun e => ptr e <> 0) l2 -> Z.of_nat (length (es ++ l2)) <= cardinality - 1 ->
  exists sib', migrate (length l2) (l1 ++ l2 ++ rest) (Z.of_nat (length l1)) sib (Z.of_nat (length es))
                 = Some (sib', Z.of_nat (length (es ++ l2))) /\
    holds sib' (es ++ l2) /\ same_header sib sib'.
Proof.
  revert l1 es sib. induction l2 as [|e l2 IH]; intros l1 es sib Hs Hlm Hso Hp Hlen.
  { exists sib. by rewrite app_nil_r. }
  inversion Hp; subst. cbn [migrate length app]. rewrite rec_app by done. cbn [mbind option_bind].
  assert (below (key e) es) as Hbe.
  { apply Forall_forall. intros x Hx. apply sorted_app in Hso as (_ & _ & Hso).
    apply (Hso x e); [done|by left]. }
  rewrite length_app in Hlen. simpl in Hlen.
  destruct (insert_key_absent sib es (key e) (ptr e)) as (sib1 & -> & Hs1 & Hh1);
    [done..|lia|by apply below_absent|].
  cbn [mbind option_bind]. rewrite ins_behind in Hs1 |- * by done.
  destruct (IH (l1 ++ [e]) (es ++ [e]) sib1) as (sib2 & Hm & Hs2 & Hh2).
  - done.
  - by destruct Hh1 as [-> _].
  - by rewrite <- app_assoc.
  - done.
  - rewrite <- app_assoc, length_app. simpl. lia.
  - exists sib2. rewrite <- app_assoc in Hs2. rewrite <- !app_assoc in Hm.
    cbn [app] in Hs2, Hm. split.
    + rewrite <- Hm. f_equal. rewrite length_app. simpl. lia.
    + split; [done|]. unfold same_header in *. by intuition congruence.
Qed.

Lemma holds_prefix (p p' : Page) (l1 l2 : list Entry) (e : Entry) (z : Z) (rest : list Entry) :
  holds p (l1 ++ e :: l2) -> records p' = l1 ++ MkEntry z 0 :: rest ->
  length (records p') = length (records p) ->
  last_index p' = Z.of_nat (length l1) - 1 -> IS_FORWARD (switch_counter p') = true ->
  holds p' l1.
Proof.
  intros [_ Hl _ _ Hn Hs] Hr Hlen Hi Hf. apply Forall_app in Hn as [Hn _].
  apply sorted_app in Hs as [Hs _]. split; try done; [by exists z, rest|congruence].
Qed.

Lemma set_switch_forward (c : Z) : IS_FORWARD c = true -> IS_FORWARD (u8 (c + 2)) = true.
Proof.
  unfold IS_FORWARD, u8. rewrite !Z.eqb_eq. intros Hc.
  rewrite (Z.mod_eq c 2) in Hc by lia.
  rewrite Z.mod_mod_divide by (by exists 128).
  replace (c + 2) with ((c / 2 + 1) * 2) by lia. apply Z.mod_mul. lia.
Qed.

(** The page without the records from the split record [em] on. *)
Definition truncated (p : Page) (m : Z) (rs : list Entry) (sib_addr : Z) : Page :=
  set_last_index
    (set_records (set_switch (set_sibling p sib_addr) (switch_counter p + 2)) rs) (m - 1).

Section split.
Context (p : Page) (l1 l2 : list Entry) (em : Entry) (k v sib_addr : Z).
Hypotheses (Hp : holds p (l1 ++ em :: l2))
  (H1 : length l1 = 14%nat) (H2 : length l2 = 14%nat) (Hv : v <> 0)
  (Hint : leftmost_ptr p <> 0 -> absent k (l1 ++ em :: l2)).

(** The records that move, and the leftmost pointer of the new page. *)
Definition moved : list Entry := if leftmost_ptr p =? 0 then em :: l2 else l2.
Definition moved_leftmost : Z := if leftmost_ptr p =? 0 then 0 else ptr em.

Lemma moved_facts :
  sorted moved /\ Forall (fun e => ptr e <> 0) moved /\ (length moved <= 15)%nat /\
  (leftmost_ptr p <> 0 -> absent k moved).
Proof.
  destruct Hp as [_ _ _ _ Hn Hs]. apply sorted_app in Hs as (_ & Hs & _).
  apply Forall_app in Hn as [_ Hn]. pose proof (StronglySorted_inv Hs) as [Hs' _].
  inversion Hn; subst. unfold moved. destruct (Z.eqb_spec (leftmost_ptr p) 0); simpl.
  - split_and!; [done..|lia|lia].
  - split_and!; [done..|lia|]. intros Hl. apply Hint in Hl as Ha.
    apply Forall_app in Ha as [_ Ha]. by inversion Ha.
Qed.

(** The sibling after the migration. *)
Lemma split_sibling (z : Z) (rest : list Entry) :
  exists sib c,
    (if leftmost_ptr p =? 0 then
       migrate (Z.to_nat (29 - 14)) (l1 ++ em :: l2 ++ MkEntry z 0 :: rest) 14 (Page_new (level p)) 0
     else
       '(sib, c) ← migrate (Z.to_nat (29 - 14 - 1)) (l1 ++ em :: l2 ++ MkEntry z 0 :: rest) (14 + 1)
                     (Page_new (level p)) 0;
       Some (set_leftmost sib (ptr em), c)) = Some (sib, c) /\
    c = Z.of_nat (length moved) /\ holds sib moved /\
    leftmost_ptr sib = moved_leftmost /\ level sib = level p.
Proof.
  destruct moved_facts as (Hs & Hn & Hl & _). revert Hs Hn Hl. unfold moved, moved_leftmost.
  destruct (leftmost_ptr p =? 0); intros Hs Hn Hl.
  - destruct (migrate_holds l1 (em :: l2) (MkEntry z 0 :: rest) [] (Page_new (level p)))
      as (sib & Hm & Hs' & Hh1 & Hh2 & Hh3); try done.
    { apply Page_new_holds. } { change cardinality with 30. simpl in *. lia. }
    exists sib, (Z.of_nat (length (em :: l2))). rewrite H1 in Hm. simpl length in *.
    rewrite H2 in *. split; [exact Hm|]. done.
  - destruct (migrate_holds (l1 ++ [em]) l2 (MkEntry z 0 :: rest) [] (Page_new (level p)))
      as (sib & Hm & Hs' & Hh1 & Hh2 & Hh3); try done.
    { apply Page_new_holds. } { change cardinality with 30. simpl in *. lia. }
    rewrite length_app, H1, H2, <- app_assoc in Hm.
    exists (set_leftmost sib (ptr em)), (Z.of_nat (length l2)).
    change (Z.of_nat (14 + length [em])) with (14 + 1) in Hm.
    change (Z.of_nat (length (@nil Entry))) with 0 in Hm. cbn [app] in Hm.
    change (Z.to_nat (29 - 14 - 1)) with 14%nat. rewrite Hm, H2.
    split; [done|]. split; [done|]. split; [|done]. by destruct Hs'; split.
Qed.

(** The new record goes to the left page if its key is below the split key,
    to the right page otherwise. *)
Lemma split_page_holds :
  exists p' sib, split_page p 29 k v sib_addr = Some (p', sib, key em) /\
    holds p' (if k <? key em then ins k v l1 else l1) /\
    holds sib (if k <? key em then moved else ins k v moved) /\
    leftmost_ptr p' = leftmost_ptr p /\ leftmost_ptr sib = moved_leftmost /\
    sibling_ptr p' = sib_addr /\ sibling_ptr sib = sibling_ptr p /\
    level p' = level p /\ level sib = level p.
Proof.
  destruct (holds_records _ _ Hp) as (z & rest & Hr). rewrite <- app_assoc in Hr. cbn [app] in Hr.
  destruct (split_sibling z rest) as (sib & c & Hm & -> & Hs & Hlm & Hlv).
  destruct moved_facts as (_ & _ & Hlen & Habs).
  unfold split_page. change (29 / 2) with 14. rewrite Hr, rec_app by (rewrite H1; done).
  cbn [mbind option_bind]. rewrite Hm. cbn [mbind option_bind].
  cbn [set_sibling set_switch records switch_counter].
  rewrite Hr, set_ptr_app, (holds_forward _ _ Hp) by (rewrite H1; done). cbn [mbind option_bind].
  fold (truncated p 14 (l1 ++ MkEntry (key em) 0 :: l2 ++ MkEntry z 0 :: rest) sib_addr).
  assert (holds (truncated p 14 (l1 ++ MkEntry (key em) 0 :: l2 ++ MkEntry z 0 :: rest) sib_addr) l1)
    as Ht.
  { eapply holds_prefix; [exact Hp|done|..]; simpl.
    - rewrite Hr, !length_app. simpl. by rewrite !length_app.
    - by rewrite H1.
    - apply set_switch_forward, (holds_forward _ _ Hp). }
  assert (holds (set_sibling sib (sibling_ptr p)) moved) as Hs' by (by destruct Hs; split).
  assert (leftmost_ptr p <> 0 -> absent k l1) as Ha1.
  { intros Hl. specialize (Hint Hl). by apply Forall_app in Hint as [? _]. }
  destruct (k <? key em).
  - destruct (insert_key_holds _ _ k v Ht Hv) as (p' & Hi & Hp' & Hh1 & Hh2 & Hh3);
      [rewrite H1; done|exact Ha1|]. rewrite H1 in Hi.
    change (last_index (truncated p 14 _ sib_addr) + 1) with (Z.of_nat 14). rewrite Hi.
    eexists _, _. split; [done|]. done.
  - destruct (insert_key_holds _ _ k v Hs' Hv) as (s' & Hi & Hp' & Hh1 & Hh2 & Hh3).
    { change cardinality with 30. lia. }
    { simpl. rewrite Hlm. unfold moved_leftmost. destruct (Z.eqb_spec (leftmost_ptr p) 0); [done|auto]. }
    rewrite Hi. eexists _, _. split; [done|]. simpl in *. by rewrite Hh1, Hh2, Hh3.
Qed.
End split.

(** ** Properties *)

(** C15. The in-place shifting insertion of [insert_key] implements insertion
    into a sorted association list: a page with room that holds [es] holds
    [ins k v es] afterwards, the old pointer of a replaced key is returned,
    the entry count is right, and the links of the page are untouched. *)
Theorem insert_key_refines (p : Page) (es : list Entry) (k v : Z) :
  holds p es -> v <> 0 ->
  Z.of_nat (length es) < cardinality - 1 -> (leftmost_ptr p <> 0 -> absent k es) ->
  exists p', insert_key p k v (Z.of_nat (length es)) true
               = Some (p', find k es, Z.of_nat (length (ins k v es))) /\
    holds p' (ins k v es) /\ same_header p p'.
Proof. apply insert_key_holds. Qed.

Lemma insert_key_refines_witness :
  exists p', insert_key (Page_new 0) 7 100 0 true = Some (p', 0, 1) /\
    holds p' [MkEntry 7 100] /\ same_header (Page_new 0) p'.
Proof.
  apply (insert_key_refines (Page_new 0) [] 7 100);
    [apply Page_new_holds|lia|by vm_compute|intros _; constructor].
Defined.


(** A page full of the entries [(1, 101) .. (29, 129)]. *)
Definition full_entries : list Entry := (fun i => MkEntry i (100 + i)) <$> seqZ 1 29.
Definition full_page : Page :=
  set_last_index (set_records (Page_new 0) (full_entries ++ [MkEntry 0 0])) 28.

Lemma sorted_by_lookup (l : list Entry) :
  forallb (fun p => key p.1 <? key p.2) (zip l (drop 1 l)) = true -> sorted l.
Proof.
  intros H. apply Sorted_StronglySorted; [intros a b c; unfold ltk; lia|].
  induction l as [|a [|b l] IH]; [constructor|repeat constructor|].
  cbn [drop zip zip_with forallb] in H. apply andb_true_iff in H as [Hab H].
  constructor; [by apply IH|]. constructor. by apply Z.ltb_lt.
Qed.

Lemma full_page_holds : holds full_page full_entries.
Proof.
  split; [by exists 0, []|done..| |by apply sorted_by_lookup].
  apply Forall_fmap, Forall_forall. intros i Hi%elem_of_seqZ. simpl. lia.
Qed.

