(* ===== verification/FFLevels.v ===== *)
(** * The shape of a FAST-FAIR tree

    A level of the tree is a chain of pages linked by their sibling pointers.
    It is described by its nodes, entries [(lo, address)] sorted by the low
    end of the range a page is responsible for, and by its contents, the
    entries of its pages in order.  The contents of an internal level, each
    page's leftmost pointer included, are the nodes of the level below; the
    contents of the leaf level are the (key, value) entries of the tree; the
    root pointer is the contents of an imaginary level above the top. *)

From S2P Require Import Prelude FFPage FFEntries FFBtree FFPageSpec.

(** ** Pages in a level *)

(** What a page of level [l] contributes to the contents of the level. *)
Definition kids (l : Z) (e : Entry) (p : Page) (es : list Entry) : list Entry :=
  if l =? 0 then es else MkEntry (key e) (leftmost_ptr p) :: es.

(** The page [p] of node [e] holds [es] and is followed by node [nx]. *)
Record page_ok (l : Z) (e : Entry) (p : Page) (es : list Entry) (nx : option Entry) : Prop := {
  ok_holds : holds p es;
  ok_level : level p = l;
  ok_leftmost : leftmost_ptr p = 0 <-> l = 0;
  ok_sibling : sibling_ptr p = from_option ptr 0 nx;
  ok_low : Forall (fun x => key e <= key x) es;
  ok_high : forall e', nx = Some e' -> below (key e') es;
  ok_empty : es = [] -> l = 0 /\ key e = 0 /\ records p = no_records
}.

Definition nxt (N : list Entry) (nx : option Entry) : option Entry :=
  match N with [] => nx | e :: _ => Some e end.

(** The nodes [N] of level [l], followed by [nx], have the contents [C]. *)
Fixpoint seg (h : heap_t) (l : Z) (N : list Entry) (nx : option Entry) (C : list Entry) : Prop :=
  match N with
  | [] => C = []
  | e :: N' =>
      exists p es C', h !! ptr e = Some p /\ page_ok l e p es (nxt N' nx) /\
        C = kids l e p es ++ C' /\ seg h l N' nx C'
  end.

(** Entries with increasing keys and distinct, non-null pointers. *)
Record content_ok (C : list Entry) : Prop := {
  content_sorted : sorted C;
  content_NoDup : NoDup (ptr <$> C);
  content_range : Forall (fun e => 0 <= key e /\ ptr e <> 0) C
}.

(** [n] levels, the lowest one of level [l] and with contents [C]. *)
Fixpoint levels (h : heap_t) (root : Z) (l : Z) (n : nat) (C : list Entry) : Prop :=
  content_ok C /\
  match n with
  | O => C = [MkEntry 0 root]
  | S n' => exists N, seg h l N None C /\ levels h root (l + 1) n' N
  end.

Lemma levels_content (h : heap_t) (root l : Z) (n : nat) (C : list Entry) :
  levels h root l n C -> content_ok C.
Proof. by destruct n; intros [H _]. Qed.

(** ** Segments *)

Lemma nxt_app (N1 N2 : list Entry) (nx : option Entry) : nxt (N1 ++ N2) nx = nxt N1 (nxt N2 nx).
Proof. by destruct N1. Qed.

Lemma seg_app (h : heap_t) (l : Z) (N1 N2 : list Entry) (nx : option Entry) (C : list Entry) :
  seg h l (N1 ++ N2) nx C <->
  exists C1 C2, C = C1 ++ C2 /\ seg h l N1 (nxt N2 nx) C1 /\ seg h l N2 nx C2.
Proof.
  revert C. induction N1 as [|e N1 IH]; intros C; simpl.
  - split; [intros H; by exists [], C|]. by intros (C1 & C2 & -> & -> & H).
  - split.
    + intros (p & es & C' & Hp & Hok & -> & (C1 & C2 & -> & H1 & H2)%IH).
      exists (kids l e p es ++ C1), C2. rewrite <- app_assoc, nxt_app in *.
      split; [done|]. split; [|done]. by exists p, es, C1.
    + intros (C1 & C2 & -> & (p & es & C' & Hp & Hok & -> & H1) & H2).
      exists p, es, (C' ++ C2). rewrite nxt_app, <- app_assoc.
      split_and!; [done..|]. apply IH. by exists C', C2.
Qed.

Lemma seg_node (h : heap_t) (l : Z) (N1 N2 : list Entry) (e : Entry) (nx : option Entry)
    (C : list Entry) :
  seg h l (N1 ++ e :: N2) nx C <->
  exists C1 p es C2, C = C1 ++ kids l e p es ++ C2 /\ seg h l N1 (Some e) C1 /\
    h !! ptr e = Some p /\ page_ok l e p es (nxt N2 nx) /\ seg h l N2 nx C2.
Proof.
  rewrite seg_app. simpl. split.
  - intros (C1 & C2 & -> & H1 & p & es & C' & Hp & Hok & -> & H2). by exists C1, p, es, C'.
  - intros (C1 & p & es & C2 & -> & H1 & Hp & Hok & H2).
    exists C1, (kids l e p es ++ C2). split_and!; [done..|]. by exists p, es, C2.
Qed.

Lemma seg_frame (h h' : heap_t) (l : Z) (N : list Entry) (nx : option Entry) (C : list Entry) :
  seg h l N nx C ->
  (forall b p, b ∈ ptr <$> N -> h !! b = Some p -> level p = l -> h' !! b = Some p) ->
  seg h' l N nx C.
Proof.
  revert C. induction N as [|e N IH]; intros C; [done|].
  intros (p & es & C' & Hp & Hok & -> & Hs) Hf. exists p, es, C'.
  split_and!; [|done..|].
  - apply Hf; [by left|done|apply Hok].
  - apply IH; [done|]. intros b q Hb. apply Hf. by right.
Qed.

Lemma kids_low (l : Z) (e : Entry) (p : Page) (es : list Entry) (nx : option Entry) :
  page_ok l e p es nx -> Forall (fun x => key e <= key x) (kids l e p es).
Proof. intros H. unfold kids. destruct (l =? 0); [apply H|]. constructor; [simpl; lia|apply H]. Qed.

Lemma seg_above (h : heap_t) (l : Z) (N : list Entry) (nx : option Entry) (C : list Entry) (k : Z) :
  seg h l N nx C -> above k N -> above k C.
Proof.
  revert C. induction N as [|e N IH]; intros C; simpl; [intros ->; constructor|].
  intros (p & es & C' & Hp & Hok & -> & Hs) Ha. inversion Ha; subst.
  apply Forall_app. split; [|by apply IH].
  eapply Forall_impl; [by eapply kids_low|]. simpl. lia.
Qed.

Lemma seg_below (h : heap_t) (l : Z) (N : list Entry) (e' : Entry) (C : list Entry) (k : Z) :
  seg h l N (Some e') C -> sorted (N ++ [e']) -> key e' <= k -> below k C.
Proof.
  revert C. induction N as [|e N IH]; intros C; simpl; [intros ->; constructor|].
  intros (p & es & C' & Hp & Hok & -> & Hs) Hso Hk.
  apply StronglySorted_inv in Hso as [Hso Hf].
  assert (exists e2, nxt N (Some e') = Some e2 /\ key e2 <= k /\ key e < key e2) as (e2 & He2 & Hk2 & Hlt).
  { destruct N as [|e2 N]; simpl.
    - exists e'. split_and!; [done..|]. inversion Hf; subst. done.
    - exists e2. split_and!; [done| |by inversion Hf; subst].
      simpl in Hso. apply StronglySorted_inv in Hso as [_ Hf2].
      apply Forall_app in Hf2 as [_ Hf2]. inversion Hf2; subst. unfold ltk in *. lia. }
  apply Forall_app. split; [|by apply IH].
  pose proof (ok_high _ _ _ _ _ Hok _ He2) as Hh. eapply below_le in Hh; [|exact Hk2].
  unfold kids. destruct (l =? 0); [done|]. constructor; [simpl; lia|done].
Qed.

(** ** A node that covers a key *)

(** The parts of a level around the node that covers [k]. *)
Lemma seg_covers (h : heap_t) (l : Z) (N1 N2 : list Entry) (e : Entry) (C : list Entry) (k : Z) :
  seg h l (N1 ++ e :: N2) None C -> sorted (N1 ++ e :: N2) -> covers k N1 e N2 ->
  exists C1 p es C2, C = C1 ++ kids l e p es ++ C2 /\ seg h l N1 (Some e) C1 /\
    h !! ptr e = Some p /\ page_ok l e p es (nxt N2 None) /\ seg h l N2 None C2 /\
    below k C1 /\ above k C2.
Proof.
  intros (C1 & p & es & C2 & -> & H1 & Hp & Hok & H2)%seg_node Hs [Hk Ha].
  exists C1, p, es, C2. split_and!; try done.
  - eapply seg_below; [done| |done]. rewrite cons_middle, app_assoc in Hs.
    by apply sorted_app in Hs as [Hs _].
  - by eapply seg_above.
Qed.

(** The right sibling's first key is beyond [k]. *)
Lemma sibling_first (h : heap_t) (l : Z) (N2 C2 : list Entry) (e : Entry) (p : Page)
    (es : list Entry) (k : Z) :
  page_ok l e p es (nxt N2 None) -> seg h l N2 None C2 -> above k N2 -> 0 <= k ->
  sibling_ptr p = 0 \/
  exists s x, h !! sibling_ptr p = Some s /\ rec (records s) 0 = Some x /\ k < key x.
Proof.
  intros Hok Hs Ha Hk. rewrite (ok_sibling _ _ _ _ _ Hok). destruct N2 as [|e' N2]; [by left|right].
  destruct Hs as (s & es' & C' & Hs & Hok' & _). inversion Ha; subst. simpl.
  destruct es' as [|x es'].
  { destruct (ok_empty _ _ _ _ _ Hok' eq_refl) as (_ & ? & _). lia. }
  exists s, x. split; [done|].
  destruct (holds_records _ _ (ok_holds _ _ _ _ _ Hok')) as (z & rest & ->). split; [done|].
  pose proof (ok_low _ _ _ _ _ Hok') as Hl. inversion Hl; subst. lia.
Qed.

Lemma beyond_false (h : heap_t) (l : Z) (N2 C2 : list Entry) (e : Entry) (p : Page)
    (es : list Entry) (k : Z) :
  page_ok l e p es (nxt N2 None) -> seg h l N2 None C2 -> above k N2 -> 0 <= k ->
  beyond h p k = Some false.
Proof.
  intros Hok Hs Ha Hk. unfold beyond.
  destruct (sibling_first h l N2 C2 e p es k Hok Hs Ha Hk) as [->|(s & x & Hs' & Hx & Hlt)]; [done|].
  destruct (sibling_ptr p =? 0); [done|]. rewrite Hs'. cbn [mbind option_bind]. rewrite Hx.
  cbn [mbind option_bind]. by rewrite (proj2 (Z.leb_gt _ _)) by lia.
Qed.

Section node.
Context (h : heap_t) (l : Z) (N1 N2 C : list Entry) (e : Entry) (k : Z).
Hypotheses (Hseg : seg h l (N1 ++ e :: N2) None C) (HN : content_ok (N1 ++ e :: N2))
  (HC : content_ok C) (Hk : 0 <= k) (Hcov : covers k N1 e N2).

(** A search step in an internal level ends at the node below that covers
    the key. *)
Lemma internal_step :
  l <> 0 ->
  exists p C1 c C2, h !! ptr e = Some p /\ level p = l /\ leftmost_ptr p <> 0 /\
    C = C1 ++ c :: C2 /\ covers k C1 c C2 /\ linear_search h p k = Some (ptr c).
Proof.
  intros Hl. pose proof (content_sorted _ HN) as HNs.
  destruct (seg_covers _ _ _ _ _ _ _ Hseg HNs Hcov) as (C1 & p & es & C2 & HCe & _ & Hp & Hok & H2 & Hb & Ha).
  destruct Hcov as [Hek Hak]. rewrite HCe in HC. destruct HC as [Hs Hn _].
  apply sorted_app in Hs as (_ & Hs & _). apply sorted_app in Hs as (Hs & _ & _).
  rewrite !fmap_app in Hn. apply NoDup_app in Hn as (_ & _ & Hn). apply NoDup_app in Hn as (Hn & _ & _).
  unfold kids in *. destruct (Z.eqb_spec l 0) as [|_]; [done|].
  assert (leftmost_ptr p <> 0) as Hlm by (rewrite (ok_leftmost _ _ _ _ _ Hok); done).
  destruct (internal_search h p es (key e) k) as (m1 & c & m2 & Hkids & [Hc Hac] & Hls);
    try done; [apply Hok|intros ->; by destruct (ok_empty _ _ _ _ _ Hok eq_refl)|by eapply beyond_false|].
  exists p, (C1 ++ m1), c, (m2 ++ C2). split_and!; try done.
  - apply Hok.
  - rewrite HCe, Hkids, <- !app_assoc. done.
  - split; [done|]. by apply Forall_app.
Qed.

(** A search in the leaf level. *)
Lemma leaf_step :
  l = 0 ->
  exists p, h !! ptr e = Some p /\ leftmost_ptr p = 0 /\ linear_search h p k = Some (find k C).
Proof.
  intros Hl. pose proof (content_sorted _ HN) as HNs.
  destruct (seg_covers _ _ _ _ _ _ _ Hseg HNs Hcov) as (C1 & p & es & C2 & HCe & _ & Hp & Hok & H2 & Hb & Ha).
  destruct Hcov as [Hek Hak]. destruct HC as [_ Hn _].
  exists p. split; [done|]. assert (leftmost_ptr p = 0) as Hlm by (by apply Hok).
  split; [done|]. rewrite HCe, find_mid by done. unfold kids in *. rewrite Hl in HCe |- *. simpl in *.
  apply leaf_search; [apply Hok|done| |intros ->; by apply Hok|by eapply beyond_false].
  rewrite HCe, !fmap_app in Hn. apply NoDup_app in Hn as (_ & _ & Hn). by apply NoDup_app in Hn as (? & _ & _).
Qed.
End node.

(** ** Descending from the root *)

Lemma levels_frame (h h' : heap_t) (root l : Z) (n : nat) (C : list Entry) :
  levels h root l n C ->
  (forall b p, h !! b = Some p -> l <= level p -> h' !! b = Some p) ->
  levels h' root l n C.
Proof.
  revert l C. induction n as [|n IH]; intros l C; simpl; [done|].
  intros (HC & N & Hs & Hl) Hf. split; [done|]. exists N. split.
  - eapply seg_frame; [done|]. intros b p _ Hb Hp. apply Hf; [done|lia].
  - apply IH; [done|]. intros b p Hb Hp. apply Hf; [done|lia].
Qed.

(** The walk from the root through [n] levels ends at the node below them
    that covers the key. *)
Lemma levels_descend (h : heap_t) (root l : Z) (n : nat) (N : list Entry) (k : Z) :
  levels h root l n N -> 0 < l -> 0 <= k ->
  exists N1 e N2, N = N1 ++ e :: N2 /\ covers k N1 e N2 /\
    (forall fuel lvl, lvl < l ->
       descend_level (fuel + n) h k root lvl = descend_level fuel h k (ptr e) lvl) /\
    (forall fuel, descend_leaf (fuel + n) h k root = descend_leaf fuel h k (ptr e)).
Proof.
  intros Hlev Hl Hk. revert l N Hlev Hl. induction n as [|n IH]; intros l N Hlev Hl.
  - destruct Hlev as [_ ->]. exists [], (MkEntry 0 root), []. split; [done|].
    split; [split; [done|constructor]|].
    split; intros; by rewrite Nat.add_0_r.
  - destruct Hlev as (HN & N' & Hseg & Hlev). pose proof (levels_content _ _ _ _ _ Hlev) as HN'.
    destruct (IH (l + 1) N' Hlev ltac:(lia)) as (N1 & e & N2 & -> & Hc & Hdl & Hdf).
    destruct (internal_step h l N1 N2 N e k) as (p & C1 & c & C2 & Hp & Hpl & Hlm & -> & Hcc & Hls);
      [done..|lia|].
    exists C1, c, C2. split_and!; [done..| |].
    + intros fuel lvl Hlvl. replace (fuel + S n)%nat with (S fuel + n)%nat by lia.
      rewrite Hdl by lia. cbn [descend_level]. rewrite Hp. cbn [mbind option_bind].
      rewrite Hpl, (proj2 (Z.ltb_lt _ _)) by lia. by rewrite Hls.
    + intros fuel. replace (fuel + S n)%nat with (S fuel + n)%nat by lia.
      rewrite Hdf. cbn [descend_leaf]. rewrite Hp. cbn [mbind option_bind].
      destruct (Z.eqb_spec (leftmost_ptr p) 0); [done|]. by rewrite Hls.
Qed.

(** The root page is in the topmost level. *)
Lemma levels_root (h : heap_t) (root l : Z) (n : nat) (C : list Entry) :
  levels h root l (S n) C -> exists p, h !! root = Some p /\ level p = l + Z.of_nat n.
Proof.
  revert l C. induction n as [|n IH]; intros l C (_ & N & Hs & Hl).
  - destruct Hl as [_ ->]. destruct Hs as (p & es & C' & Hp & Hok & _). exists p.
    split; [done|]. rewrite (ok_level _ _ _ _ _ Hok). lia.
  - destruct (IH _ _ Hl) as (p & Hp & Hpl). exists p. split; [done|lia].
Qed.
