(* ===== verification/FFTree.v ===== *)
(** * Search and insertion in a FAST-FAIR tree

    A tree in which every level has the shape of [FFLevels] is a finite map:
    [Search] returns what the sorted contents of its leaves have for the key
    and [Insert] puts the key into them, splitting pages up to the root. *)

From S2P Require Import Prelude FFPage FFEntries FFBtree FFPageSpec FFLevels.

(** ** Insertion into the contents of a level *)

Lemma content_ins (k v : Z) (C : list Entry) :
  content_ok C -> 0 <= k -> v <> 0 -> v ∉ ptr <$> C -> content_ok (ins k v C).
Proof.
  intros [Hs Hn Hr] Hk Hv Hf. split; [by apply ins_sorted| |].
  - clear Hs Hr. induction C as [|e C IH]; simpl in *; [by apply NoDup_singleton|].
    apply NoDup_cons in Hn as [Hne Hn]. apply not_elem_of_cons in Hf as [Hfe Hf].
    destruct (k <? key e); [|destruct (k =? key e)]; simpl.
    + apply NoDup_cons. split; [by apply not_elem_of_cons|]. by apply NoDup_cons.
    + by apply NoDup_cons.
    + apply NoDup_cons. split; [|by apply IH]. clear IH Hn. revert Hne Hf.
      induction C as [|e2 C IH2]; simpl; [set_solver|]. intros Hne Hf.
      apply not_elem_of_cons in Hne as [? Hne]. apply not_elem_of_cons in Hf as [? Hf].
      destruct (k <? key e2), (k =? key e2); simpl; rewrite ?not_elem_of_cons;
        split_and?; try done; by apply IH2.
  - apply Forall_forall. intros x [->|[Hx _]]%elem_of_ins; [done| |done].
    by eapply Forall_forall in Hr.
Qed.

Section node.
Context (l : Z) (e : Entry) (p : Page) (es : list Entry) (nx : option Entry) (k v : Z).
Hypotheses (Hok : page_ok l e p es nx) (Hlo : key e <= k)
  (Hhi : forall e', nx = Some e' -> k < key e') (Hne : l <> 0 -> absent k (kids l e p es)).

Lemma kids_ins (p' : Page) :
  leftmost_ptr p' = leftmost_ptr p ->
  kids l e p' (ins k v es) = ins k v (kids l e p es).
Proof.
  intros Hh. unfold kids in *. destruct (Z.eqb_spec l 0) as [|Hl]; [done|].
  specialize (Hne Hl). inversion Hne; subst. simpl in *. rewrite Hh.
  destruct (Z.ltb_spec k (key e)); [lia|]. by destruct (Z.eqb_spec k (key e)); [lia|].
Qed.

Lemma absent_es : leftmost_ptr p <> 0 -> absent k es.
Proof.
  intros Hlm. assert (l <> 0) as Hl by (intros ?; by apply Hlm, Hok). specialize (Hne Hl).
  unfold kids in Hne. destruct (Z.eqb_spec l 0); [done|]. by inversion Hne.
Qed.

Lemma ins_low (lo : Z) (C : list Entry) :
  sorted C -> lo <= k -> Forall (fun x => lo <= key x) C -> Forall (fun x => lo <= key x) (ins k v C).
Proof.
  intros Hs Hl Hf. apply Forall_forall. intros x [->|[Hx _]]%elem_of_ins; [done| |done].
  by eapply Forall_forall in Hf.
Qed.

Lemma ins_below (hi : Z) (C : list Entry) :
  sorted C -> k < hi -> below hi C -> below hi (ins k v C).
Proof.
  intros Hs Hl Hf. apply Forall_forall. intros x [->|[Hx _]]%elem_of_ins; [done| |done].
  by eapply Forall_forall in Hf.
Qed.

Lemma page_ok_ins (p' : Page) :
  holds p' (ins k v es) -> same_header p p' -> page_ok l e p' (ins k v es) nx.
Proof.
  intros Hh (Hlm & Hsb & Hlv). destruct Hok as [Hh0 ? ? ? Hlow Hhigh ?]. pose proof (holds_sorted _ _ Hh0).
  split; [done|congruence..| | |].
  - by apply ins_low.
  - intros e' He'. apply ins_below; auto.
  - intros Hnil. by apply ins_nonempty in Hnil.
Qed.

Section split.
Context (l1 l2 : list Entry) (em : Entry) (p' sib : Page) (sa : Z).
Hypotheses (Hes : es = l1 ++ em :: l2) (H1 : l1 <> []) (H2 : l2 <> []).
Let L := if k <? key em then ins k v l1 else l1.
Let R := if k <? key em then moved p l2 em else ins k v (moved p l2 em).
Hypotheses (HL : holds p' L) (HR : holds sib R)
  (Hlm : leftmost_ptr p' = leftmost_ptr p) (Hlm' : leftmost_ptr sib = moved_leftmost p em)
  (Hsb : sibling_ptr p' = sa) (Hsb' : sibling_ptr sib = sibling_ptr p)
  (Hlv : level p' = level p) (Hlv' : level sib = level p).

Lemma split_sorted :
  sorted l1 /\ sorted (em :: l2) /\ below (key em) l1 /\ key e < key em.
Proof.
  pose proof (holds_sorted _ _ (ok_holds _ _ _ _ _ Hok)) as Hs. rewrite Hes in Hs.
  apply sorted_app in Hs as (Hs1 & Hs2 & Hlt). split_and!; [done..| |].
  - apply Forall_forall. intros x Hx. apply Hlt; [done|by left].
  - destruct l1 as [|x l1']; [done|]. pose proof (ok_low _ _ _ _ _ Hok) as Hl.
    rewrite Hes in Hl. simpl in Hl. inversion Hl; subst.
    pose proof (Hlt x em ltac:(by left) ltac:(by left)). lia.
Qed.

Lemma split_left_ok : page_ok l e p' L (Some (MkEntry (key em) sa)).
Proof.
  destruct split_sorted as (Hs1 & Hs2 & Hb & He). destruct Hok as [? ? ? ? Hlow ? ?].
  rewrite Hes in Hlow. apply Forall_app in Hlow as [Hlow _].
  subst L. split; [done|congruence|by rewrite Hlm|done| | |].
  - destruct (k <? key em); [by apply ins_low|done].
  - intros e' [= <-]. simpl. destruct (Z.ltb_spec k (key em)); [by apply ins_below|done].
  - destruct (k <? key em); [|done]. intros Hn. by apply ins_nonempty in Hn.
Qed.

Lemma split_right_ok : page_ok l (MkEntry (key em) sa) sib R nx.
Proof.
  destruct split_sorted as (Hs1 & Hs2 & Hb & He).
  pose proof (StronglySorted_inv Hs2) as [Hs2' Hlt].
  destruct Hok as [Hh0 ? Hlf Hsi ? Hhigh ?].
  assert (Forall (fun x => key em <= key x) l2) as Hl2.
  { eapply Forall_impl; [exact Hlt|]. unfold ltk. simpl. lia. }
  assert (sorted (moved p l2 em) /\ Forall (fun x => key em <= key x) (moved p l2 em) /\
          (forall e', nx = Some e' -> below (key e') (moved p l2 em)) /\ moved p l2 em <> [])
    as (Hsm & Hlm2 & Hhm & Hnm).
  { unfold moved. destruct (leftmost_ptr p =? 0); split_and!; try done.
    - by constructor; [lia|].
    - intros e' He'. specialize (Hhigh e' He'). rewrite Hes in Hhigh.
      by apply Forall_app in Hhigh as [_ ?].
    - intros e' He'. specialize (Hhigh e' He'). rewrite Hes in Hhigh.
      apply Forall_app in Hhigh as [_ Hh]. by inversion Hh. }
  subst R. split; [done|congruence| |congruence| | |].
  - rewrite Hlm'. unfold moved_leftmost. destruct (Z.eqb_spec (leftmost_ptr p) 0) as [Hz|Hz].
    + tauto.
    + split; [|tauto]. intros Hem. pose proof (holds_ptrs _ _ Hh0) as Hps. rewrite Hes in Hps.
      apply Forall_app in Hps as [_ Hps]. by inversion Hps.
  - simpl. destruct (Z.ltb_spec k (key em)); [done|]. by apply ins_low.
  - intros e' He'. destruct (k <? key em); [auto|]. apply ins_below; auto.
  - destruct (k <? key em); [done|]. intros Hn. by apply ins_nonempty in Hn.
Qed.

(** Nothing is lost and the new entry is in place. *)
Lemma split_kids :
  kids l e p' L ++ kids l (MkEntry (key em) sa) sib R = ins k v (kids l e p es).
Proof.
  destruct split_sorted as (Hs1 & Hs2 & Hb & He).
  pose proof (StronglySorted_inv Hs2) as [Hs2' Hlt].
  rewrite <- (kids_ins p') by done. unfold kids. rewrite Hlm, Hlm'.
  assert (above (key em) l2) as Ha by exact Hlt.
  subst L R. unfold moved, moved_leftmost.
  destruct (Z.eqb_spec (leftmost_ptr p) 0) as [Hz|Hz].
  - assert (l = 0) as -> by (by apply Hok). rewrite Z.eqb_refl, Hes.
    destruct (Z.ltb_spec k (key em)).
    + rewrite ins_app_above; [done|]. constructor; [done|]. by eapply above_le; [|exact Ha]; lia.
    + rewrite ins_app_below; [done|]. by eapply below_le; [|exact Hb].
  - destruct (Z.eqb_spec l 0) as [Hl|Hl]; [exfalso; by apply Hz, Hok|].
    rewrite <- app_comm_cons. f_equal. destruct em as [ke pe]. simpl in *. rewrite Hes.
    destruct (Z.ltb_spec k ke).
    + rewrite ins_app_above; [done|]. constructor; [done|]. by eapply above_le; [|exact Ha]; lia.
    + assert (k <> ke) as Hke.
      { pose proof (absent_es Hz) as Hab. rewrite Hes in Hab. apply Forall_app in Hab as [_ Hab].
        inversion Hab; subst. simpl in *. lia. }
      rewrite (cons_middle _ l1 l2), app_assoc, ins_app_below; [by rewrite <- app_assoc|].
      apply Forall_app. split; [|by repeat constructor; simpl; lia].
      by eapply below_le; [|exact Hb].
Qed.
End split.
End node.

(** ** [store] *)

(** The test of [store] whether the key belongs to the right sibling. *)
Definition hop_test (h : heap_t) (p : Page) (k : Z) : option bool :=
  if sibling_ptr p =? 0 then Some false
  else
    s ← h !! sibling_ptr p;
    e ← rec (records s) 0;
    Some (key e <? k).

Lemma hop_false (h : heap_t) (l : Z) (N2 C2 : list Entry) (e : Entry) (p : Page)
    (es : list Entry) (k : Z) :
  page_ok l e p es (nxt N2 None) -> seg h l N2 None C2 -> above k N2 -> 0 <= k ->
  hop_test h p k = Some false.
Proof.
  intros Hok Hs Ha Hk. unfold hop_test.
  destruct (sibling_first h l N2 C2 e p es k Hok Hs Ha Hk) as [->|(s & x & Hs' & Hx & Hlt)]; [done|].
  destruct (sibling_ptr p =? 0); [done|]. rewrite Hs'. cbn [mbind option_bind]. rewrite Hx.
  cbn [mbind option_bind]. by rewrite (proj2 (Z.ltb_ge _ _)) by lia.
Qed.

(** [bt'] is [bt] with [(k, v)] in the contents of level [l]; the levels below
    are as before. *)
Definition stored (live : gset Z) (l : Z) (C : list Entry) (k v : Z) (bt bt' : FFBtree) : Prop :=
  exists n', levels (heap bt') (root bt') l (S n') (ins k v C) /\
    height bt' = l + 1 + Z.of_nat n' /\
    (forall b p, heap bt !! b = Some p -> level p < l -> heap bt' !! b = Some p) /\
    dom (heap bt') ## live.

(** The neighbours of a node keep their segments when its page is replaced. *)
Lemma seg_update (h h' : heap_t) (l : Z) (N : list Entry) (nx : option Entry) (C : list Entry) (a : Z) :
  seg h l N nx C -> a ∉ ptr <$> N ->
  (forall b p, b <> a -> h !! b = Some p -> h' !! b = Some p) -> seg h' l N nx C.
Proof.
  intros Hs Ha Hf. eapply seg_frame; [done|]. intros b p Hb Hp _. apply Hf; [|done]. set_solver.
Qed.

Lemma content_node (N1 N2 : list Entry) (e : Entry) :
  content_ok (N1 ++ e :: N2) ->
  (ptr e ∉ ptr <$> N1) /\ (ptr e ∉ ptr <$> N2) /\ ptr e <> 0 /\ 0 <= key e /\ below (key e) N1.
Proof.
  intros [Hs Hn Hr]. rewrite fmap_app in Hn. apply NoDup_app in Hn as (_ & Hd & Hn).
  apply NoDup_cons in Hn as [Hn _]. apply Forall_app in Hr as [_ Hr]. inversion Hr; subst.
  split_and!; try tauto.
  - intros Hin. apply (Hd _ Hin). by left.
  - apply sorted_app in Hs as (_ & _ & Hs). apply Forall_forall. intros x Hx. apply Hs; [done|by left].
Qed.

Lemma covers_next (N1 N2 : list Entry) (e : Entry) (k : Z) (e' : Entry) :
  covers k N1 e N2 -> nxt N2 None = Some e' -> k < key e'.
Proof. intros [_ Ha]. destruct N2; simpl; [done|]. intros [= ->]. by inversion Ha. Qed.

Lemma absent_mid (k : Z) (C1 C C2 : list Entry) : absent k (C1 ++ C ++ C2) -> absent k C.
Proof. intros [_ [H _]%Forall_app]%Forall_app. done. Qed.

Lemma seg_dom (h : heap_t) (l : Z) (N : list Entry) (nx : option Entry) (C : list Entry) (x : Entry) :
  seg h l N nx C -> x ∈ N -> ptr x ∈ dom h.
Proof.
  intros Hs (N1 & N2 & ->)%list_elem_of_split.
  apply seg_node in Hs as (C1 & p & es & C2 & _ & _ & Hp & _). by apply elem_of_dom_2 in Hp.
Qed.

(** The two halves of a full page around its middle record. *)
Lemma full_split (p : Page) (es : list Entry) :
  holds p es -> cardinality - 1 <= Z.of_nat (length es) ->
  exists l1 em l2, es = l1 ++ em :: l2 /\ length l1 = 14%nat /\ length l2 = 14%nat.
Proof.
  intros Hp Hfull. pose proof (holds_bound _ _ Hp) as Hb.
  change cardinality with 30 in *. assert (length es = 29%nat) as Hlen by lia.
  exists (take 14 es). destruct (drop 14 es) as [|em l2] eqn:Hd.
  - apply (f_equal length) in Hd. rewrite length_drop in Hd. simpl in Hd. lia.
  - exists em, l2. rewrite <- Hd, take_drop. split_and!; [done| |].
    + rewrite length_take. lia.
    + apply (f_equal length) in Hd. rewrite length_drop in Hd. simpl in Hd. lia.
Qed.

Section tree.
Context (pmalloc : gset Z -> Z) (live : gset Z).
Hypotheses (pmalloc_fresh : forall s, pmalloc s ∉ s) (pmalloc_nonnull : forall s, pmalloc s <> 0).

Section level.
Context (l : Z) (n : nat) (bt : FFBtree) (N1 N2 C : list Entry) (e : Entry) (k v : Z).
Hypotheses (HC : content_ok C) (Hseg : seg (heap bt) l (N1 ++ e :: N2) None C)
  (Hup : levels (heap bt) (root bt) (l + 1) n (N1 ++ e :: N2))
  (Hheight : height bt = l + 1 + Z.of_nat n) (Hl : 0 <= l) (Hlive : dom (heap bt) ## live)
  (Hcov : covers k N1 e N2) (Hk : 0 <= k) (Hv : v <> 0) (Hvf : v ∉ ptr <$> C)
  (Habs : l <> 0 -> absent k C).

(** A page with room: only that page changes. *)
Lemma stored_room (C1 C2 es : list Entry) (p p' : Page) :
  C = C1 ++ kids l e p es ++ C2 -> seg (heap bt) l N1 (Some e) C1 ->
  heap bt !! ptr e = Some p -> page_ok l e p es (nxt N2 None) -> seg (heap bt) l N2 None C2 ->
  below k C1 -> above k C2 -> holds p' (ins k v es) -> same_header p p' ->
  stored live l C k v bt (set_page bt (ptr e) p').
Proof.
  intros HCe H1 Hp Hok H2 Hb Ha Hp' Hh.
  destruct (content_node _ _ _ (levels_content _ _ _ _ _ Hup)) as (Hn1 & Hn2 & He0 & _).
  assert (forall b q, b <> ptr e -> heap bt !! b = Some q -> heap (set_page bt (ptr e) p') !! b = Some q)
    as Hfr by (intros b q Hb' Hq; simpl; by rewrite lookup_insert_ne by done).
  assert (forall b q, heap bt !! b = Some q -> level q <> l ->
            heap (set_page bt (ptr e) p') !! b = Some q) as Hfl.
  { intros b q Hq Hne. apply Hfr; [|done]. intros ->. rewrite Hp in Hq. injection Hq as <-.
    by apply Hne, Hok. }
  exists n. split_and!.
  - split; [by apply content_ins|]. exists (N1 ++ e :: N2). split.
    + apply seg_node. exists C1, p', (ins k v es), C2. split_and!.
      * rewrite (kids_ins l e p es k v) by
          (try apply Hcov; try apply Hh; intros Hl0; specialize (Habs Hl0); rewrite HCe in Habs;
           by eapply absent_mid).
        by rewrite HCe, ins_mid.
      * by eapply seg_update.
      * simpl. by rewrite lookup_insert_eq.
      * apply (page_ok_ins l e p); try done; [apply Hcov|]. intros e' He'. by eapply covers_next.
      * by eapply seg_update.
    + eapply levels_frame; [done|]. intros b q Hq Hlv. apply Hfl; [done|lia].
  - done.
  - intros b q Hq Hlv. apply Hfl; [done|lia].
  - simpl. apply elem_of_dom_2 in Hp. set_solver.
Qed.
Lemma root_node : n = O -> root bt = ptr e.
Proof.
  intros Hn. revert Hup. rewrite Hn. intros [_ HN].
  destruct N1 as [|? [|? ?]]; simplify_eq/=; done.
Qed.

Lemma root_other : n <> O -> exists r, heap bt !! root bt = Some r /\ level r <> l.
Proof.
  intros Hn. destruct n as [|n']; [done|].
  destruct (levels_root _ _ _ _ _ Hup) as (r & Hr & Hrl). exists r. split; [done|lia].
Qed.

(** The split key of an overflowing page can be stored in the levels above. *)
Definition parent_stores (fuel : nat) : Prop :=
  n <> O -> forall bt2 k2 v2,
    levels (heap bt2) (root bt2) (l + 1) n (N1 ++ e :: N2) -> height bt2 = height bt ->
    dom (heap bt2) ## live -> 0 <= k2 -> v2 <> 0 -> v2 ∉ ptr <$> N1 ++ e :: N2 ->
    absent k2 (N1 ++ e :: N2) ->
    exists bt3 w, InsertInternal pmalloc fuel live bt2 k2 v2 (l + 1) = Some (bt3, w) /\
      stored live (l + 1) (N1 ++ e :: N2) k2 v2 bt2 bt3.

(** A split: the page and its new sibling at [sa]. *)
Section split.
Context (C1 C2 l1 l2 : list Entry) (em : Entry) (p p' sib : Page) (sa : Z).
Let es := l1 ++ em :: l2.
Hypotheses (HCe : C = C1 ++ kids l e p es ++ C2) (H1 : seg (heap bt) l N1 (Some e) C1)
  (Hp : heap bt !! ptr e = Some p) (Hok : page_ok l e p es (nxt N2 None))
  (H2 : seg (heap bt) l N2 None C2) (Hb : below k C1) (Ha : above k C2)
  (Hl1 : l1 <> []) (Hl2 : l2 <> [])
  (HL : holds p' (if k <? key em then ins k v l1 else l1))
  (HR : holds sib (if k <? key em then moved p l2 em else ins k v (moved p l2 em)))
  (Hlm : leftmost_ptr p' = leftmost_ptr p) (Hlm' : leftmost_ptr sib = moved_leftmost p em)
  (Hsb : sibling_ptr p' = sa) (Hsb' : sibling_ptr sib = sibling_ptr p)
  (Hlv : level p' = level p) (Hlv' : level sib = level p)
  (Hsa : sa ∉ dom (heap bt)) (Hsa0 : sa <> 0) (Hsal : sa ∉ live).
Let bt2 := set_page (set_page bt sa sib) (ptr e) p'.
Let e' := MkEntry (key em) sa.

Lemma split_absent : l <> 0 -> absent k (kids l e p es).
Proof. intros Hl0. specialize (Habs Hl0). rewrite HCe in Habs. by eapply absent_mid. Qed.

Lemma split_fresh : ptr e <> sa.
Proof. intros Heq. apply Hsa. rewrite <- Heq. by apply elem_of_dom_2 in Hp. Qed.

Lemma split_frame (b : Z) (q : Page) :
  b <> ptr e -> heap bt !! b = Some q -> heap bt2 !! b = Some q.
Proof.
  intros Hne Hq. unfold bt2. simpl. rewrite !lookup_insert_ne; [done| |done].
  intros <-. apply Hsa. by apply elem_of_dom_2 in Hq.
Qed.

Lemma split_frame_level (b : Z) (q : Page) :
  heap bt !! b = Some q -> level q <> l -> heap bt2 !! b = Some q.
Proof.
  intros Hq Hne. apply split_frame; [|done]. intros ->. rewrite Hp in Hq. injection Hq as <-.
  by apply Hne, Hok.
Qed.

Lemma split_key_node :
  key e < key em /\ above (key em) N2 /\ covers (key em) N1 e N2 /\ absent (key em) (N1 ++ e :: N2) /\
  ins (key em) sa (N1 ++ e :: N2) = N1 ++ e :: e' :: N2.
Proof.
  destruct (split_sorted l e p es (nxt N2 None) k v Hok split_absent l1 l2 em p' eq_refl Hl1 HL) as (_ & _ & _ & Hlt).
  pose proof (levels_content _ _ _ _ _ Hup) as HN.
  destruct (content_node _ _ _ HN) as (_ & _ & _ & _ & Hbn).
  pose proof (content_sorted _ HN) as Hs. apply sorted_app in Hs as (_ & Hs & _).
  apply StronglySorted_inv in Hs as [Hs _].
  assert (above (key em) N2) as Han.
  { destruct N2 as [|x N2']; [constructor|]. pose proof (ok_high _ _ _ _ _ Hok x eq_refl) as Hh.
    apply Forall_app in Hh as [_ Hh]. inversion Hh; subst.
    apply StronglySorted_inv in Hs as [_ Hs]. constructor; [done|].
    eapply Forall_impl; [exact Hs|]. unfold ltk. simpl. lia. }
  split_and!; try done.
  - split; [lia|done].
  - apply Forall_app. split; [apply below_absent; by eapply below_le; [|exact Hbn]; lia|].
    constructor; [lia|by apply above_absent].
  - rewrite (cons_middle e N1 N2), app_assoc, ins_app_below, ins_above by
      (done || (apply Forall_app; split; [by eapply below_le; [|exact Hbn]; lia|by repeat constructor])).
    by rewrite <- app_assoc.
Qed.

Lemma split_seg : seg (heap bt2) l (N1 ++ e :: e' :: N2) None (ins k v C).
Proof.
  destruct (content_node _ _ _ (levels_content _ _ _ _ _ Hup)) as (Hn1 & Hn2 & _).
  apply seg_node. exists C1, p', (if k <? key em then ins k v l1 else l1).
  exists (kids l e' sib (if k <? key em then moved p l2 em else ins k v (moved p l2 em)) ++ C2).
  split_and!.
  - unfold e'. rewrite (app_assoc (kids _ _ _ _)).
    rewrite (split_kids l e p es (nxt N2 None) k v Hok (proj1 Hcov) split_absent l1 l2 em p' sib sa) by done.
    by rewrite HCe, ins_mid.
  - eapply seg_update; [done..|]. apply split_frame.
  - unfold bt2. simpl. by rewrite lookup_insert_eq.
  - by apply (split_left_ok l e p es (nxt N2 None) k v Hok (proj1 Hcov) split_absent l1 l2 em p' sib).
  - eexists _, _, _. split_and!; [|by apply (split_right_ok l e p es (nxt N2 None) k v Hok
      (fun e' => covers_next N1 N2 e k e' Hcov) split_absent l1 l2 em p')|done|eapply seg_update; [done..|]; apply split_frame].
    unfold bt2. simpl. rewrite lookup_insert_ne, lookup_insert_eq by apply split_fresh. done.
Qed.

Lemma split_levels : levels (heap bt2) (root bt) (l + 1) n (N1 ++ e :: N2).
Proof. eapply levels_frame; [done|]. intros b q Hq Hlq. apply split_frame_level; [done|lia]. Qed.

Lemma split_live : dom (heap bt2) ## live.
Proof. unfold bt2. simpl. apply elem_of_dom_2 in Hp. set_solver. Qed.

(** The split is complete once the split key is stored a level up. *)
Lemma split_stored (bt3 : FFBtree) :
  stored live (l + 1) (N1 ++ e :: N2) (key em) sa bt2 bt3 -> stored live l C k v bt bt3.
Proof.
  intros (n' & Hlev & Hh & Hf & Hd). exists (S n').
  destruct split_key_node as (_ & _ & _ & _ & Hins). rewrite Hins in Hlev.
  split_and!; [|lia| |done].
  - split; [by apply content_ins|]. exists (N1 ++ e :: e' :: N2). split; [|done].
    eapply seg_frame; [apply split_seg|]. intros b q _ Hq Hlq. apply Hf; [done|lia].
  - intros b q Hq Hlq. apply Hf; [|lia]. apply split_frame_level; [done|lia].
Qed.

(** The root was split: the new root has the two pages. *)
Lemma split_root :
  n = O ->
  let '(bt3, r) := new_page pmalloc live bt2 (Page_new_root (ptr e) (key em) sa (level p + 1)) in
  stored live (l + 1) (N1 ++ e :: N2) (key em) sa bt2 (setNewRoot bt3 r).
Proof.
  intros Hn. unfold new_page. set (r := pmalloc _). pose proof split_live as Hlive2.
  destruct split_key_node as (Hlt & _ & _ & _ & Hins).
  assert ((r ∉ dom (heap bt2)) /\ r ∉ live) as [Hr Hrl].
  { assert (r ∉ dom (heap bt2) ∪ live) by apply pmalloc_fresh. set_solver. }
  assert (N1 = [] /\ e = MkEntry 0 (root bt) /\ N2 = []) as (-> & He & ->).
  { revert Hup. rewrite Hn. intros [_ HN]. destruct N1 as [|x [|? ?]]; simplify_eq/=; done. }
  pose proof (ok_level _ _ _ _ _ Hok) as Hlp. rewrite He in Hlt. simpl in Hlt.
  assert (content_ok (ins (key em) sa ([] ++ [e]))) as Hcon.
  { apply content_ins; [by eapply levels_content|lia|done|].
    intros Hin. apply list_elem_of_singleton in Hin. by apply split_fresh. }
  rewrite Hins in Hcon. exists O. rewrite Hins. simpl. split_and!; [done|..].
  - exists [MkEntry 0 r]. split; [|split; [|done]].
    + eexists _, [MkEntry (key em) sa], []. simpl. rewrite lookup_insert_eq. split_and!; [done| | |done].
      * split; simpl; try done; [by apply Page_new_root_holds|by rewrite Hlp| |by repeat constructor; simpl; lia].
        split; [|lia]. intros H0. rewrite He in H0. simpl in H0.
        pose proof (content_range _ (levels_content _ _ _ _ _ Hup)) as Hc. rewrite He in Hc.
        inversion Hc; simplify_eq/=. tauto.
      * unfold kids. destruct (Z.eqb_spec (l + 1) 0); [lia|]. simpl. unfold e'. by rewrite He.
    + split; [repeat constructor|apply NoDup_singleton|]. constructor; [|done]. split; [done|]. apply pmalloc_nonnull.
  - rewrite Hheight, Hn. lia.
  - intros b q Hq Hlq. rewrite lookup_insert_ne; [done|]. intros <-. apply Hr. by apply elem_of_dom_2 in Hq.
  - set_solver.
Qed.

(** The last part of [store]. *)
Lemma split_finish (fuel : nat) (ret : Z) :
  parent_stores fuel ->
  exists bt',
    (if root bt2 =? ptr e then
       let '(bt, r) := new_page pmalloc live bt2 (Page_new_root (ptr e) (key em) sa (level p + 1)) in
       Some (setNewRoot bt r, ret, 0)
     else
       '(bt, _) ← InsertInternal pmalloc fuel live bt2 (key em) sa (level p + 1);
       Some (bt, ret, 0)) = Some (bt', ret, 0) /\ stored live l C k v bt bt'.
Proof.
  intros IH. destruct split_key_node as (Hlt & _ & _ & Hab & _).
  destruct (content_node _ _ _ (levels_content _ _ _ _ _ Hup)) as (_ & _ & _ & He & _).
  destruct (decide (n = O)) as [Hn|Hn].
  - pose proof (split_root Hn) as Hr. unfold bt2 at 1. simpl root. rewrite (root_node Hn), Z.eqb_refl.
    unfold new_page in *. eexists. split; [done|]. by apply split_stored.
  - unfold bt2 at 1. simpl root. destruct (Z.eqb_spec (root bt) (ptr e)) as [Hre|_].
    { exfalso. destruct (root_other Hn) as (r & Hr & Hrl). rewrite Hre, Hp in Hr.
      injection Hr as <-. by apply Hrl, Hok. }
    destruct (IH Hn bt2 (key em) sa) as (bt3 & w & Hii & Hst); try done.
    + apply split_levels.
    + apply split_live.
    + lia.
    + intros (x & Hx & Hin)%list_elem_of_fmap. apply Hsa. rewrite Hx.
      by apply (seg_dom (heap bt) l (N1 ++ e :: N2) None C).
    + rewrite (ok_level _ _ _ _ _ Hok), Hii. eexists. split; [done|]. by apply split_stored.
Qed.
End split.

(** [store] at the page that covers the key, given that the split key of an
    overflowing page can be stored a level up. *)
Lemma store_step (fuel : nat) :
  parent_stores fuel ->
  exists bt' ret old, store pmalloc (S fuel) live bt (ptr e) k v true = Some (bt', ret, old) /\
    ret <> 0 /\ stored live l C k v bt bt' /\ (old = find k C \/ old = 0).
Proof.
  intros IH. pose proof (levels_content _ _ _ _ _ Hup) as HN.
  destruct (seg_covers _ _ _ _ _ _ _ Hseg (content_sorted _ HN) Hcov)
    as (C1 & p & es & C2 & HCe & H1 & Hp & Hok & H2 & Hb & Ha).
  destruct (content_node _ _ _ HN) as (_ & _ & He0 & _ & _).
  pose proof (ok_holds _ _ _ _ _ Hok) as Hh.
  assert (leftmost_ptr p <> 0 -> absent k es) as Hne.
  { apply (absent_es l e p es (nxt N2 None) k Hok). intros Hl0. specialize (Habs Hl0).
    rewrite HCe in Habs. by eapply absent_mid. }
  cbn [store]. rewrite Hp. cbn [mbind option_bind]. fold (hop_test (heap bt) p k).
  rewrite (hop_false _ l N2 C2 e p es k Hok H2 (proj2 Hcov) Hk). cbn [mbind option_bind].
  rewrite (count_holds _ _ Hh). cbn [mbind option_bind].
  destruct (Z.ltb_spec (Z.of_nat (length es)) (cardinality - 1)) as [Hroom|Hfull].
  - destruct (insert_key_holds p es k v Hh Hv Hroom Hne) as (p' & -> & Hp' & Hsame).
    cbn [mbind option_bind]. eexists _, _, _. split; [done|]. split; [done|].
    split; [by eapply stored_room|]. destruct (Z.eq_dec l 0) as [->|Hl0].
    + left. by rewrite HCe, find_mid.
    + right. apply find_absent, Hne. intros Hz. by apply Hl0, Hok.
  - rewrite andb_false_r. set (sa := pmalloc _).
    destruct (full_split _ _ Hh Hfull) as (l1 & em & l2 & -> & Hl1 & Hl2).
    destruct (split_page_holds p l1 l2 em k v sa Hh Hl1 Hl2 Hv Hne)
      as (p' & sib & Hsp & HL & HR & Hlm & Hlm' & Hsb & Hsb' & Hlv & Hlv').
    assert ((sa ∉ dom (heap bt)) /\ sa ∉ live) as [Hsa Hsal].
    { assert (sa ∉ dom (heap bt) ∪ live) by apply pmalloc_fresh. set_solver. }
    assert (sa <> 0) as Hsa0 by apply pmalloc_nonnull.
    replace (Z.of_nat (length (l1 ++ em :: l2))) with 29 by (rewrite length_app; simpl; lia).
    rewrite Hsp. cbn [mbind option_bind].
    edestruct (split_finish C1 C2 l1 l2 em p p' sib sa) with (ret := if k <? key em then ptr e else sa)
      as (bt' & -> & Hst); try done; [by intros ->..|].
    eexists _, _, _. split; [done|]. split; [by destruct (k <? key em)|]. split; [done|by right].
Qed.
End level.

(** Descending to the page of level [l] that covers the key. *)
Lemma descend_to_level (bt : FFBtree) (l : Z) (n : nat) (N : list Entry) (C : list Entry) (k : Z) :
  0 < l -> levels (heap bt) (root bt) (l + 1) n N -> seg (heap bt) l N None C ->
  height bt = l + 1 + Z.of_nat n -> 0 <= k ->
  exists N1 e N2, N = N1 ++ e :: N2 /\ covers k N1 e N2 /\
    descend_level (S (Z.to_nat (height bt))) (heap bt) k (root bt) l = Some (ptr e).
Proof.
  intros Hl Hup Hseg Hh Hk.
  destruct (levels_descend _ _ _ _ _ k Hup ltac:(lia) Hk) as (N1 & e & N2 & -> & Hc & Hd & _).
  exists N1, e, N2. split; [done|]. split; [done|].
  replace (S (Z.to_nat (height bt))) with (S (Z.to_nat (l + 1)) + n)%nat by lia.
  rewrite Hd by lia. apply seg_node in Hseg as (C1 & p & es & C2 & _ & _ & Hp & Hok & _).
  cbn [descend_level]. rewrite Hp. cbn [mbind option_bind].
  by rewrite (ok_level _ _ _ _ _ Hok), Z.ltb_irrefl.
Qed.

(** [InsertInternal] into an internal level, up to the root. *)
Lemma InsertInternal_ok (n : nat) (l : Z) (bt : FFBtree) (N : list Entry) (k v : Z) (fuel : nat) :
  0 < l -> levels (heap bt) (root bt) l (S n) N -> height bt = l + 1 + Z.of_nat n ->
  dom (heap bt) ## live -> 0 <= k -> v <> 0 -> v ∉ ptr <$> N -> absent k N ->
  (2 * (n + 1) <= fuel)%nat ->
  exists bt' w, InsertInternal pmalloc fuel live bt k v l = Some (bt', w) /\
    stored live l N k v bt bt'.
Proof.
  revert l bt N k v fuel. induction n as [n IH] using lt_wf_ind.
  intros l bt N k v fuel Hl Hlev Hh Hd Hk Hv Hvf Hab Hfuel.
  destruct (levels_root _ _ _ _ _ Hlev) as (r & Hr & Hrl).
  destruct Hlev as (HN & M & Hseg & Hup).
  destruct (descend_to_level bt l n M N k Hl Hup Hseg Hh Hk) as (M1 & e & M2 & -> & Hcov & Hdl).
  destruct fuel as [|[|fuel]]; [lia..|].
  destruct (store_step l n bt M1 M2 N e k v HN Hseg Hup Hh ltac:(lia) Hd Hcov Hk Hv Hvf (fun _ => Hab) fuel)
    as (bt' & ret & old & Hst & Hret & Hs & _).
  { intros Hn bt2 k2 v2 Hlev2 Hh2 Hd2 Hk2 Hv2 Hvf2 Hab2. destruct n as [|n']; [done|].
    apply (IH n'); [lia..|done|lia|done|done|done|done|done|lia]. }
  exists bt', old. split; [|done]. cbn [InsertInternal]. rewrite Hr. cbn [mbind option_bind].
  destruct (Z.ltb_spec (level r) l); [lia|]. rewrite Hdl. cbn [mbind option_bind]. rewrite Hst.
  cbn [mbind option_bind]. by destruct (Z.eqb_spec ret 0).
Qed.

(** ** The tree as a map *)

(** [C] are the entries of the tree; the pages are allocated and the values
    are addresses of the client's objects. *)
Definition tree_ok (bt : FFBtree) (C : list Entry) : Prop :=
  exists n, levels (heap bt) (root bt) 0 (S n) C /\ height bt = 1 + Z.of_nat n /\
    dom (heap bt) ## live /\ Forall (fun e => ptr e ∈ live) C.

Lemma FFBtree_new_ok : tree_ok (FFBtree_new pmalloc live) [].
Proof.
  exists O. unfold FFBtree_new. set (a := pmalloc live).
  assert (a ∉ live) by apply pmalloc_fresh. split_and!; [|done|set_solver|constructor].
  split; [by split; [apply SSorted_nil|constructor|]|].
  exists [MkEntry 0 a]. split.
  - exists (Page_new 0), [], []. simpl. rewrite lookup_singleton_eq. split_and!; try done.
    split; try done. apply Page_new_holds.
  - split; [|done]. split; [repeat constructor|apply NoDup_singleton|].
    constructor; [|done]. split; [done|apply pmalloc_nonnull].
Qed.

(** The leaf that covers a key. *)
Lemma descend_to_leaf (bt : FFBtree) (n : nat) (N C : list Entry) (k : Z) :
  levels (heap bt) (root bt) 1 n N -> seg (heap bt) 0 N None C ->
  height bt = 1 + Z.of_nat n -> 0 <= k ->
  exists N1 e N2, N = N1 ++ e :: N2 /\ covers k N1 e N2 /\
    descend_leaf (S (Z.to_nat (height bt))) (heap bt) k (root bt) = Some (ptr e).
Proof.
  intros Hup Hseg Hh Hk.
  destruct (levels_descend _ _ _ _ _ k Hup ltac:(lia) Hk) as (N1 & e & N2 & -> & Hc & _ & Hd).
  exists N1, e, N2. split; [done|]. split; [done|].
  replace (S (Z.to_nat (height bt))) with (2 + n)%nat by lia.
  rewrite Hd. apply seg_node in Hseg as (C1 & p & es & C2 & _ & _ & Hp & Hok & _).
  cbn [descend_leaf]. rewrite Hp. cbn [mbind option_bind].
  by rewrite (proj2 (ok_leftmost _ _ _ _ _ Hok) eq_refl).
Qed.

Lemma find_elem (k : Z) (C : list Entry) : find k C <> 0 -> exists e, e ∈ C /\ ptr e = find k C.
Proof.
  induction C as [|e C IH]; simpl; [done|]. destruct (k =? key e).
  - exists e. split; [by left|done].
  - intros (x & Hx & Hp)%IH. exists x. split; [by right|done].
Qed.

Lemma Search_ok (bt : FFBtree) (C : list Entry) (k : Z) :
  tree_ok bt C -> 0 <= k -> Search bt k = Some (find k C).
Proof.
  intros (n & (HC & N & Hseg & Hup) & Hh & Hd & Hval) Hk.
  pose proof (levels_content _ _ _ _ _ Hup) as HN.
  destruct (descend_to_leaf bt n N C k Hup Hseg Hh Hk) as (N1 & e & N2 & -> & Hc & Hdl).
  destruct (leaf_step _ _ _ _ _ _ _ Hseg HN HC Hk Hc eq_refl) as (p & Hp & _ & Hls).
  unfold Search. rewrite Hdl. cbn [mbind option_bind search_loop]. rewrite Hp.
  cbn [mbind option_bind]. rewrite Hls. cbn [mbind option_bind].
  destruct (Z.eqb_spec (find k C) (sibling_ptr p)) as [Heq|]; [|done].
  destruct (Z.eqb_spec (find k C) 0) as [|Hnz]; [done|exfalso].
  apply find_elem in Hnz as (x & Hx & Hpx). eapply Forall_forall in Hval; [|done].
  apply seg_node in Hseg as (C1 & p' & es & C2 & _ & _ & Hp' & Hok & H2).
  rewrite Hp in Hp'. injection Hp' as <-. rewrite (ok_sibling _ _ _ _ _ Hok) in Heq.
  destruct N2 as [|y N2]; simpl in Heq.
  - pose proof (content_range _ HC) as Hr. eapply Forall_forall in Hr as [_ Hr]; [|exact Hx]. congruence.
  - destruct H2 as (s & ? & ? & Hs & _). apply elem_of_dom_2 in Hs.
    rewrite Hpx, Heq in Hval. by apply (Hd (ptr y)).
Qed.

Lemma Insert_ok (bt : FFBtree) (C : list Entry) (k v : Z) :
  tree_ok bt C -> 0 <= k -> v <> 0 -> v ∈ live -> v ∉ ptr <$> C ->
  exists bt' old, Insert pmalloc live bt k v = Some (bt', old) /\ tree_ok bt' (ins k v C) /\
    (old = find k C \/ old = 0).
Proof.
  intros (n & (HC & N & Hseg & Hup) & Hh & Hd & Hval) Hk Hv Hvl Hvf.
  destruct (descend_to_leaf bt n N C k Hup Hseg Hh Hk) as (N1 & e & N2 & -> & Hc & Hdl).
  unfold Insert, Insert_fuel. rewrite Hdl. cbn [mbind option_bind].
  replace (2 * S (Z.to_nat (height bt)))%nat with (S (2 * n + 3)) by lia.
  edestruct (store_step 0 n bt N1 N2 C e k v) with (fuel := (2 * n + 3)%nat)
    as (bt' & ret & old & -> & Hret & (n' & Hlev & Hh' & _ & Hd') & Hold); try done.
  { intros Hn bt2 k2 v2 Hlev2 Hh2 Hd2 Hk2 Hv2 Hvf2 Hab2. destruct n as [|n']; [done|].
    apply (InsertInternal_ok n'); try done; lia. }
  exists bt', old. cbn [mbind option_bind]. destruct (Z.eqb_spec ret 0); [done|].
  split; [done|]. split; [|done]. exists n'. split_and!; [done|lia|done|].
  apply Forall_forall. intros x [->|[Hx _]]%elem_of_ins; [done| |apply HC].
  by eapply Forall_forall in Hval.
Qed.
End tree.
