(* ===== verification/KeyTree.v ===== *)
(** * The ordered index behind the filters

    What [MultiCuckooIndex] relies on of its member [tree_]: a map from keys
    to the addresses of the index entries that the client allocates.  The
    client's theorems are proved against this interface; the FAST-FAIR tree
    implements it. *)

From S2P Require Import Prelude FFPage FFEntries FFBtree FFPageSpec FFLevels FFTree.

(** The operations: [live] are the addresses of the client's own objects,
    which the allocator must not hand out again; a result 0 is the null
    pointer. *)
Class KeyTree (T : Type) := {
  kt_new : gset Z -> T;
  kt_pages : T -> gset Z;
  kt_search : T -> Z -> option Z;
  kt_insert : gset Z -> T -> Z -> Z -> option (T * Z)
}.

(** [kt_rep live t m]: the tree [t] stands for the map [m]. *)
Class KeyTreeSpec (T : Type) `{KeyTree T} := {
  kt_rep : gset Z -> T -> gmap Z Z -> Prop;
  kt_rep_new live : kt_rep live (kt_new live) ∅;
  kt_rep_pages live t m : kt_rep live t m -> kt_pages t ## live;
  kt_rep_values live t m k v : kt_rep live t m -> m !! k = Some v -> v ∈ live /\ v <> 0;
  kt_rep_inj live t m k k' v : kt_rep live t m -> m !! k = Some v -> m !! k' = Some v -> k = k';
  kt_rep_live live live' t m :
    kt_rep live t m -> kt_pages t ## live' -> (forall k v, m !! k = Some v -> v ∈ live') ->
    kt_rep live' t m;
  kt_rep_search live t m k : kt_rep live t m -> 0 <= k -> kt_search t k = Some (default 0 (m !! k));
  kt_rep_insert live t m k v :
    kt_rep live t m -> 0 <= k -> v <> 0 -> v ∈ live -> (forall k', m !! k' <> Some v) ->
    exists t' old, kt_insert live t k v = Some (t', old) /\ kt_rep live t' (<[k := v]> m) /\
      (old = default 0 (m !! k) \/ old = 0)
}.

(** ** Sorted entries as a finite map *)

Definition entries_map (C : list Entry) : gmap Z Z :=
  list_to_map ((fun e => (key e, ptr e)) <$> C).

Lemma entries_map_cons (e : Entry) (C : list Entry) :
  entries_map (e :: C) = <[key e := ptr e]> (entries_map C).
Proof. done. Qed.

Lemma entries_map_find (C : list Entry) (k : Z) :
  Forall (fun e => ptr e <> 0) C -> find k C = default 0 (entries_map C !! k).
Proof.
  induction 1 as [|e C _ _ IH]; [done|]. cbn [find]. rewrite entries_map_cons.
  destruct (Z.eqb_spec k (key e)) as [->|]; [by rewrite lookup_insert_eq|].
  by rewrite lookup_insert_ne.
Qed.

Lemma entries_map_elem (C : list Entry) (k v : Z) :
  entries_map C !! k = Some v -> MkEntry k v ∈ C.
Proof.
  intros H%elem_of_list_to_map_2. apply list_elem_of_fmap in H as ([k' v'] & Heq & Hin).
  by simplify_eq/=.
Qed.

Lemma entries_map_ins (C : list Entry) (k v : Z) :
  sorted C -> entries_map (ins k v C) = <[k := v]> (entries_map C).
Proof.
  induction 1 as [|e C Hs IH Hf]; [done|]. cbn [ins].
  destruct (k <? key e); [done|]. destruct (Z.eqb_spec k (key e)) as [->|Hne].
  - rewrite !entries_map_cons. simpl. by rewrite insert_insert_eq.
  - rewrite !entries_map_cons, IH. by rewrite insert_insert_ne.
Qed.

Lemma entries_map_lookup (C : list Entry) (e : Entry) :
  sorted C -> e ∈ C -> entries_map C !! key e = Some (ptr e).
Proof.
  intros Hs Hin. apply elem_of_list_to_map_1.
  - rewrite <- list_fmap_compose. clear e Hin. induction Hs as [|e C Hs IH Hf]; [constructor|].
    cbn. apply NoDup_cons. split; [|done]. intros (x & Hx & Hin)%list_elem_of_fmap.
    eapply Forall_forall in Hf; [|done]. unfold ltk in Hf. simpl in Hx. lia.
  - apply list_elem_of_fmap. by exists e.
Qed.

(** ** The FAST-FAIR tree as an instance *)

Section ff.
Context (pmalloc : gset Z -> Z).
Hypotheses (pmalloc_fresh : forall s, pmalloc s ∉ s) (pmalloc_nonnull : forall s, pmalloc s <> 0).

Definition FFBtree_KeyTree : KeyTree FFBtree := {|
  kt_new live := FFBtree_new pmalloc live;
  kt_pages bt := dom (heap bt);
  kt_search := Search;
  kt_insert live bt k v := Insert pmalloc live bt k v
|}.

Definition ff_rep (live : gset Z) (bt : FFBtree) (m : gmap Z Z) : Prop :=
  exists C, tree_ok live bt C /\ m = entries_map C.

Lemma tree_ok_content (live : gset Z) (bt : FFBtree) (C : list Entry) :
  tree_ok live bt C -> content_ok C.
Proof. intros (n & Hl & _). by eapply levels_content. Qed.

Lemma tree_ok_ptrs (live : gset Z) (bt : FFBtree) (C : list Entry) :
  tree_ok live bt C -> Forall (fun e => ptr e <> 0) C.
Proof.
  intros [_ _ Hr]%tree_ok_content. eapply Forall_impl; [exact Hr|]. by intros e [_ ?].
Qed.

Lemma ff_rep_live (live live' : gset Z) (bt : FFBtree) (m : gmap Z Z) :
  ff_rep live bt m -> dom (heap bt) ## live' -> (forall k v, m !! k = Some v -> v ∈ live') ->
  ff_rep live' bt m.
Proof.
  intros (C & Hok & ->) Hd Hv. exists C. split; [|done].
  pose proof (tree_ok_content _ _ _ Hok) as [Hs _ _].
  destruct Hok as (n & Hl & Hh & _ & _). exists n. split_and!; [done..|].
  apply Forall_forall. intros e Hin. apply (Hv (key e)). by apply entries_map_lookup.
Qed.

Lemma ff_rep_insert (live : gset Z) (bt : FFBtree) (m : gmap Z Z) (k v : Z) :
  ff_rep live bt m -> 0 <= k -> v <> 0 -> v ∈ live -> (forall k', m !! k' <> Some v) ->
  exists bt' old, Insert pmalloc live bt k v = Some (bt', old) /\ ff_rep live bt' (<[k := v]> m) /\
    (old = default 0 (m !! k) \/ old = 0).
Proof.
  intros (C & Hok & ->) Hk Hv Hvl Hf. pose proof (tree_ok_content _ _ _ Hok) as HC.
  destruct (Insert_ok pmalloc live pmalloc_fresh pmalloc_nonnull bt C k v Hok Hk Hv Hvl)
    as (bt' & old & Hi & Hok' & Hold).
  - intros (e & -> & Hin)%list_elem_of_fmap. apply (Hf (key e)).
    apply entries_map_lookup; [apply HC|done].
  - exists bt', old. split; [done|]. split.
    + exists (ins k v C). split; [done|]. symmetry. apply entries_map_ins, HC.
    + rewrite <- entries_map_find by (by eapply tree_ok_ptrs). done.
Qed.

Lemma ff_rep_inj (live : gset Z) (bt : FFBtree) (m : gmap Z Z) (k k' v : Z) :
  ff_rep live bt m -> m !! k = Some v -> m !! k' = Some v -> k = k'.
Proof.
  intros (C & Hok & ->) H1%entries_map_elem H2%entries_map_elem.
  pose proof (content_NoDup _ (tree_ok_content _ _ _ Hok)) as Hn.
  apply list_elem_of_lookup in H1 as [i Hi]. apply list_elem_of_lookup in H2 as [j Hj].
  assert (i = j) as ->; [|by rewrite Hi in Hj; injection Hj].
  eapply NoDup_lookup; [exact Hn|rewrite list_lookup_fmap, Hi; done|rewrite list_lookup_fmap, Hj; done].
Qed.

Definition FFBtree_KeyTreeSpec : @KeyTreeSpec FFBtree FFBtree_KeyTree.
Proof.
  refine {| kt_rep := ff_rep |}.
  - intros live. exists []. split; [|done].
    by apply FFBtree_new_ok.
  - by intros live t m (C & (n & _ & _ & Hd & _) & _).
  - intros live t m k v (C & Hok & ->) Hin%entries_map_elem.
    pose proof (tree_ok_ptrs _ _ _ Hok) as Hp. destruct Hok as (n & _ & _ & _ & Hv).
    eapply Forall_forall in Hv; [|exact Hin]. by eapply Forall_forall in Hp; [|exact Hin].
  - apply ff_rep_inj.
  - apply ff_rep_live.
  - intros live t m k (C & Hok & ->) Hk. rewrite <- entries_map_find by (by eapply tree_ok_ptrs).
    by eapply Search_ok.
  - apply ff_rep_insert.
Defined.
End ff.

(** ** Properties of the tree *)

(** A sequence of insertions. *)
Fixpoint Inserts (pmalloc : gset Z -> Z) (live : gset Z) (bt : FFBtree) (l : list (Z * Z))
    : option FFBtree :=
  match l with
  | [] => Some bt
  | (k, v) :: l' => '(bt, _) ← Insert pmalloc live bt k v; Inserts pmalloc live bt l'
  end.

(** What the client may insert: keys with fresh, non-null pointers to its own
    objects. *)
Definition insertable (live : gset Z) (l : list (Z * Z)) : Prop :=
  NoDup l.*2 /\ Forall (fun p => 0 <= p.1 /\ p.2 <> 0 /\ p.2 ∈ live) l.

Lemma Inserts_ok (pmalloc : gset Z -> Z) (live : gset Z) (l : list (Z * Z)) (bt : FFBtree)
    (m : gmap Z Z) :
  (forall s, pmalloc s ∉ s) -> (forall s, pmalloc s <> 0) -> insertable live l ->
  ff_rep live bt m -> (forall k v, m !! k = Some v -> v ∉ l.*2) ->
  exists bt', Inserts pmalloc live bt l = Some bt' /\ ff_rep live bt' (list_to_map (reverse l) ∪ m).
Proof.
  intros Hf Hn. revert bt m. induction l as [|[k v] l IH]; intros bt m [Hnd Hall] Hr Hm.
  - exists bt. split; [done|]. by rewrite reverse_nil, list_to_map_nil, (left_id_L ∅ (∪)).
  - apply Forall_cons in Hall as [(Hk & Hv & Hvl) Hall]. cbn in Hnd. apply NoDup_cons in Hnd as [Hnv Hnd].
    destruct (ff_rep_insert pmalloc Hf Hn live bt m k v Hr Hk Hv Hvl) as (bt1 & old & Hi & Hr1 & _).
    { intros k' Hk'. apply (Hm k' v Hk'). by left. }
    destruct (IH bt1 (<[k := v]> m)) as (bt2 & Hi2 & Hr2); [by split|done| |].
    { intros k' v' Hv'. destruct (decide (k' = k)) as [->|Hne].
      - rewrite lookup_insert_eq in Hv'. by injection Hv' as <-.
      - rewrite lookup_insert_ne in Hv' by done. specialize (Hm k' v' Hv'). cbn in Hm. set_solver. }
    exists bt2. split; [cbn [Inserts]; by rewrite Hi|].
    rewrite reverse_cons, list_to_map_app. cbn. by rewrite <- (assoc_L (∪)), insert_empty, <- insert_union_singleton_l.
Qed.

(** C2. A FAST-FAIR tree is a map: after any sequence of insertions into a new
    tree, all of which succeed, a search returns the pointer inserted last
    for the key, and the null pointer for a key that was never inserted. *)
Theorem FFBtree_refines_map (pmalloc : gset Z -> Z) (live : gset Z) (l : list (Z * Z)) :
  (forall s, pmalloc s ∉ s) -> (forall s, pmalloc s <> 0) -> insertable live l ->
  exists bt, Inserts pmalloc live (FFBtree_new pmalloc live) l = Some bt /\
    forall k, 0 <= k ->
      Search bt k = Some (default 0 ((list_to_map (reverse l) : gmap Z Z) !! k)).
Proof.
  intros Hf Hn Hl.
  destruct (Inserts_ok pmalloc live l (FFBtree_new pmalloc live) ∅ Hf Hn Hl) as (bt & Hi & Hr).
  - exists []. split; [by apply FFBtree_new_ok|done].
  - intros k v. by rewrite lookup_empty.
  - exists bt. split; [done|]. rewrite (right_id_L ∅ (∪)) in Hr. intros k Hk.
    destruct Hr as (C & Hok & Hm). rewrite Hm.
    rewrite <- entries_map_find by (by eapply tree_ok_ptrs). by eapply Search_ok.
Qed.

Lemma FFBtree_refines_map_witness :
  exists bt, Inserts bump_alloc {[101; 102; 103]} (FFBtree_new bump_alloc {[101; 102; 103]})
               [(5, 101); (3, 102); (5, 103)] = Some bt /\
    forall k, 0 <= k ->
      Search bt k = Some (default 0 ((list_to_map (reverse [(5, 101); (3, 102); (5, 103)]) : gmap Z Z) !! k)).
Proof.
  apply FFBtree_refines_map; [apply bump_alloc_fresh|apply bump_alloc_nonnull|].
  split; [by apply (bool_decide_unpack _); vm_compute|]. repeat constructor; simpl; (lia || set_solver).
Defined.

(** Replacing the pointer of a key that sits in a full leaf works, but the
    old pointer is not returned, as it is when the leaf has room: the split
    path of [store] forgets it, and the caller cannot free the old object. *)
Theorem Insert_full_leaf_forgets_old :
  let live := list_to_set (2000 :: seqZ 1001 29) in
  (bt ← Inserts bump_alloc live (FFBtree_new bump_alloc live) (zip (seqZ 1 29) (seqZ 1001 29));
   before ← Search bt 1;
   '(bt', old) ← Insert bump_alloc live bt 1 2000;
   after ← Search bt' 1;
   Some (before, old, after)) = Some (1001, 0, 2000).
Proof. vm_compute. reflexivity. Qed.
