(* ===== verification/MultiCuckoo.v ===== *)
(** * MultiCuckooIndex

    [multi-cuckoo-index/multi_cuckoo_index.h] and [.cc]: the index of the
    store.  It maps a key to the number of the table file that holds the
    key's latest value.  Keys are spread over an array of cuckoo filters; a
    key whose fingerprint is already in its filter goes to an ordered tree
    instead, which is searched first.

    The tree is used through the interface of [KeyTree].  The tree's values
    are addresses of [IndexMeta] objects in persistent memory; [metas] is that
    part of the heap.  Reading or freeing an address that is not allocated is
    [None].  The background threads are the steps [Runner_step] (one
    iteration of the inner loop of [Runner]) and [Rehash_step] (a run of a
    filter's rehash thread); each takes effect at once. *)

From Stdlib Require Import String.
From S2P Require Import Prelude Status Coding NvmTable Hashing Cuckoo CuckooRehash KeyTree.

(** ** Definitions *)

Definition max_num_keys : Z := 100000.

(** [queue_] has the (key, file number) pairs of [KeyAndMeta]; [edit_] is the
    recovery list of the version edit, if there is one. *)
Record MultiCuckooIndex (T : Type) := MkIndex {
  num_cuckoo_filter_ : Z;
  filters_ : list CuckooFilter;
  tree_ : T;
  metas : gmap Z Z;
  bgstarted_ : bool;
  queue_ : list (Z * Z);
  for_update_ : bool;
  edit_ : option (list Z)
}.
Arguments MkIndex {_}.
Arguments num_cuckoo_filter_ {_}.
Arguments filters_ {_}.
Arguments tree_ {_}.
Arguments metas {_}.
Arguments bgstarted_ {_}.
Arguments queue_ {_}.
Arguments for_update_ {_}.
Arguments edit_ {_}.

Section operations.
Context {T : Type} `{KeyTree T} (pmalloc : gset Z -> Z).
Implicit Types m : MultiCuckooIndex T.

Definition set_filter m (i : nat) (f : CuckooFilter) : MultiCuckooIndex T :=
  {| num_cuckoo_filter_ := num_cuckoo_filter_ m; filters_ := <[i := f]> (filters_ m);
     tree_ := tree_ m; metas := metas m; bgstarted_ := bgstarted_ m; queue_ := queue_ m;
     for_update_ := for_update_ m; edit_ := edit_ m |}.

Definition set_tree m (t : T) (ms : gmap Z Z) : MultiCuckooIndex T :=
  {| num_cuckoo_filter_ := num_cuckoo_filter_ m; filters_ := filters_ m;
     tree_ := t; metas := ms; bgstarted_ := bgstarted_ m; queue_ := queue_ m;
     for_update_ := for_update_ m; edit_ := edit_ m |}.

Definition set_edit m (e : option (list Z)) : MultiCuckooIndex T :=
  {| num_cuckoo_filter_ := num_cuckoo_filter_ m; filters_ := filters_ m;
     tree_ := tree_ m; metas := metas m; bgstarted_ := bgstarted_ m; queue_ := queue_ m;
     for_update_ := for_update_ m; edit_ := e |}.

Definition set_queue m (q : list (Z * Z)) : MultiCuckooIndex T :=
  {| num_cuckoo_filter_ := num_cuckoo_filter_ m; filters_ := filters_ m;
     tree_ := tree_ m; metas := metas m; bgstarted_ := bgstarted_ m; queue_ := q;
     for_update_ := for_update_ m; edit_ := edit_ m |}.

(** The constructor; [hs] are the hash functions the filters draw. *)
Definition MultiCuckooIndex_new (hs : list TwoIndependentMultiplyShift) : MultiCuckooIndex T :=
  {| num_cuckoo_filter_ := Z.of_nat (length hs);
     filters_ := imap (fun i h => CuckooFilter_new max_num_keys (Z.of_nat i) h) hs;
     tree_ := kt_new ∅; metas := ∅; bgstarted_ := false; queue_ := [];
     for_update_ := false; edit_ := None |}.

Definition cf_no m (key : Z) : nat :=
  Z.to_nat (if num_cuckoo_filter_ m =? 1 then 0
            else u32 (key mod u64 (num_cuckoo_filter_ m - 1))).

(** A new [IndexMeta] is allocated and inserted into the tree; the result has
    the pointer that [FFBtree::Insert] returns. *)
Definition tree_insert m (key file_number : Z) : option (MultiCuckooIndex T * Z) :=
  let ptr := pmalloc (kt_pages (tree_ m) ∪ dom (metas m)) in
  let ms := <[ptr := file_number]> (metas m) in
  '(t, old) ← kt_insert (dom ms) (tree_ m) key ptr;
  Some (set_tree m t ms, old).

(** [nvram::pfree]; freeing the null pointer has no effect. *)
Definition pfree m (p : Z) : option (MultiCuckooIndex T) :=
  if p =? 0 then Some m
  else
    _ ← metas m !! p;
    Some (set_tree m (tree_ m) (delete p (metas m))).

Definition Insert m (key file_number : Z) (rs : Z -> Z) : option (Status * MultiCuckooIndex T) :=
  let m := set_edit m ((fun l => l ++ [file_number]) <$> edit_ m) in
  f ← filters_ m !! cf_no m key;
  if IsRehashing f then Some (NotSupported (bs "CF is Rehashing now" ++ [Byte.x0a]), m)
  else
    found ← Contain f key;
    if (found : bool) then
      '(m, old_ptr) ← tree_insert m key file_number;
      m ← (if old_ptr =? 0 then Some m else pfree m old_ptr);
      Some (OK, m)
    else
      '(s, f) ← Add f key file_number rs;
      if (negb (ok s) || load_factor_gt_085 f) && negb (IsRehashing f)
      then Some (NotSupported (bs "we need to start rehash now"),
                 set_filter m (cf_no m key) (SetRehash f true))
      else Some (OK, set_filter m (cf_no m key) f).

(** [Get], once no filter is being deleted; the result -1 is [2^32 - 1]. *)
Definition Get m (key : bytes) : option Z :=
  let target_key := fast_atoi key in
  result ← kt_search (tree_ m) target_key;
  if negb (result =? 0) then metas m !! result
  else
    f ← filters_ m !! cf_no m target_key;
    r ← Contain_res f target_key;
    Some (default (2 ^ 32 - 1) r).

(** [Update]; its assertions are compiled out. *)
Definition Update m (key file_number : Z) : option (Status * MultiCuckooIndex T) :=
  res ← kt_search (tree_ m) key;
  if negb (res =? 0) then
    '(m, old_ptr) ← tree_insert m key file_number;
    m ← pfree m old_ptr;
    Some (OK, m)
  else
    f ← filters_ m !! cf_no m key;
    _ ← Contain f key;
    if IsRehashing f then Some (NotSupported (bs "is rehashing"), m)
    else
      '(_, f) ← Cuckoo.Update f key file_number;
      Some (OK, set_filter m (cf_no m key) f).

(** One iteration of the loop over the queue in [Runner]: an item that could
    not be processed goes to the back. *)
Definition Runner_step m (rs : Z -> Z) : option (MultiCuckooIndex T) :=
  match queue_ m with
  | [] => Some m
  | (key, file_number) :: _ =>
      '(s, m) ← (if for_update_ m then Update m key file_number else Insert m key file_number rs);
      let q := if ok s then queue_ m else queue_ m ++ [(key, file_number)] in
      Some (set_queue m (drop 1 q))
  end.

(** The rehash thread of filter [i]. *)
Definition Rehash_step m (i : nat) (rs : nat -> Z -> Z) : option (MultiCuckooIndex T) :=
  f ← filters_ m !! i;
  '(_, f) ← Rehash f rs;
  Some (set_filter m i f).

(** [AddQueue]; the caller's queue is exchanged for the empty one. *)
Definition AddQueue m (queue : list (Z * Z)) (edit : option (list Z)) (for_update : bool)
    : MultiCuckooIndex T * list (Z * Z) :=
  ({| num_cuckoo_filter_ := num_cuckoo_filter_ m; filters_ := filters_ m;
      tree_ := tree_ m; metas := metas m; bgstarted_ := true; queue_ := queue;
      for_update_ := for_update; edit_ := edit |}, queue_ m).
End operations.
