(* ===== verification/MultiCuckooSpec.v ===== *)
(** * The index refines a map from keys to file numbers

    The specification of [MultiCuckoo] is a finite map from keys to file
    numbers.  A key that was inserted is found with the number it was
    inserted with last, whatever the filters' rehash threads do, as long as no
    filter has lost a slot. *)

From Stdlib Require Import String.
From S2P Require Import Prelude Status Coding NvmTable Hashing Cuckoo CuckooRehash KeyTree MultiCuckoo.

(** ** Filters *)

Definition filter_ok (f : CuckooFilter) : Prop :=
  wf_filter f /\ homed (table_ f) /\ num_buckets_ (table_ f) = buckets_for (max_keys_ f)
  /\ 0 <= max_keys_ f <= 2 ^ 32.

(** A filter with the same hash function and as many buckets classifies keys
    in the same way. *)
Lemma key_class_same (f f' : CuckooFilter) (k : Z) :
  hasher_ f' = hasher_ f -> num_buckets_ (table_ f') = num_buckets_ (table_ f) ->
  key_class f' k = key_class f k.
Proof.
  intros Hh Hn. unfold key_class, orbit, AltIndex, h32, IndexHash, NumBuckets. by rewrite Hh, Hn.
Qed.

(** [homed] in terms of the map the filter stands for. *)
Lemma homed_dom (t : NvmSingleTable) :
  unique t ->
  homed t <-> forall c, is_Some (table_map t !! c) -> c.1 = orbit t (IndexHash c.2 t) c.2.
Proof.
  intros Hu. split.
  - intros Hh [o fp] [v Hv]. apply elem_of_list_to_map_2 in Hv.
    apply elem_of_contents in Hv as (i & s & Hin & -> & -> & _). simpl. by apply Hh.
  - intros Hd i s Hin. apply (Hd (orbit t i (Z.shiftr s 32), Z.shiftr s 32)).
    exists (s mod 2 ^ 32). apply elem_of_list_to_map_1; [done|].
    apply elem_of_contents. by exists i, s.
Qed.

Lemma key_class_homed (f : CuckooFilter) (k : Z) :
  h32 f k <> 0 ->
  (key_class f k).1 = orbit (table_ f) (IndexHash (key_class f k).2 (table_ f)) (key_class f k).2.
Proof.
  intros Hz. unfold key_class. simpl.
  by rewrite fingerprint_nonzero by (pose proof (h32_range f k); lia).
Qed.

Lemma homed_step (f f' : CuckooFilter) (k fn : Z) :
  wf_filter f -> wf_filter f' -> homed (table_ f) -> h32 f k <> 0 ->
  num_buckets_ (table_ f') = num_buckets_ (table_ f) ->
  filter_map f' = <[key_class f k := fn]> (filter_map f) -> homed (table_ f').
Proof.
  intros (_ & Hu & _) (_ & Hu' & _) Hh Hz Hn Hm. apply (homed_dom _ Hu'). intros c Hc.
  replace (orbit (table_ f') (IndexHash c.2 (table_ f')) c.2)
    with (orbit (table_ f) (IndexHash c.2 (table_ f)) c.2)
    by (unfold orbit, AltIndex, IndexHash, NumBuckets; by rewrite Hn).
  fold (filter_map f') in Hc. rewrite Hm in Hc. destruct (decide (c = key_class f k)) as [->|Hne].
  - by apply key_class_homed.
  - rewrite lookup_insert_ne in Hc by done. by apply (proj1 (homed_dom _ Hu) Hh).
Qed.

Lemma filter_new_ok (mk id : Z) (h : TwoIndependentMultiplyShift) :
  0 <= mk <= 2 ^ 32 -> filter_ok (CuckooFilter_new mk id h).
Proof.
  intros Hmk. destruct (buckets_for_spec mk) as [(k & Hk & Ek) _]; [lia|].
  pose proof (new_table_items (buckets_for mk) id 0) as Hit.
  split_and!; try done; try (simpl; lia).
  - split_and!; simpl.
    + by eapply new_table_wf.
    + unfold unique, contents. rewrite Hit. constructor.
    + by rewrite Hit.
  - intros i s Hin. unfold CuckooFilter_new in Hin. simpl in Hin. rewrite Hit in Hin. by apply not_elem_of_nil in Hin.
Qed.

Lemma buckets_lt (mk : Z) : 0 <= mk <= 2 ^ 32 -> buckets_for mk < 2 ^ 32.
Proof.
  intros Hmk. unfold buckets_for.
  assert (mk / 4 <= 2 ^ 30) by (apply Z.div_le_upper_bound; lia).
  destruct (upperpower2_bounds (Z.max 1 (mk / 4))) as (k & Hk & -> & Hle & Hlt); [lia|].
  assert (k < 31); [apply (Z.pow_lt_mono_r_iff 2); lia|].
  assert (2 ^ k <= 2 ^ 30) by (apply Z.pow_le_mono_r; lia).
  assert (0 < 2 ^ k) by (apply Z.pow_pos_nonneg; lia).
  destruct (frac_gt_maximum mk (2 ^ k) 4); [|lia].
  unfold u64. rewrite Z.shiftl_mul_pow2, Z.mod_small by lia. lia.
Qed.

(** Inserting a key whose class is free, when nothing is evicted. *)
Lemma filter_ok_Add (f f' : CuckooFilter) (k fn : Z) (s : Status) (rs : Z -> Z) :
  filter_ok f -> 0 <= fn < 2 ^ 32 -> filter_map f !! key_class f k = None -> h32 f k <> 0 ->
  Add f k fn rs = Some (s, f') -> ok s = true ->
  filter_ok f' /\ hasher_ f' = hasher_ f /\ is_rehashing_ f' = is_rehashing_ f /\
  num_buckets_ (table_ f') = num_buckets_ (table_ f) /\
  filter_map f' = <[key_class f k := fn]> (filter_map f).
Proof.
  intros (Hwf & Hh & Hb & Hmk) Hfn Hnone Hz Hadd Hs.
  destruct (Add_lookup f k fn rs Hwf Hfn Hnone) as (s1 & f1 & Hadd1 & Hwf1 & Hha & Hn & Hre & Emk & Hout).
  rewrite Hadd in Hadd1. injection Hadd1 as <- <-.
  destruct Hout as [(_ & Hm)|(-> & _)]; [|done].
  split_and!; try done. split_and!; try (rewrite ?Hn, ?Emk; done || lia). by apply (homed_step f f' k fn).
Qed.

Lemma filter_ok_Update (f : CuckooFilter) (k fn : Z) :
  filter_ok f -> 0 <= fn < 2 ^ 32 -> h32 f k <> 0 ->
  exists s f', Cuckoo.Update f k fn = Some (s, f') /\ filter_ok f' /\ hasher_ f' = hasher_ f /\
    num_buckets_ (table_ f') = num_buckets_ (table_ f) /\
    (is_Some (filter_map f !! key_class f k) ->
     filter_map f' = <[key_class f k := fn]> (filter_map f)).
Proof.
  intros (Hwf & Hh & Hb & Hmk) Hfn Hz.
  destruct (Update_lookup f k fn Hwf Hfn) as (s & f' & Hu & Hwf' & Hha & Hn & Emk & Hout).
  exists s, f'. split; [done|]. destruct (filter_map f !! key_class f k) as [v|] eqn:E.
  - destruct Hout as [_ Hm]. split_and!; try done.
    split_and!; try done; try (rewrite ?Hn, ?Emk; done || lia). by apply (homed_step f f' k fn).
  - destruct Hout as [_ ->]. by split_and!.
Qed.

(** A rehash that keeps all items keeps what every key is mapped to. *)
Lemma filter_ok_Rehash (f : CuckooFilter) (rs : nat -> Z -> Z) :
  filter_ok f -> max_keys_ f <= 2 ^ 31 ->
  exists f', Rehash f rs = Some (OK, f') /\ filter_ok f' /\ hasher_ f' = hasher_ f /\
    is_rehashing_ f' = false /\
    (num_items_ f' = num_items_ f -> forall k, h32 f k <> 0 ->
       filter_map f' !! key_class f' k = filter_map f !! key_class f k).
Proof.
  intros (Hwf & Hh & Hb & Hmk) Hle.
  destruct (Rehash_outcome f rs Hwf Hh) as (f' & lost & Hr & Hwf' & Hh' & Hha & Hre & Emk & Hn & Hc & Ha);
    [rewrite Hb; by apply buckets_lt|done|].
  exists f'. split; [done|]. split; [|split; [done|split; [done|]]].
  - split_and!; try done; try lia. by rewrite Hn, Emk.
  - intros Heq k Hz. assert (lost = []) as -> by (destruct lost; [done|simpl in Ha; lia]).
    by apply Rehash_lookup.
Qed.

(** ** The invariant *)

Section index.
Context {T : Type} `{KT : KeyTree T} `{!KeyTreeSpec T} (pmalloc : gset Z -> Z).
Hypotheses (pmalloc_fresh : forall s, pmalloc s ∉ s) (pmalloc_nonnull : forall s, pmalloc s <> 0).
Implicit Types m : MultiCuckooIndex T.

(** What the filters say of a key. *)
Definition filter_lookup m (k : Z) : option Z :=
  f ← filters_ m !! cf_no m k; filter_map f !! key_class f k.

(** The filters cannot tell the two keys apart. *)
Definition same_slot m (k k' : Z) : Prop :=
  cf_no m k = cf_no m k' /\
  forall f, filters_ m !! cf_no m k = Some f -> key_class f k = key_class f k'.

(** The key's hash value in its filter is not zero. *)
Definition hashed m (k : Z) : Prop :=
  forall f, filters_ m !! cf_no m k = Some f -> h32 f k <> 0.

(** The index stands for the map [M]; [tm] is the map of the tree. *)
Record index_rep m (M tm : gmap Z Z) : Prop := {
  rep_num : num_cuckoo_filter_ m = Z.of_nat (length (filters_ m));
  rep_num_range : 1 <= num_cuckoo_filter_ m < 2 ^ 32;
  rep_filters : Forall filter_ok (filters_ m);
  rep_keys : forall k, is_Some (M !! k) -> 0 <= k < 2 ^ 64 /\ hashed m k;
  rep_tree : kt_rep (dom (metas m)) (tree_ m) tm;
  rep_tree_keys : forall k v, tm !! k = Some v ->
    is_Some (M !! k) /\ metas m !! v = M !! k /\ is_Some (filter_lookup m k);
  rep_rest : forall k fn, M !! k = Some fn -> tm !! k = None -> filter_lookup m k = Some fn;
  rep_owner : forall k k', is_Some (M !! k) -> is_Some (M !! k') ->
    tm !! k = None -> tm !! k' = None -> same_slot m k k' -> k = k'
}.

Definition index_ok m (M : gmap Z Z) : Prop := exists tm, index_rep m M tm.

Lemma cf_no_lt m (k : Z) :
  num_cuckoo_filter_ m = Z.of_nat (length (filters_ m)) -> 1 <= num_cuckoo_filter_ m < 2 ^ 32 ->
  is_Some (filters_ m !! cf_no m k).
Proof.
  intros Hn Hr. apply lookup_lt_is_Some_2. unfold cf_no.
  destruct (Z.eqb_spec (num_cuckoo_filter_ m) 1); [lia|].
  unfold u64, u32. rewrite (Z.mod_small (_ - 1)) by lia.
  pose proof (Z.mod_pos_bound k (num_cuckoo_filter_ m - 1) ltac:(lia)).
  rewrite Z.mod_small by lia. lia.
Qed.

Lemma rep_filter m (M tm : gmap Z Z) (k : Z) :
  index_rep m M tm -> exists f, filters_ m !! cf_no m k = Some f /\ filter_ok f /\
    filter_lookup m k = filter_map f !! key_class f k.
Proof.
  intros HR. destruct (cf_no_lt m k (rep_num _ _ _ HR) (rep_num_range _ _ _ HR)) as [f Hf].
  exists f. split; [done|]. split; [|unfold filter_lookup; by rewrite Hf].
  by eapply Forall_lookup_1; [apply (rep_filters _ _ _ HR)|].
Qed.

(** The invariant does not depend on the queue and the version edit. *)
Lemma index_rep_ext m m' (M tm : gmap Z Z) :
  num_cuckoo_filter_ m' = num_cuckoo_filter_ m -> filters_ m' = filters_ m ->
  tree_ m' = tree_ m -> metas m' = metas m -> index_rep m M tm -> index_rep m' M tm.
Proof.
  intros En Ef Et Em [? ? ? Hk ? Htk Hr Ho].
  unfold hashed, filter_lookup, same_slot, cf_no in *.
  split; unfold hashed, filter_lookup, same_slot, cf_no; rewrite ?En, ?Ef, ?Et, ?Em; done.
Qed.

(** ** Changes of the tree *)

(** A new entry for a key whose fingerprint is in its filter. *)
Lemma tree_insert_ok m (M tm : gmap Z Z) (k fn : Z) :
  index_rep m M tm -> 0 <= k < 2 ^ 64 -> hashed m k -> is_Some (filter_lookup m k) ->
  exists m1 m2 old, tree_insert pmalloc m k fn = Some (m1, old) /\ pfree m1 old = Some m2 /\
    filters_ m2 = filters_ m /\ num_cuckoo_filter_ m2 = num_cuckoo_filter_ m /\
    index_ok m2 (<[k := fn]> M).
Proof.
  intros HR Hk Hh Hlk. unfold tree_insert.
  set (p := pmalloc _). set (ms := <[p := fn]> (metas m)).
  assert (p ∉ kt_pages (tree_ m) ∪ dom (metas m)) as Hp by apply pmalloc_fresh.
  apply not_elem_of_union in Hp as [Hpp Hpm]. assert (p <> 0) as Hp0 by apply pmalloc_nonnull.
  pose proof (rep_tree _ _ _ HR) as Ht. pose proof (kt_rep_pages _ _ _ Ht) as Hdis.
  assert (forall k' v, tm !! k' = Some v -> v <> p) as Hnp.
  { intros k' v Hv ->. by destruct (kt_rep_values _ _ _ _ _ Ht Hv). }
  assert (kt_rep (dom ms) (tree_ m) tm) as Ht'.
  { eapply kt_rep_live; [done|set_solver|]. intros k' v Hv.
    destruct (kt_rep_values _ _ _ _ _ Ht Hv). set_solver. }
  destruct (kt_rep_insert (dom ms) (tree_ m) tm k p Ht') as (t & old & -> & Hrep & Hold);
    [lia|done|set_solver|intros k' Hk'; by apply (Hnp k' p Hk')|].
  cbn [mbind option_bind]. exists (set_tree m t ms).
  assert (old = 0 \/ tm !! k = Some old /\ old <> 0) as Hold'.
  { destruct Hold as [->| ->]; [|by left]. destruct (tm !! k) as [v|] eqn:E; [right|by left].
    split; [done|]. by destruct (kt_rep_values _ _ _ _ _ Ht E). }
  set (ms2 := if old =? 0 then ms else delete old ms). exists (set_tree m t ms2), old.
  assert (forall k' v, <[k := p]> tm !! k' = Some v -> ms2 !! v = <[k := fn]> M !! k') as Hval.
  { intros k' v Hv. assert (ms2 !! v = ms !! v) as ->.
    { unfold ms2. destruct (Z.eqb_spec old 0); [done|]. destruct Hold' as [|[Htk _]]; [done|].
      rewrite lookup_delete_ne; [done|]. intros <-. destruct (decide (k' = k)) as [->|Hne].
      - rewrite lookup_insert_eq in Hv. injection Hv as <-. by apply (Hnp k p Htk).
      - rewrite lookup_insert_ne in Hv by done. apply Hne. by apply (kt_rep_inj _ _ _ _ _ _ Ht Hv Htk). }
    destruct (decide (k' = k)) as [->|Hne].
    - rewrite lookup_insert_eq in Hv. injection Hv as <-. unfold ms. by rewrite !lookup_insert_eq.
    - rewrite !lookup_insert_ne in * by done. unfold ms. rewrite lookup_insert_ne by (by apply not_eq_sym, (Hnp k')).
      by apply (rep_tree_keys _ _ _ HR). }
  split_and!; try done.
  - unfold pfree, ms2. destruct (Z.eqb_spec old 0); [done|]. destruct Hold' as [|[Htk _]]; [done|].
    simpl. destruct (rep_tree_keys _ _ _ HR _ _ Htk) as ([x Hx] & Hm & _).
    unfold ms. rewrite lookup_insert_ne, Hm, Hx by (by apply not_eq_sym, (Hnp k)). done.
  - exists (<[k := p]> tm). destruct HR as [? ? ? Hkeys _ Htk Hrest Hown]. split; try done.
    + intros k' Hk'. destruct (decide (k' = k)) as [->|Hne]; [done|].
      apply Hkeys. by rewrite lookup_insert_ne in Hk'.
    + simpl. eapply kt_rep_live; [done| |].
      * pose proof (kt_rep_pages _ _ _ Hrep). unfold ms2. destruct (old =? 0); set_solver.
      * intros k' v Hv. apply elem_of_dom. rewrite (Hval _ _ Hv).
        destruct (decide (k' = k)) as [->|Hne]; [rewrite lookup_insert_eq; done|].
        rewrite !lookup_insert_ne in * by done. by apply (Htk _ _ Hv).
    + intros k' v Hv. pose proof (Hval _ _ Hv) as Hv'. destruct (decide (k' = k)) as [->|Hne].
      * split_and!; [by rewrite lookup_insert_eq|done|done].
      * rewrite lookup_insert_ne in Hv by done. destruct (Htk _ _ Hv) as (? & _ & ?).
        split_and!; [by rewrite lookup_insert_ne|done|done].
    + intros k' fn' Hk' Htm. destruct (decide (k' = k)) as [->|Hne].
      * by rewrite lookup_insert_eq in Htm.
      * rewrite !lookup_insert_ne in * by done. by apply Hrest.
    + intros k1 k2 H1 H2 Ht1 Ht2 Hs. destruct (decide (k1 = k)) as [->|Hne1].
      { by rewrite lookup_insert_eq in Ht1. }
      destruct (decide (k2 = k)) as [->|Hne2]; [by rewrite lookup_insert_eq in Ht2|].
      rewrite !lookup_insert_ne in * by done. by apply Hown.
Qed.

(** ** Changes of a filter *)

Lemma hashed_set m (i : nat) (f f' : CuckooFilter) (k : Z) :
  filters_ m !! i = Some f -> hasher_ f' = hasher_ f -> hashed m k -> hashed (set_filter m i f') k.
Proof.
  intros Hf Hha Hk g Hg. change (cf_no (set_filter m i f') k) with (cf_no m k) in Hg.
  simpl in Hg. destruct (decide (cf_no m k = i)) as [Hi|Hi].
  - rewrite Hi, list_lookup_insert_eq in Hg by (by eapply lookup_lt_Some). injection Hg as <-.
    unfold h32. rewrite Hha. apply Hk. by rewrite Hi.
  - rewrite list_lookup_insert_ne in Hg by done. by apply Hk.
Qed.

(** The filter of [k] now has [fn] for the class of [k]. *)
Section set_class.
Context (m : MultiCuckooIndex T) (k fn : Z) (f f' : CuckooFilter).
Hypotheses (Hf : filters_ m !! cf_no m k = Some f) (Hha : hasher_ f' = hasher_ f)
  (Hn : num_buckets_ (table_ f') = num_buckets_ (table_ f))
  (Hm : filter_map f' = <[key_class f k := fn]> (filter_map f)).
Let m' := set_filter m (cf_no m k) f'.

Lemma filters_set (k' : Z) :
  filters_ m' !! cf_no m' k' = (if decide (cf_no m k' = cf_no m k) then Some f' else filters_ m !! cf_no m k').
Proof.
  change (cf_no m' k') with (cf_no m k'). simpl. case_decide as Hi.
  - rewrite Hi, list_lookup_insert_eq; [done|]. by eapply lookup_lt_Some.
  - by rewrite list_lookup_insert_ne by done.
Qed.

Lemma lookup_set_same (k' : Z) : same_slot m k k' -> filter_lookup m' k' = Some fn.
Proof.
  intros [Hc Hs]. unfold filter_lookup. rewrite filters_set, decide_True by done. simpl.
  rewrite (key_class_same f), <- (Hs f Hf), Hm by done. apply lookup_insert_eq.
Qed.

Lemma lookup_set_other (k' : Z) : ~ same_slot m k k' -> filter_lookup m' k' = filter_lookup m k'.
Proof.
  intros Hs. unfold filter_lookup. rewrite filters_set. case_decide as Hi; [|done].
  rewrite Hi, Hf. simpl. rewrite (key_class_same f), Hm by done.
  rewrite lookup_insert_ne; [done|].
  intros Heq. apply Hs. split; [done|]. intros g Hg. rewrite Hf in Hg. by injection Hg as <-.
Qed.

Lemma same_slot_set (k1 k2 : Z) : same_slot m' k1 k2 <-> same_slot m k1 k2.
Proof.
  unfold same_slot. rewrite filters_set.
  change (cf_no m' k1) with (cf_no m k1). change (cf_no m' k2) with (cf_no m k2).
  split; intros [Hc Hs]; (split; [done|]); intros g Hg; case_decide as Hi.
  - rewrite Hi, Hf in Hg. injection Hg as <-. specialize (Hs f' eq_refl).
    by rewrite !(key_class_same f f') in Hs.
  - by apply Hs.
  - injection Hg as <-. rewrite !(key_class_same f f') by done. apply Hs. by rewrite Hi.
  - by apply Hs.
Qed.

Lemma same_slot_dec (k1 k2 : Z) : Decision (same_slot m k1 k2).
Proof.
  unfold same_slot. destruct (decide (cf_no m k1 = cf_no m k2)) as [Hc|Hc]; [|right; tauto].
  destruct (filters_ m !! cf_no m k1) as [g|] eqn:E.
  - destruct (decide (key_class g k1 = key_class g k2)) as [He|He].
    + left. split; [done|]. intros g' Hg. by injection Hg as <-.
    + right. intros [_ H]. by apply He, H.
  - left. by split.
Qed.

(** A key that only its filter knows gets a new file number. *)
Lemma set_filter_ok (M tm : gmap Z Z) :
  index_rep m M tm -> filter_ok f' -> 0 <= k < 2 ^ 64 -> hashed m k -> tm !! k = None ->
  (filter_lookup m k = None \/ is_Some (M !! k)) -> index_rep m' (<[k := fn]> M) tm.
Proof.
  intros HR Hfok Hk Hh Htk Hnew.
  assert (forall k', is_Some (M !! k') -> tm !! k' = None -> same_slot m k k' -> k' = k) as Hown.
  { intros k' Hk' Ht' Hs. destruct Hnew as [Hnone|Hin].
    - destruct Hk' as [x Hx]. pose proof (rep_rest _ _ _ HR _ _ Hx Ht') as Hl.
      destruct Hs as [Hc Hs]. unfold filter_lookup in Hl, Hnone. rewrite <- Hc, Hf in Hl.
      rewrite Hf in Hnone. simpl in *. rewrite <- (Hs f Hf) in Hl. congruence.
    - symmetry. by apply (rep_owner _ _ _ HR). }
  destruct HR as [Hnum Hrange Hfs Hkeys Htree Htreek Hrest Howner]. split; simpl; try done.
  - by rewrite length_insert.
  - by apply Forall_insert.
  - intros k' Hk'. destruct (decide (k' = k)) as [->|Hne].
    + split; [done|]. by eapply hashed_set.
    + rewrite lookup_insert_ne in Hk' by done. apply Hkeys in Hk' as [? ?].
      split; [done|]. by eapply hashed_set.
  - intros k' v Hv. destruct (Htreek _ _ Hv) as (H1 & H2 & H3). rewrite lookup_insert_ne by congruence.
    split_and!; [done..|]. destruct (same_slot_dec k k') as [Hs|Hs].
    + by rewrite lookup_set_same.
    + by rewrite lookup_set_other.
  - intros k' x Hx Ht'. destruct (decide (k' = k)) as [->|Hne].
    + rewrite lookup_insert_eq in Hx. injection Hx as <-. by apply lookup_set_same.
    + rewrite lookup_insert_ne in Hx by done. rewrite lookup_set_other; [by apply Hrest|].
      intros Hs. by apply Hne, Hown.
  - intros k1 k2 H1 H2 Ht1 Ht2 Hs. apply same_slot_set in Hs.
    destruct (decide (k1 = k)) as [->|Hne1].
    + destruct (decide (k2 = k)) as [->|Hne2]; [done|]. rewrite lookup_insert_ne in H2 by done.
      symmetry. by apply Hown.
    + rewrite lookup_insert_ne in H1 by done. destruct (decide (k2 = k)) as [->|Hne2].
      * apply Hown; [done..|]. destruct Hs as [Hc Hs]. split; [done|]. intros g Hg.
        symmetry. apply Hs. by rewrite Hc.
      * rewrite lookup_insert_ne in H2 by done. by apply Howner.
Qed.
End set_class.

(** Keys with the same class after a rehash had the same class before. *)
Lemma key_class_rehash (f f' : CuckooFilter) (k k' : Z) :
  hasher_ f' = hasher_ f -> h32 f k <> 0 -> h32 f k' <> 0 ->
  key_class f' k = key_class f' k' -> key_class f k = key_class f k'.
Proof.
  intros Hha H1 H2 Hc. unfold key_class in Hc. injection Hc as _ Hfp.
  assert (forall x, h32 f' x = h32 f x) as Eh by (intros x; unfold h32; by rewrite Hha).
  rewrite !Eh, !fingerprint_nonzero in Hfp by (pose proof (h32_range f k); pose proof (h32_range f k'); lia).
  unfold key_class. by rewrite Hfp.
Qed.

(** The rehash thread leaves the map as it is. *)
Lemma rehash_ok m (M : gmap Z Z) (i : nat) (f f' : CuckooFilter) :
  index_ok m M -> filters_ m !! i = Some f -> filter_ok f' -> hasher_ f' = hasher_ f ->
  (forall k, h32 f k <> 0 -> filter_map f' !! key_class f' k = filter_map f !! key_class f k) ->
  index_ok (set_filter m i f') M.
Proof.
  intros [tm HR] Hf Hfok Hha Hsame. exists tm.
  assert (forall k, filters_ (set_filter m i f') !! cf_no (set_filter m i f') k
          = if decide (cf_no m k = i) then Some f' else filters_ m !! cf_no m k) as Hfs'.
  { intros k. change (cf_no (set_filter m i f') k) with (cf_no m k). simpl. case_decide as Hi.
    - rewrite Hi, list_lookup_insert_eq; [done|]. by eapply lookup_lt_Some.
    - by rewrite list_lookup_insert_ne by done. }
  assert (forall k, hashed m k -> filter_lookup (set_filter m i f') k = filter_lookup m k) as Hlk.
  { intros k Hh. unfold filter_lookup. rewrite Hfs'. case_decide as Hi; [|done].
    rewrite Hi, Hf. simpl. apply Hsame, Hh. by rewrite Hi. }
  destruct HR as [Hnum Hrange Hfs Hkeys Htree Htreek Hrest Howner]. split; simpl; try done.
  - by rewrite length_insert.
  - by apply Forall_insert.
  - intros k Hk. apply Hkeys in Hk as [? ?]. split; [done|]. by eapply hashed_set.
  - intros k v Hv. destruct (Htreek _ _ Hv) as (H1 & H2 & H3). rewrite Hlk; [done|]. by apply Hkeys.
  - intros k x Hx Ht'. rewrite Hlk; [by apply Hrest|]. by apply Hkeys.
  - intros k1 k2 H1 H2 Ht1 Ht2 [Hc Hs]. apply Howner; try done. split; [done|].
    intros g Hg. rewrite Hfs' in Hs. case_decide as Hi; [|by apply Hs].
    rewrite Hi, Hf in Hg. injection Hg as <-.
    apply (key_class_rehash f f'); [done|apply Hkeys; [done|by rewrite Hi]| |by apply Hs].
    apply Hkeys; [done|]. change (cf_no m k1 = cf_no m k2) in Hc. by rewrite <- Hc, Hi.
Qed.

(** ** The operations *)

Lemma index_empty_ok m :
  num_cuckoo_filter_ m = Z.of_nat (length (filters_ m)) -> 1 <= num_cuckoo_filter_ m < 2 ^ 32 ->
  Forall filter_ok (filters_ m) -> tree_ m = kt_new ∅ -> metas m = ∅ -> index_ok m ∅.
Proof.
  intros Hn Hr Hf Ht Hm. exists ∅. split; try done.
  - intros k [x Hx]. by rewrite lookup_empty in Hx.
  - rewrite Ht, Hm, dom_empty_L. apply kt_rep_new.
  - intros k k' [x Hx]. by rewrite lookup_empty in Hx.
Qed.

Lemma index_new_ok (hs : list TwoIndependentMultiplyShift) :
  1 <= Z.of_nat (length hs) < 2 ^ 32 -> index_ok (MultiCuckooIndex_new hs) ∅.
Proof.
  intros Hl. apply index_empty_ok; simpl; try done.
  - by rewrite length_imap.
  - apply Forall_lookup. intros i f Hf. rewrite list_lookup_imap in Hf.
    destruct (hs !! i); [|done]. injection Hf as <-. by apply filter_new_ok.
Qed.

(** The filter of the key is being rehashed: [Insert] gives up. *)
Definition refused m (k : Z) : bool :=
  match filters_ m !! cf_no m k with Some f => IsRehashing f | None => false end.

(** [Insert] evicts nothing from the key's filter. *)
Definition kept m (k fn : Z) (rs : Z -> Z) : bool :=
  match filters_ m !! cf_no m k with
  | Some f => match Add f k fn rs with Some (s, _) => ok s | None => true end
  | None => true
  end.

Lemma filter_ok_SetRehash (f : CuckooFilter) (b : bool) : filter_ok f -> filter_ok (SetRehash f b).
Proof. done. Qed.

Lemma index_Get_ok m (M : gmap Z Z) (k fn : Z) (key : bytes) :
  index_ok m M -> M !! k = Some fn -> fast_atoi key = k -> Get m key = Some fn.
Proof.
  intros [tm HR] HM Hkey. destruct (rep_keys _ _ _ HR k) as [Hk _]; [by rewrite HM|].
  unfold Get. rewrite Hkey. rewrite (kt_rep_search _ _ _ k (rep_tree _ _ _ HR)) by lia.
  cbn [mbind option_bind]. destruct (tm !! k) as [v|] eqn:E; simpl.
  - destruct (kt_rep_values _ _ _ _ _ (rep_tree _ _ _ HR) E) as [_ Hv].
    destruct (Z.eqb_spec v 0); [done|]. simpl. destruct (rep_tree_keys _ _ _ HR _ _ E) as (_ & -> & _). done.
  - destruct (rep_filter m M tm k HR) as (f & Hf & (Hwf & _) & Hl). rewrite Hf. simpl.
    rewrite Contain_res_lookup by done. simpl. rewrite <- Hl, (rep_rest _ _ _ HR k fn HM E). done.
Qed.

Lemma index_Insert_ok m (M : gmap Z Z) (k fn : Z) (rs : Z -> Z) :
  index_ok m M -> 0 <= k < 2 ^ 64 -> 0 <= fn < 2 ^ 32 -> hashed m k -> kept m k fn rs = true ->
  exists s m', Insert pmalloc m k fn rs = Some (s, m') /\
    (if refused m k then ok s = false /\ index_ok m' M else index_ok m' (<[k := fn]> M)).
Proof.
  intros [tm HR0] Hk Hfn Hh Hkept. unfold Insert. set (m0 := set_edit m _).
  assert (index_rep m0 M tm) as HR by (by eapply index_rep_ext; [..|exact HR0]).
  change (kept m k fn rs) with (kept m0 k fn rs) in Hkept.
  change (refused m k) with (refused m0 k). change (hashed m k) with (hashed m0 k) in Hh.
  clearbody m0. destruct (rep_filter m0 M tm k HR) as (f & Hf & Hfok & Hl).
  unfold refused, kept in *. rewrite Hf in *. cbn [mbind option_bind].
  destruct (IsRehashing f) eqn:Hre; [by eexists _, _; split; [done|split; [done|exists tm]]|].
  rewrite Contain_lookup by apply Hfok. cbn [mbind option_bind].
  case_bool_decide as Hin.
  - destruct (tree_insert_ok m0 M tm k fn HR Hk Hh) as (m1 & m2 & old & -> & Hfree & _ & _ & Hok);
      [by rewrite Hl|]. cbn [mbind option_bind].
    exists OK, m2. split; [|done]. unfold pfree in *. by destruct (old =? 0); [injection Hfree as <-|rewrite Hfree].
  - destruct (Add f k fn rs) as [[s f']|] eqn:Hadd.
    2:{ destruct (Add_lookup f k fn rs) as (? & ? & Ha & _); [apply Hfok|done| |congruence].
        by apply eq_None_not_Some. }
    destruct (filter_ok_Add f f' k fn s rs) as (Hfok' & Hha & Hre' & Hnb & Hm); try done.
    { by apply eq_None_not_Some. } { by apply Hh. }
    cbn [mbind option_bind].
    assert (forall g, filter_ok g -> hasher_ g = hasher_ f' -> table_ g = table_ f' ->
              index_ok (set_filter m0 (cf_no m0 k) g) (<[k := fn]> M)) as Hset.
    { intros g Hg Hgh Hgt. exists tm. apply (set_filter_ok m0 k fn f g); try done.
      - congruence.
      - by rewrite Hgt.
      - unfold filter_map in *. by rewrite Hgt.
      - destruct (tm !! k) as [v|] eqn:E; [|done]. destruct (rep_tree_keys _ _ _ HR _ _ E) as (_ & _ & Hs).
        by rewrite Hl in Hs.
      - left. rewrite Hl. by apply eq_None_not_Some. }
    destruct (_ && _); eexists _, _; (split; [done|]); by apply Hset.
Qed.

Lemma index_Update_ok m (M : gmap Z Z) (k fn : Z) :
  index_ok m M -> is_Some (M !! k) -> 0 <= fn < 2 ^ 32 ->
  exists s m', Update pmalloc m k fn = Some (s, m') /\
    index_ok m' (if ok s then <[k := fn]> M else M).
Proof.
  intros [tm HR] HM Hfn. destruct (rep_keys _ _ _ HR k HM) as [Hk Hh]. unfold Update.
  rewrite (kt_rep_search _ _ _ k (rep_tree _ _ _ HR)) by lia. cbn [mbind option_bind].
  destruct (tm !! k) as [v|] eqn:E; simpl.
  - destruct (kt_rep_values _ _ _ _ _ (rep_tree _ _ _ HR) E) as [_ Hv].
    destruct (Z.eqb_spec v 0); [done|]. simpl. destruct (rep_tree_keys _ _ _ HR _ _ E) as (_ & _ & Hs).
    destruct (tree_insert_ok m M tm k fn HR Hk Hh Hs) as (m1 & m2 & old & -> & Hfree & _ & _ & Hok).
    cbn [mbind option_bind]. rewrite Hfree. by exists OK, m2.
  - destruct (rep_filter m M tm k HR) as (f & Hf & Hfok & Hl). rewrite Hf. cbn [mbind option_bind].
    rewrite Contain_lookup by apply Hfok. cbn [mbind option_bind].
    destruct (IsRehashing f); [by eexists _, _; split; [done|exists tm]|].
    destruct (filter_ok_Update f k fn Hfok Hfn) as (s & f' & -> & Hfok' & Hha & Hnb & Hm); [by apply Hh|].
    cbn [mbind option_bind]. eexists _, _. split; [done|]. exists tm.
    apply (set_filter_ok m k fn f f'); try done; [|by right].
    apply Hm. destruct HM as [x Hx]. rewrite <- Hl, (rep_rest _ _ _ HR k x Hx E). done.
Qed.

Lemma Rehash_step_ok m (M : gmap Z Z) (i : nat) (rs : nat -> Z -> Z) (f : CuckooFilter) :
  index_ok m M -> filters_ m !! i = Some f -> max_keys_ f <= 2 ^ 31 ->
  exists f', Rehash_step m i rs = Some (set_filter m i f') /\ is_rehashing_ f' = false /\
    (num_items_ f' = num_items_ f -> index_ok (set_filter m i f') M).
Proof.
  intros Hok Hf Hle. destruct Hok as [tm HR].
  assert (filter_ok f) as Hfok by (eapply Forall_lookup_1; [apply (rep_filters _ _ _ HR)|done]).
  destruct (filter_ok_Rehash f rs Hfok Hle) as (f' & Hr & Hfok' & Hha & Hre & Hsame).
  exists f'. unfold Rehash_step. rewrite Hf. cbn [mbind option_bind]. rewrite Hr.
  split; [done|]. split; [done|]. intros Heq.
  eapply rehash_ok; [by exists tm|done..|]. by apply Hsame.
Qed.

(** ** Runs of the index *)

(** The states the index can be in, with the map of the keys inserted so far:
    insertions and updates by the background thread or a caller, interleaved
    with the rehash threads.  A step that evicts a slot, or gives a key the
    hash value zero, is not part of a run. *)
Inductive reachable (hs : list TwoIndependentMultiplyShift) : MultiCuckooIndex T -> gmap Z Z -> Prop :=
  | reach_new : reachable hs (MultiCuckooIndex_new hs) ∅
  | reach_insert m M k fn rs s m' :
      reachable hs m M -> 0 <= k < 2 ^ 64 -> 0 <= fn < 2 ^ 32 ->
      hashed m k -> kept m k fn rs = true -> Insert pmalloc m k fn rs = Some (s, m') ->
      reachable hs m' (if refused m k then M else <[k := fn]> M)
  | reach_update m M k fn s m' :
      reachable hs m M -> is_Some (M !! k) -> 0 <= fn < 2 ^ 32 ->
      Update pmalloc m k fn = Some (s, m') -> reachable hs m' (if ok s then <[k := fn]> M else M)
  | reach_rehash m M i f f' rs :
      reachable hs m M -> filters_ m !! i = Some f -> IsRehashing f = true ->
      max_keys_ f <= 2 ^ 31 -> Rehash_step m i rs = Some (set_filter m i f') ->
      num_items_ f' = num_items_ f ->
      reachable hs (set_filter m i f') M
  | reach_queue m M q edit upd :
      reachable hs m M -> reachable hs (AddQueue m q edit upd).1 M.

Lemma reachable_ok (hs : list TwoIndependentMultiplyShift) m (M : gmap Z Z) :
  1 <= Z.of_nat (length hs) < 2 ^ 32 -> reachable hs m M -> index_ok m M.
Proof.
  intros Hhs. induction 1 as [|m M k fn rs s m' _ IH Hk Hfn Hh Hkept Hi
                              |m M k fn s m' _ IH Hk Hfn Hu
                              |m M i f f' rs _ IH Hf Hre Hle Hr Heq|m M q edit upd _ [tm IH]].
  - by apply index_new_ok.
  - destruct (index_Insert_ok m M k fn rs IH Hk Hfn Hh Hkept) as (s1 & m1 & Hi1 & Hout).
    rewrite Hi in Hi1. injection Hi1 as <- <-. destruct (refused m k); [by destruct Hout|done].
  - destruct (index_Update_ok m M k fn IH Hk Hfn) as (s1 & m1 & Hu1 & Hout).
    rewrite Hu in Hu1. by injection Hu1 as <- <-.
  - destruct (Rehash_step_ok m M i rs f IH Hf Hle) as (f1 & Hr1 & _ & Hout).
    rewrite Hr in Hr1. injection Hr1 as Hfs.
    assert (f1 = f') as ->.
    { assert (<[i := f']> (filters_ m) !! i = <[i := f1]> (filters_ m) !! i) as Hl by (by rewrite Hfs).
      rewrite !list_lookup_insert_eq in Hl by (by eapply lookup_lt_Some). by injection Hl. }
    by apply Hout.
  - exists tm. by eapply index_rep_ext; [..|exact IH].
Qed.

(** ** The background thread *)

Lemma tree_insert_queue m m' (k fn old : Z) :
  tree_insert pmalloc m k fn = Some (m', old) -> queue_ m' = queue_ m.
Proof.
  unfold tree_insert. destruct (kt_insert _ _ _ _) as [[t o]|]; [|done]. by intros [= <- _].
Qed.

Lemma pfree_queue m m' (p : Z) : pfree m p = Some m' -> queue_ m' = queue_ m.
Proof.
  unfold pfree. destruct (p =? 0); [by intros [= <-]|].
  destruct (metas m !! p); [|done]. by intros [= <-].
Qed.

Lemma Insert_queue m m' (k fn : Z) (rs : Z -> Z) (s : Status) :
  Insert pmalloc m k fn rs = Some (s, m') -> queue_ m' = queue_ m.
Proof.
  unfold Insert. set (m0 := set_edit m _). change (queue_ m) with (queue_ m0). clearbody m0.
  intros (f & _ & Hr)%bind_Some. destruct (IsRehashing f); [by injection Hr as _ <-|].
  apply bind_Some in Hr as (found & _ & Hr). destruct found.
  - apply bind_Some in Hr as ([m1 old] & Ht & Hr). apply tree_insert_queue in Ht as <-.
    apply bind_Some in Hr as (m2 & Hf & Hr). injection Hr as _ <-.
    destruct (old =? 0); [by injection Hf as <-|by apply pfree_queue in Hf].
  - apply bind_Some in Hr as ([s' f'] & _ & Hr). by destruct (_ && _); injection Hr as _ <-.
Qed.

Lemma Update_queue m m' (k fn : Z) (s : Status) :
  Update pmalloc m k fn = Some (s, m') -> queue_ m' = queue_ m.
Proof.
  unfold Update. intros (res & _ & Hr)%bind_Some. destruct (negb (res =? 0)).
  - apply bind_Some in Hr as ([m1 old] & Ht & Hr). apply tree_insert_queue in Ht as <-.
    apply bind_Some in Hr as (m2 & Hf & Hr). injection Hr as _ <-. by apply pfree_queue in Hf.
  - apply bind_Some in Hr as (f & _ & Hr). apply bind_Some in Hr as (found & _ & Hr).
    destruct (IsRehashing f); [by injection Hr as _ <-|].
    apply bind_Some in Hr as ([s' f'] & _ & Hr). by injection Hr as _ <-.
Qed.

(** An item leaves the queue only when the index has it. *)
Lemma Runner_step_ok m (M : gmap Z Z) (k fn : Z) (q : list (Z * Z)) (rs : Z -> Z) :
  index_ok m M -> queue_ m = (k, fn) :: q -> 0 <= k < 2 ^ 64 -> 0 <= fn < 2 ^ 32 ->
  (if for_update_ m then is_Some (M !! k) else hashed m k /\ kept m k fn rs = true) ->
  exists m', Runner_step pmalloc m rs = Some m' /\
    ((queue_ m' = q /\ index_ok m' (<[k := fn]> M)) \/
     (queue_ m' = q ++ [(k, fn)] /\ (index_ok m' M \/ index_ok m' (<[k := fn]> M)))).
Proof.
  intros Hok Hq Hk Hfn Hpre.
  assert (exists s m1, (if for_update_ m then Update pmalloc m k fn else Insert pmalloc m k fn rs)
            = Some (s, m1) /\ queue_ m1 = queue_ m /\
          (if ok s then index_ok m1 (<[k := fn]> M)
           else index_ok m1 M \/ index_ok m1 (<[k := fn]> M))) as (s & m1 & Hrun & Hq1 & Hout).
  { destruct (for_update_ m).
    - destruct (index_Update_ok m M k fn Hok Hpre Hfn) as (s & m1 & Hu & Hm1). exists s, m1.
      split; [done|]. split; [by eapply Update_queue|]. destruct (ok s); [done|by left].
    - destruct Hpre as [Hh Hkept].
      destruct (index_Insert_ok m M k fn rs Hok Hk Hfn Hh Hkept) as (s & m1 & Hi & Hm1). exists s, m1.
      split; [done|]. split; [by eapply Insert_queue|].
      destruct (refused m k); [destruct Hm1 as [-> ?]; by left|]. destruct (ok s); [done|by right]. }
  unfold Runner_step. rewrite Hq, Hrun. cbn [mbind option_bind]. eexists. split; [done|].
  assert (forall q' M', index_ok m1 M' -> index_ok (set_queue m1 q') M') as Hext.
  { intros q' M' [tm HR]. exists tm. by eapply index_rep_ext; [..|exact HR]. }
  rewrite Hq1, Hq. destruct (ok s); simpl; [left|right].
  - split; [done|by apply Hext].
  - split; [done|]. destruct Hout; [left|right]; by apply Hext.
Qed.
End index.

(** ** Properties of the index over the FAST-FAIR tree *)

Section properties.
Context (pmalloc : gset Z -> Z).
Hypotheses (pmalloc_fresh : forall s, pmalloc s ∉ s) (pmalloc_nonnull : forall s, pmalloc s <> 0).
#[local] Instance ff_tree : KeyTree FFBtree.FFBtree := FFBtree_KeyTree pmalloc.
#[local] Instance ff_tree_spec : KeyTreeSpec FFBtree.FFBtree :=
  FFBtree_KeyTreeSpec pmalloc pmalloc_fresh pmalloc_nonnull.
Implicit Types m : MultiCuckooIndex FFBtree.FFBtree.

(** C1. The index never loses or confuses an inserted key: in every state that
    insertions, updates and rehash threads can reach from a new index, in any
    order, [Get] of the decimal form of an inserted key returns the file
    number that was stored for it last.  (Runs in which a filter evicts a slot
    or hashes a key to zero are excluded.) *)
Theorem reachable_Get (hs : list TwoIndependentMultiplyShift) m (M : gmap Z Z) (k fn : Z) :
  1 <= Z.of_nat (length hs) < 2 ^ 32 -> reachable pmalloc hs m M -> M !! k = Some fn ->
  Get m (to_string k) = Some fn.
Proof.
  intros Hhs Hr HM. pose proof (reachable_ok pmalloc pmalloc_fresh pmalloc_nonnull hs m M Hhs Hr) as Hok.
  apply (index_Get_ok m M k fn); [done..|]. destruct Hok as [tm HR].
  apply fast_atoi_to_string. apply (rep_keys _ _ _ HR). by rewrite HM.
Qed.


(** C13. [Update] of an inserted key always returns; when it reports success
    the key has the new file number, otherwise the old one, and every other
    inserted key keeps its own, also those that share its fingerprint. *)
Theorem Update_Get m (M : gmap Z Z) (k fn : Z) :
  index_ok m M -> is_Some (M !! k) -> 0 <= fn < 2 ^ 32 ->
  exists s m', Update pmalloc m k fn = Some (s, m') /\
    forall k' fn', (if ok s then <[k := fn]> M else M) !! k' = Some fn' ->
      Get m' (to_string k') = Some fn'.
Proof.
  intros Hok HM Hfn.
  destruct (index_Update_ok pmalloc pmalloc_fresh pmalloc_nonnull m M k fn Hok HM Hfn) as (s & m' & Hu & Hok').
  exists s, m'. split; [done|]. intros k' fn' HM'. apply (index_Get_ok m' _ k' fn' _ Hok' HM').
  destruct Hok' as [tm HR]. apply fast_atoi_to_string. apply (rep_keys _ _ _ HR). by rewrite HM'.
Qed.

End properties.

(** ** Witnesses *)

(** The hash that maps a key to itself, and indexes with one filter. *)
Definition id_hash : TwoIndependentMultiplyShift := MkHasher (2 ^ 96) 0.
Definition id_index : MultiCuckooIndex FFBtree.FFBtree :=
  @MultiCuckooIndex_new _ (FFBtree_KeyTree bump_alloc) [id_hash].

Lemma id_index_hashed : hashed id_index 5.
Proof. intros f Hf. by injection Hf as <-. Qed.

Lemma id_index_ok :
  @index_ok _ _ (FFBtree_KeyTreeSpec bump_alloc bump_alloc_fresh bump_alloc_nonnull) id_index ∅.
Proof. apply index_new_ok. simpl. lia. Qed.

Lemma id_index_kept : kept id_index 5 7 (fun _ => 0) = true.
Proof. vm_compute. reflexivity. Qed.

Lemma reachable_Get_witness :
  exists m, @reachable _ (FFBtree_KeyTree bump_alloc) bump_alloc [id_hash] m (<[5 := 7]> ∅) /\
    @Get _ (FFBtree_KeyTree bump_alloc) m (to_string 5) = Some 7.
Proof.
  destruct (index_Insert_ok bump_alloc bump_alloc_fresh bump_alloc_nonnull id_index ∅ 5 7 (fun _ => 0)
    id_index_ok ltac:(lia) ltac:(lia) id_index_hashed id_index_kept) as (s & m' & Hi & _).
  exists m'. assert (@reachable _ (FFBtree_KeyTree bump_alloc) bump_alloc [id_hash] m' (<[5 := 7]> ∅)) as Hr.
  { exact (reach_insert bump_alloc [id_hash] id_index ∅ 5 7 (fun _ => 0) s m'
      (reach_new bump_alloc [id_hash]) ltac:(lia) ltac:(lia) id_index_hashed id_index_kept Hi). }
  split; [exact Hr|].
  apply (reachable_Get bump_alloc bump_alloc_fresh bump_alloc_nonnull [id_hash] m' (<[5 := 7]> ∅) 5 7);
    [simpl; lia|exact Hr|by vm_compute].
Defined.


(** An index that holds key 5. *)
Lemma one_key_index :
  exists m, @index_ok _ _ (FFBtree_KeyTreeSpec bump_alloc bump_alloc_fresh bump_alloc_nonnull) m (<[5 := 7]> ∅).
Proof.
  destruct (index_Insert_ok bump_alloc bump_alloc_fresh bump_alloc_nonnull id_index ∅ 5 7 (fun _ => 0)
    id_index_ok ltac:(lia) ltac:(lia) id_index_hashed id_index_kept) as (s & m' & _ & Hok).
  exists m'. by change (refused id_index 5) with false in Hok.
Qed.

Lemma Update_Get_witness :
  exists m s m', @Update _ (FFBtree_KeyTree bump_alloc) bump_alloc m 5 8 = Some (s, m') /\
    forall k' fn', (if ok s then <[5 := 8]> (<[5 := 7]> ∅) else <[5 := 7]> ∅ : gmap Z Z) !! k' = Some fn' ->
      @Get _ (FFBtree_KeyTree bump_alloc) m' (to_string k') = Some fn'.
Proof.
  destruct one_key_index as [m Hm]. exists m.
  apply (Update_Get bump_alloc bump_alloc_fresh bump_alloc_nonnull m (<[5 := 7]> ∅) 5 8);
    [exact Hm|by eexists; vm_compute|lia].
Defined.


(** An index with one filter of eight buckets. *)
Definition small_index : MultiCuckooIndex FFBtree.FFBtree :=
  {| num_cuckoo_filter_ := 1; filters_ := [CuckooFilter_new 28 0 id_hash];
     tree_ := FFBtree.FFBtree_new bump_alloc ∅; metas := ∅; bgstarted_ := false; queue_ := [];
     for_update_ := false; edit_ := None |}.

(** Insert a list of keys; the statuses are collected. *)
Fixpoint insert_all (m : MultiCuckooIndex FFBtree.FFBtree) (l : list (Z * Z))
    : option (list bool * MultiCuckooIndex FFBtree.FFBtree) :=
  match l with
  | [] => Some ([], m)
  | (k, fn) :: l' =>
      '(s, m) ← @Insert _ (FFBtree_KeyTree bump_alloc) bump_alloc m k fn (fun _ => 0);
      '(ss, m) ← insert_all m l';
      Some (ok s :: ss, m)
  end.

